(** * A shallow embedding of the reactivity core and of the virtual-DOM patch
      algorithm of vue-2.6, with the properties claimed of them.

    Sources embedded here:
    - [src/vue-2.6/src/core/observer/watcher.js] (classes [Watcher] and [Dep],
      [pushTarget], [popTarget]);
    - [src/unnamed/part_002] ([Observer], [observe], [defineReactive],
      the array-method interceptor [mutator]);
    - [src/vue-2.6/src/core/vdom/vnode.js] ([VNode], [cloneVNode], [sameVnode],
      [updateChildren], [patchVnode] and the functions they call).

    JavaScript objects have identity and are mutated in place, so they live in
    stores indexed by natural numbers; every function threads the store. *)

From Stdlib Require Import ZArith String.
From stdpp Require Import base option list gmap sets strings sorting pretty.

Local Open Scope nat_scope.

(** ** JavaScript values *)

(** A number is [NaN] or a finite number; the only property of floating point
    arithmetic the embedded code relies on is that [NaN] differs from itself,
    so finite numbers are taken to be integers. *)
Inductive number :=
  | NaN
  | Num (z : Z).

Inductive value :=
  | VUndef
  | VNull
  | VBool (b : bool)
  | VNum (n : number)
  | VStr (s : string)
  | VObj (a : nat).          (* a reference to an object or array of the heap *)

(** [x === y] *)
Definition strict_eq (x y : value) : bool :=
  match x, y with
  | VUndef, VUndef => true
  | VNull, VNull => true
  | VBool a, VBool b => Bool.eqb a b
  | VNum (Num a), VNum (Num b) => Z.eqb a b
  | VStr a, VStr b => String.eqb a b
  | VObj a, VObj b => Nat.eqb a b
  | _, _ => false
  end.

(** The test of [reactiveSetter]:
    [newVal === value || (newVal !== newVal && value !== value)] *)
Definition unchanged (newVal v : value) : bool :=
  strict_eq newVal v || (negb (strict_eq newVal newVal) && negb (strict_eq v v)).

(** [isObject(v)]: [v !== null && typeof v === 'object'] *)
Definition isObject (v : value) : bool :=
  match v with VObj _ => true | _ => false end.

(** [remove(arr, item)] of shared/util: delete the first occurrence, found with
    [indexOf]. *)
Fixpoint remove (item : nat) (arr : list nat) : list nat :=
  match arr with
  | [] => []
  | x :: rest => if decide (x = item) then rest else x :: remove item rest
  end.

(** ** The state of the reactivity system *)

Record Watcher := mkWatcher {
  w_vm : nat;
  w_deep : bool;
  w_user : bool;
  w_lazy : bool;
  w_sync : bool;
  w_dirty : bool;
  w_active : bool;
  w_deps : list nat;          (* deps: Array<Dep>, a Dep is named by its id *)
  w_newDeps : list nat;
  w_depIds : gset nat;
  w_newDepIds : gset nat;
  w_value : value
}.

Record VM := mkVM {
  vm_watchers : list nat;         (* vm._watchers *)
  vm_isBeingDestroyed : bool      (* vm._isBeingDestroyed *)
}.

(** What is observable of a run, in the order it happened. *)
Inductive Event :=
  | EvNotify (dep : nat)                     (* dep.notify() entered *)
  | EvUpdate (w : nat)                       (* watcher.update() called *)
  | EvCallback (w : nat) (v old : value)     (* watcher.cb called *)
  | EvHandleError (w : nat)                  (* handleError for a user watcher *)
  | EvCustomSetter (c : nat).                (* customSetter() of a closure called *)

(** The observer attached to an object: [ob.value] is the object itself. *)
Record Observer := mkObserver {
  ob_dep : nat;
  ob_vmCount : nat
}.

(** A property as [Object.getOwnPropertyDescriptor] shows it. A pre-defined
    accessor pair and the closure installed by [defineReactive] have state of
    their own, so the slot holds a reference to it. *)
Inductive Property :=
  | PData (v : value) (configurable : bool)
  | PAccessor (acc : nat) (configurable : bool)
  | PReactive (closure : nat).

Inductive Kind := KArray | KPlain | KOther.

Record Object := mkObject {
  o_kind : Kind;
  o_extensible : bool;            (* Object.isExtensible *)
  o_isVue : bool;                 (* value._isVue *)
  o_isVNode : bool;               (* value instanceof VNode *)
  o_ob : option Observer;         (* value.__ob__ *)
  o_props : list (string * Property);   (* own enumerable properties *)
  o_elems : list value            (* the elements, of an array *)
}.

(** A pre-defined getter/setter pair of user code. Its effects are confined to
    a cell of its own: the getter reads it, the setter replaces it. *)
Record Accessor := mkAccessor {
  acc_get : option (value → value);
  acc_set : option (value → value → value);
  acc_cell : value
}.

(** The variables a [reactiveGetter]/[reactiveSetter] pair closes over. *)
Record Closure := mkClosure {
  c_dep : nat;
  c_val : value;
  c_childOb : option nat;         (* the observed object, whose __ob__ it is *)
  c_orig : option Property;       (* [property], the descriptor found *)
  c_customSetter : bool;          (* was a customSetter passed? *)
  c_shallow : bool
}.

Record Config := mkConfig {
  production : bool;              (* process.env.NODE_ENV === 'production' *)
  async : bool;                   (* config.async *)
  serverRendering : bool          (* isServerRendering() *)
}.

Record State := mkState {
  deps : gmap nat (list nat);          (* Dep id ↦ dep.subs *)
  watchers : gmap nat Watcher;         (* Watcher id ↦ its fields *)
  vms : gmap nat VM;                   (* component instances *)
  target : option nat;                 (* Dep.target *)
  targetStack : list (option nat);     (* targetStack *)
  queue : list nat;                    (* the scheduler's pending queue *)
  dep_uid : nat;                       (* uid of dep.js *)
  watcher_uid : nat;                   (* uid of watcher.js *)
  heap : gmap nat Object;              (* objects and arrays, by address *)
  closures : gmap nat Closure;         (* reactive getter/setter closures *)
  closure_uid : nat;                   (* the next closure *)
  accessors : gmap nat Accessor;       (* pre-defined accessor pairs *)
  shouldObserve : bool;                (* shouldObserve *)
  config : Config;                     (* build and configuration flags *)
  trace : list Event                   (* the events so far *)
}.

Definition set_deps (f : gmap nat (list nat) → gmap nat (list nat)) (s : State) : State :=
  mkState (f (deps s)) (watchers s) (vms s) (target s) (targetStack s)
    (queue s) (dep_uid s) (watcher_uid s) (heap s) (closures s)
    (closure_uid s) (accessors s) (shouldObserve s) (config s) (trace s).

Definition set_watchers (f : gmap nat Watcher → gmap nat Watcher) (s : State) : State :=
  mkState (deps s) (f (watchers s)) (vms s) (target s) (targetStack s)
    (queue s) (dep_uid s) (watcher_uid s) (heap s) (closures s)
    (closure_uid s) (accessors s) (shouldObserve s) (config s) (trace s).

Definition set_vms (f : gmap nat VM → gmap nat VM) (s : State) : State :=
  mkState (deps s) (watchers s) (f (vms s)) (target s) (targetStack s)
    (queue s) (dep_uid s) (watcher_uid s) (heap s) (closures s)
    (closure_uid s) (accessors s) (shouldObserve s) (config s) (trace s).

Definition set_heap (f : gmap nat Object → gmap nat Object) (s : State) : State :=
  mkState (deps s) (watchers s) (vms s) (target s) (targetStack s) (queue s)
    (dep_uid s) (watcher_uid s) (f (heap s)) (closures s) (closure_uid s)
    (accessors s) (shouldObserve s) (config s) (trace s).

Definition set_closures (f : gmap nat Closure → gmap nat Closure) (s : State) : State :=
  mkState (deps s) (watchers s) (vms s) (target s) (targetStack s) (queue s)
    (dep_uid s) (watcher_uid s) (heap s) (f (closures s)) (closure_uid s)
    (accessors s) (shouldObserve s) (config s) (trace s).

Definition set_accessors (f : gmap nat Accessor → gmap nat Accessor) (s : State) : State :=
  mkState (deps s) (watchers s) (vms s) (target s) (targetStack s) (queue s)
    (dep_uid s) (watcher_uid s) (heap s) (closures s) (closure_uid s)
    (f (accessors s)) (shouldObserve s) (config s) (trace s).

Definition set_target (t : option nat) (st : list (option nat)) (s : State) : State :=
  mkState (deps s) (watchers s) (vms s) t st (queue s) (dep_uid s) (watcher_uid s)
    (heap s) (closures s) (closure_uid s) (accessors s) (shouldObserve s) (config s)
    (trace s).

Definition set_queue (q : list nat) (s : State) : State :=
  mkState (deps s) (watchers s) (vms s) (target s) (targetStack s) q
    (dep_uid s) (watcher_uid s) (heap s) (closures s) (closure_uid s)
    (accessors s) (shouldObserve s) (config s) (trace s).

Definition set_dep_uid (n : nat) (s : State) : State :=
  mkState (deps s) (watchers s) (vms s) (target s) (targetStack s) (queue s) n
    (watcher_uid s) (heap s) (closures s) (closure_uid s) (accessors s)
    (shouldObserve s) (config s) (trace s).

Definition set_watcher_uid (n : nat) (s : State) : State :=
  mkState (deps s) (watchers s) (vms s) (target s) (targetStack s) (queue s)
    (dep_uid s) n (heap s) (closures s) (closure_uid s) (accessors s)
    (shouldObserve s) (config s) (trace s).

Definition set_closure_uid (n : nat) (s : State) : State :=
  mkState (deps s) (watchers s) (vms s) (target s) (targetStack s) (queue s)
    (dep_uid s) (watcher_uid s) (heap s) (closures s) n (accessors s)
    (shouldObserve s) (config s) (trace s).

Definition log (e : Event) (s : State) : State :=
  mkState (deps s) (watchers s) (vms s) (target s) (targetStack s) (queue s)
    (dep_uid s) (watcher_uid s) (heap s) (closures s) (closure_uid s)
    (accessors s) (shouldObserve s) (config s) (trace s ++ [e]).

(** A function either returns or throws; the state it leaves is kept in both
    cases. *)
Inductive completion (A : Type) :=
  | Normal (a : A)
  | Throw.
Arguments Normal {A} a.
Arguments Throw {A}.

(** ** class Dep *)

(** [dep.subs] *)
Definition subs_of (s : State) (d : nat) : list nat := default [] (deps s !! d).

(** [new Dep()]: [this.id = uid++; this.subs = []] *)
Definition Dep_new (s : State) : nat * State :=
  let d := dep_uid s in
  (d, set_deps (insert d []) (set_dep_uid (S d) s)).

(** [addSub (sub) { this.subs.push(sub) }] *)
Definition Dep_addSub (d sub : nat) (s : State) : State :=
  set_deps (insert d (subs_of s d ++ [sub])) s.

(** [removeSub (sub) { remove(this.subs, sub) }] *)
Definition Dep_removeSub (d sub : nat) (s : State) : State :=
  set_deps (insert d (remove sub (subs_of s d))) s.

(** [pushTarget (target)] *)
Definition pushTarget (t : option nat) (s : State) : State :=
  set_target t (targetStack s ++ [t]) s.

(** [popTarget ()]: [Dep.target] becomes [undefined] on an emptied stack, which
    every test of it treats as [null]. *)
Definition popTarget (s : State) : State :=
  let st := removelast (targetStack s) in
  set_target (mjoin (last st)) st s.

(** ** class Watcher *)

Definition upd_watcher (w : nat) (f : Watcher → Watcher) (s : State) : State :=
  set_watchers (alter f w) s.

Definition with_newDep (d : nat) (W : Watcher) : Watcher :=
  mkWatcher (w_vm W) (w_deep W) (w_user W) (w_lazy W) (w_sync W) (w_dirty W)
    (w_active W) (w_deps W) (w_newDeps W ++ [d]) (w_depIds W)
    ({[d]} ∪ w_newDepIds W) (w_value W).

(** [addDep (dep)] *)
Definition Watcher_addDep (w d : nat) (s : State) : State :=
  match watchers s !! w with
  | None => s
  | Some W =>
      if decide (d ∈ w_newDepIds W) then s
      else
        let s1 := upd_watcher w (with_newDep d) s in
        if decide (d ∈ w_depIds W) then s1 else Dep_addSub d w s1
  end.

(** [depend () { if (Dep.target) { Dep.target.addDep(this) } }] *)
Definition Dep_depend (d : nat) (s : State) : State :=
  match target s with
  | Some t => Watcher_addDep t d s
  | None => s
  end.

Definition swap_deps (W : Watcher) : Watcher :=
  mkWatcher (w_vm W) (w_deep W) (w_user W) (w_lazy W) (w_sync W) (w_dirty W)
    (w_active W) (w_newDeps W) [] (w_newDepIds W) ∅ (w_value W).

(** [cleanupDeps ()]: the [while (i--)] loop walks [this.deps] from its last
    entry to its first. *)
Definition Watcher_cleanupDeps (w : nat) (s : State) : State :=
  match watchers s !! w with
  | None => s
  | Some W =>
      let s1 :=
        foldl (λ s d, if decide (d ∈ w_newDepIds W) then s else Dep_removeSub d w s)
              s (reverse (w_deps W)) in
      upd_watcher w swap_deps s1
  end.

(** What one call of a watcher's getter does to the dependency graph: the Deps
    whose [depend()] it reaches through the property getters it runs, in the
    order of the reads, and the value it returns ([None] when it throws). *)
Record GetterOutcome := mkOutcome {
  g_reads : list nat;
  g_result : option value
}.

Definition with_value (v : value) (W : Watcher) : Watcher :=
  mkWatcher (w_vm W) (w_deep W) (w_user W) (w_lazy W) (w_sync W) (w_dirty W)
    (w_active W) (w_deps W) (w_newDeps W) (w_depIds W) (w_newDepIds W) v.

Definition with_dirty (b : bool) (W : Watcher) : Watcher :=
  mkWatcher (w_vm W) (w_deep W) (w_user W) (w_lazy W) (w_sync W) b
    (w_active W) (w_deps W) (w_newDeps W) (w_depIds W) (w_newDepIds W) (w_value W).

Definition with_active (b : bool) (W : Watcher) : Watcher :=
  mkWatcher (w_vm W) (w_deep W) (w_user W) (w_lazy W) (w_sync W) (w_dirty W)
    b (w_deps W) (w_newDeps W) (w_depIds W) (w_newDepIds W) (w_value W).

(** Modelled from the spec: [queueWatcher] of the scheduler module, which is
    not among the sources. Section 4.5: a single pending queue, deduplicated by
    id (a node already queued is not queued again). *)
Definition queueWatcher (w : nat) (s : State) : State :=
  if decide (w ∈ queue s) then s else set_queue (queue s ++ [w]) s.

(** [subs.sort((a, b) => a.id - b.id)] *)
Definition sort_by_id (subs : list nat) : list nat := merge_sort (≤) subs.

(** ** Objects and their properties *)

(** [property.configurable]; [defineReactive] installs configurable
    accessors. *)
Definition configurable (p : Property) : bool :=
  match p with
  | PData _ c => c
  | PAccessor _ c => c
  | PReactive _ => true
  end.

(** The own property [key] of a property list. *)
Fixpoint get_prop (key : string) (props : list (string * Property)) : option Property :=
  match props with
  | [] => None
  | (k, p) :: rest => if decide (k = key) then Some p else get_prop key rest
  end.

(** [Object.defineProperty]: an existing property is replaced where it
    stands, a new one comes last. *)
Fixpoint set_prop (key : string) (p : Property) (props : list (string * Property))
  : list (string * Property) :=
  match props with
  | [] => [(key, p)]
  | (k, q) :: rest =>
      if decide (k = key) then (k, p) :: rest else (k, q) :: set_prop key p rest
  end.

Definition with_props (f : list (string * Property) → list (string * Property))
    (o : Object) : Object :=
  mkObject (o_kind o) (o_extensible o) (o_isVue o) (o_isVNode o) (o_ob o)
    (f (o_props o)) (o_elems o).

Definition with_ob (ob : option Observer) (o : Object) : Object :=
  mkObject (o_kind o) (o_extensible o) (o_isVue o) (o_isVNode o) ob
    (o_props o) (o_elems o).

(** [ob.vmCount++] *)
Definition incr_vmCount (o : Object) : Object :=
  with_ob ((λ ob, mkObserver (ob_dep ob) (S (ob_vmCount ob))) <$> o_ob o) o.

Definition with_val (v : value) (C : Closure) : Closure :=
  mkClosure (c_dep C) v (c_childOb C) (c_orig C) (c_customSetter C) (c_shallow C).

Definition with_childOb (ob : option nat) (C : Closure) : Closure :=
  mkClosure (c_dep C) (c_val C) ob (c_orig C) (c_customSetter C) (c_shallow C).

(** The seven methods of [methodsToPatch]. *)
Inductive ArrayMethod := Push | Pop | Shift | Unshift | Splice | Sort | Reverse.


Section Reactivity.

(** The getters of the watchers are user code (a render function, a computed
    getter, a watched path). [getter w s] is what the getter of watcher [w]
    does when it is called in state [s]. *)
Variable getter : nat → State → GetterOutcome.

(** [traverse(value)] reads every nested property of [value];
    [traverse_reads a s] are the Deps this reaches for the object at [a]. *)
Variable traverse_reads : nat → State → list nat.

(** [traverse (val)]: nothing is read of a value that is no object. *)
Definition traverse (val : value) (s : State) : State :=
  match val with
  | VObj a => foldl (λ s d, Dep_depend d s) s (traverse_reads a s)
  | _ => s
  end.

(** [get ()]: the [finally] block runs whether the getter returned or threw;
    an exception of a non-user watcher is thrown again after it. *)
Definition Watcher_get (w : nat) (s : State) : completion value * State :=
  match watchers s !! w with
  | None => (Normal VUndef, s)
  | Some W =>
      let s1 := pushTarget (Some w) s in
      let out := getter w s1 in
      let s2 := foldl (λ s d, Dep_depend d s) s1 (g_reads out) in
      let '(res, s3) :=
        match g_result out with
        | Some v => (Normal v, s2)
        | None =>
            if w_user W then (Normal VUndef, log (EvHandleError w) s2)
            else (Throw, s2)
        end in
      let value := match res with Normal v => v | Throw => VUndef end in
      let s4 := if w_deep W then traverse value s3 else s3 in
      let s5 := popTarget s4 in
      (res, Watcher_cleanupDeps w s5)
  end.

(** [run ()] *)
Definition Watcher_run (w : nat) (s : State) : completion unit * State :=
  match watchers s !! w with
  | None => (Normal (), s)
  | Some W =>
      if w_active W then
        match Watcher_get w s with
        | (Throw, s1) => (Throw, s1)
        | (Normal v, s1) =>
            let old := default VUndef (w_value <$> watchers s1 !! w) in
            if negb (strict_eq v old) || isObject v || w_deep W then
              (Normal (), log (EvCallback w v old) (upd_watcher w (with_value v) s1))
            else (Normal (), s1)
        end
      else (Normal (), s)
  end.

(** [update ()] *)
Definition Watcher_update (w : nat) (s : State) : completion unit * State :=
  let s0 := log (EvUpdate w) s in
  match watchers s0 !! w with
  | None => (Normal (), s0)
  | Some W =>
      if w_lazy W then (Normal (), upd_watcher w (with_dirty true) s0)
      else if w_sync W then Watcher_run w s0
      else (Normal (), queueWatcher w s0)
  end.

(** [evaluate ()] *)
Definition Watcher_evaluate (w : nat) (s : State) : completion unit * State :=
  match Watcher_get w s with
  | (Throw, s1) => (Throw, s1)
  | (Normal v, s1) =>
      (Normal (), upd_watcher w (with_dirty false) (upd_watcher w (with_value v) s1))
  end.

(** [depend ()] *)
Definition Watcher_depend (w : nat) (s : State) : State :=
  match watchers s !! w with
  | None => s
  | Some W => foldl (λ s d, Dep_depend d s) s (reverse (w_deps W))
  end.

(** [teardown ()] *)
Definition Watcher_teardown (w : nat) (s : State) : State :=
  match watchers s !! w with
  | None => s
  | Some W =>
      if w_active W then
        let s1 :=
          match vms s !! w_vm W with
          | Some V =>
              if vm_isBeingDestroyed V then s
              else set_vms (insert (w_vm W)
                     (mkVM (remove w (vm_watchers V)) (vm_isBeingDestroyed V))) s
          | None => s
          end in
        let s2 := foldl (λ s d, Dep_removeSub d w s) s1 (reverse (w_deps W)) in
        upd_watcher w (with_active false) s2
      else s
  end.

(** The [for] loop of [notify]: an exception of [update] ends it. *)
Fixpoint notify_loop (subs : list nat) (s : State) : completion unit * State :=
  match subs with
  | [] => (Normal (), s)
  | w :: rest =>
      match Watcher_update w s with
      | (Throw, s1) => (Throw, s1)
      | (Normal _, s1) => notify_loop rest s1
      end
  end.

(** [notify ()] *)
Definition Dep_notify (d : nat) (s : State) : completion unit * State :=
  let s0 := log (EvNotify d) s in
  let subs := subs_of s0 d in                              (* this.subs.slice() *)
  let subs :=
    if negb (production (config s0)) && negb (async (config s0))
    then sort_by_id subs else subs in
  notify_loop subs s0.

(** [new Watcher(vm, expOrFn, cb, options)]; the watcher's id is [++uid]. *)
Definition Watcher_new (vm : nat) (deep user lazy sync : bool) (s : State)
  : completion nat * State :=
  let s1 :=
    match vms s !! vm with
    | Some V => set_vms (insert vm (mkVM (vm_watchers V ++ [S (watcher_uid s)])
                                        (vm_isBeingDestroyed V))) s
    | None => s
    end in
  let w := S (watcher_uid s1) in
  let W := mkWatcher vm deep user lazy sync lazy true [] [] ∅ ∅ VUndef in
  let s2 := set_watchers (insert w W) (set_watcher_uid w s1) in
  if lazy then (Normal w, s2)
  else
    match Watcher_get w s2 with
    | (Throw, s3) => (Throw, s3)
    | (Normal v, s3) => (Normal w, upd_watcher w (with_value v) s3)
    end.


(** *** The observer *)

(** [const value = getter ? getter.call(obj) : val], for the closure [C]:
    the getter captured is that of a pre-defined accessor pair or the
    [reactiveGetter] of an earlier closure [c']. *)
Definition closure_value (rg : nat → State → option (value * State))
    (C : Closure) (s : State) : option (value * State) :=
  match c_orig C with
  | Some (PAccessor a _) =>
      match accessors s !! a ≫= (λ A, (λ g, g (acc_cell A)) <$> acc_get A) with
      | Some v => Some (v, s)
      | None => Some (c_val C, s)
      end
  | Some (PReactive c') => rg c' s
  | _ => Some (c_val C, s)
  end.

(** [e && e.__ob__ && e.__ob__.dep.depend()] *)
Definition depend_on_observer (e : value) (s : State) : State :=
  match e with
  | VObj b =>
      match heap s !! b ≫= o_ob with
      | Some ob => Dep_depend (ob_dep ob) s
      | None => s
      end
  | _ => s
  end.

(** [Array.isArray(v)] *)
Definition isArray (v : value) (s : State) : bool :=
  match v with
  | VObj a =>
      match o_kind <$> heap s !! a with
      | Some KArray => true
      | _ => false
      end
  | _ => false
  end.

(** [dependArray (value)]; an array that holds itself makes it recurse
    without end, whence the fuel. *)
Fixpoint dependArray (fuel : nat) (v : value) (s : State) : option State :=
  match fuel with
  | 0 => None
  | S f =>
      let elems :=
        match v with
        | VObj a => default [] (o_elems <$> heap s !! a)
        | _ => []
        end in
      foldl (λ acc e,
               s ← acc;
               let s1 := depend_on_observer e s in
               if isArray e s1 then dependArray f e s1 else Some s1)
            (Some s) elems
  end.

(** [reactiveGetter ()] of closure [c] *)
Fixpoint reactiveGetter (fuel : nat) (c : nat) (s : State) : option (value * State) :=
  match fuel with
  | 0 => None
  | S f =>
      match closures s !! c with
      | None => Some (VUndef, s)
      | Some C =>
          '(v, s1) ← closure_value (reactiveGetter f) C s;
          match target s1 with
          | None => Some (v, s1)
          | Some _ =>
              let s2 := Dep_depend (c_dep C) s1 in
              match c_childOb C ≫= (λ b, heap s2 !! b ≫= o_ob) with
              | None => Some (v, s2)
              | Some ob =>
                  let s3 := Dep_depend (ob_dep ob) s2 in
                  if isArray v s3 then s4 ← dependArray f v s3; Some (v, s4)
                  else Some (v, s3)
              end
          end
      end
  end.

(** [obj[key]], on the own properties of [obj]. *)
Definition propGet (fuel : nat) (obj : nat) (key : string) (s : State)
  : option (value * State) :=
  match heap s !! obj ≫= (λ o, get_prop key (o_props o)) with
  | None => Some (VUndef, s)
  | Some (PData v _) => Some (v, s)
  | Some (PAccessor a _) =>
      Some (default VUndef
              (accessors s !! a ≫= (λ A, (λ g, g (acc_cell A)) <$> acc_get A)), s)
  | Some (PReactive c) => reactiveGetter fuel c s
  end.

(** [property && property.get] and [property && property.set] are defined. *)
Definition has_getter (s : State) (property : option Property) : bool :=
  match property with
  | Some (PAccessor a _) => bool_decide (is_Some (accessors s !! a ≫= acc_get))
  | Some (PReactive _) => true
  | _ => false
  end.

Definition has_setter (s : State) (property : option Property) : bool :=
  match property with
  | Some (PAccessor a _) => bool_decide (is_Some (accessors s !! a ≫= acc_set))
  | Some (PReactive _) => true
  | _ => false
  end.

(** The test of [observe] for making a new observer. *)
Definition observable (s : State) (o : Object) : bool :=
  shouldObserve s && negb (serverRendering (config s)) &&
  match o_kind o with KArray | KPlain => true | KOther => false end &&
  o_extensible o && negb (o_isVue o).

(** [defineReactive (obj, key, val, customSetter, shallow)], with [observe]
    as a parameter; [val] is [None] when the call has two arguments. *)
Definition defineReactive_with
    (obs : value → State → option (option nat * State)) (fuel : nat)
    (obj : nat) (key : string) (val : option value)
    (customSetter shallow : bool) (s : State) : option State :=
  let '(dep, s1) := Dep_new s in
  let property := heap s1 !! obj ≫= (λ o, get_prop key (o_props o)) in
  if bool_decide (configurable <$> property = Some false) then Some s1
  else
    '(v, s2) ←
      match val with
      | Some v => Some (v, s1)
      | None =>
          if negb (has_getter s1 property) || has_setter s1 property
          then propGet fuel obj key s1
          else Some (VUndef, s1)
      end;
    '(childOb, s3) ← (if shallow then Some (None, s2) else obs v s2);
    let c := closure_uid s3 in
    Some (set_heap (alter (with_props (set_prop key (PReactive c))) obj)
            (set_closures
               (insert c (mkClosure dep v childOb property customSetter shallow))
               (set_closure_uid (S c) s3))).

(** [walk (obj)], over [Object.keys(obj)] *)
Definition walk_with (obs : value → State → option (option nat * State))
    (fuel : nat) (obj : nat) (keys : list string) (s : State) : option State :=
  foldl (λ acc key, s ← acc; defineReactive_with obs fuel obj key None false false s)
        (Some s) keys.

(** [observeArray (items)] *)
Definition observeArray_with (obs : value → State → option (option nat * State))
    (items : list value) (s : State) : option State :=
  foldl (λ acc item, s ← acc; snd <$> obs item s) (Some s) items.

(** [new Observer(value)] for the object at [a] *)
Definition Observer_new_with (obs : value → State → option (option nat * State))
    (fuel : nat) (a : nat) (s : State) : option State :=
  let '(dep, s1) := Dep_new s in
  let s2 := set_heap (alter (with_ob (Some (mkObserver dep 0))) a) s1 in
  match heap s2 !! a with
  | None => Some s2
  | Some o =>
      match o_kind o with
      | KArray => observeArray_with obs (o_elems o) s2
      | _ => walk_with obs fuel a (o_props o).*1 s2
      end
  end.

(** [observe (value, asRootData)]; the result names the object whose
    [__ob__] is returned. The fuel bounds the depth of the objects observed
    one inside the other. *)
Fixpoint observe (fuel : nat) (v : value) (asRootData : bool) (s : State)
  : option (option nat * State) :=
  match fuel with
  | 0 => None
  | S f =>
      match v with
      | VObj a =>
          match heap s !! a with
          | None => Some (None, s)
          | Some o =>
              if o_isVNode o then Some (None, s)
              else
                '(ob, s1) ←
                  match o_ob o with
                  | Some _ => Some (Some a, s)
                  | None =>
                      if observable s o then
                        s1 ← Observer_new_with (λ v, observe f v false) f a s;
                        Some (Some a, s1)
                      else Some (None, s)
                  end;
                match ob with
                | Some b =>
                    if asRootData
                    then Some (ob, set_heap (alter incr_vmCount b) s1)
                    else Some (ob, s1)
                | None => Some (ob, s1)
                end
          end
      | _ => Some (None, s)
      end
  end.

Definition defineReactive (fuel : nat) :=
  defineReactive_with (λ v, observe fuel v false) fuel.

Definition observeArray (fuel : nat) :=
  observeArray_with (λ v, observe fuel v false).

(** [setter.call(obj, newVal)] *)
Definition call_setter
    (rs : nat → value → State → option (completion unit * State))
    (C : Closure) (newVal : value) (s : State)
  : option (completion unit * State) :=
  match c_orig C with
  | Some (PAccessor a _) =>
      match accessors s !! a with
      | Some A =>
          match acc_set A with
          | Some f =>
              Some (Normal (),
                    set_accessors
                      (insert a (mkAccessor (acc_get A) (acc_set A)
                                   (f newVal (acc_cell A)))) s)
          | None => Some (Normal (), s)
          end
      | None => Some (Normal (), s)
      end
  | Some (PReactive c') => rs c' newVal s
  | _ => Some (Normal (), s)
  end.

(** [reactiveSetter (newVal)] of closure [c] *)
Fixpoint reactiveSetter (fuel : nat) (c : nat) (newVal : value) (s : State)
  : option (completion unit * State) :=
  match fuel with
  | 0 => None
  | S f =>
      match closures s !! c with
      | None => Some (Normal (), s)
      | Some C =>
          '(v, s1) ← closure_value (reactiveGetter f) C s;
          if unchanged newVal v then Some (Normal (), s1)
          else
            let s2 :=
              if negb (production (config s1)) && c_customSetter C
              then log (EvCustomSetter c) s1 else s1 in
            if has_getter s2 (c_orig C) && negb (has_setter s2 (c_orig C))
            then Some (Normal (), s2)
            else
              '(r, s3) ←
                (if has_setter s2 (c_orig C)
                 then call_setter (reactiveSetter f) C newVal s2
                 else Some (Normal (),
                            set_closures (alter (with_val newVal) c) s2));
              match r with
              | Throw => Some (Throw, s3)
              | Normal _ =>
                  '(childOb, s4) ←
                    (if c_shallow C then Some (None, s3)
                     else observe f newVal false s3);
                  Some (Dep_notify (c_dep C)
                          (set_closures (alter (with_childOb childOb) c) s4))
              end
      end
  end.

(** *** The array interceptor *)

(** The methods of [Array.prototype] belong to the host. [original m this
    args s] is what [arrayProto[m].apply(this, args)] returns and the state
    it leaves. *)
Variable original : ArrayMethod → nat → list value → State → completion value * State.

(** [mutator (...args)], installed for [method]. *)
Definition mutator (fuel : nat) (method : ArrayMethod) (this : nat)
    (args : list value) (s : State) : option (completion value * State) :=
  match original method this args s with
  | (Throw, s1) => Some (Throw, s1)
  | (Normal result, s1) =>
      match heap s1 !! this ≫= o_ob with
      | None => Some (Throw, s1)       (* a property of undefined is read *)
      | Some ob =>
          let inserted :=
            match method with
            | Push | Unshift => Some args
            | Splice => Some (drop 2 args)
            | _ => None
            end in
          s2 ← match inserted with
               | Some items => observeArray fuel items s1
               | None => Some s1
               end;
          match Dep_notify (ob_dep ob) s2 with
          | (Throw, s3) => Some (Throw, s3)
          | (Normal _, s3) => Some (Normal result, s3)
          end
      end
  end.

End Reactivity.

(** ** The states the reactivity system reaches, and what holds of them *)

(** Touching the Deps of [l] in turn, as the property getters run by a
    watcher's getter do. *)
Definition touch_all (l : list nat) (s : State) : State :=
  foldl (λ s d, Dep_depend d s) s l.

(** The entries of [l] not in [seen], each once, in the order of their first
    occurrence: what [addDep] pushes on [newDeps]. *)
Fixpoint fresh_reads (seen : gset nat) (l : list nat) : list nat :=
  match l with
  | [] => []
  | d :: rest =>
      if decide (d ∈ seen) then fresh_reads seen rest
      else d :: fresh_reads ({[d]} ∪ seen) rest
  end.

(** The watcher after its getter touched the Deps of [l]. *)
Definition touched_watcher (l : list nat) (W : Watcher) : Watcher :=
  mkWatcher (w_vm W) (w_deep W) (w_user W) (w_lazy W) (w_sync W) (w_dirty W)
    (w_active W) (w_deps W) (w_newDeps W ++ fresh_reads (w_newDepIds W) l)
    (w_depIds W) (list_to_set l ∪ w_newDepIds W) (w_value W).

(** Appending the events of [evs] to the trace. *)
Definition log_all (evs : list Event) (s : State) : State :=
  foldl (λ s e, log e s) s evs.

(** The watcher after an evaluation that touched the Deps of [l]. *)
Definition evaluated_watcher (l : list nat) (W : Watcher) : Watcher :=
  swap_deps (touched_watcher l W).

(** [s'] has the vms, the queue, the heap and the configuration of [s]. *)
Definition same_env (s s' : State) : Prop :=
  vms s' = vms s ∧ queue s' = queue s ∧ dep_uid s' = dep_uid s ∧
  watcher_uid s' = watcher_uid s ∧ heap s' = heap s ∧
  closures s' = closures s ∧ closure_uid s' = closure_uid s ∧
  accessors s' = accessors s ∧
  shouldObserve s' = shouldObserve s ∧ config s' = config s.

(** A change of a watcher that leaves its dependency fields alone. *)
Definition keeps_graph (f : Watcher → Watcher) : Prop :=
  ∀ W, w_deps (f W) = w_deps W ∧ w_newDeps (f W) = w_newDeps W ∧
       w_depIds (f W) = w_depIds W ∧ w_newDepIds (f W) = w_newDepIds W ∧
       w_active (f W) = w_active W.

(** The events logged between state [s] and a later state [s']. *)
Definition events_since (s s' : State) : list Event :=
  drop (length (trace s)) (trace s').

(** Watcher [w] exists in [s] and has been torn down. *)
Definition torn_down (w : nat) (s : State) : Prop :=
  ∃ W, watchers s !! w = Some W ∧ w_active W = false.

(** No event of [evs] is a call of the callback of [w]. *)
Definition no_callback (w : nat) (evs : list Event) : Prop :=
  Forall (λ e, ∀ v old, e ≠ EvCallback w v old) evs.

(** The effect of a call on a torn-down watcher [w]: the events logged hold
    no call of its callback, and it is still torn down. *)
Definition quiet (w : nat) (s s' : State) : Prop :=
  (∃ evs, trace s' = trace s ++ evs ∧ no_callback w evs) ∧ torn_down w s'.

(** [s'] differs from [s] in the subscriber lists and the watchers only. *)
Definition only_graph (s s' : State) : Prop :=
  s' = set_deps (λ _, deps s') (set_watchers (λ _, watchers s') s).

Section ReactivitySpec.

Variable getter : nat → State → GetterOutcome.
Variable traverse_reads : nat → State → list nat.

(** The Deps an evaluation of watcher [w] started in state [s] touches while
    [w] is [Dep.target]: the reads of its getter, then those of [traverse]
    for a deep watcher. *)
Definition Watcher_touched (w : nat) (s : State) : list nat :=
  match watchers s !! w with
  | None => []
  | Some W =>
      let s1 := pushTarget (Some w) s in
      let out := getter w s1 in
      let s2 := foldl (λ s d, Dep_depend d s) s1 (g_reads out) in
      let s3 :=
        match g_result out with
        | Some _ => s2
        | None => if w_user W then log (EvHandleError w) s2 else s2
        end in
      g_reads out ++
        (if w_deep W then
           match g_result out with
           | Some (VObj a) => traverse_reads a s3
           | _ => []
           end
         else [])
  end.

(** The calls a client makes on watchers and Deps. *)
Inductive Op :=
  | ONewWatcher (vm : nat) (deep user lazy sync : bool)
  | OGet (w : nat)
  | ORun (w : nat)
  | OUpdate (w : nat)
  | OEvaluate (w : nat)
  | OTeardown (w : nat)
  | ONotify (d : nat).

Definition step (o : Op) (s : State) : State :=
  match o with
  | ONewWatcher vm deep user lazy sync =>
      (Watcher_new getter traverse_reads vm deep user lazy sync s).2
  | OGet w => (Watcher_get getter traverse_reads w s).2
  | ORun w => (Watcher_run getter traverse_reads w s).2
  | OUpdate w => (Watcher_update getter traverse_reads w s).2
  | OEvaluate w => (Watcher_evaluate getter traverse_reads w s).2
  | OTeardown w => Watcher_teardown w s
  | ONotify d => (Dep_notify getter traverse_reads d s).2
  end.

(** Before any watcher is made no Dep has a subscriber. *)
Definition initial (s : State) : Prop :=
  deps s = ∅ ∧ watchers s = ∅.

Inductive reachable : State → Prop :=
  | reachable_initial s : initial s → reachable s
  | reachable_step o s : reachable s → reachable (step o s).

(** Between two calls every watcher is idle: nothing is pending in
    [newDeps], and [depIds] holds the ids of [deps]. *)
Definition watcher_idle (W : Watcher) : Prop :=
  w_newDeps W = [] ∧ w_newDepIds W = ∅ ∧ NoDup (w_deps W) ∧
  ∀ d, d ∈ w_depIds W ↔ d ∈ w_deps W.

Record graph_inv (s : State) : Prop := mk_graph_inv {
  inv_idle : ∀ w W, watchers s !! w = Some W → watcher_idle W;
  inv_nodup : ∀ d, NoDup (subs_of s d);
  inv_subscribed : ∀ d w, w ∈ subs_of s d →
    ∃ W, watchers s !! w = Some W ∧ d ∈ w_deps W;
  inv_active : ∀ w W, watchers s !! w = Some W → w_active W = true →
    ∀ d, d ∈ w_deps W → w ∈ subs_of s d;
  inv_fresh : ∀ w, is_Some (watchers s !! w) → w ≤ watcher_uid s
}.

(** The watchers whose [update()] a trace records, in order. *)
Definition updates (tr : list Event) : list nat :=
  omap (λ e, match e with EvUpdate w => Some w | _ => None end) tr.

(** The watcher an event is about. *)
Definition event_watcher (e : Event) : option nat :=
  match e with
  | EvUpdate w | EvCallback w _ _ | EvHandleError w => Some w
  | _ => None
  end.

(** The events of [evs] are about watcher [w] and none is an [update]. *)
Definition about (w : nat) (evs : list Event) : Prop :=
  updates evs = [] ∧ Forall (λ e, event_watcher e = Some w) evs.

Definition run_ops (ops : list Op) (s : State) : State :=
  foldl (λ s o, step o s) s ops.

(** Claim C1, for the evaluation of watcher [w] in state [s]: afterwards the
    dependency list of [w] holds exactly the Deps touched, [w] subscribes to
    each of them, it is gone from the Deps it held before and did not touch,
    and notifying a Dep it did not touch does not reach it. *)
Definition evaluation_tracks_reads (w : nat) (s : State) : Prop :=
  let l := Watcher_touched w s in
  let s' := (Watcher_get getter traverse_reads w s).2 in
  (∃ W', watchers s' !! w = Some W' ∧
         (∀ d, d ∈ w_deps W' ↔ d ∈ l) ∧ w_depIds W' = list_to_set l) ∧
  (∀ d, d ∈ l → w ∈ subs_of s' d) ∧
  (∀ W d, watchers s !! w = Some W → d ∈ w_deps W → d ∉ l → w ∉ subs_of s' d) ∧
  (∀ d e, d ∉ l →
          e ∈ events_since s' (Dep_notify getter traverse_reads d s').2 →
          event_watcher e ≠ Some w).

(** Claim C4, for [notify] on Dep [d] in state [s]: [update] is called on
    the subscribers of the snapshot in ascending order of their ids. *)
Definition notifies_in_id_order (d : nat) (s : State) : Prop :=
  updates (events_since s (Dep_notify getter traverse_reads d s).2) =
  sort_by_id (subs_of s d).

End ReactivitySpec.

(** ** Well-formed stores, and what [observe] leaves alone *)

(** The objects that have no observer. *)
Definition unobserved (s : State) : gset nat :=
  dom (filter (λ ao, o_ob ao.2 = None) (heap s)).

Definition is_reactive (p : Property) : bool :=
  match p with PReactive _ => true | _ => false end.

(** The keys of an object are distinct; reactive accessors are on observed
    objects and on component instances only; closures are numbered below
    [closure_uid], and none wraps the accessors of another. *)
Record store_wf (s : State) : Prop := mk_store_wf {
  wf_keys : ∀ a o, heap s !! a = Some o → NoDup (o_props o).*1;
  wf_plain : ∀ a o, heap s !! a = Some o → o_ob o = None → o_isVue o = false →
    ∀ k p, (k, p) ∈ o_props o → is_reactive p = false;
  wf_closures : ∀ c C, closures s !! c = Some C →
    c < closure_uid s ∧ ∀ p, c_orig C = Some p → is_reactive p = false
}.

(** What a call of [observe] keeps of an object. *)
Definition same_shape (o o' : Object) : Prop :=
  o_kind o' = o_kind o ∧ o_extensible o' = o_extensible o ∧
  o_isVue o' = o_isVue o ∧ o_isVNode o' = o_isVNode o ∧
  o_elems o' = o_elems o ∧ (o_props o').*1 = (o_props o).*1 ∧
  (is_Some (o_ob o) → o_ob o' = o_ob o).

(** What [observe] leaves alone; the objects of [busy] are those whose
    properties are being converted. *)
Record frame (busy : gset nat) (s s' : State) : Prop := mk_frame {
  of_watchers : watchers s' = watchers s;
  of_vms : vms s' = vms s;
  of_target : target s' = target s ∧ targetStack s' = targetStack s;
  of_queue : queue s' = queue s ∧ watcher_uid s' = watcher_uid s;
  of_accessors : accessors s' = accessors s;
  of_flags : shouldObserve s' = shouldObserve s ∧ config s' = config s;
  of_trace : trace s' = trace s;
  of_closures : closure_uid s ≤ closure_uid s' ∧
    ∀ c, c < closure_uid s → closures s' !! c = closures s !! c;
  of_heap : ∀ a o, heap s !! a = Some o →
    ∃ o', heap s' !! a = Some o' ∧ same_shape o o' ∧
          (is_Some (o_ob o) → a ∉ busy → o' = o);
  of_heap_dom : ∀ a, heap s !! a = None → heap s' !! a = None
}.

Definition observe_frame : State → State → Prop := frame ∅.

(** The object [v] refers to has an observer in [s]. *)
Definition observed (v : value) (s : State) : Prop :=
  ∃ a o, v = VObj a ∧ heap s !! a = Some o ∧ is_Some (o_ob o).

(** [observe] would return an observer for [v] in [s]. *)
Definition attachable (v : value) (s : State) : Prop :=
  ∃ a o, v = VObj a ∧ heap s !! a = Some o ∧ o_isVNode o = false ∧
         (is_Some (o_ob o) ∨ observable s o = true).

(** The number of [notify()] calls on Dep [d] a list of events records. *)
Fixpoint notifications (d : nat) (evs : list Event) : nat :=
  match evs with
  | [] => 0
  | EvNotify d' :: rest =>
      if decide (d' = d) then S (notifications d rest) else notifications d rest
  | _ :: rest => notifications d rest
  end.

(** The value a read of the property of closure [C] returns, when [C] wraps
    a data property or a pre-defined accessor pair. *)
Definition current_value (s : State) (C : Closure) : value :=
  match c_orig C with
  | Some (PAccessor a _) =>
      default (c_val C) (accessors s !! a ≫= (λ A, (λ g, g (acc_cell A)) <$> acc_get A))
  | _ => c_val C
  end.

(** The elements a call of an intercepted method inserts. *)
Definition inserted_elements (method : ArrayMethod) (args : list value) : list value :=
  match method with
  | Push | Unshift => args
  | Splice => drop 2 args
  | Pop | Shift | Sort | Reverse => []
  end.

(** What holds after [observe (v)] returned [r], from state [s] to [s']. *)
Definition observe_ok (v : value) (s : State) (r : option nat) (s' : State) : Prop :=
  store_wf s' ∧ unobserved s' ⊆ unobserved s ∧ observe_frame s s' ∧
  (attachable v s → observed v s' ∧ ∃ a, v = VObj a ∧ r = Some a) ∧
  (¬ attachable v s → r = None ∧ s' = s).

(** [obs] behaves as [observe] does with fuel [f]. *)
Definition obs_total (f : nat) (obs : value → State → option (option nat * State)) : Prop :=
  ∀ v s, store_wf s → size (unobserved s) < f →
    ∃ r s', obs v s = Some (r, s') ∧ observe_ok v s r s'.

(** [s'] has the heap, the closures and the accessor pairs of [s]. *)
Definition same_store (s s' : State) : Prop :=
  heap s' = heap s ∧ closures s' = closures s ∧ closure_uid s' = closure_uid s ∧
  accessors s' = accessors s ∧ shouldObserve s' = shouldObserve s ∧
  config s' = config s.

(** The property closure [C] wraps had a getter and no setter. *)
Definition getter_only (s : State) (C : Closure) : Prop :=
  has_getter s (c_orig C) = true ∧ has_setter s (c_orig C) = false.

(** The pre-defined setter of the property closure [C] wraps has been called
    with [newVal] between [s] and [s']. *)
Definition handed_to_setter (C : Closure) (newVal : value) (s s' : State) : Prop :=
  ∃ a cfg A f,
    c_orig C = Some (PAccessor a cfg) ∧ accessors s !! a = Some A ∧
    acc_set A = Some f ∧
    accessors s' !! a = Some (mkAccessor (acc_get A) (acc_set A) (f newVal (acc_cell A))).

Section ObserverSpec.

Variable getter : nat → State → GetterOutcome.
Variable traverse_reads : nat → State → list nat.

(** Claim C2, for an assignment of [newVal] that is a change, through the
    setter of closure [c]: the value is stored, so that a read returns it,
    and the Dep of the property is notified once. *)
Definition assignment_stores (fuel c : nat) (newVal : value) (s : State) : Prop :=
  ∃ r s' C',
    reactiveSetter getter traverse_reads fuel c newVal s = Some (r, s') ∧
    closures s' !! c = Some C' ∧ current_value s' C' = newVal ∧
    notifications (c_dep C') (events_since s s') = 1.

(** Claim C9, for an assignment through the setter of closure [c]: the
    setter returns and the state is what it was. *)
Definition write_dropped (fuel c : nat) (newVal : value) (s : State) : Prop :=
  reactiveSetter getter traverse_reads fuel c newVal s = Some (Normal (), s).

End ObserverSpec.

(** ** Sample runs of the reactivity system *)

(** A getter that reads the properties behind Deps 0 and 1, the first twice. *)
Definition sample_getter (w : nat) (s : State) : GetterOutcome :=
  mkOutcome [0; 1; 0] (Some (VNum (Num 1))).

(** A getter with a conditional read: Dep 0 is read as long as nothing has
    been notified, and not afterwards. *)
Definition conditional_getter (w : nat) (s : State) : GetterOutcome :=
  match trace s with
  | [] => mkOutcome [0] (Some (VNum (Num 1)))
  | _ => mkOutcome [] (Some (VNum (Num 2)))
  end.

Definition no_traverse (a : nat) (s : State) : list nat := [].

Definition sample_init (cfg : Config) : State :=
  mkState ∅ ∅ ∅ None [] [] 0 0 ∅ ∅ 0 ∅ true cfg [].

Definition dev_sync : Config := mkConfig false false false.
Definition prod_sync : Config := mkConfig true false false.

(** One synchronous watcher, evaluated on creation. *)
Definition sample_one_watcher : State :=
  run_ops sample_getter no_traverse
    [ONewWatcher 0 false false false true] (sample_init dev_sync).

(** The same watcher, torn down. *)
Definition sample_torn_down : State :=
  run_ops sample_getter no_traverse
    [ONewWatcher 0 false false false true; OTeardown 1] (sample_init dev_sync).

(** Watcher 1 is lazy and evaluated only after watcher 2 was created, so it
    subscribes after watcher 2 does. *)
Definition sample_two_watchers (cfg : Config) : State :=
  run_ops sample_getter no_traverse
    [ONewWatcher 0 false false true false;
     ONewWatcher 0 false false false false;
     OEvaluate 1] (sample_init cfg).

(** Two synchronous watchers whose getters stop reading Dep 0 once it has
    notified. *)
Definition sample_conditional : State :=
  run_ops conditional_getter no_traverse
    [ONewWatcher 0 false false false true;
     ONewWatcher 0 false false false true] (sample_init dev_sync).

(** ** Sample stores *)

(** A store is well formed when three checks on its maps succeed; this form
    can be decided by computation. *)
Definition store_wf_check (s : State) : Prop :=
  map_Forall (λ _ o, NoDup (o_props o).*1) (heap s) ∧
  map_Forall (λ _ o, o_ob o = None → o_isVue o = false →
                     Forall (λ kp, is_reactive kp.2 = false) (o_props o)) (heap s) ∧
  map_Forall (λ c C, c < closure_uid s ∧
                     default false (is_reactive <$> c_orig C) = false)
             (closures s).

(** A sample of the host's array methods, on the arguments the examples
    use: numbers where [splice] wants numbers, no comparison function for
    [sort], which then leaves numbers in ascending order alone. *)
Definition sample_native (method : ArrayMethod) (this : nat) (args : list value)
    (s : State) : completion value * State :=
  match heap s !! this with
  | None => (Throw, s)
  | Some o =>
      let store elems :=
        set_heap (insert this
          (mkObject (o_kind o) (o_extensible o) (o_isVue o) (o_isVNode o) (o_ob o)
             (o_props o) elems)) s in
      let len (l : list value) := VNum (Num (Z.of_nat (length l))) in
      match method with
      | Push => (Normal (len (o_elems o ++ args)), store (o_elems o ++ args))
      | Unshift => (Normal (len (args ++ o_elems o)), store (args ++ o_elems o))
      | Pop =>
          (Normal (default VUndef (last (o_elems o))), store (removelast (o_elems o)))
      | Shift => (Normal (default VUndef (head (o_elems o))), store (tail (o_elems o)))
      | Reverse => (Normal (VObj this), store (reverse (o_elems o)))
      | Sort => (Normal (VObj this), s)
      | Splice =>
          match args with
          | VNum (Num start) :: VNum (Num count) :: items =>
              let i := Z.to_nat start in
              let n := Z.to_nat count in
              let removed := fresh (dom (heap s)) in
              (Normal (VObj removed),
               set_heap (insert removed
                  (mkObject KArray true false false None [] (take n (drop i (o_elems o)))))
                 (store (take i (o_elems o) ++ items ++ drop (i + n) (o_elems o))))
          | _ => (Throw, s)
          end
      end
  end.

(** An accessor pair with a getter and no setter, whose getter returns 1. *)
Definition sample_accessor : Accessor :=
  mkAccessor (Some (λ cell, cell)) None (VNum (Num 1)).

(** An observed array [[]] at address 0, whose observer has Dep 0, watched by
    the synchronous watcher 1; a plain object [{x: 1}] at address 1, not yet
    observed. Closure 0 wraps a property that had [sample_accessor], closure 1
    wraps a data property that holds 1 and uses Dep 1. *)
Definition sample_store (cfg : Config) (customSetter : bool) : State :=
  mkState
    {[0 := [1]; 1 := [1]]}
    {[1 := mkWatcher 0 false false false true false true [0; 1] []
             {[0; 1]} ∅ (VNum (Num 1))]}
    ∅ None [] [] 3 1
    {[0 := mkObject KArray true false false (Some (mkObserver 0 0)) [] [];
      1 := mkObject KPlain true false false None
             [("x"%string, PData (VNum (Num 1)) true)] []]}
    {[0 := mkClosure 2 VUndef None (Some (PAccessor 0 true)) customSetter false;
      1 := mkClosure 1 (VNum (Num 1)) None (Some (PData (VNum (Num 1)) true))
             customSetter false]}
    2
    {[0 := sample_accessor]}
    true cfg [].

Definition sample_dev : State := sample_store dev_sync true.
Definition sample_prod : State := sample_store prod_sync true.

(** [a.push({x: 1}, 7)] on the observed array, by the sample host. *)
Definition sample_push_args : list value := [VObj 1; VNum (Num 7)].

(** ** Callers of the reactivity core:
       [src/vue-2.6/src/core/instance/state.js] *)

Section StateMixin.

Variable getter : nat → State → GetterOutcome.
Variable traverse_reads : nat → State → list nat.

(** [computedGetter ()], the function [createComputedGetter(key)] returns;
    [w] is [this._computedWatchers[key]], and a watcher that is not in the
    store stands for one that is not defined. *)
Definition computedGetter (w : nat) (s : State) : completion value * State :=
  match watchers s !! w with
  | None => (Normal VUndef, s)
  | Some W =>
      let '(r, s1) :=
        if w_dirty W then Watcher_evaluate getter traverse_reads w s
        else (Normal (), s) in
      match r with
      | Throw => (Throw, s1)
      | Normal _ =>
          let s2 := match target s1 with
                    | Some _ => Watcher_depend w s1
                    | None => s1
                    end in
          (Normal (default VUndef (w_value <$> watchers s2 !! w)), s2)
      end
  end.

(** [vm.$watch(expOrFn, cb, options)] with a function for [cb]:
    [options.user] is set; with [options.immediate] the callback is called
    at once with the value of the watcher, while [Dep.target] is empty. The
    result names the watcher the function returned, [unwatchFn], tears
    down. *)
Definition watch (vm : nat) (deep lazy sync immediate : bool) (s : State)
  : completion nat * State :=
  match Watcher_new getter traverse_reads vm deep true lazy sync s with
  | (Throw, s1) => (Throw, s1)
  | (Normal w, s1) =>
      if immediate then
        let s2 := pushTarget None s1 in
        let v := default VUndef (w_value <$> watchers s2 !! w) in
        (Normal w, popTarget (log (EvCallback w v VUndef) s2))
      else (Normal w, s1)
  end.

(** [unwatchFn ()] *)
Definition unwatchFn (w : nat) (s : State) : State := Watcher_teardown w s.

End StateMixin.

(** A getter that reads the properties behind Deps 0 and 1 and then throws. *)
Definition throwing_getter (w : nat) (s : State) : GetterOutcome :=
  mkOutcome [0; 1] None.

(** A watcher made by [$watch] on a getter that throws. *)
Definition sample_user_watcher : State :=
  run_ops throwing_getter no_traverse
    [ONewWatcher 0 false true false true] (sample_init dev_sync).

(** Watcher 1 is lazy, as the watcher of a computed property is, and has not
    been evaluated; its property is read while watcher 2 is the target. *)
Definition sample_computed_read : State :=
  pushTarget (Some 2)
    (run_ops sample_getter no_traverse
       [ONewWatcher 0 false false true false;
        ONewWatcher 0 false false false false] (sample_init dev_sync)).

(** ** [set] and [del] *)

(** [delete obj[key]] on the own properties. *)
Fixpoint del_prop (key : string) (props : list (string * Property))
  : list (string * Property) :=
  match props with
  | [] => []
  | (k, p) :: rest => if decide (k = key) then rest else (k, p) :: del_prop key rest
  end.

(** [target.length = n] for an [n] not below the length: the places added
    are holes, which read [undefined]. *)
Definition with_length (n : nat) (o : Object) : Object :=
  mkObject (o_kind o) (o_extensible o) (o_isVue o) (o_isVNode o) (o_ob o)
    (o_props o) (o_elems o ++ replicate (n - length (o_elems o)) VUndef).

(** The value a function returns after a call that may have thrown. *)
Definition returning {A B : Type} (b : B) (r : completion A) : completion B :=
  match r with
  | Normal _ => Normal b
  | Throw => Throw
  end.

(** [hasOwn (obj, key)] *)
Definition hasOwn (o : Object) (key : string) : bool :=
  match get_prop key (o_props o) with
  | Some _ => true
  | None => false
  end.

(** [ob && ob.vmCount] *)
Definition is_root_data (o : Object) : bool :=
  match o_ob o with
  | Some ob => negb (ob_vmCount ob =? 0)
  | None => false
  end.

Section GlobalAPI.

Variable getter : nat → State → GetterOutcome.
Variable traverse_reads : nat → State → list nat.
Variable original : ArrayMethod → nat → list value → State → completion value * State.

(** [isValidArrayIndex (key)] of shared/util, which is not among the
    sources: the index [key] stands for, when it stands for one. *)
Variable array_index : string → option nat.

(** The part of [key in target] that is the host's: [key] is found on the
    prototype chain of the object. *)
Variable inherited : Object → string → bool.

(** [key in Object.prototype] *)
Variable in_Object_prototype : string → bool.

(** [target[key] = val] for a [key] that is no own property of [target]:
    what the host does depends on the prototype chain and on whether the
    object is extensible. *)
Variable assign_absent : nat → string → value → State → completion unit * State.

(** [obj[key] = val]. The data properties of the model are writable; the
    modules are strict code, where assigning to an accessor property without
    a setter throws a [TypeError]. *)
Definition propSet (fuel : nat) (obj : nat) (key : string) (val : value) (s : State)
  : option (completion unit * State) :=
  match heap s !! obj ≫= (λ o, get_prop key (o_props o)) with
  | None => Some (assign_absent obj key val s)
  | Some (PData _ c) =>
      Some (Normal (), set_heap (alter (with_props (set_prop key (PData val c))) obj) s)
  | Some (PAccessor a _) =>
      match accessors s !! a with
      | Some A =>
          match acc_set A with
          | Some f =>
              Some (Normal (),
                    set_accessors
                      (insert a (mkAccessor (acc_get A) (acc_set A)
                                   (f val (acc_cell A)))) s)
          | None => Some (Throw, s)
          end
      | None => Some (Throw, s)
      end
  | Some (PReactive c) => reactiveSetter getter traverse_reads fuel c val s
  end.

(** [target.splice (...args)]: the method found on an observed array is the
    interceptor, on another array it is the host's. *)
Definition splice (fuel : nat) (target : nat) (args : list value) (s : State)
  : option (completion value * State) :=
  match heap s !! target ≫= o_ob with
  | Some _ => mutator getter traverse_reads original fuel Splice target args s
  | None => Some (original Splice target args s)
  end.

(** [set (target, key, val)], for a [target] that is an object or an array,
    as the signature asks, and a [key] that is not the name of one of its
    non-enumerable own properties ([__ob__], the [length] of an array). *)
Definition set (fuel : nat) (target : nat) (key : string) (val : value) (s : State)
  : option (completion value * State) :=
  match heap s !! target with
  | None => Some (Throw, s)
  | Some o =>
      match (if isArray (VObj target) s then array_index key else None) with
      | Some n =>
          let s1 :=
            set_heap (alter (with_length (Nat.max (length (o_elems o)) n)) target) s in
          '(r, s2) ← splice fuel target [VStr key; VNum (Num 1); val] s1;
          Some (returning val r, s2)
      | None =>
          if (hasOwn o key || inherited o key)
             && negb (in_Object_prototype key)
          then '(r, s1) ← propSet fuel target key val s; Some (returning val r, s1)
          else if o_isVue o || is_root_data o then Some (Normal val, s)
          else
            match o_ob o with
            | None =>
                '(r, s1) ← propSet fuel target key val s; Some (returning val r, s1)
            | Some ob =>
                if negb (hasOwn o key) && negb (o_extensible o)
                then
                  (* [Object.defineProperty] throws a [TypeError], after
                     [new Dep ()] and [observe (val)] *)
                  '(_, s1) ← observe fuel val false (Dep_new s).2;
                  Some (Throw, s1)
                else
                  s1 ← defineReactive fuel target key (Some val) false false s;
                  let '(r, s2) := Dep_notify getter traverse_reads (ob_dep ob) s1 in
                  Some (returning val r, s2)
            end
      end
  end.

(** [del (target, key)], under the same conditions; deleting a property
    that is not configurable throws a [TypeError] in strict code. *)
Definition del (fuel : nat) (target : nat) (key : string) (s : State)
  : option (completion unit * State) :=
  match heap s !! target with
  | None => Some (Throw, s)
  | Some o =>
      match (if isArray (VObj target) s then array_index key else None) with
      | Some n =>
          '(r, s1) ← splice fuel target [VStr key; VNum (Num 1)] s;
          Some (returning () r, s1)
      | None =>
          if o_isVue o || is_root_data o then Some (Normal (), s)
          else
            match get_prop key (o_props o) with
            | None => Some (Normal (), s)
            | Some p =>
                if configurable p then
                  let s1 := set_heap (alter (with_props (del_prop key)) target) s in
                  match o_ob o with
                  | None => Some (Normal (), s1)
                  | Some ob => Some (Dep_notify getter traverse_reads (ob_dep ob) s1)
                  end
                else Some (Throw, s)
            end
      end
  end.

End GlobalAPI.

(** An observed object [{}] at address 0, whose observer has Dep 0, to which
    the synchronous watcher 1 subscribes. *)
Definition sample_observed_object : State :=
  mkState
    {[0 := [1]]}
    {[1 := mkWatcher 0 false false false true false true [0] [] {[0]} ∅ VUndef]}
    ∅ None [] [] 1 1
    {[0 := mkObject KPlain true false false (Some (mkObserver 0 0)) [] []]}
    ∅ 0 ∅ true dev_sync [].

(** A host in which no key is an array index and no key is inherited, and
    which adds a data property on assignment to a key that is absent. *)
Definition sample_array_index (key : string) : option nat := None.
Definition sample_inherited (o : Object) (key : string) : bool := false.
Definition sample_in_Object_prototype (key : string) : bool := false.
Definition sample_assign_absent (a : nat) (key : string) (val : value) (s : State)
  : completion unit * State :=
  (Normal (), set_heap (alter (with_props (set_prop key (PData val true))) a) s).

(** The property [key] of the object at [a] is reactive, and its closure
    holds [v] for a data property it wraps: a read of it gives [v]. *)
Definition reactive_with_value (s : State) (a : nat) (key : string) (v : value) : Prop :=
  ∃ o c C, heap s !! a = Some o ∧ get_prop key (o_props o) = Some (PReactive c) ∧
           closures s !! c = Some C ∧ c_val C = v ∧ c < closure_uid s ∧
           ∃ v' cfg, c_orig C = Some (PData v' cfg).

(** The Dep of the observer of the object [e] refers to, if it has one:
    [e && e.__ob__ && e.__ob__.dep]. *)
Definition observer_dep (s : State) (e : value) : option nat :=
  match e with
  | VObj b => ob_dep <$> (heap s !! b ≫= o_ob)
  | _ => None
  end.

(** The Deps of the observers of the elements of an array, in the order of
    the elements. *)
Definition element_deps (s : State) (elems : list value) : list nat :=
  omap (observer_dep s) elems.

(** The observed array [[{}]] at address 1, whose element is the observed
    object at address 0, held by the reactive property of closure 0, while
    watcher 1 is being evaluated. *)
Definition sample_array_read : State :=
  mkState
    ∅
    {[1 := mkWatcher 0 false false false true false true [] [] ∅ ∅ VUndef]}
    ∅ (Some 1) [Some 1] [] 3 1
    {[0 := mkObject KPlain true false false (Some (mkObserver 0 0)) [] [];
      1 := mkObject KArray true false false (Some (mkObserver 1 0)) [] [VObj 0]]}
    {[0 := mkClosure 2 (VObj 1) (Some 1) None false false]}
    1 ∅ true dev_sync [].

(** * The virtual DOM: [src/vue-2.6/src/core/vdom/vnode.js] *)

Module VDom.

(** ** Stores *)

(** [key: string | number | void] *)
Inductive Key :=
  | KUndef
  | KNum (z : Z)
  | KStr (s : string).

(** [a === b] on keys *)
Definition key_eq (a b : Key) : bool :=
  match a, b with
  | KUndef, KUndef => true
  | KNum x, KNum y => Z.eqb x y
  | KStr x, KStr y => String.eqb x y
  | _, _ => false
  end.

(** The property name a key stands for in [map[key]]: numbers are turned into
    their decimal notation. Keys are taken not to name a property that plain
    objects inherit ([constructor], [toString], ...). *)
Definition key_prop (k : Key) : string :=
  match k with
  | KUndef => "undefined"
  | KNum z => pretty z
  | KStr s => s
  end.

(** [data.hook]: which of the hooks are defined. *)
Record Hooks := mkHooks {
  h_init : bool;
  h_prepatch : bool;
  h_create : bool;
  h_update : bool;
  h_postpatch : bool;
  h_insert : bool;
  h_remove : bool;
  h_destroy : bool
}.

(** [VNodeData], the fields the patch algorithm reads: [attrs] is given by the
    value of [attrs.type], [keepAlive] holds when the field is [true],
    [transition] when the field is defined. *)
Record VNodeData := mkData {
  d_key : Key;
  d_attrs : option value;
  d_hook : option Hooks;
  d_keepAlive : bool;
  d_pendingInsert : option (list nat);
  d_transition : bool
}.

(** [class VNode]. Data objects, children arrays, output nodes, component
    instances and async factories are references into the stores below. *)
Record VNode := mkVNode {
  tag : option string;
  data : option nat;
  children : option nat;
  text : option string;
  elm : option nat;
  ns : option string;
  context : option nat;
  fnContext : option nat;
  fnOptions : option nat;
  fnScopeId : option string;
  key : Key;
  componentOptions : option nat;
  componentInstance : option nat;
  parent : option nat;
  isStatic : bool;
  isRootInsert : bool;
  isComment : bool;
  isCloned : bool;
  isOnce : bool;
  asyncFactory : option nat;
  asyncMeta : option nat;
  isAsyncPlaceholder : bool
}.

(** A component instance: [$el], [_vnode] and [$options._scopeId]. *)
Record Component := mkComponent {
  c_el : option nat;
  c_vnode : option nat;
  c_scopeId : option string
}.

(** An async factory: whether [error] and [resolved] are defined. *)
Record Factory := mkFactory {
  f_error : bool;
  f_resolved : bool
}.

(** The function [remove] that [createRmCb] returns, with its field
    [listeners]. *)
Record RmCb := mkRmCb {
  rm_childElm : option nat;
  rm_listeners : Z
}.

(** Output nodes. *)
Inductive NodeType :=
  | Element (namespace : option string) (tagName : string)
  | TextNode
  | CommentNode.

Record Node := mkNode {
  n_type : NodeType;
  n_text : string;
  n_parent : option nat;
  n_children : list nat;
  n_scopes : list string
}.

(** The five phases of the module hook set, [hooks]. *)
Inductive Phase := Create | Activate | Update | Remove | Destroy.

(** A module of the backend: which of the five callbacks it defines. *)
Record ModuleHooks := mkModule {
  m_create : bool;
  m_activate : bool;
  m_update : bool;
  m_remove : bool;
  m_destroy : bool
}.

(** Calls that leave the patch algorithm: the callbacks of the modules
    ([cbs.create[i](emptyNode, vnode)], ...; [i] is the index of the module in
    [backend.modules]), the hooks of [data.hook], and [registerRef]. The
    callbacks of phase [Remove] are handed the function [rm]. *)
Inductive Callback :=
  | ModuleCreate (i : nat) (vnode : nat)
  | ModuleActivate (i : nat) (vnode : nat)
  | ModuleUpdate (i : nat) (oldVnode vnode : nat)
  | ModuleRemove (i : nat) (vnode : nat) (rm : nat)
  | ModuleDestroy (i : nat) (vnode : nat)
  | HookInit (vnode : nat) (hydrating : bool)
  | HookPrepatch (oldVnode vnode : nat)
  | HookCreate (vnode : nat)
  | HookUpdate (oldVnode vnode : nat)
  | HookPostpatch (oldVnode vnode : nat)
  | HookRemove (vnode : nat) (rm : nat)
  | HookDestroy (vnode : nat)
  | RegisterRef (vnode : nat).

(** What the patch algorithm does to its environment, in order: calls of the
    node operations that change the output, and the calls above. *)
Inductive Op :=
  | CreateElement (tagName : string) (node : nat)
  | CreateElementNS (namespace tagName : string) (node : nat)
  | CreateTextNode (text : string) (node : nat)
  | CreateComment (text : string) (node : nat)
  | InsertBefore (parentNode newNode : nat) (referenceNode : option nat)
  | RemoveChild (node child : nat)
  | AppendChild (node child : nat)
  | SetTextContent (node : nat) (text : string)
  | SetStyleScope (node : nat) (scopeId : string)
  | Call (cb : Callback).

Record Store := mkStore {
  vnodes : gmap nat VNode;
  vnode_uid : nat;
  datas : gmap nat VNodeData;
  arrays : gmap nat (list (option nat));
  array_uid : nat;
  components : gmap nat Component;
  factories : gmap nat Factory;
  dom : gmap nat Node;
  node_uid : nat;
  rmCbs : gmap nat RmCb;
  rm_uid : nat;
  insertedVnodeQueue : list nat;
  activeInstance : option nat;
  ops : list Op
}.

Definition set_vnodes (f : gmap nat VNode → gmap nat VNode) (s : Store) : Store :=
  mkStore (f (vnodes s)) (vnode_uid s) (datas s) (arrays s) (array_uid s) (components s)
    (factories s) (dom s) (node_uid s) (rmCbs s) (rm_uid s) (insertedVnodeQueue s)
    (activeInstance s) (ops s).

Definition set_vnode_uid (n : nat) (s : Store) : Store :=
  mkStore (vnodes s) n (datas s) (arrays s) (array_uid s) (components s)
    (factories s) (dom s) (node_uid s) (rmCbs s) (rm_uid s) (insertedVnodeQueue s)
    (activeInstance s) (ops s).

Definition set_datas (f : gmap nat VNodeData → gmap nat VNodeData) (s : Store) : Store :=
  mkStore (vnodes s) (vnode_uid s) (f (datas s)) (arrays s) (array_uid s) (components s)
    (factories s) (dom s) (node_uid s) (rmCbs s) (rm_uid s) (insertedVnodeQueue s)
    (activeInstance s) (ops s).

Definition set_arrays (f : gmap nat (list (option nat)) → gmap nat (list (option nat)))
    (s : Store) : Store :=
  mkStore (vnodes s) (vnode_uid s) (datas s) (f (arrays s)) (array_uid s) (components s)
    (factories s) (dom s) (node_uid s) (rmCbs s) (rm_uid s) (insertedVnodeQueue s)
    (activeInstance s) (ops s).

Definition set_array_uid (n : nat) (s : Store) : Store :=
  mkStore (vnodes s) (vnode_uid s) (datas s) (arrays s) n (components s)
    (factories s) (dom s) (node_uid s) (rmCbs s) (rm_uid s) (insertedVnodeQueue s)
    (activeInstance s) (ops s).

Definition set_dom (f : gmap nat Node → gmap nat Node) (s : Store) : Store :=
  mkStore (vnodes s) (vnode_uid s) (datas s) (arrays s) (array_uid s) (components s)
    (factories s) (f (dom s)) (node_uid s) (rmCbs s) (rm_uid s) (insertedVnodeQueue s)
    (activeInstance s) (ops s).

Definition set_node_uid (n : nat) (s : Store) : Store :=
  mkStore (vnodes s) (vnode_uid s) (datas s) (arrays s) (array_uid s) (components s)
    (factories s) (dom s) n (rmCbs s) (rm_uid s) (insertedVnodeQueue s)
    (activeInstance s) (ops s).

Definition set_rmCbs (f : gmap nat RmCb → gmap nat RmCb) (s : Store) : Store :=
  mkStore (vnodes s) (vnode_uid s) (datas s) (arrays s) (array_uid s) (components s)
    (factories s) (dom s) (node_uid s) (f (rmCbs s)) (rm_uid s) (insertedVnodeQueue s)
    (activeInstance s) (ops s).

Definition set_rm_uid (n : nat) (s : Store) : Store :=
  mkStore (vnodes s) (vnode_uid s) (datas s) (arrays s) (array_uid s) (components s)
    (factories s) (dom s) (node_uid s) (rmCbs s) n (insertedVnodeQueue s)
    (activeInstance s) (ops s).

Definition set_insertedVnodeQueue (f : list nat → list nat) (s : Store) : Store :=
  mkStore (vnodes s) (vnode_uid s) (datas s) (arrays s) (array_uid s) (components s)
    (factories s) (dom s) (node_uid s) (rmCbs s) (rm_uid s) (f (insertedVnodeQueue s))
    (activeInstance s) (ops s).

Definition emit (o : Op) (s : Store) : Store :=
  mkStore (vnodes s) (vnode_uid s) (datas s) (arrays s) (array_uid s) (components s)
    (factories s) (dom s) (node_uid s) (rmCbs s) (rm_uid s) (insertedVnodeQueue s)
    (activeInstance s) (ops s ++ [o]).

(** ** Computations *)

(** A call returns, throws a [TypeError] (a property of [undefined] was read,
    or a node operation was handed [undefined] for a node), throws a
    [DOMException] (a node operation was refused), or, in the embedding only,
    is [Stuck] on a reference that is not in its store or runs [OutOfFuel]. *)
Inductive result (A : Type) : Type :=
  | Ok (a : A)
  | TypeError
  | DOMException
  | Stuck
  | OutOfFuel.

Arguments Ok {A} a.
Arguments TypeError {A}.
Arguments DOMException {A}.
Arguments Stuck {A}.
Arguments OutOfFuel {A}.

Definition M (A : Type) : Type := Store → result (A * Store).

Definition ret {A} (a : A) : M A := λ s, Ok (a, s).

Definition bind {A B} (m : M A) (k : A → M B) : M B :=
  λ s, match m s with
       | Ok (a, s') => k a s'
       | TypeError => TypeError
       | DOMException => DOMException
       | Stuck => Stuck
       | OutOfFuel => OutOfFuel
       end.

Notation "'let*' x := m 'in' k" := (bind m (λ x, k))
  (at level 10, x pattern, m at level 100, k at level 200).
Notation "m ;; k" := (bind m (λ _, k))
  (at level 100, k at level 200, right associativity).

Definition throw {A} (r : result (A * Store)) : M A := λ _, r.

Definition modify (f : Store → Store) : M unit := λ s, Ok (tt, f s).

(** Reading a property of [o], which may be [undefined]. *)
Definition deref {A} (o : option A) : M A :=
  match o with Some a => ret a | None => throw TypeError end.

(** Following a reference. *)
Definition fetch {A} (m : Store → gmap nat A) (r : nat) : M A :=
  λ s, match m s !! r with Some a => Ok (a, s) | None => Stuck end.

Definition when (b : bool) (m : M unit) : M unit := if b then m else ret tt.

(** [for (...) body(x)] over a list fixed beforehand *)
Fixpoint for_each {A} (l : list A) (body : A → M unit) : M unit :=
  match l with
  | [] => ret tt
  | x :: l => body x ;; for_each l body
  end.

(** [for (; cond(i); ++i) body(i)] *)
Fixpoint for_from (fuel : nat) (cond : Z → M bool) (body : Z → M unit) (i : Z) : M unit :=
  match fuel with
  | 0 => throw OutOfFuel
  | S fuel =>
      let* c := cond i in
      if c then body i ;; for_from fuel cond body (i + 1)%Z else ret tt
  end.

(** [isDef(v)] of shared/util, which is not part of the source:
    [v !== undefined && v !== null]. *)
Definition isDef {A} (o : option A) : bool :=
  match o with Some _ => true | None => false end.

Definition same_ref (a b : option nat) : bool :=
  match a, b with
  | Some x, Some y => Nat.eqb x y
  | None, None => true
  | _, _ => false
  end.

(** ** Vnodes, arrays of children *)

Definition with_elm (e : option nat) (V : VNode) : VNode :=
  mkVNode (tag V) (data V) (children V) (text V) e (ns V) (context V) (fnContext V)
    (fnOptions V) (fnScopeId V) (key V) (componentOptions V) (componentInstance V)
    (parent V) (isStatic V) (isRootInsert V) (isComment V) (isCloned V) (isOnce V)
    (asyncFactory V) (asyncMeta V) (isAsyncPlaceholder V).

Definition with_isRootInsert (b : bool) (V : VNode) : VNode :=
  mkVNode (tag V) (data V) (children V) (text V) (elm V) (ns V) (context V) (fnContext V)
    (fnOptions V) (fnScopeId V) (key V) (componentOptions V) (componentInstance V)
    (parent V) (isStatic V) b (isComment V) (isCloned V) (isOnce V)
    (asyncFactory V) (asyncMeta V) (isAsyncPlaceholder V).

Definition with_componentInstance (c : option nat) (V : VNode) : VNode :=
  mkVNode (tag V) (data V) (children V) (text V) (elm V) (ns V) (context V) (fnContext V)
    (fnOptions V) (fnScopeId V) (key V) (componentOptions V) c
    (parent V) (isStatic V) (isRootInsert V) (isComment V) (isCloned V) (isOnce V)
    (asyncFactory V) (asyncMeta V) (isAsyncPlaceholder V).

Definition with_isAsyncPlaceholder (b : bool) (V : VNode) : VNode :=
  mkVNode (tag V) (data V) (children V) (text V) (elm V) (ns V) (context V) (fnContext V)
    (fnOptions V) (fnScopeId V) (key V) (componentOptions V) (componentInstance V)
    (parent V) (isStatic V) (isRootInsert V) (isComment V) (isCloned V) (isOnce V)
    (asyncFactory V) (asyncMeta V) b.

Definition with_pendingInsert (p : option (list nat)) (D : VNodeData) : VNodeData :=
  mkData (d_key D) (d_attrs D) (d_hook D) (d_keepAlive D) p (d_transition D).

Definition vnode_of (v : nat) : M VNode := fetch vnodes v.

Definition update_vnode (v : nat) (f : VNode → VNode) : M unit :=
  modify (set_vnodes (alter f v)).

(** [new VNode(tag, data, children, text, elm, context, componentOptions,
    asyncFactory)]; [key] is [data && data.key]. *)
Definition VNode_new (tag : option string) (data : option nat) (children : option nat)
    (text : option string) (elm : option nat) (context : option nat)
    (componentOptions : option nat) (asyncFactory : option nat) : M nat :=
  let* k := match data with
            | Some d => let* D := fetch datas d in ret (d_key D)
            | None => ret KUndef
            end in
  λ s, let v := vnode_uid s in
       Ok (v, set_vnodes <[v := mkVNode tag data children text elm None context None None
                                 None k componentOptions None None false true false false
                                 false asyncFactory None false]>
                (set_vnode_uid (S v) s)).

(** [arr[i]]; an index outside of the array reads [undefined]. *)
Definition item (l : list (option nat)) (i : Z) : option nat :=
  if (i <? 0)%Z then None else mjoin (l !! Z.to_nat i).

(** [arr[i] = x]; writing past the end extends the array. *)
Definition write (l : list (option nat)) (i : Z) (x : option nat) : list (option nat) :=
  if (i <? 0)%Z then l
  else if (i <? Z.of_nat (length l))%Z then <[Z.to_nat i := x]> l
  else l ++ replicate (Z.to_nat i - length l) None ++ [x].

Definition array_item (a : nat) (i : Z) : M (option nat) :=
  let* l := fetch arrays a in ret (item l i).

Definition array_length (a : nat) : M Z :=
  let* l := fetch arrays a in ret (Z.of_nat (length l)).

Definition array_write (a : nat) (i : Z) (x : option nat) : M unit :=
  let* l := fetch arrays a in modify (set_arrays <[a := write l i x]>).

(** [children.slice()] *)
Definition array_slice (a : nat) : M nat :=
  let* l := fetch arrays a in
  λ s, let a' := array_uid s in
       Ok (a', set_arrays <[a' := l]> (set_array_uid (S a') s)).

(** [cloneVNode(vnode)] *)
Definition cloneVNode (vnode : nat) : M nat :=
  let* V := vnode_of vnode in
  let* ch := match children V with
             | Some a => let* a' := array_slice a in ret (Some a')
             | None => ret None
             end in
  let* cloned := VNode_new (tag V) (data V) ch (text V) (elm V) (context V)
                   (componentOptions V) (asyncFactory V) in
  update_vnode cloned (λ C,
    mkVNode (tag C) (data C) (children C) (text C) (elm C) (ns V) (context C) (fnContext V)
      (fnOptions V) (fnScopeId V) (key V) (componentOptions C) (componentInstance C)
      (parent C) (isStatic V) (isRootInsert C) (isComment V) true (isOnce C)
      (asyncFactory C) (asyncMeta V) (isAsyncPlaceholder C)) ;;
  ret cloned.

(** [vnode = ownerArray[index] = cloneVNode(vnode)], done when
    [isDef(vnode.elm) && isDef(ownerArray)] *)
Definition clone_if_used (vnode : nat) (ownerArray : option nat) (index : Z) : M nat :=
  let* V := vnode_of vnode in
  match elm V, ownerArray with
  | Some _, Some a =>
      let* cloned := cloneVNode vnode in
      array_write a index (Some cloned) ;;
      ret cloned
  | _, _ => ret vnode
  end.

(** ** The node operations *)

(** The backend, [nodeOps], is not part of the source: the spec has it as an
    abstract node-operations interface. It is taken here to be a document
    tree, each operation behaving as the DOM method of its name. *)
Definition node_of (n : nat) : M Node := fetch dom n.

Definition with_parent (p : option nat) (N : Node) : Node :=
  mkNode (n_type N) (n_text N) p (n_children N) (n_scopes N).

Definition with_children (f : list nat → list nat) (N : Node) : Node :=
  mkNode (n_type N) (n_text N) (n_parent N) (f (n_children N)) (n_scopes N).

Definition with_text (t : string) (N : Node) : Node :=
  mkNode (n_type N) t (n_parent N) (n_children N) (n_scopes N).

Definition with_scope (id : string) (N : Node) : Node :=
  mkNode (n_type N) (n_text N) (n_parent N) (n_children N)
    (if bool_decide (id ∈ n_scopes N) then n_scopes N else n_scopes N ++ [id]).

Definition new_node (t : NodeType) (txt : string) : M nat :=
  λ s, let n := node_uid s in
       Ok (n, set_dom <[n := mkNode t txt None [] []]> (set_node_uid (S n) s)).

(** Take a node out of the children of its parent, if it has one. *)
Definition detach (child : nat) (d : gmap nat Node) : gmap nat Node :=
  match d !! child ≫= n_parent with
  | Some p => alter (with_parent None) child (alter (with_children (remove child)) p d)
  | None => d
  end.

Fixpoint insert_before (newNode referenceNode : nat) (l : list nat) : list nat :=
  match l with
  | [] => [newNode]
  | x :: l' => if Nat.eqb x referenceNode then newNode :: x :: l'
               else x :: insert_before newNode referenceNode l'
  end.

Fixpoint next_in (node : nat) (l : list nat) : option nat :=
  match l with
  | [] => None
  | x :: l' => if Nat.eqb x node then head l' else next_in node l'
  end.

(** [child] becomes the last child of [node]. *)
Definition append_to (node child : nat) (d : gmap nat Node) : gmap nat Node :=
  alter (with_parent (Some node)) child
    (alter (with_children (λ l, l ++ [child])) node (detach child d)).

(** [newNode] becomes the child of [parentNode] that precedes
    [referenceNode]. *)
Definition insert_into (parentNode newNode referenceNode : nat) (d : gmap nat Node)
    : gmap nat Node :=
  alter (with_parent (Some parentNode)) newNode
    (alter (with_children (insert_before newNode referenceNode)) parentNode
       (detach newNode d)).

(** Modelled from the spec: create-element(tag), [nodeOps.createElement]. *)
Definition createElement (tagName : string) : M nat :=
  let* n := new_node (Element None tagName) EmptyString in
  modify (emit (CreateElement tagName n)) ;; ret n.

(** Modelled from the spec: create-element-with-namespace(ns, tag),
    [nodeOps.createElementNS]. *)
Definition createElementNS (namespace tagName : string) : M nat :=
  let* n := new_node (Element (Some namespace) tagName) EmptyString in
  modify (emit (CreateElementNS namespace tagName n)) ;; ret n.

(** Modelled from the spec: create-text-node(text), [nodeOps.createTextNode]. *)
Definition createTextNode (text : string) : M nat :=
  let* n := new_node TextNode text in
  modify (emit (CreateTextNode text n)) ;; ret n.

(** Modelled from the spec: create-comment-node(text),
    [nodeOps.createComment]. *)
Definition createComment (text : string) : M nat :=
  let* n := new_node CommentNode text in
  modify (emit (CreateComment text n)) ;; ret n.

(** Modelled from the spec: append-child, [nodeOps.appendChild]: the child
    leaves the parent it had and becomes the last child of [node]. *)
Definition appendChild (node : option nat) (child : option nat) : M unit :=
  let* node := deref node in
  let* child := deref child in
  modify (emit (AppendChild node child)) ;;
  node_of node ;; node_of child ;;
  modify (set_dom (append_to node child)).

(** Modelled from the spec: insert-before, [nodeOps.insertBefore]: without a
    reference node the new node is appended; a reference node that is not a
    child of the parent is refused; a node inserted before itself stays where
    it is. *)
Definition insertBefore (parentNode : option nat) (newNode : option nat)
    (referenceNode : option nat) : M unit :=
  let* parentNode := deref parentNode in
  let* newNode := deref newNode in
  modify (emit (InsertBefore parentNode newNode referenceNode)) ;;
  let* P := node_of parentNode in
  node_of newNode ;;
  match referenceNode with
  | None =>
      modify (set_dom (append_to parentNode newNode))
  | Some r =>
      if bool_decide (r ∈ n_children P) then
        if Nat.eqb newNode r then ret tt
        else modify (set_dom (insert_into parentNode newNode r))
      else throw DOMException
  end.

(** Modelled from the spec: remove-child, [nodeOps.removeChild]: a node that
    is not a child of [node] is refused. *)
Definition removeChild (node : option nat) (child : option nat) : M unit :=
  let* node := deref node in
  let* child := deref child in
  modify (emit (RemoveChild node child)) ;;
  let* P := node_of node in
  if bool_decide (child ∈ n_children P)
  then modify (set_dom (detach child))
  else throw DOMException.

(** Modelled from the spec: parent-of(node), [nodeOps.parentNode]. *)
Definition parentNode (node : option nat) : M (option nat) :=
  let* node := deref node in
  let* N := node_of node in
  ret (n_parent N).

(** Modelled from the spec: next-sibling-of(node), [nodeOps.nextSibling]. *)
Definition nextSibling (node : option nat) : M (option nat) :=
  let* node := deref node in
  let* N := node_of node in
  match n_parent N with
  | Some p => let* P := node_of p in ret (next_in node (n_children P))
  | None => ret None
  end.

(** Modelled from the spec: set-text-content(node, text),
    [nodeOps.setTextContent]: the children of an element are replaced by one
    text node, or by none when the text is empty. *)
Definition setTextContent (node : option nat) (text : string) : M unit :=
  let* node := deref node in
  modify (emit (SetTextContent node text)) ;;
  let* N := node_of node in
  match n_type N with
  | Element _ _ =>
      modify (set_dom (λ d, alter (with_children (λ _, []))
                              node (foldr (alter (with_parent None)) d (n_children N)))) ;;
      if String.eqb text EmptyString then ret tt
      else let* t := new_node TextNode text in
           modify (set_dom (λ d, alter (with_parent (Some node)) t
                                   (alter (with_children (λ _, [t])) node d)))
  | _ => modify (set_dom (alter (with_text text) node))
  end.

(** Modelled from the spec: [setStyleScope], for scoped-styling
    attribution: the scope id is recorded on the node. *)
Definition setStyleScope (node : option nat) (scopeId : string) : M unit :=
  let* node := deref node in
  modify (emit (SetStyleScope node scopeId)) ;;
  node_of node ;;
  modify (set_dom (alter (with_scope scopeId) node)).

(** ** [createPatchFunction(backend)] *)

(** The functions below are those the source defines inside
    [createPatchFunction], which closes over the modules of the backend; the
    section variables are what the source imports from files that are not part
    of it. The warnings of development builds ([checkDuplicateKeys], the
    unknown-element check) change none of the stores and are left out, and so
    is the branch of [createElm] for the Weex platform. *)
Section Backend.

(** [backend.modules] *)
Variable modules : list ModuleHooks.

(** What a module callback, a hook of [data.hook] or [registerRef] does when
    it is called. *)
Variable external : Callback → M unit.

(** [isTextInputType] of [web/util/element] *)
Variable isTextInputType : value → bool.

(** [hydrate(elm, vnode, insertedVnodeQueue)]: server-rendered output is
    outside of this development. *)
Variable hydrate : option nat → nat → M bool.

Definition defines (p : Phase) (m : ModuleHooks) : bool :=
  match p with
  | Create => m_create m
  | Activate => m_activate m
  | Update => m_update m
  | Remove => m_remove m
  | Destroy => m_destroy m
  end.

Fixpoint cbs_from (p : Phase) (j : nat) (ms : list ModuleHooks) : list nat :=
  match ms with
  | [] => []
  | m :: ms => if defines p m then j :: cbs_from p (S j) ms else cbs_from p (S j) ms
  end.

(** [cbs[hook]]: the modules that define a callback for the phase, in the
    order of [modules]. *)
Definition cbs (p : Phase) : list nat := cbs_from p 0 modules.

Definition call (cb : Callback) : M unit :=
  modify (emit (Call cb)) ;; external cb.

(** [sameInputType(a, b)] *)
Definition input_type (V : VNode) : M value :=
  match data V with
  | Some d =>
      let* D := fetch datas d in
      match d_attrs D with
      | Some t => ret t
      | None => ret (VBool false)
      end
  | None => ret (VBool false)
  end.

Definition sameInputType (A B : VNode) : M bool :=
  if negb (bool_decide (tag A = Some "input"%string)) then ret true
  else
    let* typeA := input_type A in
    let* typeB := input_type B in
    ret (strict_eq typeA typeB || (isTextInputType typeA && isTextInputType typeB)).

(** [sameVnode(a, b)] *)
Definition sameVnode (a b : nat) : M bool :=
  let* A := vnode_of a in
  let* B := vnode_of b in
  if negb (key_eq (key A) (key B)) then ret false
  else if negb (same_ref (asyncFactory A) (asyncFactory B)) then ret false
  else
    let* same :=
      (if negb (bool_decide (tag A = tag B)) then ret false
       else if negb (Bool.eqb (isComment A) (isComment B)) then ret false
       else if negb (Bool.eqb (isDef (data A)) (isDef (data B))) then ret false
       else sameInputType A B) in
    if same then ret true
    else if isAsyncPlaceholder A then
      let* f := deref (asyncFactory B) in
      let* F := fetch factories f in
      ret (negb (f_error F))
    else ret false.

(** [createKeyToOldIdx(children, beginIdx, endIdx)] *)
Fixpoint key_map_from (n : nat) (l : list (option nat)) (i : Z) (map : gmap string Z)
    : M (gmap string Z) :=
  match n with
  | 0 => ret map
  | S n =>
      let* c := deref (item l i) in
      let* C := vnode_of c in
      key_map_from n l (i + 1)%Z
        (match key C with KUndef => map | k => <[key_prop k := i]> map end)
  end.

Definition createKeyToOldIdx (children : nat) (beginIdx endIdx : Z) : M (gmap string Z) :=
  let* l := fetch arrays children in
  key_map_from (Z.to_nat (endIdx - beginIdx + 1)) l beginIdx ∅.

(** [findIdxInOld(node, oldCh, start, end)] *)
Fixpoint find_from (n : nat) (node : nat) (oldCh : nat) (i : Z) : M (option Z) :=
  match n with
  | 0 => ret None
  | S n =>
      let* c := array_item oldCh i in
      let* found := match c with
                    | Some c => sameVnode node c
                    | None => ret false
                    end in
      if found then ret (Some i) else find_from n node oldCh (i + 1)%Z
  end.

Definition findIdxInOld (node : nat) (oldCh : nat) (start end_ : Z) : M (option Z) :=
  find_from (Z.to_nat (end_ - start)) node oldCh start.

Definition push (vnode : nat) : M unit :=
  modify (set_insertedVnodeQueue (λ q, q ++ [vnode])).

(** [insert(parent, elm, ref)] *)
Definition insert (parent elm ref : option nat) : M unit :=
  match parent with
  | Some _ =>
      match ref with
      | Some _ =>
          let* p := parentNode ref in
          if same_ref p parent then insertBefore parent elm ref else ret tt
      | None => appendChild parent elm
      end
  | None => ret tt
  end.

(** [removeNode(el)] *)
Definition removeNode (el : option nat) : M unit :=
  let* p := parentNode el in
  match p with
  | Some _ => removeChild p el
  | None => ret tt
  end.

(** [createRmCb(childElm, listeners)] *)
Definition createRmCb (childElm : option nat) (listeners : Z) : M nat :=
  λ s, let r := rm_uid s in
       Ok (r, set_rmCbs <[r := mkRmCb childElm listeners]> (set_rm_uid (S r) s)).

(** A call [rm()] of the function [createRmCb] returned. *)
Definition invoke_rm (rm : nat) : M unit :=
  let* R := fetch rmCbs rm in
  let n := (rm_listeners R - 1)%Z in
  modify (set_rmCbs <[rm := mkRmCb (rm_childElm R) n]>) ;;
  if (n =? 0)%Z then removeNode (rm_childElm R) else ret tt.

(** [isPatchable(vnode)] *)
Fixpoint isPatchable (fuel : nat) (vnode : nat) : M bool :=
  match fuel with
  | 0 => throw OutOfFuel
  | S fuel =>
      let* V := vnode_of vnode in
      match componentInstance V with
      | Some ci =>
          let* C := fetch components ci in
          let* v := deref (c_vnode C) in
          isPatchable fuel v
      | None => ret (isDef (tag V))
      end
  end.

(** [invokeCreateHooks(vnode, insertedVnodeQueue)] *)
Definition invokeCreateHooks (vnode : nat) : M unit :=
  for_each (cbs Create) (λ j, call (ModuleCreate j vnode)) ;;
  let* V := vnode_of vnode in
  let* d := deref (data V) in
  let* D := fetch datas d in
  match d_hook D with
  | Some h =>
      when (h_create h) (call (HookCreate vnode)) ;;
      when (h_insert h) (push vnode)
  | None => ret tt
  end.

(** [setScope(vnode)] *)
Definition scope_of (c : option nat) : M (option string) :=
  match c with
  | Some c => let* C := fetch components c in ret (c_scopeId C)
  | None => ret None
  end.

Fixpoint scope_ancestors (fuel : nat) (vnode : nat) (ancestor : option nat) : M unit :=
  match fuel with
  | 0 => throw OutOfFuel
  | S fuel =>
      match ancestor with
      | Some a =>
          let* A := vnode_of a in
          let* i := scope_of (context A) in
          match i with
          | Some i => let* V := vnode_of vnode in setStyleScope (elm V) i
          | None => ret tt
          end ;;
          let* A := vnode_of a in
          scope_ancestors fuel vnode (parent A)
      | None => ret tt
      end
  end.

Definition setScope (fuel : nat) (vnode : nat) : M unit :=
  let* V := vnode_of vnode in
  match fnScopeId V with
  | Some i => setStyleScope (elm V) i
  | None => scope_ancestors fuel vnode (Some vnode)
  end ;;
  let* V := vnode_of vnode in
  let* active := (λ s, Ok (activeInstance s, s)) in
  match active with
  | Some i =>
      if negb (same_ref (Some i) (context V)) && negb (same_ref (Some i) (fnContext V))
      then
        let* id := scope_of (Some i) in
        match id with
        | Some id => let* V := vnode_of vnode in setStyleScope (elm V) id
        | None => ret tt
        end
      else ret tt
  | None => ret tt
  end.

(** [initComponent(vnode, insertedVnodeQueue)] *)
Definition initComponent (fuel : nat) (vnode : nat) : M unit :=
  let* V := vnode_of vnode in
  let* d := deref (data V) in
  let* D := fetch datas d in
  match d_pendingInsert D with
  | Some pending =>
      modify (set_insertedVnodeQueue (λ q, q ++ pending)) ;;
      modify (set_datas (alter (with_pendingInsert None) d))
  | None => ret tt
  end ;;
  let* ci := deref (componentInstance V) in
  let* C := fetch components ci in
  update_vnode vnode (with_elm (c_el C)) ;;
  let* patchable := isPatchable fuel vnode in
  if patchable then
    invokeCreateHooks vnode ;;
    setScope fuel vnode
  else
    call (RegisterRef vnode) ;;
    push vnode.

(** [reactivateComponent(vnode, insertedVnodeQueue, parentElm, refElm)] *)
Fixpoint reactivate_inner (fuel : nat) (innerNode : nat) : M unit :=
  match fuel with
  | 0 => throw OutOfFuel
  | S fuel =>
      let* Inner := vnode_of innerNode in
      match componentInstance Inner with
      | Some ci =>
          let* C := fetch components ci in
          let* innerNode := deref (c_vnode C) in
          let* Inner := vnode_of innerNode in
          let* transition := match data Inner with
                             | Some d => let* D := fetch datas d in ret (d_transition D)
                             | None => ret false
                             end in
          if transition then
            for_each (cbs Activate) (λ j, call (ModuleActivate j innerNode)) ;;
            push innerNode
          else reactivate_inner fuel innerNode
      | None => ret tt
      end
  end.

Definition reactivateComponent (fuel : nat) (vnode : nat) (parentElm refElm : option nat)
    : M unit :=
  reactivate_inner fuel vnode ;;
  let* V := vnode_of vnode in
  insert parentElm (elm V) refElm.

(** [createComponent(vnode, insertedVnodeQueue, parentElm, refElm)]; the
    result is whether it returned [true]. *)
Definition createComponent (fuel : nat) (vnode : nat) (parentElm refElm : option nat)
    : M bool :=
  let* V := vnode_of vnode in
  match data V with
  | Some i =>
      let* D := fetch datas i in
      let isReactivated := isDef (componentInstance V) && d_keepAlive D in
      match d_hook D with
      | Some h => when (h_init h) (call (HookInit vnode false))
      | None => ret tt
      end ;;
      let* V := vnode_of vnode in
      if isDef (componentInstance V) then
        initComponent fuel vnode ;;
        let* V := vnode_of vnode in
        insert parentElm (elm V) refElm ;;
        when isReactivated (reactivateComponent fuel vnode parentElm refElm) ;;
        ret true
      else ret false
  | None => ret false
  end.

(** [vnode.ns ? ... : ...]: the empty string counts as false. *)
Definition truthy (o : option string) : option string :=
  match o with
  | Some s => if String.eqb s EmptyString then None else Some s
  | None => None
  end.

(** [String(vnode.text)] *)
Definition String_of (o : option string) : string :=
  match o with Some t => t | None => "undefined" end.

(** [createChildren(vnode, children, insertedVnodeQueue)], given [createElm] *)
Definition createChildren_with
    (createElm : nat → option nat → option nat → bool → option nat → Z → M unit)
    (fuel : nat) (vnode : nat) (children : option nat) : M unit :=
  match children with
  | Some ch =>
      for_from fuel
        (λ i, let* len := array_length ch in ret (i <? len)%Z)
        (λ i, let* c := array_item ch i in
              let* c := deref c in
              let* V := vnode_of vnode in
              createElm c (elm V) None true (Some ch) i)
        0%Z
  | None =>
      let* V := vnode_of vnode in
      match text V with
      | Some t =>
          let* n := createTextNode t in
          appendChild (elm V) (Some n)
      | None => ret tt
      end
  end.

(** [createElm(vnode, insertedVnodeQueue, parentElm, refElm, nested,
    ownerArray, index)] *)
Fixpoint createElm (fuel : nat) (vnode : nat) (parentElm refElm : option nat)
    (nested : bool) (ownerArray : option nat) (index : Z) : M unit :=
  match fuel with
  | 0 => throw OutOfFuel
  | S fuel =>
      let* vnode := clone_if_used vnode ownerArray index in
      update_vnode vnode (with_isRootInsert (negb nested)) ;;
      let* created := createComponent fuel vnode parentElm refElm in
      if created then ret tt
      else
        let* V := vnode_of vnode in
        let data := data V in
        let children := children V in
        match tag V with
        | Some tag =>
            let* e := match truthy (ns V) with
                      | Some ns => createElementNS ns tag
                      | None => createElement tag
                      end in
            update_vnode vnode (with_elm (Some e)) ;;
            setScope fuel vnode ;;
            createChildren_with (createElm fuel) fuel vnode children ;;
            when (isDef data) (invokeCreateHooks vnode) ;;
            let* V := vnode_of vnode in
            insert parentElm (elm V) refElm
        | None =>
            let* e := if isComment V then createComment (String_of (text V))
                      else createTextNode (String_of (text V)) in
            update_vnode vnode (with_elm (Some e)) ;;
            let* V := vnode_of vnode in
            insert parentElm (elm V) refElm
        end
  end.

(** [addVnodes(parentElm, refElm, vnodes, startIdx, endIdx,
    insertedVnodeQueue)] *)
Definition addVnodes (fuel : nat) (parentElm refElm : option nat) (vnodes : nat)
    (startIdx endIdx : Z) : M unit :=
  for_from fuel
    (λ i, ret (i <=? endIdx)%Z)
    (λ i, let* c := array_item vnodes i in
          let* c := deref c in
          createElm fuel c parentElm refElm false (Some vnodes) i)
    startIdx.

(** [invokeDestroyHook(vnode)] *)
Fixpoint invokeDestroyHook (fuel : nat) (vnode : nat) : M unit :=
  match fuel with
  | 0 => throw OutOfFuel
  | S fuel =>
      let* V := vnode_of vnode in
      match data V with
      | Some d =>
          let* D := fetch datas d in
          match d_hook D with
          | Some h => when (h_destroy h) (call (HookDestroy vnode))
          | None => ret tt
          end ;;
          for_each (cbs Destroy) (λ j, call (ModuleDestroy j vnode))
      | None => ret tt
      end ;;
      let* V := vnode_of vnode in
      when (isDef (children V))
        (for_from fuel
           (λ j, let* V := vnode_of vnode in
                 let* ch := deref (children V) in
                 let* len := array_length ch in
                 ret (j <? len)%Z)
           (λ j, let* V := vnode_of vnode in
                 let* ch := deref (children V) in
                 let* c := array_item ch j in
                 let* c := deref c in
                 invokeDestroyHook fuel c)
           0%Z)
  end.

(** [removeAndInvokeRemoveHook(vnode, rm)] *)
Fixpoint removeAndInvokeRemoveHook (fuel : nat) (vnode : nat) (rm : option nat) : M unit :=
  match fuel with
  | 0 => throw OutOfFuel
  | S fuel =>
      let* V := vnode_of vnode in
      if isDef rm || isDef (data V) then
        let listeners := (Z.of_nat (length (cbs Remove)) + 1)%Z in
        let* rm := match rm with
                   | Some r =>
                       let* R := fetch rmCbs r in
                       modify (set_rmCbs <[r := mkRmCb (rm_childElm R)
                                                  (rm_listeners R + listeners)]>) ;;
                       ret r
                   | None => createRmCb (elm V) listeners
                   end in
        match componentInstance V with
        | Some ci =>
            let* C := fetch components ci in
            match c_vnode C with
            | Some i =>
                let* Inner := vnode_of i in
                when (isDef (data Inner)) (removeAndInvokeRemoveHook fuel i (Some rm))
            | None => ret tt
            end
        | None => ret tt
        end ;;
        for_each (cbs Remove) (λ j, call (ModuleRemove j vnode rm)) ;;
        let* V := vnode_of vnode in
        let* d := deref (data V) in
        let* D := fetch datas d in
        match d_hook D with
        | Some h => if h_remove h then call (HookRemove vnode rm) else invoke_rm rm
        | None => invoke_rm rm
        end
      else removeNode (elm V)
  end.

(** [removeVnodes(vnodes, startIdx, endIdx)] *)
Definition removeVnodes (fuel : nat) (vnodes : nat) (startIdx endIdx : Z) : M unit :=
  for_from fuel
    (λ i, ret (i <=? endIdx)%Z)
    (λ i, let* ch := array_item vnodes i in
          match ch with
          | Some ch =>
              let* C := vnode_of ch in
              if isDef (tag C) then
                removeAndInvokeRemoveHook fuel ch None ;;
                invokeDestroyHook fuel ch
              else removeNode (elm C)
          | None => ret tt
          end)
    startIdx.

(** The variables of the loop of [updateChildren]. *)
Record Cursor := mkCursor {
  oldStartIdx : Z;
  newStartIdx : Z;
  oldEndIdx : Z;
  newEndIdx : Z;
  oldStartVnode : option nat;
  oldEndVnode : option nat;
  newStartVnode : option nat;
  newEndVnode : option nat;
  oldKeyToIdx : option (gmap string Z)
}.

Section UpdateChildren.

(** [patchVnode(oldVnode, vnode, insertedVnodeQueue, ownerArray, index)] and
    [createElm], which [updateChildren] calls. *)
Variable patchVnode : nat → nat → option nat → Z → M unit.
Variable createElm' : nat → option nat → option nat → bool → option nat → Z → M unit.

Variable parentElm : option nat.
Variable oldCh newCh : nat.
Variable canMove : bool.

(** One turn of the loop of [updateChildren]. *)
Definition updateChildren_step (c : Cursor) : M Cursor :=
  match oldStartVnode c, oldEndVnode c with
  | None, _ =>
      let* v := array_item oldCh (oldStartIdx c + 1) in
      ret (mkCursor (oldStartIdx c + 1) (newStartIdx c) (oldEndIdx c) (newEndIdx c)
             v (oldEndVnode c) (newStartVnode c) (newEndVnode c) (oldKeyToIdx c))
  | Some _, None =>
      let* v := array_item oldCh (oldEndIdx c - 1) in
      ret (mkCursor (oldStartIdx c) (newStartIdx c) (oldEndIdx c - 1) (newEndIdx c)
             (oldStartVnode c) v (newStartVnode c) (newEndVnode c) (oldKeyToIdx c))
  | Some oldStart, Some oldEnd =>
      let* newStart := deref (newStartVnode c) in
      let* same := sameVnode oldStart newStart in
      if same then
        patchVnode oldStart newStart (Some newCh) (newStartIdx c) ;;
        let* o := array_item oldCh (oldStartIdx c + 1) in
        let* n := array_item newCh (newStartIdx c + 1) in
        ret (mkCursor (oldStartIdx c + 1) (newStartIdx c + 1) (oldEndIdx c) (newEndIdx c)
               o (oldEndVnode c) n (newEndVnode c) (oldKeyToIdx c))
      else
      let* newEnd := deref (newEndVnode c) in
      let* same := sameVnode oldEnd newEnd in
      if same then
        patchVnode oldEnd newEnd (Some newCh) (newEndIdx c) ;;
        let* o := array_item oldCh (oldEndIdx c - 1) in
        let* n := array_item newCh (newEndIdx c - 1) in
        ret (mkCursor (oldStartIdx c) (newStartIdx c) (oldEndIdx c - 1) (newEndIdx c - 1)
               (oldStartVnode c) o (newStartVnode c) n (oldKeyToIdx c))
      else
      let* same := sameVnode oldStart newEnd in
      if same then
        patchVnode oldStart newEnd (Some newCh) (newEndIdx c) ;;
        when canMove
          (let* Start := vnode_of oldStart in
           let* End_ := vnode_of oldEnd in
           let* sibling := nextSibling (elm End_) in
           insertBefore parentElm (elm Start) sibling) ;;
        let* o := array_item oldCh (oldStartIdx c + 1) in
        let* n := array_item newCh (newEndIdx c - 1) in
        ret (mkCursor (oldStartIdx c + 1) (newStartIdx c) (oldEndIdx c) (newEndIdx c - 1)
               o (oldEndVnode c) (newStartVnode c) n (oldKeyToIdx c))
      else
      let* same := sameVnode oldEnd newStart in
      if same then
        patchVnode oldEnd newStart (Some newCh) (newStartIdx c) ;;
        when canMove
          (let* End_ := vnode_of oldEnd in
           let* Start := vnode_of oldStart in
           insertBefore parentElm (elm End_) (elm Start)) ;;
        let* o := array_item oldCh (oldEndIdx c - 1) in
        let* n := array_item newCh (newStartIdx c + 1) in
        ret (mkCursor (oldStartIdx c) (newStartIdx c + 1) (oldEndIdx c - 1) (newEndIdx c)
               (oldStartVnode c) o n (newEndVnode c) (oldKeyToIdx c))
      else
        let* map := match oldKeyToIdx c with
                    | Some map => ret map
                    | None => createKeyToOldIdx oldCh (oldStartIdx c) (oldEndIdx c)
                    end in
        let* N := vnode_of newStart in
        let* idxInOld := match key N with
                         | KUndef => findIdxInOld newStart oldCh (oldStartIdx c) (oldEndIdx c)
                         | k => ret (map !! key_prop k)
                         end in
        match idxInOld with
        | None =>
            let* Start := vnode_of oldStart in
            createElm' newStart parentElm (elm Start) false (Some newCh) (newStartIdx c)
        | Some idxInOld =>
            let* vnodeToMove := array_item oldCh idxInOld in
            let* vnodeToMove := deref vnodeToMove in
            let* same := sameVnode vnodeToMove newStart in
            if same then
              patchVnode vnodeToMove newStart (Some newCh) (newStartIdx c) ;;
              array_write oldCh idxInOld None ;;
              when canMove
                (let* V := vnode_of vnodeToMove in
                 let* Start := vnode_of oldStart in
                 insertBefore parentElm (elm V) (elm Start))
            else
              let* Start := vnode_of oldStart in
              createElm' newStart parentElm (elm Start) false (Some newCh) (newStartIdx c)
        end ;;
        let* n := array_item newCh (newStartIdx c + 1) in
        ret (mkCursor (oldStartIdx c) (newStartIdx c + 1) (oldEndIdx c) (newEndIdx c)
               (oldStartVnode c) (oldEndVnode c) n (newEndVnode c) (Some map))
  end.

(** [while (oldStartIdx <= oldEndIdx && newStartIdx <= newEndIdx)]: every turn
    brings one of the two pairs of indices closer, so the loop is over after
    at most [oldCh.length + newCh.length] turns. *)
Fixpoint updateChildren_loop (turns : nat) (c : Cursor) : M Cursor :=
  if (oldStartIdx c <=? oldEndIdx c)%Z && (newStartIdx c <=? newEndIdx c)%Z then
    match turns with
    | 0 => throw OutOfFuel
    | S turns =>
        let* c := updateChildren_step c in
        updateChildren_loop turns c
    end
  else ret c.

End UpdateChildren.

(** [updateChildren(parentElm, oldCh, newCh, insertedVnodeQueue, removeOnly)],
    given [patchVnode] *)
Definition updateChildren_with (patchVnode : nat → nat → option nat → Z → M unit)
    (fuel : nat) (parentElm : option nat) (oldCh newCh : nat) (removeOnly : bool) : M unit :=
  let* oldLength := array_length oldCh in
  let* newLength := array_length newCh in
  let* oldStartVnode := array_item oldCh 0 in
  let* oldEndVnode := array_item oldCh (oldLength - 1) in
  let* newStartVnode := array_item newCh 0 in
  let* newEndVnode := array_item newCh (newLength - 1) in
  let canMove := negb removeOnly in
  let* c := updateChildren_loop patchVnode (createElm fuel) parentElm oldCh newCh canMove
              (Z.to_nat (oldLength + newLength))
              (mkCursor 0 0 (oldLength - 1) (newLength - 1)
                 oldStartVnode oldEndVnode newStartVnode newEndVnode None) in
  if (oldStartIdx c >? oldEndIdx c)%Z then
    let* next := array_item newCh (newEndIdx c + 1) in
    let* refElm := match next with
                   | Some v => let* V := vnode_of v in ret (elm V)
                   | None => ret None
                   end in
    addVnodes fuel parentElm refElm newCh (newStartIdx c) (newEndIdx c)
  else if (newStartIdx c >? newEndIdx c)%Z then
    removeVnodes fuel oldCh (oldStartIdx c) (oldEndIdx c)
  else ret tt.

Definition text_eq (a b : option string) : bool :=
  match a, b with
  | Some x, Some y => String.eqb x y
  | None, None => true
  | _, _ => false
  end.

Definition hook_of (data : option nat) : M (option Hooks) :=
  match data with
  | Some d => let* D := fetch datas d in ret (d_hook D)
  | None => ret None
  end.

(** [patchVnode(oldVnode, vnode, insertedVnodeQueue, ownerArray, index,
    removeOnly)] *)
Fixpoint patchVnode (fuel : nat) (oldVnode vnode : nat) (ownerArray : option nat)
    (index : Z) (removeOnly : bool) : M unit :=
  match fuel with
  | 0 => throw OutOfFuel
  | S fuel =>
      if Nat.eqb oldVnode vnode then ret tt
      else
        let* vnode := clone_if_used vnode ownerArray index in
        let* Old := vnode_of oldVnode in
        update_vnode vnode (with_elm (elm Old)) ;;
        let elm_ := elm Old in
        if isAsyncPlaceholder Old then
          let* V := vnode_of vnode in
          let* f := deref (asyncFactory V) in
          let* F := fetch factories f in
          if f_resolved F then hydrate (elm Old) vnode ;; ret tt
          else update_vnode vnode (with_isAsyncPlaceholder true)
        else
        let* V := vnode_of vnode in
        if isStatic V && isStatic Old && key_eq (key V) (key Old) && (isCloned V || isOnce V)
        then update_vnode vnode (with_componentInstance (componentInstance Old))
        else
          let data := data V in
          let* h := hook_of data in
          match h with
          | Some h => when (h_prepatch h) (call (HookPrepatch oldVnode vnode))
          | None => ret tt
          end ;;
          let* Old := vnode_of oldVnode in
          let* V := vnode_of vnode in
          let oldCh := children Old in
          let ch := children V in
          (if isDef data then
             let* patchable := isPatchable fuel vnode in
             if patchable then
               for_each (cbs Update) (λ j, call (ModuleUpdate j oldVnode vnode)) ;;
               let* h := hook_of data in
               match h with
               | Some h => when (h_update h) (call (HookUpdate oldVnode vnode))
               | None => ret tt
               end
             else ret tt
           else ret tt) ;;
          let* V := vnode_of vnode in
          match text V with
          | None =>
              match oldCh, ch with
              | Some oldCh, Some ch =>
                  if Nat.eqb oldCh ch then ret tt
                  else updateChildren_with
                         (λ o n a i, patchVnode fuel o n a i false)
                         fuel elm_ oldCh ch removeOnly
              | None, Some ch =>
                  let* Old := vnode_of oldVnode in
                  when (isDef (text Old)) (setTextContent elm_ EmptyString) ;;
                  let* len := array_length ch in
                  addVnodes fuel elm_ None ch 0 (len - 1)
              | Some oldCh, None =>
                  let* len := array_length oldCh in
                  removeVnodes fuel oldCh 0 (len - 1)
              | None, None =>
                  let* Old := vnode_of oldVnode in
                  when (isDef (text Old)) (setTextContent elm_ EmptyString)
              end
          | Some t =>
              let* Old := vnode_of oldVnode in
              if text_eq (text Old) (Some t) then ret tt else setTextContent elm_ t
          end ;;
          let* h := hook_of data in
          match h with
          | Some h => when (h_postpatch h) (call (HookPostpatch oldVnode vnode))
          | None => ret tt
          end
  end.

(** [updateChildren], with the [patchVnode] above *)
Definition updateChildren (fuel : nat) (parentElm : option nat) (oldCh newCh : nat)
    (removeOnly : bool) : M unit :=
  updateChildren_with (λ o n a i, patchVnode fuel o n a i false)
    fuel parentElm oldCh newCh removeOnly.

End Backend.

(** ** What is claimed of the patch algorithm *)

(** The operations done between two stores. *)
Definition ops_since (s s' : Store) : list Op := drop (length (ops s)) (ops s').

Definition is_node_operation (o : Op) : bool :=
  match o with Call _ => false | _ => true end.

(** The calls of node operations among [l], in order. *)
Definition node_operations (l : list Op) : list Op := filter is_node_operation l.

Definition emit_all (l : list Op) (s : Store) : Store := foldl (λ s o, emit o s) s l.

(** The references of a vnode lead somewhere. *)
Definition known (s : Store) (V : VNode) : Prop :=
  (∀ d, data V = Some d → is_Some (datas s !! d)) ∧
  (∀ f, asyncFactory V = Some f → is_Some (factories s !! f)).

(** The [type] that [sameInputType] reads: [attrs.type] when the vnode has
    data with [attrs], [false] otherwise. *)
Definition type_attribute (s : Store) (V : VNode) : value :=
  match (data V ≫= (λ d, datas s !! d)) ≫= d_attrs with
  | Some t => t
  | None => VBool false
  end.

Section SameNode.

Variable isTextInputType : value → bool.

(** The input types of two vnodes match: they are the same, or both are types
    of text input. *)
Definition input_types_match (s : Store) (A B : VNode) : Prop :=
  strict_eq (type_attribute s A) (type_attribute s B) = true ∨
  (isTextInputType (type_attribute s A) = true ∧
   isTextInputType (type_attribute s B) = true).

(** Same tag, same comment flag, same definedness of data and, for an
    [input], matching input types. *)
Definition same_element (s : Store) (A B : VNode) : Prop :=
  tag A = tag B ∧ isComment A = isComment B ∧ isDef (data A) = isDef (data B) ∧
  (tag A = Some "input"%string → input_types_match s A B).

(** No error is recorded on the async factory of the vnode. *)
Definition factory_without_error (s : Store) (V : VNode) : Prop :=
  ∃ f F, asyncFactory V = Some f ∧ factories s !! f = Some F ∧ f_error F = false.

(** The condition C6 gives for [sameVnode(a, b)] to return [true]: in its
    second case both vnodes are async placeholders, of a factory without
    error. *)
Definition same_node_spec (s : Store) (A B : VNode) : Prop :=
  key_eq (key A) (key B) = true ∧
  same_ref (asyncFactory A) (asyncFactory B) = true ∧
  (same_element s A B ∨
   (isAsyncPlaceholder A = true ∧ isAsyncPlaceholder B = true ∧
    factory_without_error s B)).

(** The condition the source tests: in the second case the first vnode is an
    async placeholder, and nothing is asked of the second but that no error
    is recorded on its factory. *)
Definition same_node (s : Store) (A B : VNode) : Prop :=
  key_eq (key A) (key B) = true ∧
  same_ref (asyncFactory A) (asyncFactory B) = true ∧
  (same_element s A B ∨
   (isAsyncPlaceholder A = true ∧ factory_without_error s B)).

End SameNode.

(** An element without children, with a key, that is neither a component
    nor static nor an async placeholder and whose data has no hooks; [e] is
    its output node and [t] its text. *)
Definition leaf_element (s : Store) (v : nat) (k : Key) (e : option nat)
    (t : option string) : Prop :=
  ∃ V d D,
    vnodes s !! v = Some V ∧ key V = k ∧ elm V = e ∧
    isDef (tag V) = true ∧ children V = None ∧ text V = t ∧
    data V = Some d ∧ datas s !! d = Some D ∧ d_hook D = None ∧
    componentInstance V = None ∧ isStatic V = false ∧ isAsyncPlaceholder V = false.

(** The calls of the update callbacks of the modules for a pair of vnodes. *)
Definition update_calls (modules : list ModuleHooks) (oldVnode vnode : nat) : list Op :=
  map (λ j, Call (ModuleUpdate j oldVnode vnode)) (cbs modules Update).

(** The store after [vnode] was given the output node [e] of [oldVnode] and
    the update callbacks were called. *)
Definition patched (modules : list ModuleHooks) (oldVnode vnode : nat) (e : option nat)
    (s : Store) : Store :=
  emit_all (update_calls modules oldVnode vnode) (set_vnodes (alter (with_elm e) vnode) s).

(** The output node of a vnode. *)
Definition rendered (s : Store) (v : nat) : option nat := vnodes s !! v ≫= elm.

Definition children_of (s : Store) (n : nat) : option (list nat) :=
  n_children <$> dom s !! n.

Definition parent_of (s : Store) (n : nat) : option nat := dom s !! n ≫= n_parent.

(** The scenario of C7: the old children [A, B, C], with keys 1, 2 and 3, are
    rendered as the children [ea, eb, ec] of [parentElm]; the new children
    are [C', A', B'] with keys 3, 1 and 2, not rendered yet; vnodes of equal
    key satisfy [sameVnode] and have the same text, [ta], [tb] or [tc]. *)
Record move_scenario (isTextInputType : value → bool) (s : Store)
    (parentElm oldCh newCh a b c a' b' c' ea eb ec : nat)
    (ta tb tc : option string) : Prop := {
  ms_oldCh : arrays s !! oldCh = Some [Some a; Some b; Some c];
  ms_newCh : arrays s !! newCh = Some [Some c'; Some a'; Some b'];
  ms_vnodes : NoDup [a; b; c; a'; b'; c'];
  ms_a : leaf_element s a (KNum 1) (Some ea) ta;
  ms_b : leaf_element s b (KNum 2) (Some eb) tb;
  ms_c : leaf_element s c (KNum 3) (Some ec) tc;
  ms_a' : leaf_element s a' (KNum 1) None ta;
  ms_b' : leaf_element s b' (KNum 2) None tb;
  ms_c' : leaf_element s c' (KNum 3) None tc;
  ms_same_a : sameVnode isTextInputType a a' s = Ok (true, s);
  ms_same_b : sameVnode isTextInputType b b' s = Ok (true, s);
  ms_same_c : sameVnode isTextInputType c c' s = Ok (true, s);
  ms_children : children_of s parentElm = Some [ea; eb; ec];
  ms_parent : parent_of s ec = Some parentElm;
  ms_nodes : NoDup [parentElm; ea; eb; ec]
}.

(** ** Sample stores *)

Definition leaf (t : string) (d : nat) (k : Z) (e : option nat) (txt : option string)
    : VNode :=
  mkVNode (Some t) (Some d) None txt e None None None None None (KNum k) None None None
    false true false false false None None false.

Definition keyed (k : Z) : VNodeData := mkData (KNum k) None None false None false.

Definition li (p : option nat) : Node := mkNode (Element None "li") EmptyString p [] [].

(** A list [ul] with the items A, B, C rendered, the first two with a text,
    and the vnodes C', A', B' of the next render. *)
Definition sample_move : Store :=
  mkStore
    (list_to_map [(0, leaf "li" 0 1 (Some 1) (Some "one"));
                  (1, leaf "li" 1 2 (Some 2) (Some "two"));
                  (2, leaf "li" 2 3 (Some 3) None);
                  (3, leaf "li" 3 3 None None);
                  (4, leaf "li" 4 1 None (Some "one"));
                  (5, leaf "li" 5 2 None (Some "two"))])
    6
    (list_to_map [(0, keyed 1); (1, keyed 2); (2, keyed 3);
                  (3, keyed 3); (4, keyed 1); (5, keyed 2)])
    (list_to_map [(0, [Some 0; Some 1; Some 2]); (1, [Some 3; Some 4; Some 5])])
    2 ∅ ∅
    (list_to_map [(0, mkNode (Element None "ul") EmptyString None [1; 2; 3] []);
                  (1, mkNode (Element None "li") EmptyString (Some 0) [4] []);
                  (2, mkNode (Element None "li") EmptyString (Some 0) [5] []);
                  (3, li (Some 0));
                  (4, mkNode TextNode "one" (Some 1) [] []);
                  (5, mkNode TextNode "two" (Some 2) [] [])])
    6 ∅ 0 [] None [].

(** A backend with one module that defines every callback; calls from the
    patch algorithm leave the stores alone. *)
Definition sample_modules : list ModuleHooks := [mkModule true true true true true].

Definition sample_external (cb : Callback) : M unit := ret tt.

Definition sample_hydrate (e : option nat) (v : nat) : M bool := ret false.

(** [makeMap('text,number,password,search,email,tel,url')] *)
Definition sample_isTextInputType (v : value) : bool :=
  match v with
  | VStr t => bool_decide (t ∈ ["text"; "number"; "password"; "search"; "email";
                                "tel"; "url"]%string)
  | _ => false
  end.

(** An async placeholder rendered as a comment, 0, and the vnode of the
    component its factory resolved to, 1: same key, same factory, on which no
    error is recorded. *)
Definition sample_async : Store :=
  mkStore
    (list_to_map
       [(0, mkVNode None None None (Some EmptyString) (Some 0) None None None None None
              KUndef None None None false true true false false (Some 0) None true);
        (1, mkVNode (Some "vue-component-1-page"%string) (Some 0) None None None None None
              None None None KUndef None None None false true false false false (Some 0)
              None false)])
    2 (list_to_map [(0, mkData KUndef None None false None false)]) ∅ 0 ∅
    (list_to_map [(0, mkFactory false true)])
    (list_to_map [(0, mkNode CommentNode EmptyString None [] [])])
    1 ∅ 0 [] None [].

(** ** More scenarios of the patch algorithm *)

(** A list rendered again with nothing changed: the old children [olds] are
    rendered, the new children [news] are not yet; the vnodes at the same
    place are elements without children, of the same key and the same text,
    and satisfy [sameVnode]. *)
Record unchanged_scenario (isTextInputType : value → bool) (s : Store)
    (oldCh newCh : nat) (olds news : list nat) : Prop := {
  us_oldCh : arrays s !! oldCh = Some (Some <$> olds);
  us_newCh : arrays s !! newCh = Some (Some <$> news);
  us_vnodes : NoDup (olds ++ news);
  us_pairs :
    Forall2 (λ o n, ∃ k e t, leaf_element s o k (Some e) t ∧ leaf_element s n k None t ∧
                             sameVnode isTextInputType o n s = Ok (true, s))
            olds news
}.

(** The vnodes at the same place of [olds] and [news], from place [i] on,
    are as [unchanged_scenario] asks. *)
Definition pairs_from (isTextInputType : value → bool) (oldCh newCh : nat)
    (olds news : list nat) (i : nat) (s : Store) : Prop :=
  arrays s !! oldCh = Some (Some <$> olds) ∧
  arrays s !! newCh = Some (Some <$> news) ∧
  ∀ j o n, i ≤ j → olds !! j = Some o → news !! j = Some n →
    ∃ k e t, leaf_element s o k (Some e) t ∧ leaf_element s n k None t ∧
             sameVnode isTextInputType o n s = Ok (true, s).

(** The variables of the loop of [updateChildren] after [i] turns that
    found the two start vnodes to be the same. *)
Definition cursor_at (olds news : list nat) (i : nat) : Cursor :=
  mkCursor (Z.of_nat i) (Z.of_nat i)
    (Z.of_nat (length olds) - 1) (Z.of_nat (length news) - 1)
    (olds !! i) (last olds) (news !! i) (last news) None.

(** A list [ul] with two items rendered, and the vnodes of a next render
    that changes nothing. *)
Definition sample_unchanged : Store :=
  mkStore
    (list_to_map [(0, leaf "li" 0 1 (Some 1) (Some "one"));
                  (1, leaf "li" 1 2 (Some 2) (Some "two"));
                  (2, leaf "li" 2 1 None (Some "one"));
                  (3, leaf "li" 3 2 None (Some "two"))])
    4
    (list_to_map [(0, keyed 1); (1, keyed 2); (2, keyed 1); (3, keyed 2)])
    (list_to_map [(0, [Some 0; Some 1]); (1, [Some 2; Some 3])])
    2 ∅ ∅
    (list_to_map [(0, mkNode (Element None "ul") EmptyString None [1; 2] []);
                  (1, mkNode (Element None "li") EmptyString (Some 0) [3] []);
                  (2, mkNode (Element None "li") EmptyString (Some 0) [4] []);
                  (3, mkNode TextNode "one" (Some 1) [] []);
                  (4, mkNode TextNode "two" (Some 2) [] [])])
    5 ∅ 0 [] None [].

(** A text vnode, as [createTextVNode] makes them, with text [t] and output
    node [e]. *)
Definition text_vnode (s : Store) (v : nat) (e : option nat) (t : string) : Prop :=
  ∃ V, vnodes s !! v = Some V ∧ tag V = None ∧ data V = None ∧ children V = None ∧
       text V = Some t ∧ elm V = e ∧ isStatic V = false ∧ isAsyncPlaceholder V = false.

(** The vnode at place [i] of the array [l] has a key, which names the
    property [p]. *)
Definition keyed_at (s : Store) (l : list (option nat)) (i : Z) (p : string) : Prop :=
  ∃ c C, item l i = Some c ∧ vnodes s !! c = Some C ∧ key C ≠ KUndef ∧
         key_prop (key C) = p.

(** [k] calls of [rm ()], one after the other. *)
Fixpoint rm_calls (k : nat) (rm : nat) : M unit :=
  match k with
  | 0 => ret tt
  | S k => invoke_rm rm ;; rm_calls k rm
  end.

(** Two text vnodes, 0 and 1, the first rendered as the text node 0; the
    static vnode 2, rendered as the element 1, and the static vnode 3 of the
    same key, rendered before and used again in the array of children 0.
    The callback 0 was made by [createRmCb] for the element 1 and two
    listeners. *)
Definition sample_texts : Store :=
  mkStore
    (list_to_map
       [(0, mkVNode None None None (Some "one"%string) (Some 0) None None None None None
              KUndef None None None false true false false false None None false);
        (1, mkVNode None None None (Some "two"%string) None None None None None None
              KUndef None None None false true false false false None None false);
        (2, mkVNode (Some "p"%string) None None None (Some 1) None None None None None
              (KStr "__static__0") None None None true true false false false None None
              false);
        (3, mkVNode (Some "p"%string) None None None (Some 3) None None None None None
              (KStr "__static__0") None None None true true false false false None None
              false)])
    4 ∅ (list_to_map [(0, [Some 3])]) 1 ∅ ∅
    (list_to_map [(0, mkNode TextNode "one" None [] []);
                  (1, mkNode (Element None "p") EmptyString (Some 2) [] []);
                  (2, mkNode (Element None "div") EmptyString None [1] []);
                  (3, mkNode (Element None "p") EmptyString None [] [])])
    4 ∅ 0 [] None [].

(** A vnode without data and without children, rendered as [e]: a text
    vnode, a comment, or an element that has neither. *)
Definition bare_vnode (s : Store) (v e : nat) : Prop :=
  ∃ V, vnodes s !! v = Some V ∧ data V = None ∧ children V = None ∧ elm V = Some e.

(** The old children [olds] are bare vnodes rendered as the children [es]
    of the node [p], and there are no new children. *)
Record removal_scenario (s : Store) (p oldCh newCh : nat) (olds es : list nat) : Prop := {
  rs_oldCh : arrays s !! oldCh = Some (Some <$> olds);
  rs_newCh : arrays s !! newCh = Some [];
  rs_bare : Forall2 (bare_vnode s) olds es;
  rs_nodes : NoDup (p :: es);
  rs_children : children_of s p = Some es;
  rs_parent : ∀ e, e ∈ es → parent_of s e = Some p
}.

(** A paragraph with a text and a line break, rendered again with no
    child. *)
Definition sample_emptied : Store :=
  mkStore
    (list_to_map
       [(0, mkVNode None None None (Some "one"%string) (Some 1) None None None None None
              KUndef None None None false true false false false None None false);
        (1, mkVNode (Some "br"%string) None None None (Some 2) None None None None None
              KUndef None None None false true false false false None None false)])
    2 ∅ (list_to_map [(0, [Some 0; Some 1]); (1, [])]) 2 ∅ ∅
    (list_to_map [(0, mkNode (Element None "p") EmptyString None [1; 2] []);
                  (1, mkNode TextNode "one" (Some 0) [] []);
                  (2, mkNode (Element None "br") EmptyString (Some 0) [] [])])
    3 ∅ 0 [] None [].

(** The calls of the create callbacks of the modules for a vnode. *)
Definition create_calls (modules : list ModuleHooks) (vnode : nat) : list Op :=
  map (λ j, Call (ModuleCreate j vnode)) (cbs modules Create).

(** A vnode that is outside of any scope of styles: it has no namespace, no
    context, no parent and no scope id of a functional component. *)
Definition unscoped (s : Store) (v : nat) : Prop :=
  ∃ V, vnodes s !! v = Some V ∧ ns V = None ∧ context V = None ∧ parent V = None ∧
       fnScopeId V = None ∧ fnContext V = None.

End VDom.

(** ** Lemmas on [remove] *)

Lemma remove_notin w l : w ∉ l → remove w l = l.
Proof.
  induction l as [|x l IH]; simpl; [done|].
  intros Hn. apply not_elem_of_cons in Hn as [Hne Hn].
  destruct (decide (x = w)); [congruence|]. by rewrite IH.
Qed.

Lemma elem_of_remove_ne w x l : x ≠ w → x ∈ remove w l ↔ x ∈ l.
Proof.
  intros Hne. induction l as [|y l IH]; simpl; [done|].
  destruct (decide (y = w)) as [->|Hy].
  - rewrite elem_of_cons. naive_solver.
  - rewrite !elem_of_cons, IH. done.
Qed.

Lemma elem_of_remove w x l : x ∈ remove w l → x ∈ l.
Proof.
  induction l as [|y l IH]; simpl; [done|].
  destruct (decide (y = w)); rewrite !elem_of_cons; naive_solver.
Qed.

Lemma NoDup_remove w l : NoDup l → NoDup (remove w l).
Proof.
  induction 1 as [|y l Hy Hl IH]; simpl; [constructor|].
  destruct (decide (y = w)); [done|].
  constructor; [|done]. intros H. by apply elem_of_remove in H.
Qed.

Lemma notin_remove w l : NoDup l → w ∉ remove w l.
Proof.
  induction 1 as [|y l Hy Hl IH]; simpl; [by apply not_elem_of_nil|].
  destruct (decide (y = w)) as [->|Hne]; [done|].
  apply not_elem_of_cons. done.
Qed.

(** ** Projections of the state after the operations on Deps *)

Lemma subs_of_addSub d sub s d' :
  subs_of (Dep_addSub d sub s) d' =
  if decide (d' = d) then subs_of s d ++ [sub] else subs_of s d'.
Proof.
  unfold subs_of, Dep_addSub; simpl. destruct (decide (d' = d)) as [->|Hne].
  - by rewrite lookup_insert_eq.
  - by rewrite lookup_insert_ne.
Qed.

Lemma subs_of_removeSub d sub s d' :
  subs_of (Dep_removeSub d sub s) d' =
  if decide (d' = d) then remove sub (subs_of s d) else subs_of s d'.
Proof.
  unfold subs_of, Dep_removeSub; simpl. destruct (decide (d' = d)) as [->|Hne].
  - by rewrite lookup_insert_eq.
  - by rewrite lookup_insert_ne.
Qed.

Lemma only_graph_refl s : only_graph s s.
Proof. by destruct s. Qed.

Lemma only_graph_trans s1 s2 s3 :
  only_graph s1 s2 → only_graph s2 s3 → only_graph s1 s3.
Proof. unfold only_graph. intros -> ->. reflexivity. Qed.

Lemma only_graph_addSub d w s : only_graph s (Dep_addSub d w s).
Proof. by destruct s. Qed.

Lemma only_graph_removeSub d w s : only_graph s (Dep_removeSub d w s).
Proof. by destruct s. Qed.

Lemma only_graph_upd_watcher w f s : only_graph s (upd_watcher w f s).
Proof. by destruct s. Qed.

Lemma watchers_addSub d w s : watchers (Dep_addSub d w s) = watchers s.
Proof. done. Qed.

Lemma watchers_removeSub d w s : watchers (Dep_removeSub d w s) = watchers s.
Proof. done. Qed.

Lemma subs_of_upd_watcher w f s d : subs_of (upd_watcher w f s) d = subs_of s d.
Proof. done. Qed.

(** ** [addDep] and the loop of reads *)

Lemma addDep_spec w d s W :
  watchers s !! w = Some W →
  only_graph s (Watcher_addDep w d s) ∧
  watchers (Watcher_addDep w d s) =
    <[w := (if decide (d ∈ w_newDepIds W) then W else with_newDep d W)]> (watchers s) ∧
  ∀ d', subs_of (Watcher_addDep w d s) d' =
        subs_of s d' ++
        (if decide (d' = d ∧ (d ∉ w_newDepIds W) ∧ d ∉ w_depIds W) then [w] else []).
Proof.
  intros HW. unfold Watcher_addDep. rewrite HW.
  destruct (decide (d ∈ w_newDepIds W)) as [Hin|Hnin].
  { split; [apply only_graph_refl|]. split; [by rewrite insert_id|].
    intros d'. rewrite decide_False by naive_solver. by rewrite app_nil_r. }
  destruct (decide (d ∈ w_depIds W)) as [Hin'|Hnin'].
  - split; [apply only_graph_upd_watcher|]. split.
    + simpl. apply map_eq; intros i. destruct (decide (i = w)) as [->|Hne].
      * by rewrite lookup_alter_eq, lookup_insert_eq, HW.
      * by rewrite lookup_alter_ne, lookup_insert_ne.
    + intros d'. rewrite decide_False by naive_solver. by rewrite app_nil_r.
  - split; [eapply only_graph_trans; [apply only_graph_upd_watcher|apply only_graph_addSub]|].
    split.
    + simpl. apply map_eq; intros i. destruct (decide (i = w)) as [->|Hne].
      * by rewrite lookup_alter_eq, lookup_insert_eq, HW.
      * by rewrite lookup_alter_ne, lookup_insert_ne.
    + intros d'. rewrite subs_of_addSub, !subs_of_upd_watcher.
      destruct (decide (d' = d)) as [->|Hne].
      * by rewrite decide_True.
      * rewrite decide_False by naive_solver. by rewrite app_nil_r.
Qed.

Lemma target_addDep w d s : target (Watcher_addDep w d s) = target s.
Proof.
  unfold Watcher_addDep. destruct (watchers s !! w); [|done].
  repeat case_decide; done.
Qed.

Lemma touch_all_spec w l : ∀ s W,
  target s = Some w →
  watchers s !! w = Some W →
  only_graph s (touch_all l s) ∧
  watchers (touch_all l s) = <[w := touched_watcher l W]> (watchers s) ∧
  ∀ d, subs_of (touch_all l s) d =
       subs_of s d ++
       (if decide (d ∈ l ∧ (d ∉ w_newDepIds W) ∧ d ∉ w_depIds W) then [w] else []).
Proof.
  induction l as [|d l IH]; intros s W Ht HW.
  { change (touch_all [] s) with s. split; [apply only_graph_refl|]. split.
    - symmetry. apply insert_id. rewrite HW. f_equal. destruct W; unfold touched_watcher; simpl.
      f_equal; [by rewrite app_nil_r|set_solver].
    - intros d. rewrite decide_False; [by rewrite app_nil_r|]. rewrite elem_of_nil. tauto. }
  change (touch_all (d :: l) s) with (touch_all l (Dep_depend d s)).
  unfold Dep_depend. rewrite Ht.
  destruct (addDep_spec w d s W HW) as (Hg & Hw & Hs).
  set (W1 := if decide (d ∈ w_newDepIds W) then W else with_newDep d W) in *.
  assert (HW1 : watchers (Watcher_addDep w d s) !! w = Some W1).
  { by rewrite Hw, lookup_insert_eq. }
  destruct (IH (Watcher_addDep w d s) W1) as (Hg' & Hw' & Hs'); [by rewrite target_addDep|done|].
  split; [by eapply only_graph_trans|]. split.
  - rewrite Hw', Hw, insert_insert_eq. f_equal.
    unfold W1, touched_watcher. simpl. destruct (decide (d ∈ w_newDepIds W)) as [Hin|Hnin].
    + f_equal. set_solver.
    + simpl. f_equal; [by rewrite <- app_assoc|set_solver].
  - intros d'. rewrite Hs', Hs, <- app_assoc. f_equal.
    assert (w_depIds W1 = w_depIds W) as -> by (unfold W1; by case_decide).
    assert (∀ x, x ∈ w_newDepIds W1 ↔ x = d ∨ x ∈ w_newDepIds W) as HnW1.
    { intros x. unfold W1. case_decide; simpl; set_solver. }
    repeat case_decide; try done; exfalso;
      repeat match goal with
             | H : _ ∧ _ |- _ => destruct H
             | H : ¬ (_ ∧ _) |- _ => apply H; clear H
             | H : _ ∈ _ :: _ |- _ => apply elem_of_cons in H as [->|?]
             end; rewrite ?HnW1, ?elem_of_cons in *; naive_solver.
Qed.

(** ** [cleanupDeps] *)

Lemma cleanup_loop_spec w (keep : gset nat) l : ∀ s,
  let s' := foldl (λ s d, if decide (d ∈ keep) then s else Dep_removeSub d w s) s l in
  only_graph s s' ∧ watchers s' = watchers s ∧
  ∀ d, (¬ (d ∈ l ∧ d ∉ keep) → subs_of s' d = subs_of s d) ∧
       (NoDup (subs_of s d) → NoDup (subs_of s' d)) ∧
       (NoDup (subs_of s d) → d ∈ l → d ∉ keep → w ∉ subs_of s' d) ∧
       (∀ x, x ≠ w → x ∈ subs_of s' d ↔ x ∈ subs_of s d) ∧
       (w ∈ subs_of s' d → w ∈ subs_of s d).
Proof.
  induction l as [|d0 l IH]; intros s; simpl.
  { split; [apply only_graph_refl|]. split; [done|]. intros d.
    rewrite elem_of_nil. naive_solver. }
  set (s1 := if decide (d0 ∈ keep) then s else Dep_removeSub d0 w s).
  destruct (IH s1) as (Hg & Hw & Hs).
  assert (Hg1 : only_graph s s1).
  { unfold s1. case_decide; [apply only_graph_refl|apply only_graph_removeSub]. }
  assert (Hw1 : watchers s1 = watchers s) by (unfold s1; by case_decide).
  assert (Hs1 : ∀ d, subs_of s1 d =
            if decide (d = d0 ∧ d0 ∉ keep) then remove w (subs_of s d) else subs_of s d).
  { intros d. unfold s1. destruct (decide (d0 ∈ keep)).
    - by rewrite decide_False by naive_solver.
    - rewrite subs_of_removeSub. destruct (decide (d = d0)) as [->|].
      + by rewrite decide_True.
      + by rewrite decide_False by naive_solver. }
  split; [by eapply only_graph_trans|]. split; [congruence|].
  intros d. destruct (Hs d) as (H1 & H2 & H3 & H4 & H5). specialize (Hs1 d).
  destruct (decide (d = d0 ∧ d0 ∉ keep)) as [[-> Hk]|Hno].
  - split; [intros Hn; exfalso; apply Hn; rewrite elem_of_cons; auto|].
    split; [intros Hnd; apply H2; rewrite Hs1; by apply NoDup_remove|].
    split.
    { intros Hnd _ _ Hin. apply H5 in Hin. rewrite Hs1 in Hin.
      by apply notin_remove in Hin. }
    split.
    { intros x Hx. rewrite (H4 x Hx), Hs1. by apply elem_of_remove_ne. }
    intros Hin. apply H5 in Hin. rewrite Hs1 in Hin. by apply elem_of_remove in Hin.
  - rewrite Hs1 in *. split.
    { intros Hn. apply H1. intros [Hin Hk]. apply Hn. rewrite elem_of_cons. auto. }
    split; [done|]. split; [|done].
    intros Hnd Hin Hk. apply H3; [done| |done].
    apply elem_of_cons in Hin as [->|Hin]; [|done]. exfalso. apply Hno. done.
Qed.

Lemma cleanupDeps_spec w s W :
  watchers s !! w = Some W →
  let s' := Watcher_cleanupDeps w s in
  only_graph s s' ∧
  watchers s' = <[w := swap_deps W]> (watchers s) ∧
  ∀ d, (¬ (d ∈ w_deps W ∧ d ∉ w_newDepIds W) → subs_of s' d = subs_of s d) ∧
       (NoDup (subs_of s d) → NoDup (subs_of s' d)) ∧
       (NoDup (subs_of s d) → d ∈ w_deps W → d ∉ w_newDepIds W → w ∉ subs_of s' d) ∧
       (∀ x, x ≠ w → x ∈ subs_of s' d ↔ x ∈ subs_of s d) ∧
       (w ∈ subs_of s' d → w ∈ subs_of s d).
Proof.
  intros HW. unfold Watcher_cleanupDeps. rewrite HW.
  destruct (cleanup_loop_spec w (w_newDepIds W) (reverse (w_deps W)) s) as (Hg & Hw & Hs).
  split; [eapply only_graph_trans; [exact Hg|apply only_graph_upd_watcher]|].
  split.
  { simpl. rewrite Hw. apply map_eq; intros i. destruct (decide (i = w)) as [->|Hne].
    - by rewrite lookup_alter_eq, lookup_insert_eq, HW.
    - by rewrite lookup_alter_ne, lookup_insert_ne. }
  intros d. rewrite subs_of_upd_watcher. specialize (Hs d).
  rewrite elem_of_reverse in Hs. exact Hs.
Qed.

(** ** [get] *)

Section GetLemmas.
Variable getter : nat → State → GetterOutcome.
Variable traverse_reads : nat → State → list nat.

Local Notation get := (Watcher_get getter traverse_reads).
Local Notation touched := (Watcher_touched getter traverse_reads).

Lemma touch_all_app l1 l2 s : touch_all (l1 ++ l2) s = touch_all l2 (touch_all l1 s).
Proof. unfold touch_all. by rewrite foldl_app. Qed.

(** The shape of an evaluation: make the watcher the target, touch, restore
    the target, clean up. *)
Lemma get_unfold w s W :
  watchers s !! w = Some W →
  ∃ evs, (evs = [] ∨ (evs = [EvHandleError w] ∧ w_user W = true)) ∧
    (get w s).2 =
      Watcher_cleanupDeps w
        (popTarget (log_all evs (touch_all (touched w s) (pushTarget (Some w) s)))).
Proof.
  intros HW. unfold Watcher_get, Watcher_touched. rewrite HW.
  set (s1 := pushTarget (Some w) s).
  fold (touch_all (g_reads (getter w s1)) s1).
  destruct (g_result (getter w s1)) as [v|] eqn:Hres.
  - exists []. split; [by left|]. simpl.
    destruct (w_deep W); [|by rewrite app_nil_r].
    destruct v; simpl; rewrite ?app_nil_r; try done.
    by rewrite touch_all_app.
  - destruct (w_user W) eqn:Hu.
    + exists [EvHandleError w]. split; [by right|]. simpl.
      destruct (w_deep W); by rewrite app_nil_r.
    + exists []. split; [by left|]. simpl.
      destruct (w_deep W); by rewrite app_nil_r.
Qed.


Lemma same_env_refl s : same_env s s.
Proof. by repeat split. Qed.

Lemma same_env_trans s1 s2 s3 : same_env s1 s2 → same_env s2 s3 → same_env s1 s3.
Proof. unfold same_env. intros H1 H2. destruct_and!. repeat split; congruence. Qed.

Lemma only_graph_same_env s s' : only_graph s s' → same_env s s'.
Proof. intros ->. by repeat split. Qed.

Lemma only_graph_trace s s' : only_graph s s' → trace s' = trace s.
Proof. by intros ->. Qed.

Lemma only_graph_target s s' :
  only_graph s s' → target s' = target s ∧ targetStack s' = targetStack s.
Proof. by intros ->. Qed.

Lemma get_spec w s W :
  watchers s !! w = Some W →
  let l := touched w s in
  let s' := (get w s).2 in
  watchers s' = <[w := evaluated_watcher l W]> (watchers s) ∧
  same_env s s' ∧
  (∃ evs, trace s' = trace s ++ evs ∧
          (evs = [] ∨ (evs = [EvHandleError w] ∧ w_user W = true))) ∧
  targetStack s' = targetStack s ∧
  ∀ d,
    let mid := subs_of s d ++
      (if decide (d ∈ l ∧ (d ∉ w_newDepIds W) ∧ d ∉ w_depIds W) then [w] else []) in
    (¬ (d ∈ w_deps W ∧ d ∉ list_to_set l ∪ w_newDepIds W) → subs_of s' d = mid) ∧
    (NoDup mid → NoDup (subs_of s' d)) ∧
    (NoDup mid → d ∈ w_deps W → d ∉ list_to_set l ∪ w_newDepIds W → w ∉ subs_of s' d) ∧
    (∀ x, x ≠ w → x ∈ subs_of s' d ↔ x ∈ mid) ∧
    (w ∈ subs_of s' d → w ∈ mid).
Proof.
  intros HW l s'. destruct (get_unfold w s W HW) as (evs & Hevs & Heq).
  fold l in Heq. unfold s'. rewrite Heq. clear Heq s'.
  set (s1 := pushTarget (Some w) s).
  destruct (touch_all_spec w l s1 W eq_refl HW) as (Hg & Hw & Hs).
  set (s2 := touch_all l s1) in *.
  set (s3 := popTarget (log_all evs s2)).
  assert (HW3 : watchers s3 !! w = Some (touched_watcher l W)).
  { assert (watchers s3 = watchers s2) as -> by (by destruct Hevs as [->|[-> _]]).
    by rewrite Hw, lookup_insert_eq. }
  destruct (cleanupDeps_spec w s3 _ HW3) as (Hg' & Hw' & Hs').
  assert (Hw3 : watchers s3 = watchers s2) by (by destruct Hevs as [->|[-> _]]).
  assert (Hsub3 : ∀ d, subs_of s3 d = subs_of s2 d) by (by destruct Hevs as [->|[-> _]]).
  split.
  { rewrite Hw', Hw3, Hw. by rewrite insert_insert_eq. }
  split.
  { apply only_graph_same_env in Hg, Hg'.
    eapply same_env_trans; [|exact Hg'].
    eapply same_env_trans; [|eapply same_env_trans; [exact Hg|]].
    - by repeat split.
    - destruct Hevs as [->|[-> _]]; by repeat split. }
  split.
  { exists evs. split; [|done].
    rewrite (only_graph_trace _ _ Hg').
    assert (trace s3 = trace s2 ++ evs) as ->.
    { destruct Hevs as [->|[-> _]]; simpl; by rewrite ?app_nil_r. }
    by rewrite (only_graph_trace _ _ Hg). }
  split.
  { destruct (only_graph_target _ _ Hg') as [_ ->].
    assert (targetStack s3 = removelast (targetStack s2)) as ->.
    { by destruct Hevs as [->|[-> _]]. }
    destruct (only_graph_target _ _ Hg) as [_ ->]. simpl.
    by rewrite removelast_last. }
  intros d. specialize (Hs' d). rewrite Hsub3, Hs in Hs'. exact Hs'.
Qed.

End GetLemmas.

(** ** The invariant of the dependency graph *)

Lemma elem_of_fresh_reads l : ∀ seen d,
  d ∈ fresh_reads seen l ↔ d ∈ l ∧ d ∉ seen.
Proof.
  induction l as [|x l IH]; intros seen d; simpl.
  { rewrite !elem_of_nil. tauto. }
  destruct (decide (x ∈ seen)) as [Hin|Hnin].
  - rewrite IH, elem_of_cons. split; [tauto|]. intros [[->|?] ?]; tauto.
  - rewrite !elem_of_cons, IH, elem_of_union, elem_of_singleton.
    destruct (decide (d = x)) as [->|]; tauto.
Qed.

Lemma NoDup_fresh_reads l : ∀ seen, NoDup (fresh_reads seen l).
Proof.
  induction l as [|x l IH]; intros seen; simpl; [constructor|].
  destruct (decide (x ∈ seen)); [done|].
  constructor; [|done]. rewrite elem_of_fresh_reads. set_solver.
Qed.

Lemma evaluated_watcher_idle l W :
  w_newDeps W = [] → w_newDepIds W = ∅ →
  watcher_idle (evaluated_watcher l W) ∧
  ∀ d, d ∈ w_deps (evaluated_watcher l W) ↔ d ∈ l.
Proof.
  intros Hn Hi. unfold watcher_idle, evaluated_watcher, swap_deps, touched_watcher; simpl.
  rewrite Hn, Hi. simpl.
  assert (∀ d, d ∈ fresh_reads ∅ l ↔ d ∈ l) as Hfr.
  { intros d. rewrite elem_of_fresh_reads. set_solver. }
  repeat split; try done.
  - apply NoDup_fresh_reads.
  - rewrite Hfr. set_solver.
  - rewrite Hfr. set_solver.
  - by apply Hfr.
  - by apply Hfr.
Qed.

Lemma keeps_graph_value v : keeps_graph (with_value v).
Proof. by intros []. Qed.

Lemma keeps_graph_dirty b : keeps_graph (with_dirty b).
Proof. by intros []. Qed.

Lemma graph_inv_upd_watcher w f s :
  keeps_graph f → graph_inv s → graph_inv (upd_watcher w f s).
Proof.
  intros Hf [Hi Hn Hs Ha Hfr]. split.
  - intros x X. simpl. destruct (decide (x = w)) as [->|Hne].
    + rewrite lookup_alter_eq. destruct (watchers s !! w) as [W|] eqn:HW; [|done].
      simpl. intros [= <-]. destruct (Hf W) as (E1 & E2 & E3 & E4 & _).
      destruct (Hi _ _ HW) as (I1 & I2 & I3 & I4).
      unfold watcher_idle. rewrite E1, E2, E3, E4. done.
    + rewrite lookup_alter_ne by done. apply Hi.
  - done.
  - intros d x Hx. destruct (Hs d x Hx) as (X & HX & Hd). simpl.
    destruct (decide (x = w)) as [->|Hne].
    + exists (f X). rewrite lookup_alter_eq, HX. split; [done|].
      destruct (Hf X) as (-> & _). done.
    + exists X. by rewrite lookup_alter_ne.
  - intros x X. simpl. destruct (decide (x = w)) as [->|Hne].
    + rewrite lookup_alter_eq. destruct (watchers s !! w) as [W|] eqn:HW; [|done].
      simpl. intros [= <-]. destruct (Hf W) as (E1 & _ & _ & _ & E5).
      rewrite E1, E5. by apply Ha.
    + rewrite lookup_alter_ne by done. apply Ha.
  - intros x. simpl. destruct (decide (x = w)) as [->|Hne].
    + rewrite lookup_alter_eq. intros Hsome. apply Hfr.
      destruct (watchers s !! w); [done|]. by destruct Hsome.
    + rewrite lookup_alter_ne by done. apply Hfr.
Qed.

Lemma graph_inv_log e s : graph_inv s → graph_inv (log e s).
Proof. intros [? ? ? ? ?]. by split. Qed.

Lemma graph_inv_queue w s : graph_inv s → graph_inv (queueWatcher w s).
Proof. intros [? ? ? ? ?]. unfold queueWatcher. case_decide; by split. Qed.

Lemma graph_inv_set_vms f s : graph_inv s → graph_inv (set_vms f s).
Proof. intros [? ? ? ? ?]. by split. Qed.

Section Invariant.
Variable getter : nat → State → GetterOutcome.
Variable traverse_reads : nat → State → list nat.

Local Notation get := (Watcher_get getter traverse_reads).
Local Notation touched := (Watcher_touched getter traverse_reads).

Lemma get_no_watcher w s : watchers s !! w = None → get w s = (Normal VUndef, s).
Proof. intros H. unfold Watcher_get. by rewrite H. Qed.

(** What an evaluation does to the subscriptions of a watcher that is idle
    in a well-formed graph. *)
Lemma get_subscriptions w s W :
  graph_inv s → watchers s !! w = Some W →
  let l := touched w s in
  let s' := (get w s).2 in
  ∀ d,
    NoDup (subs_of s' d) ∧
    (∀ x, x ≠ w → x ∈ subs_of s' d ↔ x ∈ subs_of s d) ∧
    (w ∈ subs_of s' d → d ∈ l) ∧
    (d ∈ l → w ∈ subs_of s d ∨ d ∉ w_deps W → w ∈ subs_of s' d).
Proof.
  intros [Hi Hn Hs Ha Hfr] HW l s' d.
  destruct (Hi _ _ HW) as (I1 & I2 & I3 & I4).
  destruct (get_spec getter traverse_reads w s W HW) as (_ & _ & _ & _ & Hd).
  destruct (Hd d) as (D1 & D2 & D3 & D4 & D5). clear Hd.
  fold l s' in D1, D2, D3, D4, D5. rewrite I2 in *.
  set (mid := subs_of s d ++ _) in *.
  assert (Hwsub : w ∈ subs_of s d → d ∈ w_deps W).
  { intros Hin. destruct (Hs _ _ Hin) as (W2 & HW2 & Hd). congruence. }
  assert (Hmid : NoDup mid).
  { unfold mid. case_decide as Hc; [|by rewrite app_nil_r].
    apply NoDup_app. split; [done|]. split; [|apply NoDup_singleton].
    intros x Hx ->%list_elem_of_singleton. apply Hwsub in Hx.
    destruct Hc as (_ & _ & Hc). apply Hc. by apply I4. }
  assert (Hxmid : ∀ x, x ≠ w → x ∈ mid ↔ x ∈ subs_of s d).
  { intros x Hx. unfold mid. case_decide; [|by rewrite app_nil_r].
    rewrite elem_of_app, list_elem_of_singleton. tauto. }
  split; [by apply D2|]. split.
  { intros x Hx. rewrite D4 by done. by apply Hxmid. }
  split.
  - intros Hin. destruct (decide (d ∈ l)) as [|Hnl]; [done|]. exfalso.
    pose proof (D5 Hin) as Hm. unfold mid in Hm.
    rewrite decide_False in Hm by tauto. rewrite app_nil_r in Hm.
    apply (D3 Hmid); [by apply Hwsub| |done]. set_solver.
  - intros Hl Hor. rewrite D1.
    + unfold mid. case_decide as Hc.
      * rewrite elem_of_app, list_elem_of_singleton. by right.
      * rewrite app_nil_r. destruct Hor as [|Hnd]; [done|]. exfalso.
        apply Hc. split; [done|]. split; [set_solver|]. by rewrite I4.
    + set_solver.
Qed.

Lemma get_inv w s : graph_inv s → graph_inv (get w s).2.
Proof.
  intros Hinv. destruct (watchers s !! w) as [W|] eqn:HW;
    [|by rewrite get_no_watcher].
  pose proof (get_subscriptions w s W Hinv HW) as Hsub.
  destruct (get_spec getter traverse_reads w s W HW) as (Hw & Henv & _ & _ & _).
  destruct Hinv as [Hi Hn Hs Ha Hfr].
  destruct (Hi _ _ HW) as (I1 & I2 & I3 & I4).
  destruct (evaluated_watcher_idle (touched w s) W I1 I2) as [Hidle Hdeps].
  split.
  - intros x X. rewrite Hw. destruct (decide (x = w)) as [->|Hne].
    + rewrite lookup_insert_eq. by intros [= <-].
    + rewrite lookup_insert_ne by done. apply Hi.
  - intros d. apply Hsub.
  - intros d x Hx. rewrite Hw. destruct (Hsub d) as (_ & S2 & S3 & _).
    destruct (decide (x = w)) as [->|Hne].
    + eexists. rewrite lookup_insert_eq. split; [done|]. apply Hdeps. by apply S3.
    + rewrite lookup_insert_ne by done. apply Hs. by apply S2.
  - intros x X. rewrite Hw. destruct (decide (x = w)) as [->|Hne].
    + rewrite lookup_insert_eq. intros [= <-]. simpl. intros Hact d Hd.
      apply Hdeps in Hd. destruct (Hsub d) as (_ & _ & _ & S4). apply S4; [done|].
      destruct (decide (d ∈ w_deps W)); [left; by eapply Ha|by right].
    + rewrite lookup_insert_ne by done. intros HX Hact d Hd.
      destruct (Hsub d) as (_ & S2 & _). apply S2; [done|]. by eapply Ha.
  - intros x. rewrite Hw. destruct Henv as (_ & _ & _ & -> & _).
    destruct (decide (x = w)) as [->|Hne].
    + intros _. apply Hfr. by rewrite HW.
    + rewrite lookup_insert_ne by done. apply Hfr.
Qed.

End Invariant.

(** ** What the operations add to the trace *)

Lemma updates_app tr1 tr2 : updates (tr1 ++ tr2) = updates tr1 ++ updates tr2.
Proof. apply omap_app. Qed.

Lemma about_nil w : about w [].
Proof. by split. Qed.

Lemma about_app w evs1 evs2 : about w evs1 → about w evs2 → about w (evs1 ++ evs2).
Proof.
  intros [U1 F1] [U2 F2]. split; [by rewrite updates_app, U1, U2|].
  by apply Forall_app.
Qed.

Section Traces.
Variable getter : nat → State → GetterOutcome.
Variable traverse_reads : nat → State → list nat.

Local Notation get := (Watcher_get getter traverse_reads).
Local Notation run := (Watcher_run getter traverse_reads).
Local Notation update := (Watcher_update getter traverse_reads).
Local Notation evaluate := (Watcher_evaluate getter traverse_reads).
Local Notation notify := (Dep_notify getter traverse_reads).
Local Notation notify_loop := (notify_loop getter traverse_reads).

Lemma get_trace w s : ∃ evs, trace (get w s).2 = trace s ++ evs ∧ about w evs.
Proof.
  destruct (watchers s !! w) as [W|] eqn:HW.
  - destruct (get_spec getter traverse_reads w s W HW)
      as (_ & _ & (evs & Ht & Hevs) & _).
    exists evs. split; [done|]. destruct Hevs as [->|[-> _]]; [apply about_nil|].
    split; [done|]. by repeat constructor.
  - rewrite get_no_watcher by done. exists []. split; [by rewrite app_nil_r|apply about_nil].
Qed.

Lemma run_trace w s : ∃ evs, trace (run w s).2 = trace s ++ evs ∧ about w evs.
Proof.
  unfold Watcher_run. destruct (watchers s !! w) as [W|] eqn:HW;
    [|exists []; split; [by rewrite app_nil_r|apply about_nil]].
  destruct (w_active W);
    [|exists []; split; [by rewrite app_nil_r|apply about_nil]].
  destruct (get_trace w s) as (evs & Ht & Hevs).
  destruct (get w s) as [[v|] s1]; simpl in *; [|by exists evs].
  case_match.
  - exists (evs ++ [EvCallback w v (default VUndef (w_value <$> watchers s1 !! w))]).
    simpl. rewrite Ht, <- app_assoc. split; [done|].
    apply about_app; [done|]. split; [done|]. by repeat constructor.
  - by exists evs.
Qed.

Lemma update_trace w s :
  ∃ evs, trace (update w s).2 = trace s ++ EvUpdate w :: evs ∧ about w evs.
Proof.
  unfold Watcher_update. set (s0 := log (EvUpdate w) s).
  assert (Ht0 : trace s0 = trace s ++ [EvUpdate w]) by done.
  destruct (watchers s0 !! w) as [W|] eqn:HW;
    [|exists []; split; [done|apply about_nil]].
  destruct (w_lazy W); [exists []; split; [done|apply about_nil]|].
  destruct (w_sync W).
  - destruct (run_trace w s0) as (evs & Ht & Hevs). exists evs.
    rewrite Ht, Ht0, <- app_assoc. done.
  - exists []. split; [|apply about_nil]. simpl. unfold queueWatcher.
    case_decide; done.
Qed.

(** The loop of [notify] calls [update] on the entries of the snapshot, in
    order, up to the first call that throws. *)
Lemma notify_loop_trace subs : ∀ s,
  ∃ evs k,
    trace (notify_loop subs s).2 = trace s ++ evs ∧
    updates evs = take k subs ∧
    ((notify_loop subs s).1 = Normal () → updates evs = subs) ∧
    Forall (λ e, ∃ x, event_watcher e = Some x ∧ x ∈ subs) evs.
Proof.
  induction subs as [|w subs IH]; intros s; simpl.
  { exists [], 0. rewrite app_nil_r. repeat split; done. }
  destruct (update_trace w s) as (evs & Ht & Hu & Hf).
  assert (Hhead : Forall (λ e, ∃ x, event_watcher e = Some x ∧ x ∈ w :: subs)
                    (EvUpdate w :: evs)).
  { constructor; [exists w; split; [done|apply list_elem_of_here]|].
    eapply Forall_impl; [exact Hf|]. intros e He. exists w.
    split; [done|apply list_elem_of_here]. }
  destruct (update w s) as [[[]|] s1]; simpl in *.
  - destruct (IH s1) as (evs' & k & Ht' & Hk & Hn & Hf').
    exists ((EvUpdate w :: evs) ++ evs'), (S k). split; [|split; [|split]].
    + by rewrite Ht', Ht, <- app_assoc.
    + rewrite updates_app. simpl. fold (updates evs). by rewrite Hu, Hk.
    + intros Hnorm. rewrite updates_app. simpl. fold (updates evs).
      by rewrite Hu, (Hn Hnorm).
    + apply Forall_app. split; [done|].
      eapply Forall_impl; [exact Hf'|]. intros e (x & He & Hx). exists x.
      split; [done|by apply list_elem_of_further].
  - exists (EvUpdate w :: evs), 1. split; [done|]. split; [|split; [done|done]].
    simpl. fold (updates evs). by rewrite Hu, take_0.
Qed.

Lemma notify_trace d s :
  let subs :=
    if negb (production (config s)) && negb (async (config s))
    then sort_by_id (subs_of s d) else subs_of s d in
  ∃ evs k,
    trace (notify d s).2 = trace s ++ EvNotify d :: evs ∧
    updates evs = take k subs ∧
    ((notify d s).1 = Normal () → updates evs = subs) ∧
    Forall (λ e, ∃ x, event_watcher e = Some x ∧ x ∈ subs_of s d) evs.
Proof.
  intros subs. unfold Dep_notify.
  set (s0 := log (EvNotify d) s).
  change (subs_of s0 d) with (subs_of s d). change (config s0) with (config s).
  fold subs.
  destruct (notify_loop_trace subs s0) as (evs & k & Ht & Hk & Hn & Hf).
  exists evs, k. split; [|split; [done|split; [done|]]].
  - rewrite Ht. simpl. by rewrite <- app_assoc.
  - eapply Forall_impl; [exact Hf|]. intros e (x & He & Hx). exists x.
    split; [done|]. unfold subs in Hx. case_match; [|done].
    unfold sort_by_id in Hx. by rewrite merge_sort_Permutation in Hx.
Qed.

End Traces.

(** ** Every operation keeps the invariant *)

Lemma teardown_loop_eq w l : ∀ s,
  foldl (λ s d, Dep_removeSub d w s) s l =
  foldl (λ s d, if decide (d ∈ (∅ : gset nat)) then s else Dep_removeSub d w s) s l.
Proof.
  induction l as [|d l IH]; intros s; [done|]. cbn [foldl].
  destruct (decide (d ∈ (∅ : gset nat))) as [Hin|_]; [set_solver|apply IH].
Qed.

(** What [teardown] does to an active watcher. *)
Lemma teardown_spec w s W :
  watchers s !! w = Some W → w_active W = true →
  let s' := Watcher_teardown w s in
  watchers s' = <[w := with_active false W]> (watchers s) ∧
  trace s' = trace s ∧ config s' = config s ∧ watcher_uid s' = watcher_uid s ∧
  ∀ d, (d ∉ w_deps W → subs_of s' d = subs_of s d) ∧
       (NoDup (subs_of s d) → NoDup (subs_of s' d)) ∧
       (NoDup (subs_of s d) → d ∈ w_deps W → w ∉ subs_of s' d) ∧
       (∀ x, x ≠ w → x ∈ subs_of s' d ↔ x ∈ subs_of s d) ∧
       (w ∈ subs_of s' d → w ∈ subs_of s d).
Proof.
  intros HW Hact. unfold Watcher_teardown. rewrite HW, Hact.
  set (s1 := match vms s !! w_vm W with Some V => _ | None => s end).
  assert (Hw1 : watchers s1 = watchers s).
  { unfold s1. destruct (vms s !! w_vm W) as [V|]; [|done]. by destruct (vm_isBeingDestroyed V). }
  assert (Hs1 : ∀ d, subs_of s1 d = subs_of s d).
  { intros d. unfold s1. destruct (vms s !! w_vm W) as [V|]; [|done].
    by destruct (vm_isBeingDestroyed V). }
  assert (Ht1 : trace s1 = trace s ∧ config s1 = config s ∧ watcher_uid s1 = watcher_uid s).
  { unfold s1. destruct (vms s !! w_vm W) as [V|]; [|done]. by destruct (vm_isBeingDestroyed V). }
  rewrite teardown_loop_eq.
  destruct (cleanup_loop_spec w ∅ (reverse (w_deps W)) s1) as (Hg & Hw & Hs).
  set (s2 := foldl _ s1 _) in *.
  split.
  { simpl. rewrite Hw, Hw1. apply map_eq; intros i. destruct (decide (i = w)) as [->|Hne].
    - by rewrite lookup_alter_eq, lookup_insert_eq, HW.
    - by rewrite lookup_alter_ne, lookup_insert_ne. }
  destruct Ht1 as (T1 & T2 & T3).
  split; [simpl; by rewrite (only_graph_trace _ _ Hg)|].
  destruct (only_graph_same_env _ _ Hg) as (_ & _ & _ & E4 & _ & _ & _ & _ & _ & E9).
  split; [simpl; congruence|]. split; [simpl; congruence|].
  intros d. rewrite subs_of_upd_watcher. specialize (Hs d).
  rewrite elem_of_reverse, Hs1 in Hs. destruct Hs as (H1 & H2 & H3 & H4 & H5).
  split; [intros Hn; apply H1; tauto|]. split; [done|].
  split; [intros ? ?; apply H3; [done|done|set_solver]|]. done.
Qed.

Lemma teardown_inactive w s W :
  watchers s !! w = Some W → w_active W = false → Watcher_teardown w s = s.
Proof. intros HW Hact. unfold Watcher_teardown. by rewrite HW, Hact. Qed.

Lemma teardown_inv w s : graph_inv s → graph_inv (Watcher_teardown w s).
Proof.
  intros Hinv. destruct (watchers s !! w) as [W|] eqn:HW;
    [|unfold Watcher_teardown; by rewrite HW].
  destruct (w_active W) eqn:Hact; [|by rewrite (teardown_inactive w s W)].
  destruct (teardown_spec w s W HW Hact) as (Hw & _ & _ & Hu & Hd).
  destruct Hinv as [Hi Hn Hs Ha Hfr]. split.
  - intros x X. rewrite Hw. destruct (decide (x = w)) as [->|Hne].
    + rewrite lookup_insert_eq. intros [= <-]. by apply (Hi w W).
    + rewrite lookup_insert_ne by done. apply Hi.
  - intros d. by apply Hd.
  - intros d x Hx. rewrite Hw. destruct (Hd d) as (_ & _ & _ & D4 & D5).
    destruct (decide (x = w)) as [->|Hne].
    + exists (with_active false W). rewrite lookup_insert_eq. split; [done|].
      simpl. apply D5 in Hx. destruct (Hs _ _ Hx) as (W2 & HW2 & Hin). congruence.
    + rewrite lookup_insert_ne by done. apply Hs. by apply D4.
  - intros x X. rewrite Hw. destruct (decide (x = w)) as [->|Hne].
    + rewrite lookup_insert_eq. by intros [= <-].
    + rewrite lookup_insert_ne by done. intros HX Hact' d Hin.
      destruct (Hd d) as (_ & _ & _ & D4 & _). apply D4; [done|]. by eapply Ha.
  - intros x. rewrite Hw, Hu. destruct (decide (x = w)) as [->|Hne].
    + intros _. apply Hfr. by rewrite HW.
    + rewrite lookup_insert_ne by done. apply Hfr.
Qed.

Section Preservation.
Variable getter : nat → State → GetterOutcome.
Variable traverse_reads : nat → State → list nat.

Local Notation get := (Watcher_get getter traverse_reads).
Local Notation run := (Watcher_run getter traverse_reads).
Local Notation update := (Watcher_update getter traverse_reads).
Local Notation evaluate := (Watcher_evaluate getter traverse_reads).
Local Notation notify := (Dep_notify getter traverse_reads).
Local Notation notify_loop := (notify_loop getter traverse_reads).

Lemma run_inv w s : graph_inv s → graph_inv (run w s).2.
Proof.
  intros Hinv. unfold Watcher_run. destruct (watchers s !! w) as [W|]; [|done].
  destruct (w_active W); [|done].
  pose proof (get_inv getter traverse_reads w s Hinv) as Hg.
  destruct (get w s) as [[v|] s1]; simpl in *; [|done].
  case_match; [|done]. simpl.
  apply graph_inv_log, graph_inv_upd_watcher; [apply keeps_graph_value|done].
Qed.

Lemma update_inv w s : graph_inv s → graph_inv (update w s).2.
Proof.
  intros Hinv%(graph_inv_log (EvUpdate w)). unfold Watcher_update.
  destruct (watchers _ !! w) as [W|]; [|done].
  destruct (w_lazy W).
  { simpl. apply graph_inv_upd_watcher; [apply keeps_graph_dirty|done]. }
  destruct (w_sync W); [by apply run_inv|]. simpl. by apply graph_inv_queue.
Qed.

Lemma evaluate_inv w s : graph_inv s → graph_inv (evaluate w s).2.
Proof.
  intros Hinv. unfold Watcher_evaluate.
  pose proof (get_inv getter traverse_reads w s Hinv) as Hg.
  destruct (get w s) as [[v|] s1]; simpl in *; [|done].
  apply graph_inv_upd_watcher; [apply keeps_graph_dirty|].
  apply graph_inv_upd_watcher; [apply keeps_graph_value|done].
Qed.

Lemma notify_loop_inv subs : ∀ s, graph_inv s → graph_inv (notify_loop subs s).2.
Proof.
  induction subs as [|w subs IH]; intros s Hinv; simpl; [done|].
  pose proof (update_inv w s Hinv) as Hu.
  destruct (update w s) as [[[]|] s1]; simpl in *; [by apply IH|done].
Qed.

Lemma notify_inv d s : graph_inv s → graph_inv (notify d s).2.
Proof. intros Hinv. unfold Dep_notify. by apply notify_loop_inv, graph_inv_log. Qed.

Lemma new_inv vm deep user lazy sync s :
  graph_inv s →
  graph_inv (Watcher_new getter traverse_reads vm deep user lazy sync s).2.
Proof.
  intros Hinv. unfold Watcher_new.
  set (s1 := match vms s !! vm with Some V => _ | None => s end).
  assert (Hinv1 : graph_inv s1).
  { unfold s1. destruct (vms s !! vm); [by apply graph_inv_set_vms|done]. }
  assert (Hu1 : watcher_uid s1 = watcher_uid s).
  { unfold s1. by destruct (vms s !! vm). }
  clearbody s1. clear Hinv.
  set (w := S (watcher_uid s1)).
  set (W := mkWatcher vm deep user lazy sync lazy true [] [] ∅ ∅ VUndef).
  set (s2 := set_watchers (insert w W) (set_watcher_uid w s1)).
  assert (Hinv2 : graph_inv s2).
  { destruct Hinv1 as [Hi Hn Hs Ha Hfr].
    assert (Hnew : watchers s1 !! w = None).
    { destruct (watchers s1 !! w) eqn:E; [|done].
      assert (w ≤ watcher_uid s1) by (apply Hfr; by rewrite E). unfold w in *. lia. }
    split.
    - intros x X. simpl. destruct (decide (x = w)) as [->|Hne].
      + rewrite lookup_insert_eq. intros [= <-].
        split; [done|]. split; [done|]. split; [constructor|]. simpl.
        intros d. rewrite elem_of_nil. set_solver.
      + rewrite lookup_insert_ne by done. apply Hi.
    - done.
    - intros d x Hx. destruct (Hs d x Hx) as (X & HX & Hd). exists X.
      split; [|done]. simpl. rewrite lookup_insert_ne; [done|]. congruence.
    - intros x X. simpl. destruct (decide (x = w)) as [->|Hne].
      + rewrite lookup_insert_eq. intros [= <-] _ d. simpl. by rewrite elem_of_nil.
      + rewrite lookup_insert_ne by done. apply Ha.
    - intros x. simpl. destruct (decide (x = w)) as [->|Hne]; [done|].
      rewrite lookup_insert_ne by done. intros Hx%Hfr. unfold w. lia. }
  clearbody s2. destruct lazy; [done|].
  pose proof (get_inv getter traverse_reads w s2 Hinv2) as Hg.
  destruct (get w s2) as [[v|] s3]; simpl in *; [|done].
  apply graph_inv_upd_watcher; [apply keeps_graph_value|done].
Qed.

Lemma initial_inv s : initial s → graph_inv s.
Proof.
  intros [Hd Hw]. split.
  - intros w W. by rewrite Hw, lookup_empty.
  - intros d. unfold subs_of. rewrite Hd, lookup_empty. constructor.
  - intros d w. unfold subs_of. rewrite Hd, lookup_empty. simpl. by rewrite elem_of_nil.
  - intros w W. by rewrite Hw, lookup_empty.
  - intros w. rewrite Hw, lookup_empty. by intros [? ?].
Qed.

Lemma step_inv o s : graph_inv s → graph_inv (step getter traverse_reads o s).
Proof.
  intros Hinv. destruct o; simpl.
  - by apply new_inv.
  - by apply get_inv.
  - by apply run_inv.
  - by apply update_inv.
  - by apply evaluate_inv.
  - by apply teardown_inv.
  - by apply notify_inv.
Qed.

Lemma reachable_inv s : reachable getter traverse_reads s → graph_inv s.
Proof. induction 1; [by apply initial_inv|by apply step_inv]. Qed.

End Preservation.

(** ** The claims on watchers and Deps *)

Lemma events_since_app s s' evs :
  trace s' = trace s ++ evs → events_since s s' = evs.
Proof. intros H. unfold events_since. rewrite H. apply drop_app_length. Qed.

Section GraphClaims.
Variable getter : nat → State → GetterOutcome.
Variable traverse_reads : nat → State → list nat.

Local Notation get := (Watcher_get getter traverse_reads).
Local Notation touched := (Watcher_touched getter traverse_reads).
Local Notation notify := (Dep_notify getter traverse_reads).
Local Notation reachable := (reachable getter traverse_reads).
Local Notation step := (step getter traverse_reads).
Local Notation run_ops := (run_ops getter traverse_reads).

(** Notifying a Dep reaches its subscribers only. *)
Lemma notify_not_subscribed d w s e :
  w ∉ subs_of s d →
  e ∈ events_since s (notify d s).2 →
  event_watcher e ≠ Some w.
Proof.
  intros Hw He. destruct (notify_trace getter traverse_reads d s)
    as (evs & k & Ht & _ & _ & Hf).
  rewrite (events_since_app _ _ _ Ht) in He.
  apply elem_of_cons in He as [->|He]; [done|].
  rewrite Forall_forall in Hf. destruct (Hf _ He) as (x & Hx & Hin).
  rewrite Hx. intros [= ->]. done.
Qed.

(** C1 (as amended): for every watcher that has not been torn down, in every
    state the system reaches, an evaluation through [get] leaves in its
    dependency list exactly the Deps touched during the evaluation; the
    watcher is in the subscriber list of each of them, it is removed from
    every Dep it held before and did not touch, and a later [notify] of a
    Dep it did not touch calls neither its [update] nor its callback. *)
Theorem evaluation_tracks_reads_active s w W :
  reachable s → watchers s !! w = Some W → w_active W = true →
  evaluation_tracks_reads getter traverse_reads w s.
Proof.
  intros Hinv%reachable_inv HW Hact.
  pose proof (get_subscriptions getter traverse_reads w s W Hinv HW) as Hsub.
  destruct (get_spec getter traverse_reads w s W HW) as (Hw & _).
  destruct (inv_idle _ Hinv _ _ HW) as (I1 & I2 & I3 & I4).
  destruct (evaluated_watcher_idle (touched w s) W I1 I2) as [_ Hdeps].
  unfold evaluation_tracks_reads. split; [|split; [|split]].
  - eexists. rewrite Hw, lookup_insert_eq. split; [done|]. split; [done|].
    simpl. rewrite I2. by rewrite (right_id_L ∅ (∪)).
  - intros d Hd. destruct (Hsub d) as (_ & _ & _ & S4). apply S4; [done|].
    destruct (decide (d ∈ w_deps W)); [left; by eapply (inv_active _ Hinv)|by right].
  - intros W2 d _ _ Hd Hin. destruct (Hsub d) as (_ & _ & S3 & _). by apply Hd, S3.
  - intros d e Hd. apply notify_not_subscribed.
    intros Hin. destruct (Hsub d) as (_ & _ & S3 & _). by apply Hd, S3.
Qed.

(** C3: in every state the system reaches, no watcher is twice in the
    subscriber list of a Dep; [addDep] appends the watcher to the list
    exactly when the id of the Dep is in neither [newDepIds] nor [depIds];
    and however often the getter of a watcher touches the same Deps, within
    one evaluation or in the next, the lists stay free of duplicates. *)
Theorem subscribers_unique s :
  reachable s →
  (∀ d, NoDup (subs_of s d)) ∧
  (∀ w W d, watchers s !! w = Some W →
     subs_of (Watcher_addDep w d s) d =
     if decide ((d ∉ w_newDepIds W) ∧ d ∉ w_depIds W)
     then subs_of s d ++ [w] else subs_of s d) ∧
  (∀ w l d, is_Some (watchers s !! w) →
     NoDup (subs_of (touch_all l (pushTarget (Some w) s)) d)) ∧
  (∀ w d, NoDup (subs_of (get w (get w s).2).2 d)).
Proof.
  intros Hr. pose proof (reachable_inv _ _ _ Hr) as Hinv.
  split; [apply (inv_nodup _ Hinv)|]. split; [|split].
  - intros w W d HW. destruct (addDep_spec w d s W HW) as (_ & _ & Hs).
    rewrite Hs. repeat case_decide; try tauto; by rewrite ?app_nil_r.
  - intros w l d [W HW].
    destruct (touch_all_spec w l (pushTarget (Some w) s) W eq_refl HW) as (_ & _ & Hs).
    rewrite Hs. change (subs_of (pushTarget (Some w) s) d) with (subs_of s d).
    case_decide as Hc; [|rewrite app_nil_r; apply (inv_nodup _ Hinv)].
    apply NoDup_app. split; [apply (inv_nodup _ Hinv)|].
    split; [|apply NoDup_singleton].
    intros x Hx ->%list_elem_of_singleton.
    destruct (inv_subscribed _ Hinv _ _ Hx) as (W2 & HW2 & Hd).
    destruct (inv_idle _ Hinv _ _ HW) as (_ & _ & _ & I4).
    destruct Hc as (_ & _ & Hc). apply Hc, I4. congruence.
  - intros w d.
    apply (inv_nodup _ (reachable_inv _ _ _
             (reachable_step _ _ (OGet w) _ (reachable_step _ _ (OGet w) _ Hr)))).
Qed.

(** C4 (as amended): in a build that is not a production build, with
    [config.async] off, [notify] sorts a copy of the subscriber list taken
    on entry by watcher id and calls [update] on its entries in that order,
    whatever the calls do to the list of the Dep meanwhile; the pass ends
    early only when an [update] throws. *)
Theorem notify_sorted_snapshot d s :
  production (config s) = false → async (config s) = false →
  let snapshot := sort_by_id (subs_of s d) in
  snapshot ≡ₚ subs_of s d ∧
  StronglySorted (≤) snapshot ∧
  (∃ k, updates (events_since s (notify d s).2) = take k snapshot) ∧
  ((notify d s).1 = Normal () → notifies_in_id_order getter traverse_reads d s).
Proof.
  intros Hp Ha snapshot.
  split; [apply merge_sort_Permutation|].
  split; [apply StronglySorted_merge_sort; apply _|].
  destruct (notify_trace getter traverse_reads d s) as (evs & k & Ht & Hk & Hn & _).
  rewrite Hp, Ha in Hk, Hn. simpl in Hk, Hn.
  unfold notifies_in_id_order. rewrite (events_since_app _ _ _ Ht).
  split; [by exists k|]. done.
Qed.

(** In the other builds and modes the order is that of subscription. *)
Lemma notify_subscription_order d s :
  production (config s) = true ∨ async (config s) = true →
  (notify d s).1 = Normal () →
  updates (events_since s (notify d s).2) = subs_of s d.
Proof.
  intros Hc Hnorm.
  destruct (notify_trace getter traverse_reads d s) as (evs & k & Ht & Hk & Hn & _).
  rewrite (events_since_app _ _ _ Ht). simpl.
  assert (negb (production (config s)) && negb (async (config s)) = false) as Hf.
  { destruct Hc as [-> | ->]; [done|]. by rewrite andb_false_r. }
  rewrite Hf in Hn. by apply Hn.
Qed.

End GraphClaims.

(** ** A watcher torn down stays so, and its callback is not called again *)

Lemma torn_down_upd_watcher w x f s :
  keeps_graph f → torn_down w s → torn_down w (upd_watcher x f s).
Proof.
  intros Hf (W & HW & Hact). unfold torn_down. simpl.
  destruct (decide (w = x)) as [->|Hne].
  - exists (f W). rewrite lookup_alter_eq, HW. split; [done|].
    destruct (Hf W) as (_ & _ & _ & _ & ->). done.
  - exists W. by rewrite lookup_alter_ne.
Qed.

Lemma no_callback_about w x evs : x ≠ w → about x evs → no_callback w evs.
Proof.
  intros Hne [_ Hf]. eapply Forall_impl; [exact Hf|].
  intros e He v old ->. simpl in He. congruence.
Qed.

Lemma no_callback_app w evs1 evs2 :
  no_callback w evs1 → no_callback w evs2 → no_callback w (evs1 ++ evs2).
Proof. intros. by apply Forall_app. Qed.

Section TornDown.
Variable getter : nat → State → GetterOutcome.
Variable traverse_reads : nat → State → list nat.

Local Notation get := (Watcher_get getter traverse_reads).
Local Notation run := (Watcher_run getter traverse_reads).
Local Notation update := (Watcher_update getter traverse_reads).
Local Notation evaluate := (Watcher_evaluate getter traverse_reads).
Local Notation notify := (Dep_notify getter traverse_reads).
Local Notation notify_loop := (notify_loop getter traverse_reads).
Local Notation step := (step getter traverse_reads).
Local Notation run_ops := (run_ops getter traverse_reads).

Lemma quiet_same_trace w s s' : trace s' = trace s → torn_down w s' → quiet w s s'.
Proof.
  intros Ht H. split; [|done]. exists []. rewrite app_nil_r. split; [done|constructor].
Qed.

Lemma quiet_refl w s : torn_down w s → quiet w s s.
Proof. by apply quiet_same_trace. Qed.

Lemma quiet_trans w s1 s2 s3 : quiet w s1 s2 → quiet w s2 s3 → quiet w s1 s3.
Proof.
  intros [(e1 & T1 & N1) _] [(e2 & T2 & N2) D]. split; [|done].
  exists (e1 ++ e2). rewrite T2, T1, <- app_assoc. split; [done|].
  by apply no_callback_app.
Qed.

Lemma get_quiet w x s : torn_down w s → quiet w s (get x s).2.
Proof.
  intros (W & HW & Hact). destruct (watchers s !! x) as [X|] eqn:HX;
    [|rewrite get_no_watcher by done; apply quiet_refl; by exists W].
  destruct (get_spec getter traverse_reads x s X HX) as (Hw & _ & (evs & Ht & Hevs) & _).
  split.
  - exists evs. split; [done|]. destruct Hevs as [->|[-> _]]; [constructor|].
    by repeat constructor.
  - unfold torn_down. rewrite Hw. destruct (decide (w = x)) as [->|Hne].
    + eexists. rewrite lookup_insert_eq. split; [done|]. simpl. congruence.
    + exists W. by rewrite lookup_insert_ne.
Qed.

Lemma run_quiet w x s : torn_down w s → quiet w s (run x s).2.
Proof.
  intros Hd. pose proof Hd as (W & HW & Hact). unfold Watcher_run.
  destruct (watchers s !! x) as [X|] eqn:HX; [|by apply quiet_refl].
  destruct (w_active X) eqn:HaX; [|by apply quiet_refl].
  assert (x ≠ w) as Hne by (intros ->; congruence).
  pose proof (get_quiet w x s Hd) as Hq.
  destruct (get x s) as [[v|] s1]; simpl in *; [|done].
  case_match; [|done]. simpl. eapply quiet_trans; [exact Hq|].
  destruct Hq as [_ Hd1]. split.
  - eexists [_]. split; [done|]. constructor; [|constructor].
    intros v' old' [= -> _ _]. done.
  - by apply (torn_down_upd_watcher w x (with_value v) s1 (keeps_graph_value v)).
Qed.

Lemma update_quiet w x s : torn_down w s → quiet w s (update x s).2.
Proof.
  intros Hd. unfold Watcher_update. set (s0 := log (EvUpdate x) s).
  assert (Hq0 : quiet w s s0).
  { split; [|done]. exists [EvUpdate x]. split; [done|]. by repeat constructor. }
  destruct (watchers s0 !! x) as [X|] eqn:HX; [|done].
  destruct (w_lazy X).
  { simpl. eapply quiet_trans; [exact Hq0|]. apply quiet_same_trace; [done|].
    apply torn_down_upd_watcher; [apply keeps_graph_dirty|by destruct Hq0]. }
  destruct (w_sync X).
  - eapply quiet_trans; [exact Hq0|]. apply run_quiet. by destruct Hq0.
  - simpl. eapply quiet_trans; [exact Hq0|]. unfold queueWatcher.
    case_decide; [apply quiet_refl; by destruct Hq0|].
    apply quiet_same_trace; [done|by destruct Hq0].
Qed.

Lemma evaluate_quiet w x s : torn_down w s → quiet w s (evaluate x s).2.
Proof.
  intros Hd. unfold Watcher_evaluate. pose proof (get_quiet w x s Hd) as Hq.
  destruct (get x s) as [[v|] s1]; simpl in *; [|done].
  eapply quiet_trans; [exact Hq|]. apply quiet_same_trace; [done|].
  apply torn_down_upd_watcher; [apply keeps_graph_dirty|].
  apply torn_down_upd_watcher; [apply keeps_graph_value|by destruct Hq].
Qed.

Lemma notify_loop_quiet w subs : ∀ s, torn_down w s → quiet w s (notify_loop subs s).2.
Proof.
  induction subs as [|x subs IH]; intros s Hd; simpl; [by apply quiet_refl|].
  pose proof (update_quiet w x s Hd) as Hq.
  destruct (update x s) as [[[]|] s1]; simpl in *; [|done].
  eapply quiet_trans; [exact Hq|]. apply IH. by destruct Hq.
Qed.

Lemma notify_quiet w d s : torn_down w s → quiet w s (notify d s).2.
Proof.
  intros Hd. unfold Dep_notify. eapply quiet_trans; [|by apply notify_loop_quiet].
  split; [|done]. exists [EvNotify d]. split; [done|]. by repeat constructor.
Qed.

Lemma teardown_quiet w x s : torn_down w s → quiet w s (Watcher_teardown x s).
Proof.
  intros Hd. pose proof Hd as (W & HW & Hact).
  destruct (watchers s !! x) as [X|] eqn:HX;
    [|unfold Watcher_teardown; rewrite HX; by apply quiet_refl].
  destruct (w_active X) eqn:HaX; [|rewrite (teardown_inactive x s X) by done; by apply quiet_refl].
  destruct (teardown_spec x s X HX HaX) as (Hw & Ht & _).
  apply quiet_same_trace; [done|].
  unfold torn_down. rewrite Hw. destruct (decide (w = x)) as [->|Hne].
  - eexists. by rewrite lookup_insert_eq.
  - exists W. by rewrite lookup_insert_ne.
Qed.

Lemma new_quiet w vm deep user lazy sync s :
  graph_inv s → torn_down w s →
  quiet w s (Watcher_new getter traverse_reads vm deep user lazy sync s).2.
Proof.
  intros Hinv Hd. pose proof Hd as (W & HW & Hact). unfold Watcher_new.
  set (s1 := match vms s !! vm with Some V => _ | None => s end).
  assert (Hq1 : quiet w s s1).
  { unfold s1. destruct (vms s !! vm); [|by apply quiet_refl].
    by apply quiet_same_trace. }
  assert (Hu1 : watcher_uid s1 = watcher_uid s) by (unfold s1; by destruct (vms s !! vm)).
  clearbody s1.
  set (x := S (watcher_uid s1)).
  set (X := mkWatcher vm deep user lazy sync lazy true [] [] ∅ ∅ VUndef).
  set (s2 := set_watchers (insert x X) (set_watcher_uid x s1)).
  assert (Hq2 : quiet w s1 s2).
  { apply quiet_same_trace; [done|]. destruct Hq1 as [_ (W1 & HW1 & Hact1)].
    exists W1. split; [|done]. simpl. rewrite lookup_insert_ne; [done|].
    assert (w ≤ watcher_uid s) by (apply (inv_fresh _ Hinv); by rewrite HW).
    unfold x. lia. }
  clearbody s2. eapply quiet_trans; [exact Hq1|]. eapply quiet_trans; [exact Hq2|].
  destruct lazy; [apply quiet_refl; by destruct Hq2|].
  pose proof (get_quiet w x s2 (proj2 Hq2)) as Hq.
  destruct (get x s2) as [[v|] s3]; simpl in *; [|done].
  eapply quiet_trans; [exact Hq|]. apply quiet_same_trace; [done|].
  apply torn_down_upd_watcher; [apply keeps_graph_value|by destruct Hq].
Qed.

Lemma step_quiet w o s : graph_inv s → torn_down w s → quiet w s (step o s).
Proof.
  intros Hinv Hd. destruct o; simpl.
  - by apply new_quiet.
  - by apply get_quiet.
  - by apply run_quiet.
  - by apply update_quiet.
  - by apply evaluate_quiet.
  - by apply teardown_quiet.
  - by apply notify_quiet.
Qed.

Lemma run_ops_quiet w ops : ∀ s,
  graph_inv s → torn_down w s → quiet w s (run_ops ops s).
Proof.
  induction ops as [|o ops IH]; intros s Hinv Hd; [by apply quiet_refl|].
  change (run_ops (o :: ops) s) with (run_ops ops (step o s)).
  pose proof (step_quiet w o s Hinv Hd) as Hq.
  eapply quiet_trans; [exact Hq|]. apply IH; [by apply step_inv|by destruct Hq].
Qed.

End TornDown.

Section TeardownClaim.
Variable getter : nat → State → GetterOutcome.
Variable traverse_reads : nat → State → list nat.

Local Notation notify := (Dep_notify getter traverse_reads).
Local Notation reachable := (reachable getter traverse_reads).
Local Notation run_ops := (run_ops getter traverse_reads).

(** C8: [teardown] on an active watcher, in any state the system reaches,
    marks it inactive and removes it from the subscriber list of every Dep;
    afterwards notifying a Dep calls neither its [update] nor its callback,
    no later call on any watcher or Dep calls its callback, and a second
    [teardown] changes nothing. *)
Theorem teardown_unsubscribes s w W :
  reachable s → watchers s !! w = Some W → w_active W = true →
  let s' := Watcher_teardown w s in
  torn_down w s' ∧
  (∀ d, w ∉ subs_of s' d) ∧
  (∀ d e, e ∈ events_since s' (notify d s').2 → event_watcher e ≠ Some w) ∧
  (∀ ops, no_callback w (events_since s' (run_ops ops s'))) ∧
  Watcher_teardown w s' = s'.
Proof.
  intros Hinv%reachable_inv HW Hact s'.
  destruct (teardown_spec w s W HW Hact) as (Hw & _ & _ & _ & Hd). fold s' in Hw, Hd.
  assert (Htd : torn_down w s').
  { exists (with_active false W). by rewrite Hw, lookup_insert_eq. }
  assert (Hnot : ∀ d, w ∉ subs_of s' d).
  { intros d. destruct (Hd d) as (D1 & _ & D3 & _ & D5).
    destruct (decide (d ∈ w_deps W)) as [Hin|Hnin].
    - apply D3; [apply (inv_nodup _ Hinv)|done].
    - intros Hx%D5. destruct (inv_subscribed _ Hinv _ _ Hx) as (W2 & HW2 & Hd2).
      congruence. }
  split; [done|]. split; [done|]. split; [|split].
  - intros d e. by apply notify_not_subscribed.
  - intros ops.
    destruct (run_ops_quiet getter traverse_reads w ops s'
                (teardown_inv w s Hinv) Htd) as [(evs & Ht & Hn) _].
    by rewrite (events_since_app _ _ _ Ht).
  - destruct Htd as (W' & HW' & Hact'). by apply (teardown_inactive w s' W').
Qed.

End TeardownClaim.

(** ** The claims at sample runs *)

Lemma run_ops_reachable getter traverse_reads ops : ∀ s,
  reachable getter traverse_reads s →
  reachable getter traverse_reads (run_ops getter traverse_reads ops s).
Proof.
  induction ops as [|o ops IH]; intros s Hs; [done|].
  apply (IH (step getter traverse_reads o s)). by constructor.
Qed.

Lemma sample_init_reachable getter traverse_reads cfg :
  reachable getter traverse_reads (sample_init cfg).
Proof. by apply reachable_initial. Qed.

Lemma sample_one_watcher_reachable : reachable sample_getter no_traverse sample_one_watcher.
Proof. apply run_ops_reachable, sample_init_reachable. Qed.

Lemma sample_torn_down_reachable : reachable sample_getter no_traverse sample_torn_down.
Proof. apply run_ops_reachable, sample_init_reachable. Qed.

Lemma sample_two_watchers_reachable cfg :
  reachable sample_getter no_traverse (sample_two_watchers cfg).
Proof. apply run_ops_reachable, sample_init_reachable. Qed.

(** The amended C1 at the sample run with one active watcher. *)
Lemma evaluation_tracks_reads_active_witness :
  reachable sample_getter no_traverse sample_one_watcher ∧
  w_active <$> watchers sample_one_watcher !! 1 = Some true ∧
  evaluation_tracks_reads sample_getter no_traverse 1 sample_one_watcher.
Proof.
  split; [apply sample_one_watcher_reachable|]. split; [vm_compute; reflexivity|].
  eapply (evaluation_tracks_reads_active sample_getter no_traverse sample_one_watcher 1).
  - apply sample_one_watcher_reachable.
  - vm_compute. reflexivity.
  - reflexivity.
Defined.

(** C1 as stated fails for a watcher that was torn down: its getter touches
    Deps 0 and 1, which stay in [depIds] after [teardown], so that [addDep]
    does not subscribe to them again. *)
Lemma evaluation_after_teardown_untracked :
  reachable sample_getter no_traverse sample_torn_down ∧
  is_Some (watchers sample_torn_down !! 1) ∧
  ¬ evaluation_tracks_reads sample_getter no_traverse 1 sample_torn_down.
Proof.
  split; [apply sample_torn_down_reachable|]. split; [vm_compute; eauto|].
  intros (_ & Hsub & _). specialize (Hsub 0).
  assert (Hin : 0 ∈ Watcher_touched sample_getter no_traverse 1 sample_torn_down).
  { vm_compute. constructor. }
  apply Hsub in Hin. vm_compute in Hin. inversion Hin.
Qed.

(** C3 at the sample run: Deps 0 and 1 have watcher 1 once, although the
    getter reads Dep 0 twice. *)
Lemma subscribers_unique_witness :
  reachable sample_getter no_traverse sample_one_watcher ∧
  subs_of sample_one_watcher 0 = [1] ∧
  (∀ d, NoDup (subs_of sample_one_watcher d)).
Proof.
  split; [apply sample_one_watcher_reachable|]. split; [vm_compute; reflexivity|].
  apply (subscribers_unique sample_getter no_traverse sample_one_watcher).
  apply sample_one_watcher_reachable.
Defined.

(** The amended C4 at a sample run: watcher 2 subscribed before watcher 1. *)
Lemma notify_sorted_snapshot_witness :
  subs_of (sample_two_watchers dev_sync) 0 = [2; 1] ∧
  sort_by_id (subs_of (sample_two_watchers dev_sync) 0) = [1; 2] ∧
  notifies_in_id_order sample_getter no_traverse 0 (sample_two_watchers dev_sync).
Proof.
  split; [vm_compute; reflexivity|]. split; [vm_compute; reflexivity|].
  apply (notify_sorted_snapshot sample_getter no_traverse 0 (sample_two_watchers dev_sync));
    vm_compute; reflexivity.
Defined.

(** C4 as stated fails in a production build: with [config.async] off the
    copy is not sorted, and watcher 2 is updated before watcher 1. *)
Lemma notify_unsorted_in_production :
  reachable sample_getter no_traverse (sample_two_watchers prod_sync) ∧
  async (config (sample_two_watchers prod_sync)) = false ∧
  (Dep_notify sample_getter no_traverse 0 (sample_two_watchers prod_sync)).1 = Normal () ∧
  updates (events_since (sample_two_watchers prod_sync)
             (Dep_notify sample_getter no_traverse 0 (sample_two_watchers prod_sync)).2)
    = [2; 1] ∧
  ¬ notifies_in_id_order sample_getter no_traverse 0 (sample_two_watchers prod_sync).
Proof.
  split; [apply sample_two_watchers_reachable|].
  split; [reflexivity|]. split; [vm_compute; reflexivity|].
  split; [vm_compute; reflexivity|].
  unfold notifies_in_id_order. vm_compute. discriminate.
Qed.

(** The copy taken on entry is what the pass works on: both watchers
    unsubscribe from Dep 0 during the pass, when their getters run again, and
    both are updated. *)
Example notify_snapshot_reentrant :
  let s := sample_conditional in
  let s' := (Dep_notify conditional_getter no_traverse 0 s).2 in
  subs_of s 0 = [1; 2] ∧ subs_of s' 0 = [] ∧ updates (events_since s s') = [1; 2].
Proof. vm_compute. done. Qed.

(** C8 at the sample run. *)
Lemma teardown_unsubscribes_witness :
  reachable sample_getter no_traverse sample_one_watcher ∧
  w_active <$> watchers sample_one_watcher !! 1 = Some true ∧
  torn_down 1 (Watcher_teardown 1 sample_one_watcher) ∧
  (∀ d, 1 ∉ subs_of (Watcher_teardown 1 sample_one_watcher) d).
Proof.
  split; [apply sample_one_watcher_reachable|]. split; [vm_compute; reflexivity|].
  assert (H := λ W H1 H2, teardown_unsubscribes sample_getter no_traverse
                 sample_one_watcher 1 W sample_one_watcher_reachable H1 H2).
  edestruct H as (H1 & H2 & _); [vm_compute; reflexivity|reflexivity|].
  split; [exact H1|exact H2].
Defined.

(** ** Property lists *)

Lemma get_prop_elem k p props : get_prop k props = Some p → (k, p) ∈ props.
Proof.
  induction props as [|[k' q] props IH]; simpl; [done|].
  destruct (decide (k' = k)) as [->|Hne].
  - intros [= ->]. apply list_elem_of_here.
  - intros H. apply list_elem_of_further. by apply IH.
Qed.

Lemma get_prop_is_Some k props : k ∈ props.*1 → is_Some (get_prop k props).
Proof.
  induction props as [|[k' q] props IH]; simpl; [by rewrite elem_of_nil|].
  destruct (decide (k' = k)) as [->|Hne]; [by eexists|].
  rewrite elem_of_cons. intros [?|?]; [congruence|by apply IH].
Qed.

Lemma get_prop_set_prop_ne k k' p props :
  k' ≠ k → get_prop k' (set_prop k p props) = get_prop k' props.
Proof.
  intros Hne. induction props as [|[k0 q] props IH]; simpl.
  - destruct (decide (k = k')); congruence.
  - destruct (decide (k0 = k)) as [->|Hne0]; simpl.
    + destruct (decide (k = k')); congruence.
    + destruct (decide (k0 = k')); [done|apply IH].
Qed.

Lemma set_prop_keys k p props : k ∈ props.*1 → (set_prop k p props).*1 = props.*1.
Proof.
  induction props as [|[k0 q] props IH]; simpl; [by rewrite elem_of_nil|].
  destruct (decide (k0 = k)) as [->|Hne]; simpl; [done|].
  rewrite elem_of_cons. intros [?|?]; [congruence|]. f_equal. by apply IH.
Qed.

(** ** Objects without an observer *)

Lemma elem_of_unobserved a s :
  a ∈ unobserved s ↔ ∃ o, heap s !! a = Some o ∧ o_ob o = None.
Proof.
  unfold unobserved. rewrite elem_of_dom. split.
  - intros [o Ho]. apply map_lookup_filter_Some in Ho as [? ?]. by exists o.
  - intros (o & Ho & Hob). exists o. by apply map_lookup_filter_Some.
Qed.

(** ** Frames *)

Lemma same_shape_refl o : same_shape o o.
Proof. by repeat split. Qed.

Lemma same_shape_trans o1 o2 o3 : same_shape o1 o2 → same_shape o2 o3 → same_shape o1 o3.
Proof.
  intros (A1 & A2 & A3 & A4 & A5 & A6 & A7) (B1 & B2 & B3 & B4 & B5 & B6 & B7).
  repeat split; try congruence.
  intros H. rewrite B7; [by apply A7|]. rewrite A7; done.
Qed.

Lemma frame_refl busy s : frame busy s s.
Proof.
  split; try done.
  intros a o Ho. exists o. split; [done|]. split; [apply same_shape_refl|done].
Qed.

Lemma frame_trans busy s1 s2 s3 : frame busy s1 s2 → frame busy s2 s3 → frame busy s1 s3.
Proof.
  intros [A1 A2 [A3 A3'] [A4 A4'] A5 [A6 A6'] A7 [A8 A8'] A9 A10]
         [B1 B2 [B3 B3'] [B4 B4'] B5 [B6 B6'] B7 [B8 B8'] B9 B10].
  split; try (split; congruence); try congruence.
  - split; [lia|]. intros c Hc. rewrite B8' by lia. by apply A8'.
  - intros a o Ho. destruct (A9 a o Ho) as (o2 & Ho2 & Hs2 & He2).
    destruct (B9 a o2 Ho2) as (o3 & Ho3 & Hs3 & He3).
    exists o3. split; [done|]. split; [by eapply same_shape_trans|].
    intros Hob Hbusy. rewrite <- (He2 Hob Hbusy). apply He3; [|done].
    by rewrite (He2 Hob Hbusy).
  - intros a Ha. by apply B10, A10.
Qed.

Lemma frame_mono busy busy' s s' : busy ⊆ busy' → frame busy s s' → frame busy' s s'.
Proof.
  intros Hsub [A1 A2 A3 A4 A5 A6 A7 A8 A9 A10]. split; try done.
  intros a o Ho. destruct (A9 a o Ho) as (o2 & Ho2 & Hs2 & He2).
  exists o2. split; [done|]. split; [done|]. intros Hob Hbusy. apply He2; [done|].
  set_solver.
Qed.

Lemma frame_Dep_new busy s : frame busy s (Dep_new s).2.
Proof.
  split; try done.
  intros a o Ho. exists o. split; [done|]. split; [apply same_shape_refl|done].
Qed.

Lemma frame_observable busy s s' o o' :
  frame busy s s' → same_shape o o' → observable s' o' = observable s o.
Proof.
  intros [_ _ _ _ _ [F1 F2] _ _ _ _] (S1 & S2 & S3 & _). unfold observable.
  by rewrite F1, F2, S1, S2, S3.
Qed.

Lemma frame_observed busy v s s' : frame busy s s' → observed v s → observed v s'.
Proof.
  intros Hf (a & o & -> & Ho & Hob).
  destruct (of_heap _ _ _ Hf a o Ho) as (o' & Ho' & (_ & _ & _ & _ & _ & _ & Hs) & _).
  exists a, o'. split; [done|]. split; [done|]. by rewrite Hs.
Qed.

Lemma frame_attachable busy v s s' : frame busy s s' → attachable v s → attachable v s'.
Proof.
  intros Hf (a & o & -> & Ho & Hvn & Hor).
  destruct (of_heap _ _ _ Hf a o Ho) as (o' & Ho' & Hs & _).
  exists a, o'. split; [done|]. split; [done|].
  pose proof Hs as (_ & _ & _ & S4 & _ & _ & S7). split; [congruence|].
  destruct Hor as [Hob|Hobs]; [left; by rewrite S7|].
  right. by rewrite (frame_observable _ _ _ _ _ Hf Hs).
Qed.

Lemma frame_unobserved busy s s' : frame busy s s' → unobserved s' ⊆ unobserved s.
Proof.
  intros Hf a. rewrite !elem_of_unobserved. intros (o' & Ho' & Hob').
  destruct (heap s !! a) as [o|] eqn:Ho.
  - exists o. split; [done|].
    destruct (of_heap _ _ _ Hf a o Ho) as (o2 & Ho2 & (_ & _ & _ & _ & _ & _ & Hs) & _).
    assert (o2 = o') as -> by congruence.
    destruct (o_ob o) eqn:E; [|done]. rewrite Hs in Hob' by eauto. done.
  - rewrite (of_heap_dom _ _ _ Hf a Ho) in Ho'. done.
Qed.

(** ** Attaching an observer *)

Lemma mark_observer a o ob s :
  heap s !! a = Some o → o_ob o = None →
  let s' := set_heap (alter (with_ob (Some ob)) a) s in
  frame ∅ s s' ∧
  size (unobserved s') < size (unobserved s) ∧
  heap s' !! a = Some (with_ob (Some ob) o) ∧
  (store_wf s → store_wf s').
Proof.
  intros Ho Hob s'.
  assert (Hl : ∀ b, heap s' !! b = if decide (b = a) then Some (with_ob (Some ob) o)
                                   else heap s !! b).
  { intros b. simpl. destruct (decide (b = a)) as [->|Hne].
    - by rewrite lookup_alter_eq, Ho.
    - by rewrite lookup_alter_ne. }
  split; [|split; [|split]].
  - split; try done.
    + intros b ob' Hb. rewrite Hl. destruct (decide (b = a)) as [->|Hne].
      * assert (ob' = o) as -> by congruence. eexists. split; [done|].
        split; [|by rewrite Hob; intros [? ?]].
        repeat split; try done. rewrite Hob. by intros [? ?].
      * exists ob'. split; [done|]. split; [apply same_shape_refl|done].
    + intros b Hb. rewrite Hl. destruct (decide (b = a)) as [->|Hne]; [congruence|done].
  - apply subset_size. split.
    + intros b. rewrite !elem_of_unobserved, Hl. destruct (decide (b = a)) as [->|Hne].
      * intros (o' & [= <-] & Hn). done.
      * done.
    + intros Hsub. assert (a ∈ unobserved s') as Hin.
      { apply Hsub, elem_of_unobserved. by exists o. }
      apply elem_of_unobserved in Hin as (o' & Ho' & Hn).
      rewrite Hl, decide_True in Ho' by done. by injection Ho' as <-.
  - by rewrite Hl, decide_True.
  - intros [W1 W2 W3]. split.
    + intros b ob'. rewrite Hl. destruct (decide (b = a)) as [->|Hne].
      * intros [= <-]. simpl. by eapply W1.
      * apply W1.
    + intros b ob'. rewrite Hl. destruct (decide (b = a)) as [->|Hne].
      * intros [= <-]. done.
      * apply W2.
    + apply W3.
Qed.

Lemma frame_close a s s2 s' :
  a ∈ unobserved s → frame ∅ s s2 → frame {[a]} s2 s' → frame ∅ s s'.
Proof.
  intros Ha H1 H2. pose proof (frame_trans {[a]} s s2 s'
    (frame_mono ∅ {[a]} s s2 ltac:(set_solver) H1) H2) as H.
  destruct H as [A1 A2 A3 A4 A5 A6 A7 A8 A9 A10]. split; try done.
  intros b o Ho. destruct (A9 b o Ho) as (o' & Ho' & Hs & He).
  exists o'. split; [done|]. split; [done|]. intros Hob _. apply He; [done|].
  intros ->%elem_of_singleton. apply elem_of_unobserved in Ha as (o2 & Ho2 & Hn).
  assert (o2 = o) as -> by congruence. rewrite Hn in Hob. by destruct Hob.
Qed.

(** ** The loops of [observeArray] and [walk] *)

Lemma observeArray_with_total f obs :
  obs_total f obs →
  ∀ items s, store_wf s → size (unobserved s) < f →
    ∃ s', observeArray_with obs items s = Some s' ∧ store_wf s' ∧
          observe_frame s s' ∧
          (∀ v, v ∈ items → attachable v s → observed v s').
Proof.
  intros Hobs. induction items as [|item items IH]; intros s Hwf Hsz.
  { exists s. split; [done|]. split; [done|]. split; [apply frame_refl|].
    intros v. by rewrite elem_of_nil. }
  destruct (Hobs item s Hwf Hsz) as (r & s1 & Ho & Hwf1 & Hsub1 & Hf1 & Hatt & _).
  destruct (IH s1 Hwf1) as (s' & Hl & Hwf' & Hf' & Hobs').
  { pose proof (subseteq_size _ _ Hsub1). lia. }
  exists s'. split.
  { unfold observeArray_with in *. simpl. rewrite Ho. simpl. exact Hl. }
  split; [done|]. split; [by eapply frame_trans|].
  intros v [->|Hin]%elem_of_cons Hv.
  - eapply frame_observed; [exact Hf'|]. by apply Hatt.
  - apply Hobs'; [done|]. by eapply frame_attachable.
Qed.

Lemma propGet_plain fuel a k s oa p :
  heap s !! a = Some oa → get_prop k (o_props oa) = Some p → is_reactive p = false →
  ∃ v, propGet fuel a k s = Some (v, s).
Proof.
  intros Ha Hp Hr. unfold propGet. rewrite Ha. simpl. rewrite Hp.
  destruct p; [by eexists|by eexists|done].
Qed.

Lemma defineReactive_with_step f obs fuel a k s oa p :
  obs_total f obs → store_wf s → size (unobserved s) < f →
  heap s !! a = Some oa → is_Some (o_ob oa) →
  get_prop k (o_props oa) = Some p → is_reactive p = false →
  ∃ s', defineReactive_with obs fuel a k None false false s = Some s' ∧
        store_wf s' ∧ frame {[a]} s s' ∧
        ∃ oa', heap s' !! a = Some oa' ∧ is_Some (o_ob oa') ∧
               ∀ k', k' ≠ k → get_prop k' (o_props oa') = get_prop k' (o_props oa).
Proof.
  intros Hobs Hwf Hsz Ha Hob Hp Hr. unfold defineReactive_with.
  destruct (Dep_new s) as [dep s1] eqn:Hnew.
  assert (Hs1 : s1 = (Dep_new s).2) by (by rewrite Hnew).
  assert (Hheap1 : heap s1 = heap s) by (by rewrite Hs1).
  assert (Hwf1 : store_wf s1).
  { rewrite Hs1. destruct Hwf as [W1 W2 W3]. by split. }
  assert (Hsz1 : size (unobserved s1) < f).
  { unfold unobserved in *. by rewrite Hheap1. }
  assert (Hf1 : frame {[a]} s s1) by (rewrite Hs1; apply frame_Dep_new).
  rewrite Hheap1, Ha. simpl. rewrite Hp. simpl.
  case_bool_decide as Hcfg.
  { exists s1. split; [done|]. split; [done|]. split; [done|].
    exists oa. by rewrite Hheap1. }
  assert (Hval : ∃ v, (if negb (has_getter s1 (Some p)) || has_setter s1 (Some p)
                       then propGet fuel a k s1 else Some (VUndef, s1)) = Some (v, s1)).
  { case_match; [|by eexists]. eapply propGet_plain; [by rewrite Hheap1|done|done]. }
  simpl in Hval. destruct Hval as [v ->]. simpl.
  destruct (Hobs v s1 Hwf1 Hsz1) as (childOb & s3 & -> & Hwf3 & Hsub3 & Hf3 & _).
  simpl.
  destruct (of_heap _ _ _ Hf3 a oa) as (oa3 & Ha3 & Hsh3 & He3); [by rewrite Hheap1|].
  assert (oa3 = oa) as -> by (apply He3; [done|set_solver]).
  set (c := closure_uid s3).
  set (s' := set_heap _ _).
  assert (Hl : ∀ b, heap s' !! b =
                    if decide (b = a)
                    then Some (with_props (set_prop k (PReactive c)) oa)
                    else heap s3 !! b).
  { intros b. unfold s'. simpl. destruct (decide (b = a)) as [->|Hne].
    - by rewrite lookup_alter_eq, Ha3.
    - by rewrite lookup_alter_ne. }
  assert (Hkeys : k ∈ (o_props oa).*1).
  { apply get_prop_elem in Hp. apply list_elem_of_fmap. by exists (k, p). }
  assert (Hf' : frame {[a]} s3 s').
  { split; try done.
    - split; [simpl; lia|]. intros c' Hc'. unfold s'. simpl.
      rewrite lookup_insert_ne; [done|]. unfold c. lia.
    - intros b o Hb. rewrite Hl. destruct (decide (b = a)) as [->|Hne].
      + assert (o = oa) as -> by congruence. eexists. split; [done|].
        split; [|intros _ Hn; set_solver].
        repeat split; try done. simpl. by apply set_prop_keys.
      + exists o. split; [done|]. split; [apply same_shape_refl|done].
    - intros b Hb. rewrite Hl. destruct (decide (b = a)) as [->|Hne]; [congruence|done]. }
  exists s'. split; [done|]. split; [|split].
  - destruct Hwf3 as [W1 W2 W3]. split.
    + intros b o. rewrite Hl. destruct (decide (b = a)) as [->|Hne].
      * intros [= <-]. simpl. rewrite set_prop_keys by done. by eapply W1.
      * apply W1.
    + intros b o. rewrite Hl. destruct (decide (b = a)) as [->|Hne].
      * intros [= <-]. simpl. intros Hn. rewrite Hn in Hob. by destruct Hob.
      * apply W2.
    + intros c' C'. unfold s'. simpl. destruct (decide (c' = c)) as [->|Hne].
      * rewrite lookup_insert_eq. intros [= <-]. simpl. split; [lia|].
        intros p' [= <-]. done.
      * rewrite lookup_insert_ne by done. intros HC'. destruct (W3 _ _ HC') as [? ?].
        split; [fold c; lia|done].
  - eapply frame_trans; [exact Hf1|]. eapply frame_trans; [|exact Hf'].
    eapply frame_mono; [|exact Hf3]. set_solver.
  - eexists. rewrite Hl, decide_True by done. split; [done|]. split; [done|].
    intros k' Hk'. simpl. by apply get_prop_set_prop_ne.
Qed.

Lemma walk_with_total f obs fuel a :
  obs_total f obs →
  ∀ keys s oa, store_wf s → size (unobserved s) < f →
    heap s !! a = Some oa → is_Some (o_ob oa) → NoDup keys →
    (∀ k, k ∈ keys → ∃ p, get_prop k (o_props oa) = Some p ∧ is_reactive p = false) →
    ∃ s', walk_with obs fuel a keys s = Some s' ∧ store_wf s' ∧ frame {[a]} s s'.
Proof.
  intros Hobs. induction keys as [|k keys IH]; intros s oa Hwf Hsz Ha Hob Hnd Hkeys.
  { exists s. split; [done|]. split; [done|apply frame_refl]. }
  apply NoDup_cons in Hnd as [Hk Hnd].
  destruct (Hkeys k) as (p & Hp & Hr); [apply list_elem_of_here|].
  destruct (defineReactive_with_step f obs fuel a k s oa p Hobs Hwf Hsz Ha Hob Hp Hr)
    as (s1 & Hd & Hwf1 & Hf1 & oa1 & Ha1 & Hob1 & Hrest).
  destruct (IH s1 oa1 Hwf1) as (s' & Hw & Hwf' & Hf'); try done.
  { pose proof (subseteq_size _ _ (frame_unobserved _ _ _ Hf1)). lia. }
  { intros k' Hk'. rewrite Hrest by (intros ->; done).
    apply Hkeys. by apply list_elem_of_further. }
  exists s'. split.
  { unfold walk_with in *. simpl. rewrite Hd. exact Hw. }
  split; [done|]. by eapply frame_trans.
Qed.

(** ** [observe] returns, given fuel for the objects without an observer *)

Lemma observe_ok_same v s :
  store_wf s → ¬ attachable v s → observe_ok v s None s.
Proof.
  intros Hwf Hn. split; [done|]. split; [done|]. split; [apply frame_refl|].
  split; [done|]. done.
Qed.

Lemma observe_total fuel : obs_total fuel (λ v, observe fuel v false).
Proof.
  induction fuel as [|f IH]; intros v s Hwf Hsz; [lia|].
  destruct v as [| | | | |a];
    try (eexists _, _; split; [reflexivity|];
         apply observe_ok_same; [done|]; by intros (? & ? & ? & _)).
  simpl. destruct (heap s !! a) as [o|] eqn:Ho.
  2:{ eexists _, _. split; [reflexivity|]. apply observe_ok_same; [done|].
      intros (? & ? & [= <-] & ? & _). congruence. }
  destruct (o_isVNode o) eqn:Hvn.
  { eexists _, _. split; [reflexivity|]. apply observe_ok_same; [done|].
    intros (? & ? & [= <-] & ? & ? & _). congruence. }
  destruct (o_ob o) as [ob|] eqn:Hob.
  { eexists _, _. split; [reflexivity|]. split; [done|]. split; [done|].
    split; [apply frame_refl|]. split.
    - intros _. split; [|by eexists]. exists a, o. by rewrite Hob.
    - intros Hn. exfalso. apply Hn. exists a, o. rewrite Hob. eauto 10. }
  destruct (observable s o) eqn:Hobs.
  2:{ eexists _, _. split; [reflexivity|]. apply observe_ok_same; [done|].
      intros (? & o' & [= <-] & Ho' & ? & Hor). assert (o' = o) as -> by congruence.
      rewrite Hob, Hobs in Hor. destruct Hor as [[? ?]|?]; done. }
  assert (Hatt : attachable (VObj a) s).
  { exists a, o. rewrite Hobs. eauto 10. }
  unfold Observer_new_with.
  destruct (Dep_new s) as [dep s1] eqn:Hnew.
  assert (Hs1 : s1 = (Dep_new s).2) by (by rewrite Hnew).
  assert (Hheap1 : heap s1 = heap s) by (by rewrite Hs1).
  assert (Hwf1 : store_wf s1).
  { rewrite Hs1. destruct Hwf as [W1 W2 W3]. by split. }
  assert (Hf1 : frame ∅ s s1) by (rewrite Hs1; apply frame_Dep_new).
  destruct (mark_observer a o (mkObserver dep 0) s1) as (Hf2 & Hsz2 & Ha2 & Hwf2);
    [by rewrite Hheap1|done|].
  set (s2 := set_heap _ s1) in *. specialize (Hwf2 Hwf1).
  assert (Hsz2' : size (unobserved s2) < f).
  { assert (unobserved s1 = unobserved s) as E by (unfold unobserved; by rewrite Hheap1).
    rewrite E in Hsz2. lia. }
  assert (Hun : a ∈ unobserved s) by (apply elem_of_unobserved; by exists o).
  assert (Hobs2 : observed (VObj a) s2).
  { eexists a, _. split; [done|]. split; [exact Ha2|]. simpl. by eexists. }
  rewrite Ha2. simpl.
  assert (Hfin : ∀ s', store_wf s' → frame ∅ s s' →
            observed (VObj a) s' → observe_ok (VObj a) s (Some a) s').
  { intros s' Hwf' Hf' Hob'. split; [done|].
    split; [by eapply frame_unobserved|]. split; [done|].
    split; [intros _; split; [done|by eexists]|]. intros Hn. by destruct Hn. }
  destruct (o_kind o) eqn:Hk.
  - destruct (observeArray_with_total f _ IH (o_elems o) s2 Hwf2 Hsz2')
      as (s' & -> & Hwf' & Hf' & _).
    simpl. eexists _, _. split; [reflexivity|]. apply Hfin; [done| |].
    + eapply frame_trans; [exact Hf1|]. by eapply frame_trans.
    + by eapply frame_observed.
  - destruct (walk_with_total f _ f a IH (o_props o).*1 s2 _ Hwf2 Hsz2' Ha2)
      as (s' & -> & Hwf' & Hf').
    + simpl. by eexists.
    + by eapply (wf_keys _ Hwf).
    + intros k Hk'. simpl. destruct (get_prop_is_Some k (o_props o) Hk') as [p Hp].
      exists p. split; [done|]. eapply (wf_plain _ Hwf a o Ho Hob).
      * unfold observable in Hobs. by destruct (o_isVue o); rewrite ?andb_false_r in Hobs.
      * by apply get_prop_elem.
    + simpl. eexists _, _. split; [reflexivity|]. apply Hfin; [done| |].
      * assert (frame ∅ s1 s') as Hc.
        { eapply frame_close; [|exact Hf2|exact Hf'].
          apply elem_of_unobserved. exists o. by rewrite Hheap1. }
        by eapply frame_trans.
      * by eapply frame_observed.
  - destruct (walk_with_total f _ f a IH (o_props o).*1 s2 _ Hwf2 Hsz2' Ha2)
      as (s' & -> & Hwf' & Hf').
    + simpl. by eexists.
    + by eapply (wf_keys _ Hwf).
    + intros k Hk'. simpl. destruct (get_prop_is_Some k (o_props o) Hk') as [p Hp].
      exists p. split; [done|]. eapply (wf_plain _ Hwf a o Ho Hob).
      * unfold observable in Hobs. by destruct (o_isVue o); rewrite ?andb_false_r in Hobs.
      * by apply get_prop_elem.
    + simpl. eexists _, _. split; [reflexivity|]. apply Hfin; [done| |].
      * assert (frame ∅ s1 s') as Hc.
        { eapply frame_close; [|exact Hf2|exact Hf'].
          apply elem_of_unobserved. exists o. by rewrite Hheap1. }
        by eapply frame_trans.
      * by eapply frame_observed.
Qed.

Lemma observeArray_total fuel items s :
  store_wf s → size (unobserved s) < fuel →
  ∃ s', observeArray fuel items s = Some s' ∧ store_wf s' ∧ observe_frame s s' ∧
        (∀ v, v ∈ items → attachable v s → observed v s').
Proof. apply observeArray_with_total, observe_total. Qed.

(** ** [notify] and the store *)

Lemma same_store_refl s : same_store s s.
Proof. by repeat split. Qed.

Lemma same_store_trans s1 s2 s3 : same_store s1 s2 → same_store s2 s3 → same_store s1 s3.
Proof. unfold same_store. intros H1 H2. destruct_and!. repeat split; congruence. Qed.

Lemma same_env_store s s' : same_env s s' → same_store s s'.
Proof. unfold same_env, same_store. intros H. destruct_and!. by repeat split. Qed.

Lemma notifications_app d evs1 evs2 :
  notifications d (evs1 ++ evs2) = notifications d evs1 + notifications d evs2.
Proof.
  induction evs1 as [|e evs1 IH]; [done|]. simpl.
  destruct e; try done. case_decide; simpl; by rewrite IH.
Qed.

Lemma notifications_watcher_events d evs :
  Forall (λ e, ∃ x, event_watcher e = Some x) evs → notifications d evs = 0.
Proof.
  induction 1 as [|e evs [x He] _ IH]; [done|]. simpl. by destruct e.
Qed.

Section NotifyStore.
Variable getter : nat → State → GetterOutcome.
Variable traverse_reads : nat → State → list nat.

Local Notation get := (Watcher_get getter traverse_reads).
Local Notation run := (Watcher_run getter traverse_reads).
Local Notation update := (Watcher_update getter traverse_reads).
Local Notation notify := (Dep_notify getter traverse_reads).
Local Notation notify_loop := (notify_loop getter traverse_reads).

Lemma get_store w s : same_store s (get w s).2.
Proof.
  destruct (watchers s !! w) as [W|] eqn:HW.
  - destruct (get_spec getter traverse_reads w s W HW) as (_ & He & _).
    by apply same_env_store.
  - rewrite get_no_watcher by done. apply same_store_refl.
Qed.

Lemma run_store w s : same_store s (run w s).2.
Proof.
  unfold Watcher_run. destruct (watchers s !! w) as [W|]; [|apply same_store_refl].
  destruct (w_active W); [|apply same_store_refl].
  pose proof (get_store w s) as Hg.
  destruct (get w s) as [[v|] s1]; simpl in *; [|done].
  case_match; [|done]. eapply same_store_trans; [exact Hg|]. by repeat split.
Qed.

Lemma update_store w s : same_store s (update w s).2.
Proof.
  unfold Watcher_update. set (s0 := log (EvUpdate w) s).
  assert (H0 : same_store s s0) by (by repeat split).
  destruct (watchers s0 !! w) as [W|]; [|done].
  destruct (w_lazy W); [by repeat split|].
  destruct (w_sync W).
  - eapply same_store_trans; [exact H0|apply run_store].
  - simpl. unfold queueWatcher. case_decide; by repeat split.
Qed.

Lemma notify_loop_store subs : ∀ s, same_store s (notify_loop subs s).2.
Proof.
  induction subs as [|w subs IH]; intros s; simpl; [apply same_store_refl|].
  pose proof (update_store w s) as Hu.
  destruct (update w s) as [[[]|] s1]; simpl in *; [|done].
  eapply same_store_trans; [exact Hu|apply IH].
Qed.

Lemma notify_store d s : same_store s (notify d s).2.
Proof.
  unfold Dep_notify. eapply same_store_trans; [|apply notify_loop_store].
  by repeat split.
Qed.

(** One call of [notify] on [d] logs one [notify] event, for [d]. *)
Lemma notify_notifications d d' s :
  notifications d' (events_since s (notify d s).2) = if decide (d = d') then 1 else 0.
Proof.
  destruct (notify_trace getter traverse_reads d s) as (evs & k & Ht & _ & _ & Hf).
  rewrite (events_since_app _ _ _ Ht). simpl.
  rewrite (notifications_watcher_events d' evs).
  - by case_decide.
  - eapply Forall_impl; [exact Hf|]. intros e (x & Hx & _). by exists x.
Qed.

Lemma notify_trace_app d s :
  ∃ evs, trace (notify d s).2 = trace s ++ evs ∧
         ∀ d', notifications d' evs = if decide (d = d') then 1 else 0.
Proof.
  destruct (notify_trace getter traverse_reads d s) as (evs & k & Ht & _).
  exists (EvNotify d :: evs). split; [done|]. intros d'.
  rewrite <- (events_since_app _ _ _ Ht). apply notify_notifications.
Qed.

End NotifyStore.

(** ** The setter *)

Lemma closure_value_simple rg C s :
  (∀ p, c_orig C = Some p → is_reactive p = false) →
  closure_value rg C s = Some (current_value s C, s).
Proof.
  intros Hs. unfold closure_value, current_value.
  destruct (c_orig C) as [[v cfg|a cfg|c']|] eqn:Ho; try done.
  - by destruct (accessors s !! a ≫= _).
  - by specialize (Hs _ eq_refl).
Qed.

Lemma getter_only_accessor s C :
  getter_only s C →
  ∃ a cfg A g, c_orig C = Some (PAccessor a cfg) ∧ accessors s !! a = Some A ∧
               acc_get A = Some g ∧ acc_set A = None.
Proof.
  intros [Hg Hs]. unfold has_getter, has_setter in *.
  destruct (c_orig C) as [[v cfg|a cfg|c']|]; try done.
  apply bool_decide_eq_true in Hg. apply bool_decide_eq_false in Hs.
  destruct (accessors s !! a) as [A|] eqn:HA; simpl in *; [|by destruct Hg].
  destruct Hg as [g Hg]. exists a, cfg, A, g. split; [done|]. split; [done|].
  split; [done|]. destruct (acc_set A); [|done]. exfalso. apply Hs. by eexists.
Qed.

Lemma has_setter_accessor s C :
  (∀ p, c_orig C = Some p → is_reactive p = false) →
  has_setter s (c_orig C) = true →
  ∃ a cfg A f, c_orig C = Some (PAccessor a cfg) ∧ accessors s !! a = Some A ∧
               acc_set A = Some f.
Proof.
  intros Hsimple Hs. unfold has_setter in *.
  destruct (c_orig C) as [[v cfg|a cfg|c']|]; try done.
  - apply bool_decide_eq_true in Hs.
    destruct (accessors s !! a) as [A|] eqn:HA; simpl in *; [|by destruct Hs].
    destruct Hs as [f Hf]. by exists a, cfg, A, f.
  - by specialize (Hsimple _ eq_refl).
Qed.

Lemma store_wf_ext s s' :
  heap s' = heap s → closures s' = closures s → closure_uid s' = closure_uid s →
  store_wf s → store_wf s'.
Proof. intros H1 H2 H3 [W1 W2 W3]. split; rewrite ?H1, ?H2, ?H3; done. Qed.

Lemma store_wf_alter_closure f c s :
  (∀ C, c_orig (f C) = c_orig C) → store_wf s → store_wf (set_closures (alter f c) s).
Proof.
  intros Hf [W1 W2 W3]. split; [done|done|].
  intros c' C'. simpl. destruct (decide (c' = c)) as [->|Hne].
  - rewrite lookup_alter_eq. destruct (closures s !! c) as [C|] eqn:HC; [|done].
    simpl. intros [= <-]. rewrite Hf. by apply W3.
  - rewrite lookup_alter_ne by done. apply W3.
Qed.

Lemma unobserved_ext s s' : heap s' = heap s → unobserved s' = unobserved s.
Proof. unfold unobserved. by intros ->. Qed.

Lemma attachable_ext v s s' :
  heap s' = heap s → shouldObserve s' = shouldObserve s → config s' = config s →
  attachable v s → attachable v s'.
Proof.
  intros H1 H2 H3 (a & o & -> & Ho & Hvn & Hor). exists a, o. rewrite H1.
  split; [done|]. split; [done|]. split; [done|].
  destruct Hor as [?|Hobs]; [by left|right]. unfold observable in *. by rewrite H2, H3.
Qed.

Lemma observed_ext v s s' : heap s' = heap s → observed v s → observed v s'.
Proof. intros H1 (a & o & -> & Ho & Hob). exists a, o. by rewrite H1. Qed.

Section SetterClaims.
Variable getter : nat → State → GetterOutcome.
Variable traverse_reads : nat → State → list nat.

Local Notation reactiveSetter := (reactiveSetter getter traverse_reads).
Local Notation notify := (Dep_notify getter traverse_reads).

Lemma reactiveSetter_unfold fuel c newVal s :
  reactiveSetter (S fuel) c newVal s =
  match closures s !! c with
  | None => Some (Normal (), s)
  | Some C =>
      '(v, s1) ← closure_value (reactiveGetter fuel) C s;
      if unchanged newVal v then Some (Normal (), s1)
      else
        let s2 :=
          if negb (production (config s1)) && c_customSetter C
          then log (EvCustomSetter c) s1 else s1 in
        if has_getter s2 (c_orig C) && negb (has_setter s2 (c_orig C))
        then Some (Normal (), s2)
        else
          '(r, s3) ←
            (if has_setter s2 (c_orig C)
             then call_setter (reactiveSetter fuel) C newVal s2
             else Some (Normal (), set_closures (alter (with_val newVal) c) s2));
          match r with
          | Throw => Some (Throw, s3)
          | Normal _ =>
              '(childOb, s4) ←
                (if c_shallow C then Some (None, s3)
                 else observe fuel newVal false s3);
              Some (notify (c_dep C)
                      (set_closures (alter (with_childOb childOb) c) s4))
          end
  end.
Proof. reflexivity. Qed.

(** The state after the call of [customSetter], if there is one. *)
Lemma custom_setter_state c C s :
  let s2 := if negb (production (config s)) && c_customSetter C
            then log (EvCustomSetter c) s else s in
  same_store s s2 ∧ deps s2 = deps s ∧ watchers s2 = watchers s ∧
  ∃ evs, trace s2 = trace s ++ evs ∧ (∀ d, notifications d evs = 0) ∧
         (evs = [] ∨ evs = [EvCustomSetter c]).
Proof.
  intros s2. unfold s2. case_match.
  - split; [by repeat split|]. split; [done|]. split; [done|].
    exists [EvCustomSetter c]. split; [done|]. split; [done|by right].
  - split; [apply same_store_refl|]. split; [done|]. split; [done|].
    exists []. rewrite app_nil_r. split; [done|]. split; [done|by left].
Qed.

(** C9 (as amended): when the property wrapped had a getter and no setter,
    the reactive setter returns without storing the value, attaching an
    observer or notifying, for every value assigned. The state is what it
    was, but for one thing: in a build that is not a production build, an
    assignment that is a change calls the [customSetter] first, when
    [defineReactive] was given one. *)
Theorem setter_of_getter_only fuel c C newVal s :
  closures s !! c = Some C → getter_only s C →
  let s' :=
    if negb (unchanged newVal (current_value s C)) &&
       (negb (production (config s)) && c_customSetter C)
    then log (EvCustomSetter c) s else s in
  reactiveSetter (S fuel) c newVal s = Some (Normal (), s') ∧
  same_store s s' ∧ deps s' = deps s ∧ watchers s' = watchers s ∧
  current_value s' C = current_value s C ∧
  (∀ d, notifications d (events_since s s') = 0) ∧
  (production (config s) = true ∨ c_customSetter C = false →
   write_dropped getter traverse_reads (S fuel) c newVal s).
Proof.
  intros HC Hgo s'.
  destruct (getter_only_accessor s C Hgo) as (a & cfg & A & g & Ho & HA & Hg & Hs).
  assert (Hsimple : ∀ p, c_orig C = Some p → is_reactive p = false).
  { intros p. rewrite Ho. by intros [= <-]. }
  assert (Hrun : reactiveSetter (S fuel) c newVal s = Some (Normal (), s')).
  { rewrite reactiveSetter_unfold, HC, (closure_value_simple _ C s Hsimple). simpl.
    unfold s'. destruct (unchanged newVal (current_value s C)); [done|]. simpl.
    destruct Hgo as [Hhg Hhs].
    destruct (negb (production (config s)) && c_customSetter C).
    - change (has_getter (log (EvCustomSetter c) s) (c_orig C))
        with (has_getter s (c_orig C)).
      change (has_setter (log (EvCustomSetter c) s) (c_orig C))
        with (has_setter s (c_orig C)).
      by rewrite Hhg, Hhs.
    - by rewrite Hhg, Hhs. }
  split; [done|].
  assert (Hcases : s' = s ∨ (s' = log (EvCustomSetter c) s ∧
                              production (config s) = false ∧ c_customSetter C = true)).
  { unfold s'. destruct (unchanged newVal (current_value s C)); [by left|]. simpl.
    destruct (production (config s)); [by left|]. simpl.
    destruct (c_customSetter C); [by right|by left]. }
  destruct Hcases as [Hs'|(Hs' & Hp & Hcs)]; rewrite Hs' in *.
  - split; [apply same_store_refl|]. split; [done|]. split; [done|]. split; [done|].
    split; [|by intros _].
    intros d. unfold events_since. by rewrite drop_all.
  - split; [by repeat split|]. split; [done|]. split; [done|]. split; [done|].
    split.
    + intros d. by rewrite (events_since_app s _ [EvCustomSetter c]).
    + intros [?|?]; congruence.
Qed.

End SetterClaims.

Section AssignmentClaim.
Variable getter : nat → State → GetterOutcome.
Variable traverse_reads : nat → State → list nat.

Local Notation reactiveSetter := (reactiveSetter getter traverse_reads).
Local Notation notify := (Dep_notify getter traverse_reads).

(** The end of the setter: [childOb = !shallow && observe(newVal)], then
    [dep.notify()], from a state [s3] in which the value has been stored or
    handed to the pre-defined setter. *)
Lemma observe_and_notify fuel c C3 newVal s3 :
  store_wf s3 → size (unobserved s3) < fuel → closures s3 !! c = Some C3 →
  ∃ childOb s4 r s',
    (if c_shallow C3 then Some (None, s3) else observe fuel newVal false s3)
      = Some (childOb, s4) ∧
    notify (c_dep C3) (set_closures (alter (with_childOb childOb) c) s4) = (r, s') ∧
    closures s' !! c = Some (with_childOb childOb C3) ∧
    accessors s' = accessors s3 ∧
    (c_shallow C3 = true → childOb = None ∧ heap s' = heap s3) ∧
    (c_shallow C3 = false →
       (attachable newVal s3 →
          observed newVal s' ∧ ∃ a, newVal = VObj a ∧ childOb = Some a) ∧
       (¬ attachable newVal s3 → childOb = None ∧ heap s' = heap s3)) ∧
    ∃ evs, trace s' = trace s3 ++ evs ∧
           ∀ d, notifications d evs = if decide (c_dep C3 = d) then 1 else 0.
Proof.
  intros Hwf Hsz HC3.
  assert (Hobs : ∃ childOb s4,
    (if c_shallow C3 then Some (None, s3) else observe fuel newVal false s3)
      = Some (childOb, s4) ∧
    closures s4 !! c = Some C3 ∧ accessors s4 = accessors s3 ∧ trace s4 = trace s3 ∧
    (c_shallow C3 = true → childOb = None ∧ heap s4 = heap s3) ∧
    (c_shallow C3 = false →
       (attachable newVal s3 →
          observed newVal s4 ∧ ∃ a, newVal = VObj a ∧ childOb = Some a) ∧
       (¬ attachable newVal s3 → childOb = None ∧ heap s4 = heap s3))).
  { destruct (c_shallow C3) eqn:Hsh.
    - exists None, s3. repeat split; done.
    - destruct (observe_total fuel newVal s3 Hwf Hsz)
        as (ob & s4 & Ho & _ & _ & Hf & Hatt & Hnatt).
      exists ob, s4. split; [done|].
      split.
      { rewrite (proj2 (of_closures _ _ _ Hf)); [done|].
        by apply (wf_closures _ Hwf c C3). }
      split; [apply (of_accessors _ _ _ Hf)|]. split; [apply (of_trace _ _ _ Hf)|].
      split; [done|]. intros _. split; [done|].
      intros Hn. destruct (Hnatt Hn) as [-> ->]. done. }
  destruct Hobs as (childOb & s4 & Ho & HC4 & Hacc4 & Htr4 & Hsh & Hnsh).
  set (s5 := set_closures (alter (with_childOb childOb) c) s4).
  destruct (notify (c_dep C3) s5) as [r s'] eqn:Hn.
  assert (Hs' : s' = (notify (c_dep C3) s5).2) by (by rewrite Hn).
  pose proof (notify_store getter traverse_reads (c_dep C3) s5) as Hst.
  rewrite <- Hs' in Hst. destruct Hst as (S1 & S2 & S3 & S4 & S5 & S6).
  destruct (notify_trace_app getter traverse_reads (c_dep C3) s5) as (evs & Ht & Hcount).
  rewrite <- Hs' in Ht.
  exists childOb, s4, r, s'. split; [done|]. split; [done|].
  split; [rewrite S2; simpl; by rewrite lookup_alter_eq, HC4|].
  split; [by rewrite S4|].
  split; [intros H; destruct (Hsh H) as [-> E]; split; [done|by rewrite S1]|].
  split.
  { intros H. destruct (Hnsh H) as [Ha Hna]. split.
    - intros Hatt. destruct (Ha Hatt) as [Hob Hex]. split; [|done].
      by apply (observed_ext newVal s4).
    - intros Hnatt. destruct (Hna Hnatt) as [-> E]. split; [done|by rewrite S1]. }
  exists evs. split; [|done]. by rewrite Ht, <- Htr4.
Qed.

(** C2 (as amended): through the setter of a property made reactive by
    [defineReactive], assigning the value the property has, or a value
    that like the one it has differs from itself, changes nothing and
    notifies nobody. Assigning another value to a property that had no
    getter of its own, or had a setter of its own, stores the value (or
    hands it to that setter), runs [observe] on it unless the property is
    shallow, and calls [notify] on the Dep of the property exactly once. *)
Theorem assignment_notifies_once fuel c C newVal s :
  store_wf s → size (unobserved s) < fuel → closures s !! c = Some C →
  (unchanged newVal (current_value s C) = true →
     reactiveSetter (S fuel) c newVal s = Some (Normal (), s)) ∧
  (unchanged newVal (current_value s C) = false →
   has_getter s (c_orig C) = false ∨ has_setter s (c_orig C) = true →
     ∃ r s' C',
       reactiveSetter (S fuel) c newVal s = Some (r, s') ∧
       closures s' !! c = Some C' ∧
       (if has_setter s (c_orig C)
        then handed_to_setter C newVal s s' ∧ c_val C' = c_val C
        else c_val C' = newVal ∧ accessors s' = accessors s) ∧
       (c_shallow C = true → c_childOb C' = None ∧ heap s' = heap s) ∧
       (c_shallow C = false →
          (attachable newVal s →
             observed newVal s' ∧ ∃ a, newVal = VObj a ∧ c_childOb C' = Some a) ∧
          (¬ attachable newVal s → c_childOb C' = None ∧ heap s' = heap s)) ∧
       notifications (c_dep C) (events_since s s') = 1 ∧
       (has_getter s (c_orig C) = false → has_setter s (c_orig C) = false →
        assignment_stores getter traverse_reads (S fuel) c newVal s)).
Proof.
  intros Hwf Hsz HC.
  assert (Hsimple : ∀ p, c_orig C = Some p → is_reactive p = false).
  { by apply (wf_closures _ Hwf c C). }
  split.
  { intros Hun.
    by rewrite reactiveSetter_unfold, HC, (closure_value_simple _ C s Hsimple); simpl;
      rewrite Hun. }
  intros Hun Hkind.
  rewrite reactiveSetter_unfold, HC, (closure_value_simple _ C s Hsimple). simpl.
  rewrite Hun.
  destruct (custom_setter_state c C s) as (Hst2 & _ & _ & evs0 & Ht2 & Hn0 & _).
  set (s2 := if negb (production (config s)) && c_customSetter C
             then log (EvCustomSetter c) s else s) in *.
  destruct Hst2 as (H2h & H2c & H2u & H2a & H2s & H2g).
  assert (Hg2 : has_getter s2 (c_orig C) = has_getter s (c_orig C)).
  { unfold has_getter. by rewrite H2a. }
  assert (Hs2 : has_setter s2 (c_orig C) = has_setter s (c_orig C)).
  { unfold has_setter. by rewrite H2a. }
  rewrite Hg2, Hs2.
  assert (has_getter s (c_orig C) && negb (has_setter s (c_orig C)) = false) as ->.
  { destruct Hkind as [-> | ->]; [done|by rewrite andb_false_r]. }
  destruct (has_setter s (c_orig C)) eqn:Hset.
  - (* the value goes to the pre-defined setter *)
    destruct (has_setter_accessor s C Hsimple Hset) as (a & cfg & A & f & Ho & HA & Hf).
    unfold call_setter. rewrite Ho, H2a, HA, Hf. simpl.
    set (A' := mkAccessor (acc_get A) (Some f) (f newVal (acc_cell A))).
    set (s3 := set_accessors (insert a A') s2).
    destruct (observe_and_notify fuel c C newVal s3)
      as (childOb & s4 & r & s' & Hobs & Hnot & HC' & Hacc & Hsh & Hnsh & evs & Ht & Hcount).
    { apply (store_wf_ext s); try done. }
    { rewrite (unobserved_ext s s3); done. }
    { simpl. by rewrite H2c. }
    rewrite Hobs. simpl. rewrite Hnot.
    exists r, s', (with_childOb childOb C). split; [done|]. split; [done|].
    split.
    { split; [|done]. exists a, cfg, A, f. split; [done|]. split; [done|].
      split; [done|]. rewrite Hacc, Hf. simpl. by rewrite lookup_insert_eq. }
    split.
    { intros H. destruct (Hsh H) as [-> E]. split; [done|]. rewrite E. done. }
    split.
    { intros H. destruct (Hnsh H) as [Ha Hna]. split.
      - intros Hatt. apply Ha. by apply (attachable_ext newVal s).
      - intros Hnatt. destruct Hna as [-> E].
        + intros Hatt. apply Hnatt. by apply (attachable_ext newVal s3).
        + split; [done|]. rewrite E. done. }
    split; [|done].
    rewrite (events_since_app s s' (evs0 ++ evs)).
    + rewrite notifications_app, Hn0, Hcount. by rewrite decide_True.
    + rewrite Ht. simpl. by rewrite Ht2, <- app_assoc.
  - (* the value is stored in the closure *)
    set (s3 := set_closures (alter (with_val newVal) c) s2).
    destruct (observe_and_notify fuel c (with_val newVal C) newVal s3)
      as (childOb & s4 & r & s' & Hobs & Hnot & HC' & Hacc & Hsh & Hnsh & evs & Ht & Hcount).
    { apply store_wf_alter_closure; [done|]. by apply (store_wf_ext s). }
    { rewrite (unobserved_ext s s3); done. }
    { simpl. by rewrite lookup_alter_eq, H2c, HC. }
    change (c_shallow (with_val newVal C)) with (c_shallow C) in *.
    change (c_dep (with_val newVal C)) with (c_dep C) in *.
    simpl. rewrite Hobs. simpl. rewrite Hnot.
    assert (Hevs : notifications (c_dep C) (events_since s s') = 1).
    { rewrite (events_since_app s s' (evs0 ++ evs)).
      - rewrite notifications_app, Hn0, Hcount. simpl. by rewrite decide_True.
      - rewrite Ht. simpl. by rewrite Ht2, <- app_assoc. }
    exists r, s', (with_childOb childOb (with_val newVal C)).
    split; [done|]. split; [done|].
    split; [split; [done|]; rewrite Hacc; simpl; done|].
    split.
    { intros H. destruct (Hsh H) as [-> E]. split; [done|]. rewrite E. done. }
    split.
    { intros H. destruct (Hnsh H) as [Ha Hna]. split.
      - intros Hatt. apply Ha. by apply (attachable_ext newVal s).
      - intros Hnatt. destruct Hna as [-> E].
        + intros Hatt. apply Hnatt. by apply (attachable_ext newVal s3).
        + split; [done|]. rewrite E. done. }
    split; [done|].
    intros Hng _. exists r, s', (with_childOb childOb (with_val newVal C)).
    split.
    { rewrite reactiveSetter_unfold, HC, (closure_value_simple _ C s Hsimple). simpl.
      rewrite Hun. fold s2. rewrite Hg2, Hs2, Hng. simpl.
      fold s3. rewrite Hobs. simpl. by rewrite Hnot. }
    split; [done|]. split; [|done].
    unfold current_value. simpl.
    unfold has_getter in Hng. destruct (c_orig C) as [[?|a0 ?|?]|]; try done.
    apply bool_decide_eq_false in Hng. rewrite Hacc. simpl. rewrite H2a.
    destruct (accessors s !! a0) as [A0|]; simpl in *; [|done].
    destruct (acc_get A0); [|done]. exfalso. apply Hng. by eexists.
Qed.

End AssignmentClaim.

Section MutatorClaim.
Variable getter : nat → State → GetterOutcome.
Variable traverse_reads : nat → State → list nat.
Variable original : ArrayMethod → nat → list value → State → completion value * State.

Local Notation notify := (Dep_notify getter traverse_reads).
Local Notation mutator' := (mutator getter traverse_reads original).

(** C5: called for one of the seven methods on an observed array, the
    interceptor calls the original method with the arguments it was given;
    when that returns it runs [observe] on the elements inserted (the
    arguments of [push] and [unshift], those of [splice] from the third on,
    none for the other methods), so that each of them [observe] accepts has
    an observer afterwards; then it calls [notify] on the Dep of the
    array's observer, exactly once; and it returns what the original method
    returned. *)
Theorem mutator_observes_and_notifies fuel method this args s result s1 ob :
  original method this args s = (Normal result, s1) →
  heap s1 !! this ≫= o_ob = Some ob →
  store_wf s1 → size (unobserved s1) < fuel →
  ∃ s2 r s3,
    observeArray fuel (inserted_elements method args) s1 = Some s2 ∧
    notify (ob_dep ob) s2 = (r, s3) ∧
    mutator' fuel method this args s =
      Some (match r with Normal _ => Normal result | Throw => Throw end, s3) ∧
    (∀ v, v ∈ inserted_elements method args → attachable v s1 → observed v s3) ∧
    (inserted_elements method args = [] → heap s3 = heap s1) ∧
    notifications (ob_dep ob) (events_since s1 s3) = 1.
Proof.
  intros Horig Hob Hwf Hsz.
  destruct (observeArray_total fuel (inserted_elements method args) s1 Hwf Hsz)
    as (s2 & Hobs & Hwf2 & Hf2 & Hatt).
  destruct (notify (ob_dep ob) s2) as [r s3] eqn:Hn.
  assert (Hs3 : s3 = (notify (ob_dep ob) s2).2) by (by rewrite Hn).
  pose proof (notify_store getter traverse_reads (ob_dep ob) s2) as Hst.
  rewrite <- Hs3 in Hst. destruct Hst as (S1 & _).
  destruct (notify_trace_app getter traverse_reads (ob_dep ob) s2) as (evs & Ht & Hcount).
  rewrite <- Hs3 in Ht.
  exists s2, r, s3. split; [done|]. split; [done|]. split; [|split; [|split]].
  - unfold mutator. rewrite Horig, Hob.
    assert (Hnone : observeArray fuel [] s1 = Some s2 → s2 = s1).
    { by intros [= <-]. }
    destruct method; unfold inserted_elements in Hobs;
      first [ rewrite Hobs; simpl; rewrite Hn; by destruct r
            | rewrite (Hnone Hobs) in Hn; simpl; rewrite Hn; by destruct r ].
  - intros v Hv Ha. apply (observed_ext v s2); [done|]. by apply Hatt.
  - intros Hnil. rewrite Hnil in Hobs. injection Hobs as <-. done.
  - rewrite (events_since_app s1 s3 evs).
    + rewrite Hcount. by rewrite decide_True.
    + by rewrite Ht, (of_trace _ _ _ Hf2).
Qed.

End MutatorClaim.

(** ** The claims on the setter and the interceptor at sample stores *)

Lemma store_wf_check_sound s : store_wf_check s → store_wf s.
Proof.
  intros (H1 & H2 & H3). split.
  - intros a o Ho. by apply (H1 a o).
  - intros a o Ho Hob Hv k p Hin. specialize (H2 a o Ho Hob Hv).
    rewrite Forall_forall in H2. by apply (H2 (k, p)).
  - intros c C HC. destruct (H3 c C HC) as [Hlt Hr]. split; [done|].
    intros p Hp. rewrite Hp in Hr. done.
Qed.

Lemma sample_store_wf cfg cs : store_wf (sample_store cfg cs).
Proof.
  apply store_wf_check_sound. unfold store_wf_check.
  split; [|split]; compute_done.
Qed.

(** The amended C9 in a production build. *)
Lemma setter_of_getter_only_witness :
  getter_only sample_prod (mkClosure 2 VUndef None (Some (PAccessor 0 true)) true false) ∧
  write_dropped sample_getter no_traverse 1 0 (VNum (Num 2)) sample_prod.
Proof.
  assert (Hgo : getter_only sample_prod
                  (mkClosure 2 VUndef None (Some (PAccessor 0 true)) true false)).
  { split; vm_compute; reflexivity. }
  split; [exact Hgo|].
  destruct (setter_of_getter_only sample_getter no_traverse 0 0 _ (VNum (Num 2))
              sample_prod eq_refl Hgo) as (_ & _ & _ & _ & _ & _ & H).
  apply H. left. reflexivity.
Defined.

(** C9 as stated fails in a development build when [defineReactive] was
    given a [customSetter]: the assignment is dropped, and the
    [customSetter] has been called. *)
Lemma customSetter_called_on_dropped_write :
  getter_only sample_dev (mkClosure 2 VUndef None (Some (PAccessor 0 true)) true false) ∧
  closures sample_dev !! 0 =
    Some (mkClosure 2 VUndef None (Some (PAccessor 0 true)) true false) ∧
  unchanged (VNum (Num 2)) (VNum (Num 1)) = false ∧
  events_since sample_dev
    (from_option snd sample_dev
       (reactiveSetter sample_getter no_traverse 1 0 (VNum (Num 2)) sample_dev))
    = [EvCustomSetter 0] ∧
  ¬ write_dropped sample_getter no_traverse 1 0 (VNum (Num 2)) sample_dev.
Proof.
  split; [split; vm_compute; reflexivity|]. split; [vm_compute; reflexivity|].
  split; [reflexivity|]. split; [vm_compute; reflexivity|].
  unfold write_dropped. intros H.
  pose proof (f_equal (λ r, from_option (λ p, trace p.2) [] r) H) as Ht.
  vm_compute in Ht. discriminate.
Qed.

(** C2 as stated fails for a property that had a getter and no setter: the
    assignment of another value does not store it, and nothing is
    notified. *)
Lemma assignment_to_getter_only_not_stored :
  closures sample_prod !! 0 =
    Some (mkClosure 2 VUndef None (Some (PAccessor 0 true)) true false) ∧
  current_value sample_prod
    (mkClosure 2 VUndef None (Some (PAccessor 0 true)) true false) = VNum (Num 1) ∧
  unchanged (VNum (Num 2)) (VNum (Num 1)) = false ∧
  reactiveSetter sample_getter no_traverse 5 0 (VNum (Num 2)) sample_prod
    = Some (Normal (), sample_prod) ∧
  ¬ assignment_stores sample_getter no_traverse 5 0 (VNum (Num 2)) sample_prod.
Proof.
  assert (Hrun : reactiveSetter sample_getter no_traverse 5 0 (VNum (Num 2)) sample_prod
                 = Some (Normal (), sample_prod)).
  { vm_compute. reflexivity. }
  split; [vm_compute; reflexivity|]. split; [vm_compute; reflexivity|].
  split; [reflexivity|]. split; [exact Hrun|].
  intros (r & s' & C' & Hr & HC' & Hcur & Hn).
  rewrite Hrun in Hr. injection Hr as <- <-.
  unfold events_since in Hn. rewrite drop_all in Hn. simpl in Hn. discriminate.
Qed.

(** The amended C2, for the assignment of the object [{x: 1}] to the data
    property of closure 1. *)
Lemma assignment_notifies_once_witness :
  store_wf sample_dev ∧ size (unobserved sample_dev) < 4 ∧
  assignment_stores sample_getter no_traverse 5 1 (VObj 1) sample_dev.
Proof.
  split; [apply sample_store_wf|]. split; [vm_compute; lia|].
  destruct (assignment_notifies_once sample_getter no_traverse 4 1
              (mkClosure 1 (VNum (Num 1)) None (Some (PData (VNum (Num 1)) true)) true false)
              (VObj 1) sample_dev) as [_ H].
  - apply sample_store_wf.
  - vm_compute. lia.
  - vm_compute. reflexivity.
  - destruct H as (r & s' & C' & _ & _ & _ & _ & _ & _ & H).
    + reflexivity.
    + left. reflexivity.
    + apply H; reflexivity.
Defined.

(** C5, for [push] of an object and a number on the observed array. *)
Lemma mutator_observes_and_notifies_witness :
  ∃ s3,
    mutator sample_getter no_traverse sample_native 5 Push 0 sample_push_args sample_dev
      = Some (Normal (VNum (Num 2)), s3) ∧
    observed (VObj 1) s3 ∧
    notifications 0 (events_since sample_dev s3) = 1.
Proof.
  destruct (mutator_observes_and_notifies sample_getter no_traverse sample_native
              5 Push 0 sample_push_args sample_dev (VNum (Num 2))
              (sample_native Push 0 sample_push_args sample_dev).2
              (mkObserver 0 0))
    as (s2 & r & s3 & Hobs & Hnot & Hrun & Hall & _ & Hn).
  - vm_compute. reflexivity.
  - vm_compute. reflexivity.
  - apply store_wf_check_sound. unfold store_wf_check.
    split; [|split]; compute_done.
  - vm_compute. lia.
  - assert (r = Normal ()) as ->.
    { assert (Hs2 : s2 = from_option id sample_dev
                (observeArray 5
                   (inserted_elements Push sample_push_args)
                   (sample_native Push 0 sample_push_args sample_dev).2)).
      { by rewrite Hobs. }
      rewrite Hs2 in Hnot.
      pose proof (f_equal fst Hnot) as H1. vm_compute in H1. by rewrite <- H1. }
    exists s3. split; [exact Hrun|]. split.
    + apply Hall; [apply list_elem_of_here|].
      exists 1, (mkObject KPlain true false false None
                   [("x"%string, PData (VNum (Num 1)) true)] []).
      split; [done|]. split; [vm_compute; reflexivity|]. split; [done|].
      right. vm_compute. reflexivity.
    + exact Hn.
Defined.

(** * More of the reactivity core *)

Section MoreOfWatcher.
Variable getter : nat → State → GetterOutcome.
Variable traverse_reads : nat → State → list nat.

Local Notation get := (Watcher_get getter traverse_reads).
Local Notation run := (Watcher_run getter traverse_reads).
Local Notation touched := (Watcher_touched getter traverse_reads).
Local Notation reachable := (reachable getter traverse_reads).

Lemma log_all_frame evs s :
  target (log_all evs s) = target s ∧ targetStack (log_all evs s) = targetStack s ∧
  watchers (log_all evs s) = watchers s ∧ deps (log_all evs s) = deps s ∧
  trace (log_all evs s) = trace s ++ evs.
Proof.
  revert s. induction evs as [|e evs IH]; intros s; simpl.
  - by rewrite app_nil_r.
  - destruct (IH (log e s)) as (-> & -> & -> & -> & ->). simpl.
    by rewrite <- app_assoc.
Qed.

Lemma touch_all_target l s :
  target (touch_all l s) = target s ∧ targetStack (touch_all l s) = targetStack s.
Proof.
  revert s. induction l as [|d l IH]; intros s; [done|].
  change (touch_all (d :: l) s) with (touch_all l (Dep_depend d s)).
  destruct (IH (Dep_depend d s)) as [-> ->]. unfold Dep_depend.
  destruct (target s) as [t|] eqn:Htg; [|by rewrite Htg].
  rewrite <- Htg.
  destruct (watchers s !! t) as [T|] eqn:HT.
  - destruct (addDep_spec t d s T HT) as (Hg & _). by apply only_graph_target in Hg.
  - unfold Watcher_addDep. by rewrite HT.
Qed.

Lemma get_target_stack w s W :
  watchers s !! w = Some W →
  targetStack (get w s).2 = targetStack s ∧
  target (get w s).2 = mjoin (last (targetStack s)).
Proof.
  intros HW. destruct (get_unfold getter traverse_reads w s W HW) as (evs & _ & ->).
  set (s2 := touch_all (touched w s) (pushTarget (Some w) s)).
  destruct (touch_all_target (touched w s) (pushTarget (Some w) s)) as [Ht Hs].
  fold s2 in Ht, Hs.
  destruct (log_all_frame evs s2) as (Ht3 & Hs3 & _).
  assert (Hpop : targetStack (popTarget (log_all evs s2)) = targetStack s ∧
                 target (popTarget (log_all evs s2)) = mjoin (last (targetStack s))).
  { unfold popTarget. simpl. rewrite Hs3, Hs. simpl.
    by rewrite removelast_last. }
  destruct Hpop as [Hp1 Hp2].
  assert (Hc : ∀ s0, target (Watcher_cleanupDeps w s0) = target s0 ∧
                     targetStack (Watcher_cleanupDeps w s0) = targetStack s0).
  { intros s0. unfold Watcher_cleanupDeps. destruct (watchers s0 !! w) as [W0|] eqn:H0; [|done].
    destruct (cleanupDeps_spec w s0 W0 H0) as (Hg & _).
    unfold Watcher_cleanupDeps in Hg. rewrite H0 in Hg.
    by apply only_graph_target in Hg. }
  by destruct (Hc (popTarget (log_all evs s2))) as [-> ->].
Qed.


Lemma touch_all_trace l s : trace (touch_all l s) = trace s.
Proof.
  revert s. induction l as [|d l IH]; intros s; [done|].
  change (touch_all (d :: l) s) with (touch_all l (Dep_depend d s)).
  rewrite IH. unfold Dep_depend. destruct (target s) as [t|]; [|done].
  destruct (watchers s !! t) as [T|] eqn:HT.
  - destruct (addDep_spec t d s T HT) as (Hg & _). by apply only_graph_trace in Hg.
  - unfold Watcher_addDep. by rewrite HT.
Qed.

Lemma cleanupDeps_trace w s : trace (Watcher_cleanupDeps w s) = trace s.
Proof.
  destruct (watchers s !! w) as [W|] eqn:HW.
  - destruct (cleanupDeps_spec w s W HW) as (Hg & _). by apply only_graph_trace in Hg.
  - unfold Watcher_cleanupDeps. by rewrite HW.
Qed.

Lemma traverse_trace v s : trace (traverse traverse_reads v s) = trace s.
Proof. destruct v; try done. apply touch_all_trace. Qed.

(** What [get ()] returns, and what it logs. *)
Lemma get_result w s W :
  watchers s !! w = Some W →
  (get w s).1 =
    match g_result (getter w (pushTarget (Some w) s)) with
    | Some v => Normal v
    | None => if w_user W then Normal VUndef else Throw
    end ∧
  trace (get w s).2 = trace s ++
    match g_result (getter w (pushTarget (Some w) s)) with
    | Some v => []
    | None => if w_user W then [EvHandleError w] else []
    end.
Proof.
  intros HW. unfold Watcher_get. rewrite HW.
  set (s1 := pushTarget (Some w) s).
  fold (touch_all (g_reads (getter w s1)) s1).
  assert (Ht : trace (touch_all (g_reads (getter w s1)) s1) = trace s)
    by (by rewrite touch_all_trace).
  destruct (g_result (getter w s1)) as [v|]; [|destruct (w_user W)]; simpl;
    (split; [done|]); rewrite cleanupDeps_trace; simpl;
    destruct (w_deep W); rewrite ?traverse_trace; simpl; rewrite ?Ht, ?app_nil_r; done.
Qed.

(** X2: when the getter throws, [get ()] of a user watcher hands the error
    to [handleError] and returns [undefined], and [get ()] of another
    watcher throws in turn; in both cases the [finally] block has run: the
    stack of targets is as before, nothing is pending in [newDeps], the
    properties read before the exception are the dependencies of the
    watcher, and an active watcher subscribes to each of them. *)
Theorem get_of_throwing_getter w W s :
  reachable s → watchers s !! w = Some W →
  g_result (getter w (pushTarget (Some w) s)) = None →
  let reads := g_reads (getter w (pushTarget (Some w) s)) in
  let s' := (get w s).2 in
  (get w s).1 = (if w_user W then Normal VUndef else Throw) ∧
  events_since s s' = (if w_user W then [EvHandleError w] else []) ∧
  targetStack s' = targetStack s ∧
  (∃ W', watchers s' !! w = Some W' ∧ w_newDeps W' = [] ∧ w_newDepIds W' = ∅ ∧
         w_deps W' = fresh_reads ∅ reads) ∧
  (w_active W = true → ∀ d, d ∈ reads → w ∈ subs_of s' d).
Proof.
  intros Hr HW Hres reads s'.
  pose proof (reachable_inv getter traverse_reads s Hr) as Hinv.
  destruct (get_result w s W HW) as [Hval Htr]. rewrite Hres in Hval, Htr.
  destruct (get_spec getter traverse_reads w s W HW) as (Hw & _ & _ & Hst & _).
  assert (Hl : touched w s = reads).
  { unfold Watcher_touched. rewrite HW, Hres. fold reads.
    destruct (w_deep W); by rewrite app_nil_r. }
  rewrite Hl in Hw.
  destruct (inv_idle _ Hinv w W HW) as (I1 & I2 & I3 & I4).
  split; [done|]. split; [by apply events_since_app|]. split; [done|]. split.
  - exists (evaluated_watcher reads W). unfold s'. rewrite Hw, lookup_insert_eq.
    split; [done|]. split; [done|]. split; [done|]. simpl. by rewrite I1, I2.
  - intros Hact d Hd.
    destruct (get_subscriptions getter traverse_reads w s W Hinv HW d) as (_ & _ & _ & Hsub).
    apply Hsub; [by rewrite Hl|].
    destruct (decide (d ∈ w_deps W)) as [Hin|Hnin]; [left|by right].
    by apply (inv_active _ Hinv w W).
Qed.

(** X3: [run ()] of an active watcher whose getter returns [v] calls the
    callback, with [v] and the value held before, exactly when [v] is not
    identical to the value held, or is an object, or the watcher is deep;
    it stores [v] in that case. A value that is [NaN] differs from itself,
    so the callback of a watcher of [NaN] is called on every run. *)
Theorem run_calls_callback w W v s :
  watchers s !! w = Some W → w_active W = true →
  g_result (getter w (pushTarget (Some w) s)) = Some v →
  let fires := negb (strict_eq v (w_value W)) || isObject v || w_deep W in
  (run w s).1 = Normal () ∧
  events_since s (run w s).2 = (if fires then [EvCallback w v (w_value W)] else []) ∧
  w_value <$> watchers (run w s).2 !! w = Some (if fires then v else w_value W).
Proof.
  intros HW Hact Hres fires.
  destruct (get_result w s W HW) as [Hval Htr]. rewrite Hres in Hval, Htr.
  destruct (get_spec getter traverse_reads w s W HW) as (Hw & _).
  unfold Watcher_run. rewrite HW, Hact.
  destruct (get w s) as [r s1] eqn:Hget. simpl in Hval, Htr, Hw. subst r.
  rewrite Hw, lookup_insert_eq. simpl. fold fires.
  rewrite app_nil_r in Htr.
  destruct fires; simpl.
  - split; [done|]. split.
    + apply events_since_app. simpl. by rewrite Htr.
    + by rewrite lookup_alter_eq, Hw, lookup_insert_eq.
  - split; [done|]. split.
    + apply events_since_app. by rewrite Htr, app_nil_r.
    + by rewrite Hw, lookup_insert_eq.
Qed.

(** X4: after [get ()] the dependency list of a watcher holds each Dep the
    evaluation touched once, in the order in which they were touched
    first, however often a property was read. *)
Theorem deps_in_order_of_first_read w W s :
  reachable s → watchers s !! w = Some W →
  ∃ W', watchers (get w s).2 !! w = Some W' ∧
        w_deps W' = fresh_reads ∅ (touched w s) ∧ NoDup (w_deps W') ∧
        w_depIds W' = list_to_set (touched w s).
Proof.
  intros Hr HW.
  pose proof (reachable_inv getter traverse_reads s Hr) as Hinv.
  destruct (get_spec getter traverse_reads w s W HW) as (Hw & _).
  destruct (inv_idle _ Hinv w W HW) as (I1 & I2 & I3 & I4).
  exists (evaluated_watcher (touched w s) W). rewrite Hw, lookup_insert_eq.
  split; [done|]. simpl. rewrite I1, I2. simpl.
  split; [done|]. split; [apply NoDup_fresh_reads|]. set_solver.
Qed.

End MoreOfWatcher.
Lemma remove_app_last w l : w ∉ l → remove w (l ++ [w]) = l.
Proof.
  induction l as [|x l IH]; simpl; intros Hn.
  - by rewrite decide_True.
  - apply not_elem_of_cons in Hn as [Hne Hn].
    rewrite decide_False by congruence. by rewrite IH.
Qed.

Lemma removeSub_loop_exact w l : NoDup l → ∀ s,
  let s' := foldl (λ s d, Dep_removeSub d w s) s l in
  watchers s' = watchers s ∧
  ∀ d, subs_of s' d = if decide (d ∈ l) then remove w (subs_of s d) else subs_of s d.
Proof.
  induction 1 as [|x l Hx Hnd IH]; intros s; cbn [foldl].
  { split; [done|]. intros d. by destruct (decide (d ∈ [])) as [Hin%elem_of_nil|]. }
  destruct (IH (Dep_removeSub x w s)) as [Hw Hs]. split; [by rewrite Hw|].
  intros d. rewrite Hs, subs_of_removeSub.
  destruct (decide (d = x)) as [->|Hne].
  - destruct (decide (x ∈ l)) as [|_]; [done|].
    destruct (decide (x = x)) as [_|]; [|done].
    destruct (decide (x ∈ x :: l)) as [_|Hn]; [done|].
    exfalso. apply Hn. constructor.
  - destruct (decide (d = x)) as [|_]; [done|].
    destruct (decide (d ∈ l)) as [Hin|Hnin];
      destruct (decide (d ∈ x :: l)) as [Hin'|Hnin']; try done.
    + exfalso. apply Hnin'. by constructor.
    + apply elem_of_cons in Hin' as [|]; done.
Qed.

(** What [teardown] does to the subscriber lists. *)
Lemma teardown_subs_exact w s W :
  watchers s !! w = Some W → w_active W = true → NoDup (w_deps W) →
  ∀ d, subs_of (Watcher_teardown w s) d =
       if decide (d ∈ w_deps W) then remove w (subs_of s d) else subs_of s d.
Proof.
  intros HW Hact Hnd d. unfold Watcher_teardown. rewrite HW, Hact.
  set (s1 := match vms s !! w_vm W with Some V => _ | None => s end).
  assert (Hs1 : ∀ d, subs_of s1 d = subs_of s d).
  { intros d'. unfold s1. destruct (vms s !! w_vm W) as [V|]; [|done].
    by destruct (vm_isBeingDestroyed V). }
  assert (Hnd' : NoDup (reverse (w_deps W))) by (by rewrite reverse_Permutation).
  destruct (removeSub_loop_exact w (reverse (w_deps W)) Hnd' s1) as [_ Hs].
  rewrite subs_of_upd_watcher, Hs, Hs1.
  destruct (decide (d ∈ w_deps W)).
  - rewrite decide_True; [done|by apply elem_of_reverse].
  - rewrite decide_False; [done|by rewrite elem_of_reverse].
Qed.

Section Callers.
Variable getter : nat → State → GetterOutcome.
Variable traverse_reads : nat → State → list nat.

Local Notation get := (Watcher_get getter traverse_reads).
Local Notation touched := (Watcher_touched getter traverse_reads).
Local Notation reachable := (reachable getter traverse_reads).
Local Notation new := (Watcher_new getter traverse_reads).
Local Notation "'$watch'" := (watch getter traverse_reads).

(** What [new Watcher] leaves: a watcher under a fresh id, subscribed last
    to the Deps its first evaluation touched. *)
Lemma new_spec vm deep user lazy sync s :
  graph_inv s →
  let w := S (watcher_uid s) in
  let s' := (new vm deep user lazy sync s).2 in
  watchers s !! w = None ∧
  (user = true → (new vm deep user lazy sync s).1 = Normal w) ∧
  (∀ d, w ∉ subs_of s d) ∧
  ∃ W', watchers s' !! w = Some W' ∧ w_active W' = true ∧ NoDup (w_deps W') ∧
        w_vm W' = vm ∧
        ∀ d, subs_of s' d = subs_of s d ++ (if decide (d ∈ w_deps W') then [w] else []).
Proof.
  intros Hinv w s'.
  assert (Hnew : watchers s !! w = None).
  { destruct (watchers s !! w) eqn:E; [|done].
    assert (w ≤ watcher_uid s) by (apply (inv_fresh _ Hinv); by rewrite E).
    unfold w in *. lia. }
  assert (Hnot : ∀ d, w ∉ subs_of s d).
  { intros d Hin. destruct (inv_subscribed _ Hinv d w Hin) as (X & HX & _). congruence. }
  split; [done|]. unfold s', Watcher_new.
  set (s1 := match vms s !! vm with Some V => _ | None => s end).
  assert (Hu1 : watcher_uid s1 = watcher_uid s) by (unfold s1; by destruct (vms s !! vm)).
  assert (Hw1 : watchers s1 = watchers s) by (unfold s1; by destruct (vms s !! vm)).
  assert (Hs1 : ∀ d, subs_of s1 d = subs_of s d)
    by (intros d; unfold s1; by destruct (vms s !! vm)).
  rewrite Hu1. fold w.
  set (W := mkWatcher vm deep user lazy sync lazy true [] [] ∅ ∅ VUndef).
  set (s2 := set_watchers (insert w W) (set_watcher_uid w s1)).
  assert (HW2 : watchers s2 !! w = Some W) by (simpl; by rewrite lookup_insert_eq).
  destruct lazy.
  { split; [done|]. split; [done|]. exists W. split; [exact HW2|].
    split; [done|]. split; [constructor|]. split; [done|].
    intros d. change (w_deps W) with (@nil nat).
    destruct (decide (d ∈ [])) as [Hin%elem_of_nil|]; [done|].
    by rewrite app_nil_r, <- Hs1. }
  destruct (get_result getter traverse_reads w s2 W HW2) as [Hval _].
  destruct (get_spec getter traverse_reads w s2 W HW2) as (Hw & _ & _ & _ & Hs).
  set (l := touched w s2) in *.
  assert (Hdeps : ∀ d, d ∈ fresh_reads ∅ l ↔ d ∈ l).
  { intros d. rewrite elem_of_fresh_reads. set_solver. }
  assert (Hsub : ∀ d, subs_of (get w s2).2 d =
            subs_of s d ++ (if decide (d ∈ fresh_reads ∅ l) then [w] else [])).
  { intros d. destruct (Hs d) as (He & _). rewrite He.
    - change (subs_of s2 d) with (subs_of s1 d). rewrite Hs1. f_equal.
      destruct (decide (d ∈ fresh_reads ∅ l)) as [Hin|Hnin].
      + rewrite decide_True; [done|]. apply Hdeps in Hin. simpl. set_solver.
      + rewrite decide_False; [done|]. rewrite Hdeps in Hnin. tauto.
    - simpl. rewrite elem_of_nil. tauto. }
  destruct (get w s2) as [[v|] s3] eqn:Hget; simpl in *.
  - split; [done|]. split; [done|].
    exists (with_value v (evaluated_watcher l W)).
    rewrite lookup_alter_eq, Hw, lookup_insert_eq. split; [done|]. split; [done|].
    split; [apply NoDup_fresh_reads|]. split; [done|]. exact Hsub.
  - split; [intros ->; by destruct (g_result _)|]. split; [done|].
    exists (evaluated_watcher l W). rewrite Hw, lookup_insert_eq.
    split; [done|]. split; [done|]. split; [apply NoDup_fresh_reads|]. split; [done|].
    exact Hsub.
Qed.


(** X6: a computed property read while watcher [t] is being evaluated
    (its getter has not thrown): the value is the one cached, or the one
    the getter returns when the computed watcher was dirty, [t] is the
    target again afterwards, and every Dep the computed watcher depends on
    is recorded among the new dependencies of [t], which is subscribed to
    those it did not hold before. *)
Theorem computed_read_propagates w W t T v s :
  watchers s !! w = Some W → watchers s !! t = Some T → t ≠ w →
  target s = Some t → mjoin (last (targetStack s)) = Some t →
  w_newDeps W = [] → w_newDepIds W = ∅ →
  (w_dirty W = true → g_result (getter w (pushTarget (Some w) s)) = Some v) →
  let l := if w_dirty W then touched w s else w_deps W in
  let s' := (computedGetter getter traverse_reads w s).2 in
  (computedGetter getter traverse_reads w s).1 =
    Normal (if w_dirty W then v else w_value W) ∧
  target s' = Some t ∧
  (∃ T', watchers s' !! t = Some T' ∧
         w_newDepIds T' = list_to_set l ∪ w_newDepIds T) ∧
  (∀ d, d ∈ l → d ∉ w_newDepIds T → d ∉ w_depIds T → t ∈ subs_of s' d).
Proof.
  intros HW HT Hne Htg Htop I1 I2 Hres l s'.
  assert (Hdep : ∀ (s1 : State) W1 (deps1 : list nat),
            watchers s1 !! w = Some W1 → watchers s1 !! t = Some T →
            target s1 = Some t → w_deps W1 = deps1 →
            (∀ d, d ∈ deps1 ↔ d ∈ l) →
            let s2 := Watcher_depend w s1 in
            watchers s2 !! w = Some W1 ∧ target s2 = Some t ∧
            (∃ T', watchers s2 !! t = Some T' ∧
                   w_newDepIds T' = list_to_set l ∪ w_newDepIds T) ∧
            (∀ d, d ∈ l → d ∉ w_newDepIds T → d ∉ w_depIds T → t ∈ subs_of s2 d)).
  { intros s1 W1 deps1 HW1 HT1 Ht1 Hd1 Hl s2. unfold s2, Watcher_depend. rewrite HW1, Hd1.
    fold (touch_all (reverse deps1) s1).
    destruct (touch_all_spec t (reverse deps1) s1 T Ht1 HT1) as (Hg & Hw & Hs).
    split; [by rewrite Hw, lookup_insert_ne|].
    split; [destruct (only_graph_target _ _ Hg) as [-> _]; done|]. split.
    - exists (touched_watcher (reverse deps1) T). rewrite Hw, lookup_insert_eq.
      split; [done|]. simpl. apply set_eq. intros d.
      rewrite !elem_of_union, !elem_of_list_to_set, elem_of_reverse, Hl. done.
    - intros d Hd Hn1 Hn2. rewrite Hs, decide_True.
      + apply elem_of_app. right. constructor.
      + rewrite elem_of_reverse, Hl. done. }
  unfold s', computedGetter. rewrite HW. unfold l. clear s'.
  destruct (w_dirty W) eqn:Hdirty.
  - specialize (Hres eq_refl). unfold Watcher_evaluate.
    destruct (get_result getter traverse_reads w s W HW) as [Hval _].
    destruct (get_spec getter traverse_reads w s W HW) as (Hw & _).
    destruct (get_target_stack getter traverse_reads w s W HW) as [_ Htg'].
    rewrite Hres in Hval.
    destruct (get w s) as [r s1] eqn:Hget. simpl in Hval, Hw, Htg'. subst r.
    set (s1' := upd_watcher w (with_dirty false) (upd_watcher w (with_value v) s1)).
    assert (HW1 : watchers s1' !! w =
                  Some (with_dirty false (with_value v (evaluated_watcher (touched w s) W)))).
    { unfold s1'. simpl. by rewrite !lookup_alter_eq, Hw, lookup_insert_eq. }
    assert (HT1 : watchers s1' !! t = Some T).
    { unfold s1'. simpl. by rewrite !lookup_alter_ne, Hw, lookup_insert_ne by done. }
    assert (Ht1 : target s1' = Some t) by (unfold s1'; simpl; congruence).
    destruct (Hdep s1' _ (fresh_reads ∅ (touched w s)) HW1 HT1 Ht1) as (H1 & H2 & H3 & H4).
    { simpl. by rewrite I1, I2. }
    { intros d. rewrite elem_of_fresh_reads. set_solver. }
    rewrite Ht1. simpl. rewrite H1. done.
  - destruct (Hdep s W (w_deps W) HW HT Htg eq_refl) as (H1 & H2 & H3 & H4); [done|].
    rewrite Htg. simpl. rewrite H1. done.
Qed.

End Callers.

Lemma sample_user_watcher_reachable :
  reachable throwing_getter no_traverse sample_user_watcher.
Proof. apply run_ops_reachable, sample_init_reachable. Qed.

Lemma get_of_throwing_getter_witness :
  reachable throwing_getter no_traverse sample_user_watcher ∧
  (w_user <$> watchers sample_user_watcher !! 1) = Some true ∧
  (Watcher_get throwing_getter no_traverse 1 sample_user_watcher).1 = Normal VUndef.
Proof.
  split; [apply sample_user_watcher_reachable|]. split; [vm_compute; reflexivity|].
  assert (H := λ W H1 H2, proj1 (get_of_throwing_getter throwing_getter no_traverse 1 W
                 sample_user_watcher sample_user_watcher_reachable H1 H2)).
  exact (H _ ltac:(vm_compute; reflexivity) eq_refl).
Defined.

Lemma run_calls_callback_witness :
  (w_active <$> watchers sample_one_watcher !! 1) = Some true ∧
  events_since sample_one_watcher
    (Watcher_run sample_getter no_traverse 1 sample_one_watcher).2 = [].
Proof.
  split; [vm_compute; reflexivity|].
  assert (H := λ W v H1 H2 H3, proj1 (proj2 (run_calls_callback sample_getter no_traverse 1 W v
                 sample_one_watcher H1 H2 H3))).
  exact (H _ _ ltac:(vm_compute; reflexivity) eq_refl eq_refl).
Defined.

Lemma deps_in_order_of_first_read_witness :
  reachable sample_getter no_traverse sample_one_watcher ∧
  Watcher_touched sample_getter no_traverse 1 sample_one_watcher = [0; 1; 0] ∧
  ∃ W', watchers (Watcher_get sample_getter no_traverse 1 sample_one_watcher).2 !! 1 = Some W' ∧
        w_deps W' = [0; 1].
Proof.
  split; [apply sample_one_watcher_reachable|]. split; [vm_compute; reflexivity|].
  assert (H := λ W H1, deps_in_order_of_first_read sample_getter no_traverse 1 W
                 sample_one_watcher sample_one_watcher_reachable H1).
  edestruct H as (W' & H1 & H2 & _); [vm_compute; reflexivity|].
  exists W'. split; [exact H1|]. rewrite H2. vm_compute. reflexivity.
Defined.


Lemma computed_read_propagates_witness :
  target sample_computed_read = Some 2 ∧
  (w_dirty <$> watchers sample_computed_read !! 1) = Some true ∧
  (computedGetter sample_getter no_traverse 1 sample_computed_read).1 =
    Normal (VNum (Num 1)) ∧
  target (computedGetter sample_getter no_traverse 1 sample_computed_read).2 = Some 2.
Proof.
  split; [reflexivity|]. split; [vm_compute; reflexivity|].
  assert (H := λ W T H1 H2 H3 H4 H5 H6 H7 H8,
    computed_read_propagates sample_getter no_traverse 1 W 2 T (VNum (Num 1))
      sample_computed_read H1 H2 H3 H4 H5 H6 H7 H8).
  edestruct H as (H1 & H2 & _);
    [vm_compute; reflexivity|vm_compute; reflexivity|lia|reflexivity|reflexivity
    |reflexivity|reflexivity|reflexivity|].
  split; [exact H1|exact H2].
Defined.
(** * [set] and [del] *)

Lemma set_prop_absent k p props :
  get_prop k props = None → set_prop k p props = props ++ [(k, p)].
Proof.
  induction props as [|[k' q] props IH]; simpl; [done|].
  destruct (decide (k' = k)); [done|]. intros H. by rewrite IH.
Qed.

Lemma get_prop_set_prop_eq k p props : get_prop k (set_prop k p props) = Some p.
Proof.
  induction props as [|[k' q] props IH]; simpl.
  - by destruct (decide (k = k)).
  - destruct (decide (k' = k)) as [->|Hne]; simpl.
    + by destruct (decide (k = k)).
    + by destruct (decide (k' = k)).
Qed.

Lemma del_prop_last k p props :
  get_prop k props = None → del_prop k (props ++ [(k, p)]) = props.
Proof.
  induction props as [|[k' q] props IH]; simpl.
  - by rewrite decide_True.
  - destruct (decide (k' = k)); [done|]. intros H. by rewrite IH.
Qed.

Lemma get_prop_del_prop_ne k k' props :
  k' ≠ k → get_prop k' (del_prop k props) = get_prop k' props.
Proof.
  intros Hne. induction props as [|[k0 q] props IH]; simpl; [done|].
  destruct (decide (k0 = k)) as [->|].
  - by rewrite decide_False by done.
  - simpl. by rewrite IH.
Qed.

Lemma get_prop_None k props : k ∉ props.*1 → get_prop k props = None.
Proof.
  induction props as [|[k0 q] props IH]; simpl; [done|].
  rewrite not_elem_of_cons. intros [Hne Hn]. rewrite decide_False by done. by apply IH.
Qed.

Lemma get_prop_del_prop k props :
  NoDup props.*1 → get_prop k (del_prop k props) = None.
Proof.
  induction props as [|[k0 q] props IH]; simpl; [done|].
  rewrite NoDup_cons. intros [Hn Hnd]. destruct (decide (k0 = k)) as [->|Hne].
  - by apply get_prop_None.
  - simpl. rewrite decide_False by done. by apply IH.
Qed.

Section SetAndDel.
Variable getter : nat → State → GetterOutcome.
Variable traverse_reads : nat → State → list nat.
Variable original : ArrayMethod → nat → list value → State → completion value * State.
Variable array_index : string → option nat.
Variable inherited : Object → string → bool.
Variable in_Object_prototype : string → bool.
Variable assign_absent : nat → string → value → State → completion unit * State.

Local Notation notify := (Dep_notify getter traverse_reads).
Local Notation "'Vue_set'" :=
  (set getter traverse_reads original array_index inherited in_Object_prototype
     assign_absent).
Local Notation "'Vue_del'" := (del getter traverse_reads original array_index).

(** [set] of a key that is new to an observed object that is neither a
    component instance nor root data. *)
Lemma set_new_key_spec fuel a key val s o ob :
  store_wf s → size (unobserved s) < fuel →
  heap s !! a = Some o → o_kind o = KPlain → o_isVue o = false →
  o_ob o = Some ob → ob_vmCount ob = 0 → o_extensible o = true →
  get_prop key (o_props o) = None → inherited o key = false →
  ∃ (r : completion ()) s' c childOb,
    Vue_set fuel a key val s = Some (returning val r, s') ∧
    heap s' !! a = Some (with_props (λ ps, ps ++ [(key, PReactive c)]) o) ∧
    closures s' !! c = Some (mkClosure (dep_uid s) val childOb None false false) ∧
    closures s !! c = None ∧
    (attachable val s → observed val s') ∧
    ∃ evs, trace s' = trace s ++ evs ∧
           ∀ d, notifications d evs = if decide (ob_dep ob = d) then 1 else 0.
Proof.
  intros Hwf Hsz Ha Hkind Hvue Hob Hvm Hext Hprop Hinh.
  unfold set. rewrite Ha.
  assert (isArray (VObj a) s = false) as -> by (unfold isArray; by rewrite Ha; simpl; rewrite Hkind).
  assert (hasOwn o key = false) as -> by (unfold hasOwn; by rewrite Hprop).
  assert (is_root_data o = false) as -> by (unfold is_root_data; by rewrite Hob, Hvm).
  rewrite Hinh, Hvue, Hob, Hext. simpl.
  unfold defineReactive, defineReactive_with.
  destruct (Dep_new s) as [dep s1] eqn:Hnew.
  assert (Hs1 : s1 = (Dep_new s).2) by (by rewrite Hnew).
  assert (Hdep : dep = dep_uid s) by (by injection Hnew).
  assert (Hheap1 : heap s1 = heap s) by (by rewrite Hs1).
  assert (Hwf1 : store_wf s1).
  { rewrite Hs1. destruct Hwf as [W1 W2 W3]. by split. }
  assert (Hsz1 : size (unobserved s1) < fuel).
  { unfold unobserved in *. by rewrite Hheap1. }
  rewrite Hheap1, Ha. simpl. rewrite Hprop. simpl.
  destruct (observe_total fuel val s1 Hwf1 Hsz1)
    as (childOb & s3 & -> & Hwf3 & Hsub3 & Hf3 & Hatt & _).
  simpl.
  destruct (of_heap _ _ _ Hf3 a o) as (o3 & Ha3 & Hsh3 & He3); [by rewrite Hheap1|].
  assert (o3 = o) as -> by (apply He3; [by rewrite Hob|set_solver]).
  set (c := closure_uid s3).
  set (s4 := set_heap _ _).
  destruct (notify (ob_dep ob) s4) as [r s'] eqn:Hn.
  pose proof (notify_store getter traverse_reads (ob_dep ob) s4) as Hst.
  destruct (notify_trace_app getter traverse_reads (ob_dep ob) s4) as (evs & Htr & Hevs).
  rewrite Hn in Hst, Htr. simpl in Hst, Htr.
  destruct Hst as (Hh & Hc & _).
  exists r, s', c, childOb. split; [done|]. split.
  { rewrite Hh. unfold s4. simpl. rewrite lookup_alter_eq, Ha3. simpl.
    unfold with_props. simpl. by rewrite set_prop_absent. }
  split.
  { rewrite Hc. unfold s4. simpl. rewrite lookup_insert_eq. by rewrite Hdep. }
  split.
  { destruct (closures s !! c) as [C|] eqn:HC; [|done].
    destruct (wf_closures _ Hwf c C HC) as [Hlt _].
    destruct (of_closures _ _ _ Hf3) as [Hle _]. rewrite Hs1 in Hle. simpl in Hle.
    unfold c in Hlt. lia. }
  split.
  { intros Hv. assert (attachable val s1) as Hv1.
    { destruct Hv as (b & ob' & -> & Hb & Hrest). exists b, ob'.
      rewrite Hheap1. split; [done|]. split; [done|]. by rewrite Hs1. }
    destruct (Hatt Hv1) as [(b & ob' & -> & Hb & Hs) _].
    exists b. destruct (decide (b = a)) as [->|Hne].
    - exists (with_props (set_prop key (PReactive c)) o). split; [done|].
      rewrite Hh. unfold s4. simpl. rewrite lookup_alter_eq, Ha3.
      split; [done|]. simpl. rewrite Hob. by eexists.
    - exists ob'. split; [done|]. rewrite Hh. unfold s4. simpl.
      by rewrite lookup_alter_ne. }
  exists evs. split; [|done]. rewrite Htr. unfold s4. simpl.
  rewrite (of_trace _ _ _ Hf3). by rewrite Hs1.
Qed.

(** [del] of an own property of an observed object that is neither a
    component instance nor root data. *)
Lemma del_own_key_spec fuel a key s o ob p :
  heap s !! a = Some o → o_kind o = KPlain → o_isVue o = false →
  o_ob o = Some ob → ob_vmCount ob = 0 →
  get_prop key (o_props o) = Some p → configurable p = true →
  ∃ r s',
    Vue_del fuel a key s = Some (r, s') ∧
    heap s' !! a = Some (with_props (del_prop key) o) ∧
    ∃ evs, trace s' = trace s ++ evs ∧
           ∀ d, notifications d evs = if decide (ob_dep ob = d) then 1 else 0.
Proof.
  intros Ha Hkind Hvue Hob Hvm Hprop Hcfg. unfold del. rewrite Ha.
  assert (isArray (VObj a) s = false) as ->
    by (unfold isArray; by rewrite Ha; simpl; rewrite Hkind).
  assert (is_root_data o = false) as -> by (unfold is_root_data; by rewrite Hob, Hvm).
  rewrite Hvue, Hprop, Hcfg, Hob. simpl.
  set (s1 := set_heap _ s).
  destruct (notify (ob_dep ob) s1) as [r s'] eqn:Hn.
  pose proof (notify_store getter traverse_reads (ob_dep ob) s1) as Hst.
  destruct (notify_trace_app getter traverse_reads (ob_dep ob) s1) as (evs & Htr & Hevs).
  rewrite Hn in Hst, Htr. simpl in Hst, Htr. destruct Hst as (Hh & _).
  exists r, s'. split; [done|]. split.
  - rewrite Hh. unfold s1. simpl. by rewrite lookup_alter_eq, Ha.
  - by exists evs.
Qed.

(** X7: [set] of a key that is new to an observed object (one that is
    neither a component instance nor root data) defines the key as a
    reactive property that holds the value, with a Dep of its own, observes
    the value, leaves the other properties alone, and notifies the Dep of
    the object's observer once. *)
Theorem set_makes_new_key_reactive fuel a key val s o ob :
  store_wf s → size (unobserved s) < fuel →
  heap s !! a = Some o → o_kind o = KPlain → o_isVue o = false →
  o_ob o = Some ob → ob_vmCount ob = 0 → o_extensible o = true →
  get_prop key (o_props o) = None → inherited o key = false →
  ∃ (r : completion ()) s' o' c C,
    Vue_set fuel a key val s = Some (returning val r, s') ∧
    heap s' !! a = Some o' ∧
    get_prop key (o_props o') = Some (PReactive c) ∧
    (∀ k, k ≠ key → get_prop k (o_props o') = get_prop k (o_props o)) ∧
    closures s' !! c = Some C ∧ closures s !! c = None ∧
    current_value s' C = val ∧ c_dep C = dep_uid s ∧
    (attachable val s → observed val s') ∧
    notifications (ob_dep ob) (events_since s s') = 1.
Proof.
  intros Hwf Hsz Ha Hkind Hvue Hob Hvm Hext Hprop Hinh.
  destruct (set_new_key_spec fuel a key val s o ob)
    as (r & s' & c & childOb & Hset & Hh & Hc & Hfresh & Hobs & evs & Htr & Hevs);
    try done.
  exists r, s', (with_props (λ ps, ps ++ [(key, PReactive c)]) o), c,
    (mkClosure (dep_uid s) val childOb None false false).
  split; [done|]. split; [done|]. split.
  { simpl. rewrite <- (set_prop_absent key (PReactive c)) by done.
    apply get_prop_set_prop_eq. }
  split.
  { intros k Hk. simpl. rewrite <- (set_prop_absent key (PReactive c)) by done.
    by apply get_prop_set_prop_ne. }
  split; [done|]. split; [done|]. split; [done|]. split; [done|]. split; [done|].
  rewrite (events_since_app _ _ _ Htr), Hevs. by rewrite decide_True.
Qed.

(** X8: [del] of an own, configurable property of an observed object (one
    that is neither a component instance nor root data) removes it, leaves
    the other properties alone, and notifies the Dep of the object's
    observer once. *)
Theorem del_removes_and_notifies fuel a key s o ob p :
  store_wf s →
  heap s !! a = Some o → o_kind o = KPlain → o_isVue o = false →
  o_ob o = Some ob → ob_vmCount ob = 0 →
  get_prop key (o_props o) = Some p → configurable p = true →
  ∃ r s' o',
    Vue_del fuel a key s = Some (r, s') ∧
    heap s' !! a = Some o' ∧
    get_prop key (o_props o') = None ∧
    (∀ k, k ≠ key → get_prop k (o_props o') = get_prop k (o_props o)) ∧
    notifications (ob_dep ob) (events_since s s') = 1.
Proof.
  intros Hwf Ha Hkind Hvue Hob Hvm Hprop Hcfg.
  destruct (del_own_key_spec fuel a key s o ob p)
    as (r & s' & Hdel & Hh & evs & Htr & Hevs); try done.
  exists r, s', (with_props (del_prop key) o).
  split; [done|]. split; [done|]. split.
  { simpl. apply get_prop_del_prop. by eapply wf_keys. }
  split.
  { intros k Hk. simpl. by apply get_prop_del_prop_ne. }
  rewrite (events_since_app _ _ _ Htr), Hevs. by rewrite decide_True.
Qed.

(** X9: [set] of a new key on an observed object followed by [del] of the
    key leaves the object as it was, property for property, and the Dep of
    its observer has been notified twice. *)
Theorem set_then_del_restores fuel a key val s o ob :
  store_wf s → size (unobserved s) < fuel →
  heap s !! a = Some o → o_kind o = KPlain → o_isVue o = false →
  o_ob o = Some ob → ob_vmCount ob = 0 → o_extensible o = true →
  get_prop key (o_props o) = None → inherited o key = false →
  ∃ (r1 : completion ()) s1 r2 s2,
    Vue_set fuel a key val s = Some (returning val r1, s1) ∧
    Vue_del fuel a key s1 = Some (r2, s2) ∧
    heap s2 !! a = Some o ∧
    notifications (ob_dep ob) (events_since s s2) = 2.
Proof.
  intros Hwf Hsz Ha Hkind Hvue Hob Hvm Hext Hprop Hinh.
  destruct (set_new_key_spec fuel a key val s o ob)
    as (r1 & s1 & c & childOb & Hset & Hh & _ & _ & _ & evs1 & Htr1 & Hevs1);
    try done.
  destruct (del_own_key_spec fuel a key s1 _ ob (PReactive c) Hh)
    as (r2 & s2 & Hdel & Hh2 & evs2 & Htr2 & Hevs2); try done.
  { simpl. rewrite <- (set_prop_absent key (PReactive c)) by done.
    apply get_prop_set_prop_eq. }
  exists r1, s1, r2, s2. split; [done|]. split; [done|]. split.
  { rewrite Hh2. f_equal. destruct o. unfold with_props. simpl in *.
    by rewrite del_prop_last. }
  rewrite Htr1, <- app_assoc in Htr2.
  rewrite (events_since_app _ _ _ Htr2), notifications_app, Hevs1, Hevs2.
  by rewrite decide_True.
Qed.

End SetAndDel.
Lemma sample_observed_object_wf : store_wf sample_observed_object.
Proof.
  apply store_wf_check_sound. unfold store_wf_check.
  split; [|split]; compute_done.
Qed.

Lemma set_makes_new_key_reactive_witness :
  store_wf sample_observed_object ∧ size (unobserved sample_observed_object) < 2 ∧
  ∃ (r : completion ()) s',
    set sample_getter no_traverse sample_native sample_array_index sample_inherited
      sample_in_Object_prototype sample_assign_absent 2 0 "x" (VNum (Num 1))
      sample_observed_object = Some (returning (VNum (Num 1)) r, s') ∧
    notifications 0 (events_since sample_observed_object s') = 1.
Proof.
  split; [apply sample_observed_object_wf|]. split; [vm_compute; lia|].
  destruct (set_makes_new_key_reactive sample_getter no_traverse sample_native
              sample_array_index sample_inherited sample_in_Object_prototype
              sample_assign_absent 2 0 "x" (VNum (Num 1)) sample_observed_object
              (mkObject KPlain true false false (Some (mkObserver 0 0)) [] [])
              (mkObserver 0 0))
    as (r & s' & o' & c & C & H1 & _ & _ & _ & _ & _ & _ & _ & _ & H2);
    [apply sample_observed_object_wf|vm_compute; lia|reflexivity|reflexivity|reflexivity
    |reflexivity|reflexivity|reflexivity|reflexivity|reflexivity|].
  exists r, s'. split; [exact H1|exact H2].
Defined.

Lemma sample_store_after_set_wf :
  store_wf (from_option snd sample_observed_object
    (set sample_getter no_traverse sample_native sample_array_index sample_inherited
       sample_in_Object_prototype sample_assign_absent 2 0 "x" (VNum (Num 1))
       sample_observed_object)).
Proof.
  apply store_wf_check_sound. unfold store_wf_check.
  split; [|split]; compute_done.
Qed.

Lemma del_removes_and_notifies_witness :
  ∃ r s',
    del sample_getter no_traverse sample_native sample_array_index 2 0 "x"
      (from_option snd sample_observed_object
        (set sample_getter no_traverse sample_native sample_array_index sample_inherited
           sample_in_Object_prototype sample_assign_absent 2 0 "x" (VNum (Num 1))
           sample_observed_object)) = Some (r, s') ∧
    ∃ o', heap s' !! 0 = Some o' ∧ get_prop "x" (o_props o') = None.
Proof.
  destruct (del_removes_and_notifies sample_getter no_traverse sample_native
              sample_array_index 2 0 "x"
              (from_option snd sample_observed_object
                (set sample_getter no_traverse sample_native sample_array_index
                   sample_inherited sample_in_Object_prototype sample_assign_absent
                   2 0 "x" (VNum (Num 1)) sample_observed_object))
              (mkObject KPlain true false false (Some (mkObserver 0 0))
                 [("x"%string, PReactive 0)] [])
              (mkObserver 0 0) (PReactive 0))
    as (r & s' & o' & H1 & H2 & H3 & _);
    [apply sample_store_after_set_wf|vm_compute; reflexivity|reflexivity|reflexivity
    |reflexivity|reflexivity|reflexivity|reflexivity|].
  exists r, s'. split; [exact H1|]. exists o'. split; [exact H2|exact H3].
Defined.

Lemma set_then_del_restores_witness :
  store_wf sample_observed_object ∧ size (unobserved sample_observed_object) < 2 ∧
  ∃ (r1 : completion ()) s1 r2 s2,
    set sample_getter no_traverse sample_native sample_array_index sample_inherited
      sample_in_Object_prototype sample_assign_absent 2 0 "x" (VNum (Num 1))
      sample_observed_object = Some (returning (VNum (Num 1)) r1, s1) ∧
    del sample_getter no_traverse sample_native sample_array_index 2 0 "x" s1
      = Some (r2, s2) ∧
    heap s2 !! 0 = heap sample_observed_object !! 0.
Proof.
  split; [apply sample_observed_object_wf|]. split; [vm_compute; lia|].
  destruct (set_then_del_restores sample_getter no_traverse sample_native
              sample_array_index sample_inherited sample_in_Object_prototype
              sample_assign_absent 2 0 "x" (VNum (Num 1)) sample_observed_object
              (mkObject KPlain true false false (Some (mkObserver 0 0)) [] [])
              (mkObserver 0 0))
    as (r1 & s1 & r2 & s2 & H1 & H2 & H3 & _);
    [apply sample_observed_object_wf|vm_compute; lia|reflexivity|reflexivity|reflexivity
    |reflexivity|reflexivity|reflexivity|reflexivity|reflexivity|].
  exists r1, s1, r2, s2. split; [exact H1|]. split; [exact H2|]. exact H3.
Defined.
(** * More of the observer *)

Lemma attachable_dec v s : attachable v s ∨ ¬ attachable v s.
Proof.
  destruct v as [| | | | |a]; try (right; by intros (? & ? & ? & _)).
  destruct (heap s !! a) as [o|] eqn:Ho; [|right; intros (? & ? & [= <-] & ? & _); congruence].
  destruct (o_isVNode o) eqn:Hv.
  { right. intros (? & ? & [= <-] & ? & ? & _). congruence. }
  destruct (o_ob o) as [ob|] eqn:Hob.
  { left. exists a, o. rewrite Hob. eauto. }
  destruct (observable s o) eqn:Hobs.
  { left. exists a, o. eauto. }
  right. intros (? & o' & [= <-] & Ho' & _ & [Hs|Hs]).
  - assert (o' = o) as -> by congruence. rewrite Hob in Hs. by destruct Hs.
  - assert (o' = o) as -> by congruence. congruence.
Qed.


(** ** [observe] keeps the values *)

Lemma defineReactive_data_step f obs fuel a k s oa v :
  obs_total f obs → store_wf s → size (unobserved s) < f →
  heap s !! a = Some oa → is_Some (o_ob oa) →
  get_prop k (o_props oa) = Some (PData v true) →
  ∃ s', defineReactive_with obs fuel a k None false false s = Some s' ∧
        reactive_with_value s' a k v.
Proof.
  intros Hobs Hwf Hsz Ha Hob Hp. unfold defineReactive_with.
  destruct (Dep_new s) as [dep s1] eqn:Hnew.
  assert (Hs1 : s1 = (Dep_new s).2) by (by rewrite Hnew).
  assert (Hheap1 : heap s1 = heap s) by (by rewrite Hs1).
  assert (Hwf1 : store_wf s1).
  { rewrite Hs1. destruct Hwf as [W1 W2 W3]. by split. }
  assert (Hsz1 : size (unobserved s1) < f).
  { unfold unobserved in *. by rewrite Hheap1. }
  rewrite Hheap1, Ha. simpl. rewrite Hp. simpl.
  unfold propGet. rewrite Hheap1, Ha. simpl. rewrite Hp. simpl.
  destruct (Hobs v s1 Hwf1 Hsz1) as (childOb & s3 & -> & Hwf3 & Hsub3 & Hf3 & _).
  simpl.
  destruct (of_heap _ _ _ Hf3 a oa) as (oa3 & Ha3 & Hsh3 & He3); [by rewrite Hheap1|].
  assert (oa3 = oa) as -> by (apply He3; [done|set_solver]).
  eexists. split; [reflexivity|].
  eexists _, (closure_uid s3), _. simpl.
  rewrite lookup_alter_eq, Ha3, lookup_insert_eq. simpl.
  split; [done|]. split.
  { apply get_prop_set_prop_eq. }
  split; [done|]. split; [done|]. split; [lia|]. by eexists _, _.
Qed.

Lemma reactive_with_value_frame s s' a k v oa oa' :
  frame {[a]} s s' → heap s !! a = Some oa → heap s' !! a = Some oa' →
  get_prop k (o_props oa') = get_prop k (o_props oa) →
  reactive_with_value s a k v → reactive_with_value s' a k v.
Proof.
  intros Hf Ha Ha' Hk (o & c & C & Ho & Hp & HC & Hv & Hlt & Horig).
  assert (o = oa) as -> by congruence.
  destruct (of_closures _ _ _ Hf) as [Hle Hsame].
  exists oa', c, C. split; [done|]. split; [by rewrite Hk|].
  split; [by rewrite Hsame|]. split; [done|]. split; [lia|done].
Qed.

Lemma walk_values f obs fuel a :
  obs_total f obs →
  ∀ keys s oa, store_wf s → size (unobserved s) < f →
    heap s !! a = Some oa → is_Some (o_ob oa) → NoDup keys →
    (∀ k, k ∈ keys → ∃ p, get_prop k (o_props oa) = Some p ∧ is_reactive p = false) →
    ∃ s' oa', walk_with obs fuel a keys s = Some s' ∧ frame {[a]} s s' ∧
          heap s' !! a = Some oa' ∧
          (∀ k, k ∉ keys → get_prop k (o_props oa') = get_prop k (o_props oa)) ∧
          (∀ k v, k ∈ keys → get_prop k (o_props oa) = Some (PData v true) →
                  reactive_with_value s' a k v).
Proof.
  intros Hobs. induction keys as [|k keys IH]; intros s oa Hwf Hsz Ha Hob Hnd Hkeys.
  { exists s, oa. split; [done|]. split; [apply frame_refl|]. split; [done|].
    split; [done|]. intros k v Hk. by apply elem_of_nil in Hk. }
  apply NoDup_cons in Hnd as [Hk Hnd].
  destruct (Hkeys k) as (p & Hp & Hr); [apply list_elem_of_here|].
  destruct (defineReactive_with_step f obs fuel a k s oa p Hobs Hwf Hsz Ha Hob Hp Hr)
    as (s1 & Hd & Hwf1 & Hf1 & oa1 & Ha1 & Hob1 & Hrest).
  destruct (IH s1 oa1 Hwf1) as (s' & oa' & Hw & Hf' & Ha' & Hout & Hin); try done.
  { pose proof (subseteq_size _ _ (frame_unobserved _ _ _ Hf1)). lia. }
  { intros k' Hk'. rewrite Hrest by (intros ->; done).
    apply Hkeys. by apply list_elem_of_further. }
  exists s', oa'. split.
  { unfold walk_with in *. simpl. rewrite Hd. exact Hw. }
  split; [by eapply frame_trans|]. split; [done|]. split.
  { intros k' Hk'. apply not_elem_of_cons in Hk' as [Hne Hk'].
    rewrite Hout by done. by apply Hrest. }
  intros k' v [->|Hk']%elem_of_cons Hv.
  - destruct (defineReactive_data_step f obs fuel a k s oa v Hobs Hwf Hsz Ha Hob Hv)
      as (s1' & Hd' & Hreact).
    assert (s1' = s1) as -> by congruence.
    eapply (reactive_with_value_frame s1 s'); [exact Hf'|exact Ha1|exact Ha'| |exact Hreact].
    by apply Hout.
  - apply Hin; [done|]. rewrite Hrest; [done|]. intros ->. done.
Qed.

(** X11: [observe] of a plain object that has no observer yet, and that
    [observe] accepts, makes every configurable data property of the
    object reactive and keeps its value: the closure of the property holds
    the value the property had, so that a read outside of any evaluation
    returns this value and changes nothing. *)
Theorem observe_keeps_values fuel a o s :
  store_wf s → size (unobserved s) < fuel →
  heap s !! a = Some o → o_kind o = KPlain → o_isVNode o = false →
  o_ob o = None → observable s o = true →
  ∃ s', observe fuel (VObj a) false s = Some (Some a, s') ∧
        observed (VObj a) s' ∧
        ∀ k v, get_prop k (o_props o) = Some (PData v true) →
               reactive_with_value s' a k v ∧
               (target s = None → ∀ n, propGet (S n) a k s' = Some (v, s')).
Proof.
  intros Hwf Hsz Ho Hkind Hvn Hob Hobs.
  destruct fuel as [|f]; [lia|]. simpl. rewrite Ho, Hvn, Hob, Hobs.
  unfold Observer_new_with.
  destruct (Dep_new s) as [dep s1] eqn:Hnew.
  assert (Hs1 : s1 = (Dep_new s).2) by (by rewrite Hnew).
  assert (Hheap1 : heap s1 = heap s) by (by rewrite Hs1).
  assert (Hwf1 : store_wf s1).
  { rewrite Hs1. destruct Hwf as [W1 W2 W3]. by split. }
  destruct (mark_observer a o (mkObserver dep 0) s1) as (Hf2 & Hsz2 & Ha2 & Hwf2);
    [by rewrite Hheap1|done|].
  set (s2 := set_heap _ s1) in *. specialize (Hwf2 Hwf1).
  assert (Hsz2' : size (unobserved s2) < f).
  { assert (unobserved s1 = unobserved s) as E by (unfold unobserved; by rewrite Hheap1).
    rewrite E in Hsz2. lia. }
  rewrite Ha2. simpl. rewrite Hkind.
  destruct (walk_values f _ f a (observe_total f) (o_props o).*1 s2 _ Hwf2 Hsz2' Ha2)
    as (s' & oa' & -> & Hf' & Ha' & _ & Hin).
  - simpl. by eexists.
  - by eapply (wf_keys _ Hwf).
  - intros k Hk'. simpl. destruct (get_prop_is_Some k (o_props o) Hk') as [p Hp].
    exists p. split; [done|]. eapply (wf_plain _ Hwf a o Ho Hob).
    + unfold observable in Hobs. by destruct (o_isVue o); rewrite ?andb_false_r in Hobs.
    + by apply get_prop_elem.
  - simpl. exists s'. split; [done|]. split.
    { eapply frame_observed; [exact Hf'|]. eexists a, _. split; [done|].
      split; [exact Ha2|]. simpl. by eexists. }
    intros k v Hk.
    assert (Hreact : reactive_with_value s' a k v).
    { apply Hin; [|done]. apply get_prop_elem in Hk.
      apply list_elem_of_fmap. by exists (k, PData v true). }
    split; [done|]. intros Htg n.
    destruct Hreact as (o' & c & C & Ho' & Hp & HC & Hv & _ & v' & cfg & Horig).
    unfold propGet. rewrite Ho'. simpl. rewrite Hp. simpl. rewrite HC.
    unfold closure_value. rewrite Horig. simpl.
    assert (target s' = None) as ->.
    { destruct (of_target _ _ _ Hf') as [-> _]. simpl. by rewrite Hs1. }
    by rewrite Hv.
Qed.

Lemma observe_keeps_values_witness :
  store_wf sample_dev ∧ size (unobserved sample_dev) < 4 ∧
  ∃ s', observe 4 (VObj 1) false sample_dev = Some (Some 1, s') ∧
        propGet 1 1 "x" s' = Some (VNum (Num 1), s').
Proof.
  split; [apply sample_store_wf|]. split; [vm_compute; lia|].
  destruct (observe_keeps_values 4 1
              (mkObject KPlain true false false None
                 [("x"%string, PData (VNum (Num 1)) true)] []) sample_dev)
    as (s' & H1 & _ & H2);
    [apply sample_store_wf|vm_compute; lia|reflexivity|reflexivity|reflexivity
    |reflexivity|reflexivity|].
  exists s'. split; [exact H1|]. apply (H2 "x"%string); reflexivity.
Defined.
(** ** Reading a reactive property that holds an array *)

Lemma heap_Dep_depend d s : heap (Dep_depend d s) = heap s.
Proof.
  unfold Dep_depend. destruct (target s) as [t|]; [|done].
  destruct (watchers s !! t) as [T|] eqn:HT.
  - destruct (addDep_spec t d s T HT) as (Hg & _).
    apply only_graph_same_env in Hg. by destruct Hg as (_ & _ & _ & _ & -> & _).
  - unfold Watcher_addDep. by rewrite HT.
Qed.

Lemma heap_touch_all l s : heap (touch_all l s) = heap s.
Proof.
  revert s. induction l as [|d l IH]; intros s; [done|].
  change (touch_all (d :: l) s) with (touch_all l (Dep_depend d s)).
  by rewrite IH, heap_Dep_depend.
Qed.

Lemma depend_on_observer_touch e s :
  depend_on_observer e s = touch_all (option_list (observer_dep s e)) s.
Proof.
  unfold depend_on_observer, observer_dep. destruct e; try done.
  by destruct (heap s !! a ≫= o_ob).
Qed.

(** [dependArray] on an array none of whose elements is an array. *)
Lemma dependArray_flat fuel arr A s0 :
  heap s0 !! arr = Some A →
  (∀ e, e ∈ o_elems A → isArray e s0 = false) →
  dependArray (S fuel) (VObj arr) s0
  = Some (touch_all (element_deps s0 (o_elems A)) s0).
Proof.
  intros HA Hflat. cbn [dependArray]. rewrite HA. simpl.
  assert (Hloop : ∀ elems s,
            heap s = heap s0 → (∀ e, e ∈ elems → isArray e s0 = false) →
            foldl (λ acc e, s ← acc;
                     let s1 := depend_on_observer e s in
                     if isArray e s1 then dependArray fuel e s1 else Some s1)
                  (Some s) elems
            = Some (touch_all (element_deps s0 elems) s)).
  { induction elems as [|e elems IH]; intros s Hh Hel; [done|].
    cbn [foldl]. simpl.
    assert (Hs1 : heap (depend_on_observer e s) = heap s0).
    { by rewrite depend_on_observer_touch, heap_touch_all. }
    assert (isArray e (depend_on_observer e s) = false) as ->.
    { rewrite <- (Hel e) by constructor. unfold isArray. by rewrite Hs1. }
    rewrite IH; [|done|intros e' He'; apply Hel; by constructor].
    f_equal. unfold element_deps. simpl.
    rewrite depend_on_observer_touch.
    assert (observer_dep s e = observer_dep s0 e) as ->.
    { unfold observer_dep. by rewrite Hh. }
    destruct (observer_dep s0 e); reflexivity. }
  by apply Hloop.
Qed.

(** X21: a read of a reactive property that holds an observed array, none
    of whose elements is an array, touches the Dep of the property, then
    the Dep of the observer of the array, then the Dep of the observer of
    each element that has one, in the order of the elements, and returns
    the array; so a watcher that is being evaluated, and held none of these
    Deps, is subscribed to each of them. *)
Theorem array_read_tracks_elements fuel c C arr A ob s :
  2 ≤ fuel →
  closures s !! c = Some C →
  (∀ p, c_orig C = Some p → ∃ v cfg, p = PData v cfg) →
  c_val C = VObj arr → c_childOb C = Some arr →
  heap s !! arr = Some A → o_kind A = KArray → o_ob A = Some ob →
  (∀ e, e ∈ o_elems A → isArray e s = false) →
  let reads := c_dep C :: ob_dep ob :: element_deps s (o_elems A) in
  reactiveGetter fuel c s = Some (VObj arr, touch_all reads s) ∧
  ∀ t T, target s = Some t → watchers s !! t = Some T →
         ∀ d, d ∈ reads → d ∉ w_newDepIds T → d ∉ w_depIds T →
              t ∈ subs_of (touch_all reads s) d.
Proof.
  intros Hfuel HC Horig Hval Hch HA Hkind Hob Hflat reads. split.
  - assert (Hcv : ∀ rg, closure_value rg C s = Some (VObj arr, s)).
    { intros rg. unfold closure_value. destruct (c_orig C) as [p|] eqn:Hp; [|by rewrite Hval].
      destruct (Horig p eq_refl) as (v & cfg & ->). by rewrite Hval. }
    destruct fuel as [|fuel]; [lia|]. cbn [reactiveGetter]. rewrite HC, Hcv.
    cbn [mbind option_bind]. destruct (target s) as [t|] eqn:Ht.
    + rewrite Hch. cbn [mbind option_bind]. rewrite heap_Dep_depend, HA.
      cbn [mbind option_bind]. rewrite Hob.
      set (s3 := Dep_depend (ob_dep ob) (Dep_depend (c_dep C) s)).
      assert (Hh3 : heap s3 = heap s) by (unfold s3; by rewrite !heap_Dep_depend).
      assert (isArray (VObj arr) s3 = true) as ->.
      { unfold isArray. by rewrite Hh3, HA; simpl; rewrite Hkind. }
      destruct fuel as [|fuel]; [lia|].
      rewrite (dependArray_flat fuel arr A s3).
      * cbn [mbind option_bind]. f_equal. f_equal.
        assert (element_deps s3 (o_elems A) = element_deps s (o_elems A)) as ->.
        { unfold element_deps, observer_dep. by rewrite Hh3. }
        done.
      * by rewrite Hh3.
      * intros e He. rewrite <- (Hflat e He). unfold isArray. by rewrite Hh3.
    + f_equal. f_equal. clear -Ht. generalize reads. clear reads.
      intros l. induction l as [|d l IH]; [done|].
      change (touch_all (d :: l) s) with (touch_all l (Dep_depend d s)).
      assert (Dep_depend d s = s) as -> by (unfold Dep_depend; by rewrite Ht).
      exact IH.
  - intros t T Ht HT d Hd Hn1 Hn2.
    destruct (touch_all_spec t reads s T Ht HT) as (_ & _ & Hs).
    rewrite Hs, decide_True by done. apply elem_of_app. right. constructor.
Qed.

Lemma array_read_tracks_elements_witness :
  reactiveGetter 2 0 sample_array_read
    = Some (VObj 1, touch_all [2; 1; 0] sample_array_read) ∧
  1 ∈ subs_of (touch_all [2; 1; 0] sample_array_read) 0.
Proof.
  assert (H := λ H1 H2 H3 H4 H5 H6 H7 H8,
    array_read_tracks_elements 2 0 (mkClosure 2 (VObj 1) (Some 1) None false false) 1
      (mkObject KArray true false false (Some (mkObserver 1 0)) [] [VObj 0])
      (mkObserver 1 0) sample_array_read (le_n 2) H1 H2 H3 H4 H5 H6 H7 H8).
  edestruct H as [H1 H2];
    [vm_compute; reflexivity|intros p [=]|reflexivity|reflexivity|vm_compute; reflexivity
    |reflexivity|reflexivity| |].
  - intros e He. apply elem_of_cons in He as [->|He]; [reflexivity|by apply elem_of_nil in He].
  - split; [exact H1|].
    apply (H2 1 (mkWatcher 0 false false false true false true [] [] ∅ ∅ VUndef));
      [reflexivity|vm_compute; reflexivity| |apply not_elem_of_empty|apply not_elem_of_empty].
    do 2 apply list_elem_of_further. apply list_elem_of_here.
Defined.

Import VDom.

(** * The virtual DOM: proofs *)

Section SameVnodeClaim.
Variable isTextInputType : value → bool.

Local Notation sameVnode := (sameVnode isTextInputType).
Local Notation sameInputType := (sameInputType isTextInputType).
Local Notation same_element := (same_element isTextInputType).
Local Notation same_node := (same_node isTextInputType).

(** What [sameInputType] reads of a vnode. *)
Lemma input_type_spec s V :
  known s V → input_type V s = Ok (type_attribute s V, s).
Proof.
  intros [Hd _]. unfold input_type, type_attribute.
  destruct (data V) as [d|]; [|done].
  destruct (Hd d eq_refl) as [D HD]. unfold bind, fetch. simpl. rewrite HD.
  simpl. by destruct (d_attrs D).
Qed.

(** [sameInputType] returns, and what it returns. *)
Lemma sameInputType_spec s A B :
  known s A → known s B →
  ∃ r, sameInputType A B s = Ok (r, s) ∧
       (r = true ↔ (tag A = Some "input"%string → input_types_match isTextInputType s A B)).
Proof.
  intros HA HB. unfold VDom.sameInputType.
  destruct (bool_decide_reflect (tag A = Some "input"%string)) as [Ht|Ht]; simpl.
  - unfold bind. rewrite (input_type_spec s A HA), (input_type_spec s B HB).
    eexists. split; [reflexivity|]. unfold input_types_match.
    rewrite orb_true_iff, andb_true_iff. tauto.
  - exists true. split; [done|]. tauto.
Qed.

Lemma same_ref_None a b :
  same_ref a b = true → b = None → a = None.
Proof. intros H ->. by destruct a. Qed.

(** The first case of [sameVnode]. *)
Lemma same_element_spec s A B :
  known s A → known s B →
  ∃ r, (if negb (bool_decide (tag A = tag B)) then ret false
        else if negb (Bool.eqb (isComment A) (isComment B)) then ret false
        else if negb (Bool.eqb (isDef (data A)) (isDef (data B))) then ret false
        else sameInputType A B) s = Ok (r, s) ∧
       (r = true ↔ same_element s A B).
Proof.
  intros HA HB. unfold VDom.same_element.
  destruct (bool_decide_reflect (tag A = tag B)) as [Ht|Ht]; simpl;
    [|exists false; split; [done|]; split; [done|tauto]].
  destruct (Bool.eqb (isComment A) (isComment B)) eqn:Hc; simpl;
    [apply eqb_prop in Hc
    |exists false; split; [done|]; split; [done|];
     intros (_ & Hc' & _); rewrite Hc' in Hc; by rewrite eqb_reflx in Hc].
  destruct (Bool.eqb (isDef (data A)) (isDef (data B))) eqn:Hd; simpl;
    [apply eqb_prop in Hd
    |exists false; split; [done|]; split; [done|];
     intros (_ & _ & Hd' & _); rewrite Hd' in Hd; by rewrite eqb_reflx in Hd].
  destruct (sameInputType_spec s A B HA HB) as (r & Hr & Hiff).
  exists r. split; [done|]. rewrite Hiff. tauto.
Qed.

(** C6 (as amended): [sameVnode(a, b)] returns [true] exactly when the keys
    are equal, the async factories are the same, and either the two vnodes
    have the same tag, the same comment flag, the same definedness of data
    and, for an [input], matching input types (the same [type], or two
    types of text input), or [a] is an async placeholder and no error is
    recorded on the factory of [b]. Otherwise it returns [false], but for
    one case, in which it throws: [a] is flagged as an async placeholder,
    neither vnode has a factory, and the first case fails. *)
Theorem sameVnode_true_iff s a b A B :
  vnodes s !! a = Some A → vnodes s !! b = Some B → known s A → known s B →
  (sameVnode a b s = Ok (true, s) ↔ same_node s A B) ∧
  (sameVnode a b s = TypeError ↔
     key_eq (key A) (key B) = true ∧ asyncFactory A = None ∧ asyncFactory B = None ∧
     ¬ same_element s A B ∧ isAsyncPlaceholder A = true) ∧
  (sameVnode a b s = Ok (true, s) ∨ sameVnode a b s = Ok (false, s) ∨
   sameVnode a b s = TypeError).
Proof.
  intros Ha Hb HA HB. unfold VDom.sameVnode, VDom.same_node, vnode_of, fetch, bind.
  cbv beta. rewrite Ha, Hb. cbv beta iota.
  destruct (key_eq (key A) (key B)) eqn:Hk; simpl.
  2:{ split; [split; [intros [=]|by intros [? _]]|].
      split; [|auto]. split; [intros [=]|by intros [? _]]. }
  destruct (same_ref (asyncFactory A) (asyncFactory B)) eqn:Hf; simpl.
  2:{ split; [split; [intros [=]|by intros (_ & ? & _)]|].
      split; [|auto]. split; [intros [=]|]. intros (_ & HfA & HfB & _).
      by rewrite HfA, HfB in Hf. }
  destruct (same_element_spec s A B HA HB) as (r & Hr & Hiff).
  rewrite Hr. destruct r.
  { split; [split; [intros _; split; [done|]; split; [done|]; left; by apply Hiff|done]|].
    split; [|auto]. split; [intros [=]|]. intros (_ & _ & _ & Hn & _).
    destruct Hn. by apply Hiff. }
  assert (Hne : ¬ same_element s A B) by (intros H%Hiff; done).
  destruct (isAsyncPlaceholder A) eqn:Hp.
  2:{ split; [split; [intros [=]|]; intros (_ & _ & [?|[? _]]); done|].
      split; [|auto]. split; [intros [=]|]. by intros (_ & _ & _ & _ & ?). }
  destruct (asyncFactory B) as [f|] eqn:HfB; simpl.
  - destruct HB as [_ HB]. destruct (HB f HfB) as [F HF].
    unfold deref, ret. rewrite HF.
    destruct (f_error F) eqn:He; simpl.
    + split; [split; [intros [=]|]|].
      * intros (_ & _ & [?|[_ (f' & F' & Hf' & HF' & He')]]); [done|]. congruence.
      * split; [|auto]. split; [intros [=]|by intros (_ & _ & ? & _)].
    + split; [split; [intros _|done]|].
      * split; [done|]. split; [done|]. right. split; [done|]. by exists f, F.
      * split; [|auto]. split; [intros [=]|by intros (_ & _ & ? & _)].
  - unfold deref, throw.
    split; [split; [intros [=]|]|].
    + intros (_ & _ & [?|[_ (f' & F' & ? & _)]]); [done|congruence].
    + split; [|auto]. split; [|done]. intros _.
      split; [done|]. split; [by apply (same_ref_None _ None)|]. done.
Qed.

End SameVnodeClaim.

(** C6 as stated fails when only the first vnode is an async placeholder: the
    placeholder and the vnode of the resolved component differ in tag and
    comment flag, the second is no placeholder, and [sameVnode] returns
    [true]. *)
Lemma sameVnode_of_resolved_placeholder :
  ∃ A B, vnodes sample_async !! 0 = Some A ∧ vnodes sample_async !! 1 = Some B ∧
         isAsyncPlaceholder A = true ∧ isAsyncPlaceholder B = false ∧
         sameVnode sample_isTextInputType 0 1 sample_async = Ok (true, sample_async) ∧
         ¬ same_node_spec sample_isTextInputType sample_async A B.
Proof.
  eexists _, _. split; [vm_compute; reflexivity|]. split; [vm_compute; reflexivity|].
  split; [reflexivity|]. split; [reflexivity|]. split; [vm_compute; reflexivity|].
  intros (_ & _ & [(Ht & _)|(_ & Hp & _)]); discriminate.
Qed.

(** The amended C6 at the same two vnodes. *)
Lemma sameVnode_true_iff_witness :
  sameVnode sample_isTextInputType 0 1 sample_async = Ok (true, sample_async).
Proof.
  assert (Hk : ∀ v V, vnodes sample_async !! v = Some V → v < 2 → known sample_async V).
  { intros v V HV Hv. destruct v as [|[|v]]; [| |lia];
      vm_compute in HV; injection HV as <-;
      (split; intros x [= <-]; vm_compute; eauto). }
  destruct (sameVnode_true_iff sample_isTextInputType sample_async 0 1 _ _
              eq_refl eq_refl (Hk 0 _ eq_refl ltac:(lia)) (Hk 1 _ eq_refl ltac:(lia)))
    as [H _].
  apply H. split; [reflexivity|]. split; [reflexivity|]. right. split; [reflexivity|].
  eexists 0, _. split; [reflexivity|]. split; [vm_compute; reflexivity|reflexivity].
Defined.

Section PatchSameReference.
Variable modules : list ModuleHooks.
Variable external : Callback → M unit.
Variable isTextInputType : value → bool.
Variable hydrate : option nat → nat → M bool.

(** C10: [patchVnode] called with the same vnode for [oldVnode] and [vnode]
    returns at once and leaves every store as it was: no node operation and
    no call of a module callback or of a hook is recorded, and no vnode is
    changed. *)
Theorem patchVnode_same_reference fuel vnode ownerArray index removeOnly s :
  patchVnode modules external isTextInputType hydrate (S fuel)
    vnode vnode ownerArray index removeOnly s = Ok (tt, s).
Proof. simpl. by rewrite Nat.eqb_refl. Qed.

End PatchSameReference.


(** ** Running the computations on a store that is not known *)

Lemma bind_ok {A B} (m : M A) (k : A → M B) s a s' :
  m s = Ok (a, s') → bind m k s = k a s'.
Proof. unfold bind. by intros ->. Qed.

Lemma fetch_ok {A} (m : Store → gmap nat A) r s x :
  m s !! r = Some x → fetch m r s = Ok (x, s).
Proof. unfold fetch. by intros ->. Qed.

Lemma vnode_of_ok v s V : vnodes s !! v = Some V → vnode_of v s = Ok (V, s).
Proof. apply fetch_ok. Qed.

Lemma emit_all_app l o s : emit_all (l ++ [o]) s = emit o (emit_all l s).
Proof. unfold emit_all. by rewrite foldl_app. Qed.

Lemma emit_all_frame l s :
  vnodes (emit_all l s) = vnodes s ∧ vnode_uid (emit_all l s) = vnode_uid s ∧
  datas (emit_all l s) = datas s ∧ arrays (emit_all l s) = arrays s ∧
  array_uid (emit_all l s) = array_uid s ∧ components (emit_all l s) = components s ∧
  factories (emit_all l s) = factories s ∧ dom (emit_all l s) = dom s ∧
  node_uid (emit_all l s) = node_uid s ∧ ops (emit_all l s) = ops s ++ l.
Proof.
  revert s. induction l as [|o l IH]; intros s; simpl.
  - by rewrite app_nil_r.
  - destruct (IH (emit o s)) as (-> & -> & -> & -> & -> & -> & -> & -> & -> & ->).
    simpl. by rewrite <- app_assoc.
Qed.

Lemma node_operations_calls (f : nat → Callback) l :
  node_operations (map (λ j, Call (f j)) l) = [].
Proof. induction l as [|j l IH]; [done|]. simpl. exact IH. Qed.

Lemma node_operations_app l1 l2 :
  node_operations (l1 ++ l2) = node_operations l1 ++ node_operations l2.
Proof. apply filter_app. Qed.

Section MoveClaim.
Variable modules : list ModuleHooks.
Variable external : Callback → M unit.
Variable isTextInputType : value → bool.
Variable hydrate : option nat → nat → M bool.

(** The update callbacks of the modules leave the stores alone. *)
Hypothesis quiet_updates :
  ∀ j oldVnode vnode s, external (ModuleUpdate j oldVnode vnode) s = Ok (tt, s).

Local Notation patchVnode := (patchVnode modules external isTextInputType hydrate).
Local Notation sameVnode := (sameVnode isTextInputType).
Local Notation patched := (patched modules).

(** The calls of the update callbacks add their entries to the trace and
    nothing else. *)
Lemma for_each_updates l o n s :
  for_each l (λ j, call external (ModuleUpdate j o n)) s
  = Ok (tt, emit_all (map (λ j, Call (ModuleUpdate j o n)) l) s).
Proof.
  revert s. induction l as [|j l IH]; intros s; [done|].
  simpl. erewrite bind_ok; [apply IH|].
  unfold call, bind, modify. apply quiet_updates.
Qed.

(** A vnode that is no component is patchable when it has a tag. *)
Lemma isPatchable_leaf fuel n V s :
  1 ≤ fuel → vnodes s !! n = Some V → componentInstance V = None →
  isPatchable fuel n s = Ok (isDef (tag V), s).
Proof.
  intros Hf HV Hc. destruct fuel as [|fuel]; [lia|]. simpl.
  erewrite bind_ok; [|by apply vnode_of_ok]. by rewrite Hc.
Qed.

(** A vnode that was not rendered before is not cloned. *)
Lemma clone_if_used_fresh n V a i s :
  vnodes s !! n = Some V → elm V = None → clone_if_used n a i s = Ok (n, s).
Proof.
  intros HV He. unfold clone_if_used.
  erewrite bind_ok; [|by apply vnode_of_ok]. by rewrite He.
Qed.

Lemma hook_of_none d D s :
  datas s !! d = Some D → d_hook D = None → hook_of (Some d) s = Ok (None, s).
Proof.
  intros HD Hh. unfold hook_of. erewrite bind_ok; [|by apply fetch_ok].
  by rewrite Hh.
Qed.

(** [patchVnode] on two elements without children, of the same text. *)
Lemma patchVnode_leaf fuel o n O k t a i r s :
  2 ≤ fuel → o ≠ n → vnodes s !! o = Some O → isAsyncPlaceholder O = false →
  children O = None → text O = t → leaf_element s n k None t →
  patchVnode fuel o n a i r s = Ok (tt, patched o n (elm O) s).
Proof.
  intros Hfuel Hne HO Hasync Hch Htx (V & d & D & HV & _ & He & Ht & Hc & Hx & Hd & HD & Hh & Hci & Hst & _).
  destruct fuel as [|fuel]; [lia|]. cbn [VDom.patchVnode].
  rewrite (proj2 (Nat.eqb_neq o n) Hne).
  erewrite bind_ok; [|by eapply clone_if_used_fresh]. cbv beta.
  erewrite bind_ok; [|by apply vnode_of_ok]. cbv beta.
  erewrite bind_ok; [|reflexivity]. cbv beta.
  rewrite Hasync.
  set (s1 := set_vnodes (alter (with_elm (elm O)) n) s).
  assert (HV1 : vnodes s1 !! n = Some (with_elm (elm O) V)).
  { unfold s1. simpl. by rewrite lookup_alter_eq, HV. }
  assert (HO1 : vnodes s1 !! o = Some O).
  { unfold s1. simpl. by rewrite lookup_alter_ne. }
  erewrite bind_ok; [|by apply vnode_of_ok]. cbv beta.
  cbn [with_elm isStatic data key isCloned isOnce]. rewrite Hst. cbn [andb].
  rewrite Hd.
  erewrite bind_ok; [|by eapply (hook_of_none d D s1)]. cbv beta iota.
  erewrite bind_ok; [|reflexivity]. cbv beta.
  erewrite bind_ok; [|by apply vnode_of_ok]. cbv beta.
  erewrite bind_ok; [|by apply vnode_of_ok]. cbv beta.
  cbn [isDef].
  erewrite bind_ok.
  2:{ erewrite bind_ok; [|apply (isPatchable_leaf fuel n (with_elm (elm O) V) s1); [lia|done|done]].
      cbv beta. cbn [with_elm tag]. rewrite Ht.
      erewrite bind_ok; [|apply for_each_updates]. cbv beta.
      erewrite bind_ok; [|eapply (hook_of_none d D); [|done]]. 
      - reflexivity.
      - by destruct (emit_all_frame (map (λ j, Call (ModuleUpdate j o n)) (cbs modules Update)) s1) as (_ & _ & -> & _). }
  cbv beta. fold (update_calls modules o n). fold (patched o n (elm O) s).
  destruct (emit_all_frame (update_calls modules o n) s1) as (Ev & _ & Ed & _).
  fold (patched o n (elm O) s) in Ev, Ed.
  erewrite bind_ok; [|apply vnode_of_ok; rewrite Ev; exact HV1]. cbv beta.
  cbn [with_elm text children]. rewrite Hx, Hch, Hc.
  erewrite bind_ok.
  2:{ destruct t as [t|].
      - erewrite bind_ok; [|apply vnode_of_ok; rewrite Ev; exact HO1]. cbv beta.
        rewrite Htx. simpl. by rewrite String.eqb_refl.
      - erewrite bind_ok; [|apply vnode_of_ok; rewrite Ev; exact HO1]. cbv beta.
        rewrite Htx. reflexivity. }
  cbv beta.
  erewrite bind_ok; [|eapply (hook_of_none d D); [by rewrite Ed|done]].
  reflexivity.
Qed.

(** A computation that returned went through each of its steps. *)
Lemma bind_inv {A B} (m : M A) (k : A → M B) s b s2 :
  bind m k s = Ok (b, s2) → ∃ a s1, m s = Ok (a, s1) ∧ k a s1 = Ok (b, s2).
Proof. unfold bind. destruct (m s) as [[a s1]| | | |]; [|done..]. by exists a, s1. Qed.

(** [sameVnode] reads the two vnodes, the data objects and the factories. *)
Lemma input_type_frame V s s' t s1 :
  datas s' = datas s → input_type V s = Ok (t, s1) →
  s1 = s ∧ input_type V s' = Ok (t, s').
Proof.
  intros E. unfold input_type. destruct (data V) as [d|]; [|by intros [= <- <-]].
  unfold bind, fetch. rewrite E. destruct (datas s !! d) as [D|]; [|done].
  destruct (d_attrs D); by intros [= <- <-].
Qed.

Lemma sameInputType_frame A B s s' r s1 :
  datas s' = datas s → VDom.sameInputType isTextInputType A B s = Ok (r, s1) →
  s1 = s ∧ VDom.sameInputType isTextInputType A B s' = Ok (r, s').
Proof.
  intros E. unfold VDom.sameInputType. case_match; [by intros [= <- <-]|].
  intros (tA & sA & HA & (tB & sB & HB & Hr)%bind_inv)%bind_inv.
  destruct (input_type_frame A s s' tA sA E HA) as [-> HA'].
  destruct (input_type_frame B s s' tB sB E HB) as [-> HB'].
  injection Hr as <- <-. split; [done|].
  erewrite bind_ok; [|exact HA']. erewrite bind_ok; [|exact HB']. done.
Qed.

Lemma sameVnode_frame x y s s' r :
  vnodes s' !! x = vnodes s !! x → vnodes s' !! y = vnodes s !! y →
  datas s' = datas s → factories s' = factories s →
  sameVnode x y s = Ok (r, s) → sameVnode x y s' = Ok (r, s').
Proof.
  intros Ex Ey Ed Ef. unfold VDom.sameVnode, vnode_of.
  intros (X & s1 & HX & (Y & s2 & HY & H)%bind_inv)%bind_inv.
  unfold fetch in HX, HY.
  destruct (vnodes s !! x) as [X'|] eqn:HX'; [injection HX as <- <-|done].
  destruct (vnodes s !! y) as [Y'|] eqn:HY'; [injection HY as <- <-|done].
  erewrite bind_ok; [|apply fetch_ok; by rewrite Ex].
  erewrite bind_ok; [|apply fetch_ok; by rewrite Ey].
  destruct (negb (key_eq (key X') (key Y'))); [by injection H as <-|].
  destruct (negb (same_ref (asyncFactory X') (asyncFactory Y'))); [by injection H as <-|].
  apply bind_inv in H as (same & s3 & Hsame & H).
  assert (s3 = s ∧
          (if negb (bool_decide (tag X' = tag Y')) then ret false
           else if negb (Bool.eqb (isComment X') (isComment Y')) then ret false
           else if negb (Bool.eqb (isDef (data X')) (isDef (data Y'))) then ret false
           else VDom.sameInputType isTextInputType X' Y') s' = Ok (same, s')) as [-> Hsame'].
  { destruct (negb (bool_decide (tag X' = tag Y'))); [by injection Hsame as <- <-|].
    destruct (negb (Bool.eqb (isComment X') (isComment Y')));
      [by injection Hsame as <- <-|].
    destruct (negb (Bool.eqb (isDef (data X')) (isDef (data Y'))));
      [by injection Hsame as <- <-|].
    by apply (sameInputType_frame X' Y' s s'). }
  erewrite bind_ok; [|exact Hsame'].
  destruct same; [by injection H as <-|].
  destruct (isAsyncPlaceholder X'); [|by injection H as <-].
  apply bind_inv in H as (f & s4 & Hf & (F & s5 & HF & H)%bind_inv).
  destruct (asyncFactory Y') as [f'|]; [injection Hf as <- <-|done].
  unfold fetch in HF. destruct (factories s !! f') as [F'|] eqn:HF'; [|done].
  injection HF as <- <-. injection H as <-.
  erewrite bind_ok; [|reflexivity].
  erewrite bind_ok; [|apply fetch_ok; by rewrite Ef]. done.
Qed.

(** Vnodes of different keys are not the same vnode. *)
Lemma sameVnode_keys_differ x y X Y s :
  vnodes s !! x = Some X → vnodes s !! y = Some Y → key_eq (key X) (key Y) = false →
  sameVnode x y s = Ok (false, s).
Proof.
  intros HX HY Hk. unfold VDom.sameVnode.
  erewrite bind_ok; [|by apply vnode_of_ok]. erewrite bind_ok; [|by apply vnode_of_ok].
  by rewrite Hk.
Qed.

Lemma array_item_ok a l i s :
  arrays s !! a = Some l → array_item a i s = Ok (item l i, s).
Proof. intros H. unfold array_item. by erewrite bind_ok; [|by apply fetch_ok]. Qed.

Lemma array_length_ok a l s :
  arrays s !! a = Some l → array_length a s = Ok (Z.of_nat (length l), s).
Proof. intros H. unfold array_length. by erewrite bind_ok; [|by apply fetch_ok]. Qed.

(** A call of [insertBefore] that moves a node before one of the children of
    the parent. *)
Lemma insertBefore_move p P x r s :
  dom s !! p = Some P → r ∈ n_children P → is_Some (dom s !! x) → x ≠ r →
  insertBefore (Some p) (Some x) (Some r) s
  = Ok (tt, set_dom (insert_into p x r) (emit (InsertBefore p x (Some r)) s)).
Proof.
  intros HP Hr [X HX] Hne. unfold insertBefore.
  erewrite bind_ok; [|reflexivity]. erewrite bind_ok; [|reflexivity].
  erewrite bind_ok; [|reflexivity].
  erewrite bind_ok; [|by apply fetch_ok].
  erewrite bind_ok; [|by apply fetch_ok].
  rewrite bool_decide_true by done.
  by rewrite (proj2 (Nat.eqb_neq x r) Hne).
Qed.

(** What [patchVnode] changes on two elements without children: the output
    node of the new vnode, and the trace. *)
Lemma patched_frame o n e s :
  vnodes (patched o n e s) = alter (with_elm e) n (vnodes s) ∧
  datas (patched o n e s) = datas s ∧ arrays (patched o n e s) = arrays s ∧
  factories (patched o n e s) = factories s ∧ dom (patched o n e s) = dom s ∧
  node_uid (patched o n e s) = node_uid s ∧
  ops (patched o n e s) = ops s ++ update_calls modules o n.
Proof.
  unfold VDom.patched.
  destruct (emit_all_frame (update_calls modules o n)
              (set_vnodes (alter (with_elm e) n) s))
    as (-> & _ & -> & -> & _ & _ & -> & -> & -> & ->).
  done.
Qed.

Lemma leaf_element_frame s s' v k e t :
  vnodes s' !! v = vnodes s !! v → datas s' = datas s →
  leaf_element s v k e t → leaf_element s' v k e t.
Proof.
  intros Ev Ed (V & d & D & H). exists V, d, D. by rewrite Ev, Ed.
Qed.

(** The loop of [updateChildren], turn by turn. *)
Lemma updateChildren_loop_turn patch create parentElm oldCh newCh canMove turns c c' s s' :
  (oldStartIdx c <=? oldEndIdx c)%Z && (newStartIdx c <=? newEndIdx c)%Z = true →
  updateChildren_step isTextInputType patch create parentElm oldCh newCh canMove c s
    = Ok (c', s') →
  updateChildren_loop isTextInputType patch create parentElm oldCh newCh canMove
    (S turns) c s
  = updateChildren_loop isTextInputType patch create parentElm oldCh newCh canMove
      turns c' s'.
Proof. intros Hc Hs. simpl. rewrite Hc. erewrite bind_ok; [|exact Hs]. done. Qed.

Lemma updateChildren_loop_over patch create parentElm oldCh newCh canMove turns c s :
  (oldStartIdx c <=? oldEndIdx c)%Z && (newStartIdx c <=? newEndIdx c)%Z = false →
  updateChildren_loop isTextInputType patch create parentElm oldCh newCh canMove
    turns c s = Ok (c, s).
Proof. intros Hc. destruct turns; simpl; by rewrite Hc. Qed.

(** A [for] loop whose condition fails at once. *)
Lemma for_from_over n cond body i s :
  1 ≤ n → cond i s = Ok (false, s) → for_from n cond body i s = Ok (tt, s).
Proof.
  intros Hn Hc. destruct n; [lia|]. simpl.
  erewrite bind_ok; [|exact Hc]. done.
Qed.

Section Scenario.
Variable s : Store.
Variables parentElm oldCh newCh a b c a' b' c' ea eb ec : nat.
Variables ta tb tc : option string.
Variable fuel : nat.

Hypothesis enough_fuel : 2 ≤ fuel.
Hypothesis scenario :
  move_scenario isTextInputType s parentElm oldCh newCh a b c a' b' c' ea eb ec
    ta tb tc.

(** The stores after [C'] was patched, after the output node of [C] was
    moved, after [A'] was patched, after [B'] was patched. *)
Local Notation s1 := (patched c c' (Some ec) s).
Local Notation s2 := (set_dom (insert_into parentElm ec ea)
                        (emit (InsertBefore parentElm ec (Some ea)) s1)).
Local Notation s3 := (patched a a' (Some ea) s2).
Local Notation s4 := (patched b b' (Some eb) s3).

Local Notation step :=
  (updateChildren_step isTextInputType (λ o n a i, patchVnode fuel o n a i false)
     (createElm modules external fuel) (Some parentElm) oldCh newCh true).

(** The members of a list without duplicates differ from each other. *)
Ltac distinct :=
  repeat match goal with
         | H : NoDup (_ :: _) |- _ => apply NoDup_cons in H as [? H]
         | H : _ ∉ _ :: _ |- _ => apply not_elem_of_cons in H as [? H]
         end.

(** First turn: [C] and [C'] are the same vnode, at the end of the old
    children and at the start of the new ones; [C'] is patched and the output
    node of [C] is moved before that of [A]. *)
Lemma first_turn :
  step (mkCursor 0 0 2 2 (Some a) (Some c) (Some c') (Some b') None) s
  = Ok (mkCursor 0 1 1 2 (Some a) (Some b) (Some a') (Some b') None, s2).
Proof.
  destruct scenario as [Hold Hnew Hv Ha Hb Hc Ha' Hb' Hc' Saa Sbb Scc Hch Hpar Hn].
  distinct.
  destruct Ha as (A & dA & DA & HA & KA & EA & _ & CA & TA & _ & _ & _ & _ & _ & PA).
  destruct Hc as (C & dC & DC & HC & KC & EC & _ & CC & TC & _ & _ & _ & _ & _ & PC).
  pose proof Hc' as (C' & dC' & DC' & HC' & KC' & _).
  pose proof Hb' as (B' & dB' & DB' & HB' & KB' & _).
  unfold VDom.updateChildren_step.
  cbn [oldStartVnode oldEndVnode newStartVnode newEndVnode oldStartIdx oldEndIdx
       newStartIdx newEndIdx oldKeyToIdx].
  erewrite bind_ok; [|reflexivity]. cbv beta.
  erewrite bind_ok; [|by eapply sameVnode_keys_differ; [done..|rewrite KA, KC']].
  cbv beta iota.
  erewrite bind_ok; [|reflexivity]. cbv beta.
  erewrite bind_ok; [|by eapply sameVnode_keys_differ; [done..|rewrite KC, KB']].
  cbv beta iota.
  erewrite bind_ok; [|by eapply sameVnode_keys_differ; [done..|rewrite KA, KB']].
  cbv beta iota.
  erewrite bind_ok; [|exact Scc]. cbv beta iota.
  erewrite bind_ok; [|by eapply (patchVnode_leaf fuel c c' C (KNum 3) tc)].
  rewrite EC. cbv beta.
  destruct (patched_frame c c' (Some ec) s) as (V1 & D1 & A1 & F1 & M1 & U1 & O1).
  assert (HP : ∃ P, dom s !! parentElm = Some P ∧ n_children P = [ea; eb; ec]).
  { unfold children_of in Hch. destruct (dom s !! parentElm) as [P|]; [|done].
    injection Hch as Hch. by exists P. }
  destruct HP as (P & HP & HPc).
  erewrite bind_ok.
  2:{ unfold when.
      erewrite bind_ok; [|apply vnode_of_ok; rewrite V1, lookup_alter_ne by done; exact HC].
      erewrite bind_ok; [|apply vnode_of_ok; rewrite V1, lookup_alter_ne by done; exact HA].
      cbv beta. rewrite EC, EA.
      apply (insertBefore_move parentElm P); [by rewrite M1|rewrite HPc; set_solver| |done].
      rewrite M1. unfold parent_of in Hpar. by destruct (dom s !! ec). }
  cbv beta.
  erewrite bind_ok; [|apply array_item_ok; simpl; rewrite A1; exact Hold].
  erewrite bind_ok; [|apply array_item_ok; simpl; rewrite A1; exact Hnew].
  reflexivity.
Qed.

(** Second turn: [A] and [A'] start what is left of both lists. *)
Lemma second_turn :
  step (mkCursor 0 1 1 2 (Some a) (Some b) (Some a') (Some b') None) s2
  = Ok (mkCursor 1 2 1 2 (Some b) (Some b) (Some b') (Some b') None, s3).
Proof.
  destruct scenario as [Hold Hnew Hv Ha Hb Hc Ha' Hb' Hc' Saa Sbb Scc Hch Hpar Hn].
  distinct.
  destruct (patched_frame c c' (Some ec) s) as (V1 & D1 & A1 & F1 & M1 & U1 & O1).
  assert (V2 : ∀ v, v ≠ c' → vnodes s2 !! v = vnodes s !! v).
  { intros v Hne. simpl. by rewrite V1, lookup_alter_ne. }
  pose proof Ha as (A & dA & DA & HA & KA & EA & _ & CA & TA & _ & _ & _ & _ & _ & PA).
  unfold VDom.updateChildren_step.
  cbn [oldStartVnode oldEndVnode newStartVnode newEndVnode oldStartIdx oldEndIdx
       newStartIdx newEndIdx oldKeyToIdx].
  erewrite bind_ok; [|reflexivity]. cbv beta.
  erewrite bind_ok;
    [|apply (sameVnode_frame a a' s); [by apply V2|by apply V2|done|done|exact Saa]].
  cbv beta iota.
  erewrite bind_ok.
  2:{ apply (patchVnode_leaf fuel a a' A (KNum 1) ta); try done.
      - by rewrite V2.
      - apply (leaf_element_frame s); [by apply V2|done|done]. }
  rewrite EA. cbv beta.
  destruct (patched_frame a a' (Some ea) s2) as (V3 & D3 & A3 & F3 & M3 & U3 & O3).
  erewrite bind_ok; [|apply array_item_ok; rewrite A3; simpl; rewrite A1; exact Hold].
  erewrite bind_ok; [|apply array_item_ok; rewrite A3; simpl; rewrite A1; exact Hnew].
  reflexivity.
Qed.

(** Third turn: [B] and [B'] start what is left of both lists; the loop is
    over after it. *)
Lemma third_turn :
  step (mkCursor 1 2 1 2 (Some b) (Some b) (Some b') (Some b') None) s3
  = Ok (mkCursor 2 3 1 2 (Some c) (Some b) None (Some b') None, s4).
Proof.
  destruct scenario as [Hold Hnew Hv Ha Hb Hc Ha' Hb' Hc' Saa Sbb Scc Hch Hpar Hn].
  distinct.
  destruct (patched_frame c c' (Some ec) s) as (V1 & D1 & A1 & F1 & M1 & U1 & O1).
  destruct (patched_frame a a' (Some ea) s2) as (V3 & D3 & A3 & F3 & M3 & U3 & O3).
  assert (V3' : ∀ v, v ≠ c' → v ≠ a' → vnodes s3 !! v = vnodes s !! v).
  { intros v Hc1 Ha1. rewrite V3, lookup_alter_ne by done. simpl.
    by rewrite V1, lookup_alter_ne. }
  assert (D3' : datas s3 = datas s) by (by rewrite D3; simpl; rewrite D1).
  assert (F3' : factories s3 = factories s) by (by rewrite F3; simpl; rewrite F1).
  pose proof Hb as (B & dB & DB & HB & KB & EB & _ & CB & TB & _ & _ & _ & _ & _ & PB).
  unfold VDom.updateChildren_step.
  cbn [oldStartVnode oldEndVnode newStartVnode newEndVnode oldStartIdx oldEndIdx
       newStartIdx newEndIdx oldKeyToIdx].
  erewrite bind_ok; [|reflexivity]. cbv beta.
  erewrite bind_ok;
    [|apply (sameVnode_frame b b' s); [by apply V3'|by apply V3'|done|done|exact Sbb]].
  cbv beta iota.
  erewrite bind_ok.
  2:{ apply (patchVnode_leaf fuel b b' B (KNum 2) tb); try done.
      - by rewrite V3'.
      - apply (leaf_element_frame s); [by apply V3'|done|done]. }
  rewrite EB. cbv beta.
  destruct (patched_frame b b' (Some eb) s3) as (V4 & D4 & A4 & F4 & M4 & U4 & O4).
  erewrite bind_ok;
    [|apply array_item_ok; rewrite A4, A3; simpl; rewrite A1; exact Hold].
  erewrite bind_ok;
    [|apply array_item_ok; rewrite A4, A3; simpl; rewrite A1; exact Hnew].
  reflexivity.
Qed.

(** C7: let the old children [A, B, C], with keys 1, 2 and 3, be elements
    without children, rendered as the children [ea, eb, ec] of [parentElm],
    let the new children [C', A', B'] be such elements with keys 3, 1 and 2,
    and let the vnodes of equal key satisfy [sameVnode] and have the same
    text. With a
    backend whose update callbacks leave the stores alone, [updateChildren]
    returns; the one node operation it has called is
    [insertBefore(parentElm, ec, ea)]; the new vnodes have the output nodes of
    the old ones of the same key; the children of [parentElm] are [ec, ea, eb];
    and the document has the nodes it had, no more and no less. *)
Theorem move_reuses_output_nodes :
  ∃ s',
    updateChildren modules external isTextInputType hydrate fuel
      (Some parentElm) oldCh newCh false s = Ok (tt, s') ∧
    node_operations (ops_since s s') = [InsertBefore parentElm ec (Some ea)] ∧
    rendered s' a' = Some ea ∧ rendered s' b' = Some eb ∧ rendered s' c' = Some ec ∧
    children_of s' parentElm = Some [ec; ea; eb] ∧
    node_uid s' = node_uid s ∧
    (∀ n, is_Some (dom s' !! n) ↔ is_Some (dom s !! n)).
Proof.
  pose proof first_turn as T1. pose proof second_turn as T2. pose proof third_turn as T3.
  assert (Hfuel : 1 ≤ fuel) by lia.
  destruct scenario as [Hold Hnew Hv Ha Hb Hc Ha' Hb' Hc' Saa Sbb Scc Hch Hpar Hn].
  distinct.
  destruct (patched_frame c c' (Some ec) s) as (V1 & D1 & A1 & F1 & M1 & U1 & O1).
  destruct (patched_frame a a' (Some ea) s2) as (V3 & D3 & A3 & F3 & M3 & U3 & O3).
  destruct (patched_frame b b' (Some eb) s3) as (V4 & D4 & A4 & F4 & M4 & U4 & O4).
  assert (A4' : arrays s4 = arrays s) by (by rewrite A4, A3; simpl; rewrite A1).
  exists s4. split.
  { unfold VDom.updateChildren, updateChildren_with.
    erewrite bind_ok; [|by apply array_length_ok].
    erewrite bind_ok; [|by apply array_length_ok].
    erewrite bind_ok; [|by apply array_item_ok].
    erewrite bind_ok; [|by apply array_item_ok].
    erewrite bind_ok; [|by apply array_item_ok].
    erewrite bind_ok; [|by apply array_item_ok].
    erewrite bind_ok.
    2:{ change (Z.to_nat _) with 6.
        erewrite updateChildren_loop_turn; [|reflexivity|exact T1].
        erewrite updateChildren_loop_turn; [|reflexivity|exact T2].
        erewrite updateChildren_loop_turn; [|reflexivity|exact T3].
        by apply updateChildren_loop_over. }
    cbv beta. cbn [oldStartIdx oldEndIdx newStartIdx newEndIdx].
    change (2 >? 1)%Z with true. cbv iota.
    erewrite bind_ok; [|apply array_item_ok; rewrite A4'; exact Hnew].
    erewrite bind_ok; [|reflexivity].
    unfold addVnodes. by apply for_from_over. }
  split.
  { unfold ops_since. rewrite O4, O3. simpl. rewrite O1.
    rewrite <- !app_assoc, drop_app_length.
    rewrite !node_operations_app. unfold update_calls.
    by rewrite !node_operations_calls. }
  pose proof Ha' as (A' & dA' & DA' & HA' & _).
  pose proof Hb' as (B' & dB' & DB' & HB' & _).
  pose proof Hc' as (C' & dC' & DC' & HC' & _).
  assert (V4' : vnodes s4 = alter (with_elm (Some eb)) b'
                              (alter (with_elm (Some ea)) a'
                                 (alter (with_elm (Some ec)) c' (vnodes s)))).
  { rewrite V4, V3. simpl. by rewrite V1. }
  assert (M4' : dom s4 = alter (with_parent (Some parentElm)) ec
                           (alter (with_children (insert_before ec ea)) parentElm
                              (alter (with_parent None) ec
                                 (alter (with_children (remove ec)) parentElm (dom s))))).
  { rewrite M4, M3. simpl. rewrite M1. unfold insert_into, detach.
    unfold parent_of in Hpar. by rewrite Hpar. }
  split; [unfold rendered; rewrite V4', lookup_alter_ne, lookup_alter_eq,
            lookup_alter_ne, HA' by done; done|].
  split; [unfold rendered; by rewrite V4', lookup_alter_eq, lookup_alter_ne,
            lookup_alter_ne, HB' by done|].
  split; [unfold rendered; by rewrite V4', lookup_alter_ne, lookup_alter_ne,
            lookup_alter_eq, HC' by done|].
  split.
  { unfold children_of in *. rewrite M4'.
    rewrite lookup_alter_ne, lookup_alter_eq, lookup_alter_ne, lookup_alter_eq by done.
    destruct (dom s !! parentElm) as [P|]; [|done]. injection Hch as Hch.
    simpl. rewrite Hch. simpl.
    rewrite !decide_False, decide_True by done. simpl. by rewrite Nat.eqb_refl. }
  split; [by rewrite U4, U3; simpl; rewrite U1|].
  intros n. rewrite M4', <- !elem_of_dom. by rewrite !dom_alter_L.
Qed.

End Scenario.

End MoveClaim.


(** The scenario of C7 holds of the sample store. *)
Lemma sample_move_scenario :
  move_scenario sample_isTextInputType sample_move 0 0 1 0 1 2 4 5 3 1 2 3
    (Some "one"%string) (Some "two"%string) None.
Proof.
  assert (Hleaf : ∀ v k e t V d D,
            vnodes sample_move !! v = Some V → data V = Some d →
            datas sample_move !! d = Some D →
            key V = k ∧ elm V = e ∧ isDef (tag V) = true ∧ children V = None ∧
            text V = t ∧ d_hook D = None ∧ componentInstance V = None ∧
            isStatic V = false ∧ isAsyncPlaceholder V = false →
            leaf_element sample_move v k e t).
  { intros v k e t V d D HV Hd HD (? & ? & ? & ? & ? & ? & ? & ? & ?).
    by exists V, d, D. }
  split; try (vm_compute; reflexivity); try compute_done;
    (eapply Hleaf; [vm_compute; reflexivity|reflexivity|vm_compute; reflexivity|];
     vm_compute; repeat split; reflexivity).
Qed.

(** C7 at the sample store, for a backend with one module. *)
Lemma move_reuses_output_nodes_witness :
  ∃ s',
    updateChildren sample_modules sample_external sample_isTextInputType sample_hydrate 2
      (Some 0) 0 1 false sample_move = Ok (tt, s') ∧
    node_operations (ops_since sample_move s') = [InsertBefore 0 3 (Some 1)] ∧
    children_of s' 0 = Some [3; 1; 2].
Proof.
  destruct (move_reuses_output_nodes sample_modules sample_external
              sample_isTextInputType sample_hydrate (λ _ _ _ _, eq_refl)
              sample_move 0 0 1 0 1 2 4 5 3 1 2 3 _ _ _ 2 (le_n 2) sample_move_scenario)
    as (s' & H1 & H2 & _ & _ & _ & H6 & _).
  by exists s'.
Defined.

(** The whole run at the sample store: the update callbacks of the module
    are called for each pair, and the output node of [C] is moved once. *)
Example move_trace :
  let r := updateChildren sample_modules sample_external sample_isTextInputType
             sample_hydrate 2 (Some 0) 0 1 false sample_move in
  match r with
  | Ok (_, s') =>
      ops s' = [Call (ModuleUpdate 0 2 3); InsertBefore 0 3 (Some 1);
                Call (ModuleUpdate 0 0 4); Call (ModuleUpdate 0 1 5)] ∧
      children_of s' 0 = Some [3; 1; 2] ∧
      rendered s' 3 = Some 3 ∧ rendered s' 4 = Some 1 ∧ rendered s' 5 = Some 2
  | _ => False
  end.
Proof. vm_compute. done. Qed.
Import VDom.
(** * More of the patch algorithm *)

Lemma item_lookup (l : list nat) (i : nat) :
  item (Some <$> l) (Z.of_nat i) = l !! i.
Proof.
  unfold item. rewrite (proj2 (Z.ltb_ge _ _)) by lia. rewrite Nat2Z.id.
  rewrite list_lookup_fmap. by destruct (l !! i).
Qed.

Lemma item_last (l : list nat) :
  item (Some <$> l) (Z.of_nat (length l) - 1) = last l.
Proof.
  destruct l as [|x l] using rev_ind; [done|].
  rewrite length_app, last_snoc. simpl.
  replace (Z.of_nat (length l + 1) - 1)%Z with (Z.of_nat (length l)) by lia.
  rewrite item_lookup. by rewrite lookup_app_r, Nat.sub_diag.
Qed.

Section UnchangedList.
Variable modules : list ModuleHooks.
Variable external : Callback → M unit.
Variable isTextInputType : value → bool.
Variable hydrate : option nat → nat → M bool.

(** The update callbacks of the modules leave the stores alone. *)
Hypothesis quiet_updates :
  ∀ j oldVnode vnode s, external (ModuleUpdate j oldVnode vnode) s = Ok (tt, s).

Local Notation patchVnode := (patchVnode modules external isTextInputType hydrate).
Local Notation sameVnode := (sameVnode isTextInputType).
Local Notation patched := (patched modules).
Local Notation updateChildren := (updateChildren modules external isTextInputType hydrate).

Variable parentElm : option nat.
Variables oldCh newCh : nat.
Variables olds news : list nat.
Variable fuel : nat.
Hypothesis enough_fuel : 2 ≤ fuel.
Hypothesis same_length : length olds = length news.
Hypothesis distinct_vnodes : NoDup (olds ++ news).

Local Notation pairs_from := (pairs_from isTextInputType oldCh newCh olds news).
Local Notation cursor_at := (cursor_at olds news).
Local Notation loop :=
  (updateChildren_loop isTextInputType (λ o n a i, patchVnode fuel o n a i false)
     (createElm modules external fuel) parentElm oldCh newCh).

Lemma unchanged_loop canMove k : ∀ i s turns,
  i + k = length olds → k ≤ turns → pairs_from i s →
  ∃ s', loop canMove turns (cursor_at i) s = Ok (cursor_at (length olds), s') ∧
        ops s' = ops s ++ concat (zip_with (update_calls modules) (drop i olds) (drop i news)) ∧
        dom s' = dom s ∧ arrays s' = arrays s ∧
        (∀ j o n, i ≤ j → olds !! j = Some o → news !! j = Some n →
                  rendered s' n = rendered s o) ∧
        (∀ v, v ∉ drop i news → vnodes s' !! v = vnodes s !! v).
Proof.
  induction k as [|k IH]; intros i s turns Hik Hturns (Hold & Hnew & Hpairs).
  { assert (i = length olds) as -> by lia. exists s. split.
    - apply updateChildren_loop_over. simpl. apply andb_false_intro1. lia.
    - rewrite !drop_all. simpl. rewrite app_nil_r. split; [done|]. split; [done|].
      split; [done|]. split; [|done]. intros j o n Hj Ho. apply lookup_lt_Some in Ho. lia. }
  destruct turns as [|turns]; [lia|].
  destruct (lookup_lt_is_Some_2 olds i) as [o Ho]; [lia|].
  destruct (lookup_lt_is_Some_2 news i) as [n Hn]; [lia|].
  assert (∃ oe, last olds = Some oe) as [oe Hoe].
  { destruct olds as [|x l] using rev_ind; [simpl in *; lia|]. rewrite last_snoc. eauto. }
  destruct (Hpairs i o n (le_n _) Ho Hn) as (key & e & t & Hlo & Hln & Hsame).
  assert (Hon : o ≠ n).
  { intros ->. apply NoDup_app in distinct_vnodes as (_ & Hd & _).
    apply (Hd n); by eapply list_elem_of_lookup_2. }
  pose proof Hlo as (O & d & D & HO & _ & HeO & _ & HchO & HtO & _ & _ & _ & _ & _ & HaO).
  assert (Hpatch : patchVnode fuel o n (Some newCh) (Z.of_nat i) false s
                   = Ok (tt, patched o n (Some e) s)).
  { rewrite <- HeO.
    by eapply (patchVnode_leaf modules external isTextInputType hydrate quiet_updates). }
  destruct (patched_frame modules o n (Some e) s) as (Pv & Pd & Pa & Pf & Pdom & _ & Pops).
  set (s1 := patched o n (Some e) s) in *.
  assert (Hother : ∀ v, v ≠ n → vnodes s1 !! v = vnodes s !! v).
  { intros v Hv. rewrite Pv. by rewrite lookup_alter_ne. }
  assert (Hstep : updateChildren_step isTextInputType (λ o n a i, patchVnode fuel o n a i false)
                    (createElm modules external fuel) parentElm oldCh newCh canMove
                    (cursor_at i) s = Ok (cursor_at (S i), s1)).
  { unfold updateChildren_step, VDom.cursor_at. cbn [oldStartVnode oldEndVnode newStartVnode
      oldStartIdx newStartIdx oldEndIdx newEndIdx newEndVnode oldKeyToIdx].
    rewrite Ho, Hoe, Hn.
    erewrite bind_ok; [|reflexivity]. cbv beta.
    erewrite bind_ok; [|exact Hsame]. cbv beta iota.
    erewrite bind_ok; [|exact Hpatch]. cbv beta.
    erewrite bind_ok; [|apply (array_item_ok oldCh (Some <$> olds)); by rewrite Pa]. cbv beta.
    erewrite bind_ok; [|apply (array_item_ok newCh (Some <$> news)); by rewrite Pa]. cbv beta.
    unfold ret. do 2 f_equal.
    replace (Z.of_nat i + 1)%Z with (Z.of_nat (S i)) by lia.
    by rewrite !item_lookup. }
  assert (Hinv1 : pairs_from (S i) s1).
  { split; [by rewrite Pa|]. split; [by rewrite Pa|].
    intros j o' n' Hj Ho' Hn'.
    destruct (Hpairs j o' n' ltac:(lia) Ho' Hn') as (k' & e' & t' & L1 & L2 & Hs').
    assert (Hne1 : o' ≠ n).
    { intros ->. apply NoDup_app in distinct_vnodes as (_ & Hd & _).
      apply (Hd n); by eapply list_elem_of_lookup_2. }
    assert (Hne2 : n' ≠ n).
    { intros ->. apply NoDup_app in distinct_vnodes as (_ & _ & Hd).
      assert (j = i) by (eapply NoDup_lookup; eauto). lia. }
    exists k', e', t'. split; [|split].
    - eapply leaf_element_frame; [|exact Pd|exact L1]. by apply Hother.
    - eapply leaf_element_frame; [|exact Pd|exact L2]. by apply Hother.
    - eapply sameVnode_frame; [| | | |exact Hs']; try done; by apply Hother. }
  destruct (IH (S i) s1 turns ltac:(lia) ltac:(lia) Hinv1)
    as (s' & Hloop & Hops & Hdom & Harr & Hrend & Hvn).
  exists s'. split.
  { erewrite updateChildren_loop_turn; [exact Hloop| |exact Hstep].
    simpl. apply andb_true_intro. split; apply Z.leb_le; lia. }
  split.
  { rewrite Hops, Pops. rewrite (drop_S olds o i Ho), (drop_S news n i Hn).
    simpl. by rewrite app_assoc. }
  split; [by rewrite Hdom|]. split; [by rewrite Harr|]. split.
  - intros j o' n' Hj Ho' Hn'. destruct (decide (j = i)) as [->|Hji].
    + assert (o' = o) as -> by congruence. assert (n' = n) as -> by congruence.
      unfold rendered. rewrite Hvn.
      * rewrite Pv, lookup_alter_eq.
        destruct Hln as (V & ? & ? & -> & _). simpl. by rewrite HO.
      * intros Hin. apply list_elem_of_lookup in Hin as [j Hj'].
        rewrite lookup_drop in Hj'.
        apply NoDup_app in distinct_vnodes as (_ & _ & Hd).
        assert (S i + j = i) by (eapply NoDup_lookup; eauto). lia.
    + rewrite (Hrend j o' n') by (done || lia). unfold rendered. rewrite Hother; [done|].
      intros ->. apply NoDup_app in distinct_vnodes as (_ & Hd & _).
      apply (Hd n); by eapply list_elem_of_lookup_2.
  - intros v Hv. rewrite (drop_S news n i Hn) in Hv.
    apply not_elem_of_cons in Hv as [Hv1 Hv2]. rewrite Hvn by done. by apply Hother.
Qed.

End UnchangedList.

Section UnchangedListClaim.
Variable modules : list ModuleHooks.
Variable external : Callback → M unit.
Variable isTextInputType : value → bool.
Variable hydrate : option nat → nat → M bool.

(** X12: rendering a list again with nothing changed, whatever its length:
    when the update callbacks of the modules leave the stores alone,
    [updateChildren] on old and new children that are, place by place,
    elements without children of the same key and text returns, calls no
    node operation at all and leaves the output tree as it was; the
    callbacks called are the update callbacks, pair after pair, and every
    new vnode has the output node of the old vnode of its place. *)
Theorem unchanged_list_no_node_operation fuel parentElm oldCh newCh olds news removeOnly s :
  (∀ j oldVnode vnode s, external (ModuleUpdate j oldVnode vnode) s = Ok (tt, s)) →
  2 ≤ fuel →
  unchanged_scenario isTextInputType s oldCh newCh olds news →
  ∃ s',
    updateChildren modules external isTextInputType hydrate fuel parentElm oldCh newCh
      removeOnly s = Ok (tt, s') ∧
    ops_since s s' = concat (zip_with (update_calls modules) olds news) ∧
    node_operations (ops_since s s') = [] ∧
    dom s' = dom s ∧
    Forall2 (λ o n, rendered s' n = rendered s o) olds news.
Proof.
  intros Hquiet Hfuel [Hold Hnew Hnd Hpairs].
  pose proof (Forall2_length _ _ _ Hpairs) as Hlen.
  assert (Hinv : pairs_from isTextInputType oldCh newCh olds news 0 s).
  { split; [done|]. split; [done|]. intros j o n _ Ho Hn.
    destruct (Forall2_lookup_l _ _ _ _ _ Hpairs Ho) as (n' & Hn' & H).
    assert (n' = n) as -> by congruence. exact H. }
  destruct (unchanged_loop modules external isTextInputType hydrate Hquiet parentElm
              oldCh newCh olds news fuel Hfuel Hlen Hnd (negb removeOnly)
              (length olds) 0 s (Z.to_nat (Z.of_nat (length (Some <$> olds))
                                           + Z.of_nat (length (Some <$> news)))))
    as (s' & Hloop & Hops & Hdom & Harr & Hrend & _);
    [lia|rewrite !length_fmap; lia|done|].
  exists s'.
  assert (Hrun : updateChildren modules external isTextInputType hydrate fuel parentElm
                   oldCh newCh removeOnly s = Ok (tt, s')).
  { unfold updateChildren, updateChildren_with.
    erewrite bind_ok; [|by apply array_length_ok]. cbv beta.
    erewrite bind_ok; [|by apply array_length_ok]. cbv beta.
    erewrite bind_ok; [|by apply array_item_ok]. cbv beta.
    erewrite bind_ok; [|by apply array_item_ok]. cbv beta.
    erewrite bind_ok; [|by apply array_item_ok]. cbv beta.
    erewrite bind_ok; [|by apply array_item_ok]. cbv beta.
    erewrite bind_ok.
    2:{ rewrite <- Hloop. f_equal. unfold cursor_at.
        rewrite !length_fmap, !item_last.
        change 0%Z with (Z.of_nat 0). rewrite !item_lookup. done. }
    cbv beta. cbn [oldStartIdx oldEndIdx newStartIdx newEndIdx cursor_at].
    rewrite (proj2 (Z.gtb_gt _ _)) by lia.
    erewrite bind_ok; [|apply (array_item_ok newCh (Some <$> news)); by rewrite Harr].
    cbv beta.
    replace (Z.of_nat (length news) - 1 + 1)%Z with (Z.of_nat (length news)) by lia.
    rewrite item_lookup, lookup_ge_None_2 by lia.
    erewrite bind_ok; [|reflexivity]. cbv beta.
    unfold addVnodes. apply for_from_over; [lia|]. unfold ret. do 2 f_equal.
    apply Z.leb_gt. lia. }
  split; [done|].
  assert (Hsince : ops_since s s' = concat (zip_with (update_calls modules) olds news)).
  { unfold ops_since. rewrite Hops, drop_app_length. by rewrite !drop_0. }
  split; [done|]. split.
  { rewrite Hsince. clear. revert news. induction olds as [|o l IH]; intros [|n l']; try done.
    simpl. rewrite node_operations_app, IH. unfold update_calls.
    by rewrite node_operations_calls. }
  split; [done|].
  apply Forall2_same_length_lookup_2; [done|]. intros j o n Ho Hn.
  apply (Hrend j o n); [lia|done|done].
Qed.

End UnchangedListClaim.

(** [setTextContent] on a node of the document records the call and leaves
    the vnodes alone. *)
Lemma setTextContent_ops e N t s :
  dom s !! e = Some N →
  ∃ s', setTextContent (Some e) t s = Ok (tt, s') ∧
        ops s' = ops s ++ [SetTextContent e t] ∧
        vnodes s' = vnodes s ∧ datas s' = datas s.
Proof.
  intros HN. unfold setTextContent.
  erewrite bind_ok; [|reflexivity]. cbv beta.
  erewrite bind_ok; [|reflexivity]. cbv beta.
  erewrite bind_ok; [|by apply fetch_ok]. cbv beta.
  destruct (n_type N).
  - erewrite bind_ok; [|reflexivity]. cbv beta.
    destruct (String.eqb t EmptyString); eexists; (split; [reflexivity|done]).
  - eexists. split; [reflexivity|done].
  - eexists. split; [reflexivity|done].
Qed.

Section PatchBranches.
Variable modules : list ModuleHooks.
Variable external : Callback → M unit.
Variable isTextInputType : value → bool.
Variable hydrate : option nat → nat → M bool.

Local Notation patchVnode := (patchVnode modules external isTextInputType hydrate).

(** X13: [patchVnode] on two text vnodes gives the new vnode the output
    node of the old one and calls [setTextContent] on it, once, exactly when
    the two texts differ; it calls no callback and no other node
    operation. *)
Theorem patch_text_vnodes fuel o n e t t' a i r s :
  1 ≤ fuel → o ≠ n → text_vnode s o (Some e) t → text_vnode s n None t' →
  is_Some (dom s !! e) →
  ∃ s', patchVnode fuel o n a i r s = Ok (tt, s') ∧
        rendered s' n = Some e ∧
        ops_since s s' = (if String.eqb t t' then [] else [SetTextContent e t']) ∧
        (∀ v, v ≠ n → vnodes s' !! v = vnodes s !! v).
Proof.
  intros Hfuel Hne (O & HO & HtagO & HdO & HchO & HtO & HeO & HsO & HaO)
    (V & HV & Htag & Hd & Hch & Ht & He & Hs & Ha) [N HN].
  destruct fuel as [|fuel]; [lia|]. cbn [VDom.patchVnode].
  rewrite (proj2 (Nat.eqb_neq o n) Hne).
  erewrite bind_ok; [|by eapply clone_if_used_fresh]. cbv beta.
  erewrite bind_ok; [|by apply vnode_of_ok]. cbv beta.
  erewrite bind_ok; [|reflexivity]. cbv beta.
  rewrite HaO, HeO.
  set (s1 := set_vnodes (alter (with_elm (Some e)) n) s).
  assert (HV1 : vnodes s1 !! n = Some (with_elm (Some e) V)).
  { unfold s1. simpl. by rewrite lookup_alter_eq, HV. }
  assert (HO1 : vnodes s1 !! o = Some O).
  { unfold s1. simpl. by rewrite lookup_alter_ne. }
  erewrite bind_ok; [|by apply vnode_of_ok]. cbv beta.
  cbn [with_elm isStatic data key isCloned isOnce]. rewrite Hs. cbn [andb].
  rewrite Hd. cbn [hook_of isDef].
  erewrite bind_ok; [|reflexivity]. cbv beta iota.
  erewrite bind_ok; [|reflexivity]. cbv beta.
  erewrite bind_ok; [|by apply vnode_of_ok]. cbv beta.
  erewrite bind_ok; [|by apply vnode_of_ok]. cbv beta.
  erewrite bind_ok; [|reflexivity]. cbv beta.
  erewrite bind_ok; [|by apply vnode_of_ok]. cbv beta.
  cbn [with_elm text]. rewrite Ht.
  assert (Hother : ∀ v, v ≠ n → vnodes s1 !! v = vnodes s !! v).
  { intros v Hv. unfold s1. simpl. by rewrite lookup_alter_ne. }
  destruct (String.eqb t t') eqn:Heq.
  - exists s1. split.
    { erewrite bind_ok.
      2:{ erewrite bind_ok; [|by apply vnode_of_ok]. cbv beta.
          rewrite HtO. cbn [text_eq]. rewrite Heq. reflexivity. }
      reflexivity. }
    split; [unfold rendered; by rewrite HV1|]. split; [|done].
    unfold ops_since, s1. simpl. by rewrite drop_all.
  - destruct (setTextContent_ops e N t' s1 HN) as (s2 & Hset & Hops & Hvn & _).
    exists s2. split.
    { erewrite bind_ok.
      2:{ erewrite bind_ok; [|by apply vnode_of_ok]. cbv beta.
          rewrite HtO. cbn [text_eq]. rewrite Heq. exact Hset. }
      reflexivity. }
    split; [unfold rendered; by rewrite Hvn, HV1|]. split.
    + unfold ops_since. rewrite Hops. unfold s1. simpl.
      by rewrite drop_app_length.
    + intros v Hv. rewrite Hvn. by apply Hother.
Qed.

(** What [cloneVNode] returns: a vnode under the next id, a copy of the
    array of children under the next array id, everything else as it
    was. *)
Lemma cloneVNode_spec v V s :
  vnodes s !! v = Some V →
  (∀ d, data V = Some d → is_Some (datas s !! d)) →
  (∀ a, children V = Some a → is_Some (arrays s !! a)) →
  ∃ s' ch,
    cloneVNode v s = Ok (vnode_uid s, s') ∧
    vnodes s' = <[vnode_uid s :=
      mkVNode (tag V) (data V) ch (text V) (elm V) (ns V) (context V) (fnContext V)
        (fnOptions V) (fnScopeId V) (key V) (componentOptions V) None None (isStatic V)
        true (isComment V) true false (asyncFactory V) (asyncMeta V) false]> (vnodes s) ∧
    match children V with
    | Some a => ch = Some (array_uid s) ∧
                arrays s' = <[array_uid s := default [] (arrays s !! a)]> (arrays s)
    | None => ch = None ∧ arrays s' = arrays s
    end ∧
    datas s' = datas s ∧ factories s' = factories s ∧ components s' = components s ∧
    dom s' = dom s ∧ ops s' = ops s ∧ rmCbs s' = rmCbs s.
Proof.
  intros HV Hd Ha. unfold cloneVNode.
  erewrite bind_ok; [|by apply vnode_of_ok]. cbv beta.
  destruct (children V) as [a|] eqn:Hch.
  - destruct (Ha a eq_refl) as [l Hl].
    erewrite bind_ok.
    2:{ erewrite bind_ok.
        2:{ unfold array_slice. erewrite bind_ok; [|by apply fetch_ok]. reflexivity. }
        reflexivity. }
    cbv beta. unfold VNode_new.
    destruct (data V) as [d|] eqn:Hdata.
    + destruct (Hd d eq_refl) as [D HD].
      erewrite bind_ok.
      2:{ erewrite bind_ok.
          2:{ erewrite bind_ok; [|by apply fetch_ok]. reflexivity. }
          reflexivity. }
      cbv beta. eexists _, _. split; [reflexivity|]. simpl.
      rewrite Hl. simpl. rewrite alter_insert_eq. simpl. done.
    + erewrite bind_ok.
      2:{ erewrite bind_ok; [|reflexivity]. reflexivity. }
      cbv beta. eexists _, _. split; [reflexivity|]. simpl.
      rewrite Hl. simpl. rewrite alter_insert_eq. simpl. done.
  - erewrite bind_ok; [|reflexivity]. cbv beta. unfold VNode_new.
    destruct (data V) as [d|] eqn:Hdata.
    + destruct (Hd d eq_refl) as [D HD].
      erewrite bind_ok.
      2:{ erewrite bind_ok.
          2:{ erewrite bind_ok; [|by apply fetch_ok]. reflexivity. }
          reflexivity. }
      cbv beta. eexists _, _. split; [reflexivity|]. simpl.
      rewrite alter_insert_eq. simpl. done.
    + erewrite bind_ok.
      2:{ erewrite bind_ok; [|reflexivity]. reflexivity. }
      cbv beta. eexists _, _. split; [reflexivity|]. simpl.
      rewrite alter_insert_eq. simpl. done.
Qed.

(** X14: [patchVnode] of a static vnode that was rendered before and is
    used again in an array of children, against a static old vnode of the
    same key: the vnode is cloned, the clone takes its place in the array
    and receives the output node and the component instance of the old
    vnode; no callback and no node operation is called, and the vnode that
    was used again is left as it was. *)
Theorem patch_reused_static_vnode fuel o n O V a l i r s :
  o ≠ n → vnodes s !! o = Some O → vnodes s !! n = Some V →
  vnodes s !! vnode_uid s = None → arrays s !! array_uid s = None →
  (∀ d, data V = Some d → is_Some (datas s !! d)) →
  (∀ a, children V = Some a → is_Some (arrays s !! a)) →
  arrays s !! a = Some l →
  isDef (elm V) = true → isAsyncPlaceholder O = false →
  isStatic V = true → isStatic O = true → key_eq (key V) (key O) = true →
  ∃ s' C,
    patchVnode (S fuel) o n (Some a) i r s = Ok (tt, s') ∧
    ops s' = ops s ∧ dom s' = dom s ∧
    vnodes s' !! n = Some V ∧ vnodes s' !! o = Some O ∧
    arrays s' !! a = Some (write l i (Some (vnode_uid s))) ∧
    vnodes s' !! vnode_uid s = Some C ∧
    isCloned C = true ∧ elm C = elm O ∧ componentInstance C = componentInstance O ∧
    tag C = tag V ∧ data C = data V ∧ text C = text V ∧ key C = key V.
Proof.
  intros Hne HO HV Hfresh Hafresh Hd Hch Ha He HaO HsV HsO Hkey.
  destruct (cloneVNode_spec n V s HV Hd Hch)
    as (s1 & ch & Hclone & Hvn1 & Harr1 & Hd1 & Hf1 & Hc1 & Hdom1 & Hops1 & _).
  set (c := vnode_uid s) in *.
  assert (Hco : c ≠ o) by (intros E; rewrite E in Hfresh; congruence).
  assert (Hcn : c ≠ n) by (intros E; rewrite E in Hfresh; congruence).
  assert (Ha1 : arrays s1 !! a = Some l).
  { destruct (children V) as [a0|]; destruct Harr1 as [_ ->]; [|done].
    rewrite lookup_insert_ne; [done|]. intros E. rewrite E in Hafresh. congruence. }
  cbn [VDom.patchVnode]. rewrite (proj2 (Nat.eqb_neq o n) Hne).
  destruct (elm V) as [e|] eqn:HeV; [|done].
  erewrite bind_ok.
  2:{ unfold clone_if_used. erewrite bind_ok; [|by apply vnode_of_ok]. cbv beta.
      rewrite HeV.
      erewrite bind_ok; [|exact Hclone]. cbv beta.
      erewrite bind_ok.
      2:{ unfold array_write. erewrite bind_ok; [|by apply fetch_ok]. reflexivity. }
      reflexivity. }
  cbv beta.
  set (s2 := set_arrays _ s1).
  assert (HO2 : vnodes s2 !! o = Some O).
  { unfold s2. simpl. by rewrite Hvn1, lookup_insert_ne. }
  erewrite bind_ok; [|by apply vnode_of_ok]. cbv beta.
  erewrite bind_ok; [|reflexivity]. cbv beta.
  rewrite HaO.
  erewrite bind_ok.
  2:{ apply vnode_of_ok. simpl. rewrite lookup_alter_eq, Hvn1, lookup_insert_eq.
      reflexivity. }
  cbv beta. cbn [with_elm isStatic key isCloned isOnce fmap option_fmap option_map].
  rewrite HsV, HsO, Hkey. cbn [andb orb].
  eexists _, _. split; [reflexivity|]. simpl.
  rewrite !lookup_alter_ne, !lookup_alter_eq, Hvn1, !lookup_insert_ne, lookup_insert_eq by done.
  simpl. rewrite lookup_insert_eq.
  repeat (split; [done|]). done.
Qed.


End PatchBranches.

(** ** The callback of [createRmCb] *)

(** A call of [rm ()] that is not the last one expected counts down and
    does nothing else. *)
Lemma invoke_rm_counts rm e n s :
  rmCbs s !! rm = Some (mkRmCb e n) → (n ≠ 1)%Z →
  invoke_rm rm s = Ok (tt, set_rmCbs <[rm := mkRmCb e (n - 1)]> s).
Proof.
  intros HR Hn. unfold invoke_rm.
  erewrite bind_ok; [|by apply fetch_ok]. cbv beta.
  erewrite bind_ok; [|reflexivity]. cbv beta. simpl.
  by rewrite (proj2 (Z.eqb_neq _ _)) by lia.
Qed.

Lemma rm_calls_spec rm e E p P k s :
  rmCbs s !! rm = Some (mkRmCb (Some e) (Z.of_nat (S k))) →
  dom s !! e = Some E → n_parent E = Some p → dom s !! p = Some P → e ∈ n_children P →
  (∀ j, j ≤ k → ∃ s1, rm_calls j rm s = Ok (tt, s1) ∧ ops s1 = ops s ∧ dom s1 = dom s) ∧
  (∃ s', rm_calls (S k) rm s = Ok (tt, s') ∧ ops_since s s' = [RemoveChild p e] ∧
         parent_of s' e = None ∧
         ∀ j, ∃ s2, rm_calls j rm s' = Ok (tt, s2) ∧ ops s2 = ops s' ∧ dom s2 = dom s').
Proof.
  intros HR HE Hp HP Hin.
  assert (Hcount : ∀ j n s0, rmCbs s0 !! rm = Some (mkRmCb (Some e) n) →
            (n < 1 ∨ Z.of_nat j < n)%Z →
            ∃ s1, rm_calls j rm s0 = Ok (tt, s1) ∧ ops s1 = ops s0 ∧ dom s1 = dom s0 ∧
                  rmCbs s1 !! rm = Some (mkRmCb (Some e) (n - Z.of_nat j))).
  { induction j as [|j IH]; intros n s0 HR0 Hn.
    - exists s0. split; [done|]. split; [done|]. split; [done|].
      by rewrite Z.sub_0_r.
    - simpl rm_calls. erewrite bind_ok; [|eapply invoke_rm_counts; [exact HR0|lia]].
      destruct (IH (n - 1)%Z (set_rmCbs <[rm := mkRmCb (Some e) (n - 1)]> s0))
        as (s1 & Hrun & Hops & Hdom & HR1); [simpl; by rewrite lookup_insert_eq|lia|].
      exists s1. split; [done|]. split; [done|]. split; [done|].
      rewrite HR1. f_equal. f_equal. lia. }
  split.
  { intros j Hj. destruct (Hcount j _ s HR) as (s1 & H1 & H2 & H3 & _); [lia|].
    by exists s1. }
  assert (Hlast : ∀ j s0, rmCbs s0 !! rm = Some (mkRmCb (Some e) (Z.of_nat (S j))) →
            ops s0 = ops s → dom s0 = dom s →
            ∃ s', rm_calls (S j) rm s0 = Ok (tt, s') ∧ ops s' = ops s ++ [RemoveChild p e] ∧
                  dom s' = detach e (dom s) ∧
                  rmCbs s' !! rm = Some (mkRmCb (Some e) 0)).
  { induction j as [|j IH]; intros s0 HR0 Hops Hdom.
    - assert (Hone : ∃ s', invoke_rm rm s0 = Ok (tt, s') ∧
                ops s' = ops s ++ [RemoveChild p e] ∧ dom s' = detach e (dom s) ∧
                rmCbs s' !! rm = Some (mkRmCb (Some e) 0)).
      { unfold invoke_rm.
        erewrite bind_ok; [|by apply fetch_ok]. cbv beta.
        erewrite bind_ok; [|reflexivity]. cbv beta. simpl.
        unfold removeNode, parentNode.
        erewrite bind_ok.
        2:{ erewrite bind_ok; [|reflexivity]. cbv beta.
            erewrite bind_ok; [|apply fetch_ok; simpl; rewrite Hdom; exact HE]. reflexivity. }
        cbv beta. rewrite Hp. unfold removeChild.
        erewrite bind_ok; [|reflexivity]. cbv beta.
        erewrite bind_ok; [|reflexivity]. cbv beta.
        erewrite bind_ok; [|reflexivity]. cbv beta.
        erewrite bind_ok; [|apply fetch_ok; simpl; rewrite Hdom; exact HP]. cbv beta.
        rewrite bool_decide_true by done.
        eexists. split; [reflexivity|]. simpl. rewrite Hops, Hdom, lookup_insert_eq. done. }
      destruct Hone as (s' & H1 & H2 & H3 & H4). exists s'. split; [|done].
      simpl rm_calls. by erewrite bind_ok; [|exact H1].
    - change (rm_calls (S (S j)) rm) with (invoke_rm rm ;; rm_calls (S j) rm).
      erewrite bind_ok; [|eapply invoke_rm_counts; [exact HR0|lia]].
      apply IH; [|done|done]. simpl. rewrite lookup_insert_eq. f_equal. f_equal. lia. }
  destruct (Hlast k s HR eq_refl eq_refl) as (s' & Hrun & Hops & Hdom & HR').
  exists s'. split; [done|]. split.
  { unfold ops_since. rewrite Hops. by rewrite drop_app_length. }
  split.
  { unfold parent_of. rewrite Hdom. unfold detach. rewrite HE. simpl. rewrite Hp.
    rewrite lookup_alter_eq.
    destruct (decide (e = p)) as [->|Hne].
    - rewrite lookup_alter_eq, HP. done.
    - rewrite lookup_alter_ne, HE by done. done. }
  intros j. destruct (Hcount j _ s' HR') as (s2 & H1 & H2 & H3 & _); [lia|].
  by exists s2.
Qed.

(** X16: the callback [createRmCb (childElm, listeners)] returns removes
    the element at the call that brings the count of listeners to zero and
    at no other: of [k + 1] listeners expected, the first [k] calls call no
    node operation and leave the document as it is, and the call after them
    removes the element from its parent. Calls after that one remove
    nothing. *)
Theorem rm_removes_on_last_call e E p P k s :
  dom s !! e = Some E → n_parent E = Some p → dom s !! p = Some P → e ∈ n_children P →
  ∃ rm s0,
    createRmCb (Some e) (Z.of_nat (S k)) s = Ok (rm, s0) ∧
    (∀ j, j ≤ k →
       ∃ s1, rm_calls j rm s0 = Ok (tt, s1) ∧ ops s1 = ops s ∧ dom s1 = dom s) ∧
    (∃ s', rm_calls (S k) rm s0 = Ok (tt, s') ∧ ops_since s s' = [RemoveChild p e] ∧
           parent_of s' e = None ∧
           ∀ j, ∃ s2, rm_calls j rm s' = Ok (tt, s2) ∧ ops s2 = ops s' ∧ dom s2 = dom s').
Proof.
  intros HE Hp HP Hin.
  eexists _, _. split; [reflexivity|].
  set (s0 := set_rmCbs _ _).
  assert (HR : rmCbs s0 !! rm_uid s = Some (mkRmCb (Some e) (Z.of_nat (S k)))).
  { unfold s0. simpl. by rewrite lookup_insert_eq. }
  destruct (rm_calls_spec (rm_uid s) e E p P k s0 HR HE Hp HP Hin) as [H1 H2].
  split; [exact H1|exact H2].
Qed.

(** ** [createKeyToOldIdx] and [findIdxInOld] *)

Lemma key_map_from_spec s l n : ∀ i map,
  (∀ j, (i ≤ j < i + Z.of_nat n)%Z →
        ∃ c C, item l j = Some c ∧ vnodes s !! c = Some C) →
  ∃ m, key_map_from n l i map s = Ok (m, s) ∧
       ∀ p x, m !! p = Some x ↔
         ((i ≤ x < i + Z.of_nat n)%Z ∧ keyed_at s l x p ∧
          ∀ j, (x < j < i + Z.of_nat n)%Z → ¬ keyed_at s l j p) ∨
         (map !! p = Some x ∧ ∀ j, (i ≤ j < i + Z.of_nat n)%Z → ¬ keyed_at s l j p).
Proof.
  induction n as [|n IH]; intros i map Hall.
  { exists map. split; [done|]. intros p x. split.
    - intros Hm. right. split; [done|]. intros j Hj. lia.
    - intros [(Hx & _)|[Hm _]]; [lia|done]. }
  destruct (Hall i ltac:(lia)) as (c & C & Hc & HC).
  cbn [key_map_from]. rewrite Hc.
  erewrite bind_ok; [|reflexivity]. cbv beta.
  erewrite bind_ok; [|by apply vnode_of_ok]. cbv beta.
  set (map' := match key C with KUndef => _ | _ => _ end).
  destruct (IH (i + 1)%Z map') as (m & Hrun & Hm).
  { intros j Hj. apply Hall. lia. }
  exists m. split; [exact Hrun|]. intros p x. rewrite Hm.
  assert (Hat : ∀ q, keyed_at s l i q ↔ key C ≠ KUndef ∧ key_prop (key C) = q).
  { intros q. split.
    - intros (c' & C' & Hc' & HC' & Hk & Hq).
      assert (c' = c) as -> by congruence. assert (C' = C) as -> by congruence. done.
    - intros [Hk Hq]. by exists c, C. }
  assert (Hmap' : ∀ q y, map' !! q = Some y ↔
            (keyed_at s l i q ∧ y = i) ∨ (¬ keyed_at s l i q ∧ map !! q = Some y)).
  { intros q y. rewrite Hat. unfold map'. destruct (key C) eqn:Hk.
    - split; [intros H; right; split; [intros [? _]; done|done]|].
      intros [[[? _] _]|[_ H]]; done.
    - destruct (decide (key_prop (KNum z) = q)) as [<-|Hne].
      + rewrite lookup_insert_eq. split.
        * intros [= <-]. left. done.
        * intros [[_ ->]|[Hn _]]; [done|]. exfalso. by apply Hn.
      + rewrite lookup_insert_ne by done. split.
        * intros H. right. split; [intros [_ ?]; done|done].
        * intros [[[_ ?] _]|[_ H]]; done.
    - destruct (decide (key_prop (KStr s0) = q)) as [<-|Hne].
      + rewrite lookup_insert_eq. split.
        * intros [= <-]. left. done.
        * intros [[_ ->]|[Hn _]]; [done|]. exfalso. by apply Hn.
      + rewrite lookup_insert_ne by done. split.
        * intros H. right. split; [intros [_ ?]; done|done].
        * intros [[[_ ?] _]|[_ H]]; done. }
  rewrite Hmap'. split.
  - intros [(Hx & Hk & Hlater)|[[[Hk ->]|[Hnk Hmap]] Hnone]].
    + left. split; [lia|]. split; [done|]. intros j Hj. apply Hlater. lia.
    + left. split; [lia|]. split; [done|]. intros j Hj. apply Hnone. lia.
    + right. split; [done|]. intros j Hj. destruct (decide (j = i)) as [->|Hne]; [done|].
      apply Hnone. lia.
  - intros [(Hx & Hk & Hlater)|[Hmap Hnone]].
    + destruct (decide (x = i)) as [->|Hne].
      * right. split; [by left|]. intros j Hj. apply Hlater. lia.
      * left. split; [lia|]. split; [done|]. intros j Hj. apply Hlater. lia.
    + right. split.
      * right. split; [apply Hnone; lia|done].
      * intros j Hj. apply Hnone. lia.
Qed.


Section FindIdxInOld.
Variable isTextInputType : value → bool.
Local Notation sameVnode := (sameVnode isTextInputType).

Lemma find_from_spec node oldCh l s n : ∀ i,
  arrays s !! oldCh = Some l →
  (∀ j c, (i ≤ j < i + Z.of_nat n)%Z → item l j = Some c →
          ∃ r, sameVnode node c s = Ok (r, s)) →
  ∃ r, find_from isTextInputType n node oldCh i s = Ok (r, s) ∧
       match r with
       | Some x =>
           (i ≤ x < i + Z.of_nat n)%Z ∧
           (∃ c, item l x = Some c ∧ sameVnode node c s = Ok (true, s)) ∧
           ∀ j c, (i ≤ j < x)%Z → item l j = Some c → sameVnode node c s = Ok (false, s)
       | None =>
           ∀ j c, (i ≤ j < i + Z.of_nat n)%Z → item l j = Some c →
                  sameVnode node c s = Ok (false, s)
       end.
Proof.
  induction n as [|n IH]; intros i Hl Hall.
  { exists None. split; [done|]. intros j c Hj. lia. }
  cbn [find_from].
  erewrite bind_ok; [|by apply array_item_ok]. cbv beta.
  destruct (IH (i + 1)%Z Hl) as (r' & Hrun & Hr').
  { intros j c Hj. apply Hall. lia. }
  assert (Hrest : ∀ j c, (i ≤ j < i + 1)%Z → item l j = Some c → item l i = Some c).
  { intros j c Hj. by replace j with i by lia. }
  destruct (item l i) as [c|] eqn:Hc.
  - destruct (Hall i c ltac:(lia) Hc) as [[|] Hsame].
    + erewrite bind_ok; [|exact Hsame]. cbv beta iota.
      exists (Some i). split; [done|]. split; [lia|]. split; [by exists c|].
      intros j c' Hj. lia.
    + erewrite bind_ok; [|exact Hsame]. cbv beta iota.
      exists r'. split; [exact Hrun|]. destruct r' as [x|].
      * destruct Hr' as (Hx & Hfound & Hbefore). split; [lia|]. split; [done|].
        intros j c' Hj Hc'. destruct (decide (j = i)) as [->|Hne].
        -- assert (c' = c) as -> by congruence. done.
        -- apply (Hbefore j); [lia|done].
      * intros j c' Hj Hc'. destruct (decide (j = i)) as [->|Hne].
        -- assert (c' = c) as -> by congruence. done.
        -- apply (Hr' j); [lia|done].
  - erewrite bind_ok; [|reflexivity]. cbv beta iota.
    exists r'. split; [exact Hrun|]. destruct r' as [x|].
    + destruct Hr' as (Hx & Hfound & Hbefore). split; [lia|]. split; [done|].
      intros j c' Hj Hc'. destruct (decide (j = i)) as [->|Hne]; [congruence|].
      apply (Hbefore j); [lia|done].
    + intros j c' Hj Hc'. destruct (decide (j = i)) as [->|Hne]; [congruence|].
      apply (Hr' j); [lia|done].
Qed.

(** X18: [findIdxInOld (node, oldCh, start, end)] returns the first place
    from [start] on, and before [end], whose vnode is the same vnode as
    [node], skipping the places that were emptied; it returns nothing when
    there is none. The place [end] itself is never looked at. *)
Theorem findIdxInOld_first_match node oldCh l start end_ s :
  arrays s !! oldCh = Some l →
  (∀ j c, (start ≤ j < end_)%Z → item l j = Some c →
          ∃ r, sameVnode node c s = Ok (r, s)) →
  ∃ r, findIdxInOld isTextInputType node oldCh start end_ s = Ok (r, s) ∧
       match r with
       | Some i =>
           (start ≤ i < end_)%Z ∧
           (∃ c, item l i = Some c ∧ sameVnode node c s = Ok (true, s)) ∧
           ∀ j c, (start ≤ j < i)%Z → item l j = Some c →
                  sameVnode node c s = Ok (false, s)
       | None =>
           ∀ j c, (start ≤ j < end_)%Z → item l j = Some c →
                  sameVnode node c s = Ok (false, s)
       end.
Proof.
  intros Hl Hall. unfold findIdxInOld.
  destruct (find_from_spec node oldCh l s (Z.to_nat (end_ - start)) start Hl)
    as (r & Hrun & Hr).
  { intros j c Hj. apply Hall. lia. }
  exists r. split; [done|]. destruct r as [i|].
  - destruct Hr as (Hi & Hfound & Hbefore). split; [lia|]. done.
  - intros j c Hj. apply Hr. lia.
Qed.

End FindIdxInOld.

(** ** A list rendered again with no child *)

Section RemoveAll.
Variable modules : list ModuleHooks.
Variable external : Callback → M unit.
Variable isTextInputType : value → bool.
Variable hydrate : option nat → nat → M bool.

Local Notation updateChildren := (updateChildren modules external isTextInputType hydrate).
Local Notation removeVnodes := (removeVnodes modules external).

(** [removeNode] on a child of [p]. *)
Lemma removeNode_child e p E P s :
  dom s !! e = Some E → n_parent E = Some p → dom s !! p = Some P → e ∈ n_children P →
  removeNode (Some e) s = Ok (tt, set_dom (detach e) (emit (RemoveChild p e) s)).
Proof.
  intros HE Hp HP Hin. unfold removeNode, parentNode.
  erewrite bind_ok.
  2:{ erewrite bind_ok; [|reflexivity]. cbv beta.
      erewrite bind_ok; [|by apply fetch_ok]. reflexivity. }
  cbv beta. rewrite Hp. unfold removeChild.
  erewrite bind_ok; [|reflexivity]. cbv beta.
  erewrite bind_ok; [|reflexivity]. cbv beta.
  erewrite bind_ok; [|reflexivity]. cbv beta.
  erewrite bind_ok; [|by apply fetch_ok]. cbv beta.
  by rewrite bool_decide_true.
Qed.

(** What [removeVnodes] does with a bare vnode. *)
Lemma remove_bare fuel v e p E P s :
  1 ≤ fuel → bare_vnode s v e →
  dom s !! e = Some E → n_parent E = Some p → dom s !! p = Some P → e ∈ n_children P →
  (let* C := vnode_of v in
   if isDef (tag C) then
     removeAndInvokeRemoveHook modules external fuel v None ;;
     invokeDestroyHook modules external fuel v
   else removeNode (elm C)) s
  = Ok (tt, set_dom (detach e) (emit (RemoveChild p e) s)).
Proof.
  intros Hfuel (V & HV & Hd & Hc & He) HE Hp HP Hin.
  erewrite bind_ok; [|by apply vnode_of_ok]. cbv beta.
  destruct (isDef (tag V)).
  - destruct fuel as [|fuel]; [lia|].
    erewrite bind_ok.
    2:{ cbn [removeAndInvokeRemoveHook].
        erewrite bind_ok; [|by apply vnode_of_ok]. cbv beta.
        rewrite Hd, He. cbn [isDef orb]. by eapply removeNode_child. }
    cbv beta. cbn [invokeDestroyHook].
    erewrite bind_ok; [|by apply vnode_of_ok]. cbv beta. rewrite Hd.
    erewrite bind_ok; [|reflexivity]. cbv beta.
    erewrite bind_ok; [|by apply vnode_of_ok]. cbv beta. by rewrite Hc.
  - rewrite He. by eapply removeNode_child.
Qed.

Variables p oldCh : nat.
Variables olds es : list nat.
Variable s : Store.
Variable fuel : nat.
Hypothesis old_children : arrays s !! oldCh = Some (Some <$> olds).
Hypothesis bare : Forall2 (bare_vnode s) olds es.
Hypothesis distinct_nodes : NoDup (p :: es).
Hypothesis enough_fuel : 1 ≤ fuel.

(** The first [i] children have been removed. *)
Local Notation removed i s' :=
  (vnodes s' = vnodes s ∧ arrays s' = arrays s ∧
   children_of s' p = Some (drop i es) ∧
   (∀ j e, i ≤ j → es !! j = Some e → parent_of s' e = Some p) ∧
   (∀ j e, j < i → es !! j = Some e → parent_of s' e = None) ∧
   ops s' = ops s ++ map (RemoveChild p) (take i es)).

Lemma remove_loop k : ∀ i s1 n,
  i + k = length es → k < n → removed i s1 →
  ∃ s', for_from n (λ i, ret (i <=? Z.of_nat (length olds) - 1)%Z)
          (λ i, let* ch := array_item oldCh i in
                match ch with
                | Some ch =>
                    let* C := vnode_of ch in
                    if isDef (tag C) then
                      removeAndInvokeRemoveHook modules external fuel ch None ;;
                      invokeDestroyHook modules external fuel ch
                    else removeNode (elm C)
                | None => ret tt
                end) (Z.of_nat i) s1 = Ok (tt, s') ∧
        removed (length es) s'.
Proof.
  pose proof (Forall2_length _ _ _ bare) as Hlen.
  apply NoDup_cons in distinct_nodes as [Hp Hnd].
  induction k as [|k IH]; intros i s1 n Hik Hn (Hv & Ha & Hch & Hpar & Hgone & Hops).
  { assert (i = length es) as -> by lia. exists s1. split; [|done].
    apply for_from_over; [lia|]. unfold ret. do 2 f_equal. apply Z.leb_gt. lia. }
  destruct n as [|n]; [lia|].
  destruct (lookup_lt_is_Some_2 es i) as [e He]; [lia|].
  destruct (lookup_lt_is_Some_2 olds i) as [v Hvi]; [lia|].
  assert (Hbare : bare_vnode s1 v e).
  { destruct (Forall2_lookup_lr _ _ _ _ _ _ bare Hvi He) as (V & H). exists V. by rewrite Hv. }
  assert (∃ E, dom s1 !! e = Some E ∧ n_parent E = Some p) as (E & HE & HpE).
  { specialize (Hpar i e (le_n _) He). unfold parent_of in Hpar.
    destruct (dom s1 !! e) as [E|]; [|done]. by exists E. }
  assert (∃ P, dom s1 !! p = Some P ∧ n_children P = drop i es) as (P & HP & HcP).
  { unfold children_of in Hch. destruct (dom s1 !! p) as [P|]; [|done].
    exists P. split; [done|]. by injection Hch. }
  assert (Hdrop : drop i es = e :: drop (S i) es) by (by apply drop_S).
  assert (Hep : e ≠ p).
  { intros ->. apply Hp. by eapply list_elem_of_lookup_2. }
  set (s2 := set_dom (detach e) (emit (RemoveChild p e) s1)).
  assert (Hdom2 : dom s2 = alter (with_parent None) e
                             (alter (with_children (remove e)) p (dom s1))).
  { unfold s2. simpl. unfold detach. rewrite HE. simpl. by rewrite HpE. }
  assert (Hinv2 : removed (S i) s2).
  { split; [done|]. split; [done|]. split.
    { unfold children_of. rewrite Hdom2, lookup_alter_ne, lookup_alter_eq, HP by done.
      simpl. rewrite HcP, Hdrop. simpl. by rewrite decide_True. }
    assert (Hother : ∀ j e', j ≠ i → es !! j = Some e' → parent_of s2 e' = parent_of s1 e').
    { intros j e' Hj He'. unfold parent_of.
      assert (e' ≠ e).
      { intros ->. apply Hj. eapply NoDup_lookup; eauto. }
      assert (e' ≠ p).
      { intros ->. apply Hp. by eapply list_elem_of_lookup_2. }
      by rewrite Hdom2, !lookup_alter_ne. }
    split.
    { intros j e' Hj He'. rewrite (Hother j) by (done || lia). apply (Hpar j); [lia|done]. }
    split.
    { intros j e' Hj He'. destruct (decide (j = i)) as [->|Hne].
      - assert (e' = e) as -> by congruence.
        unfold parent_of. rewrite Hdom2, lookup_alter_eq, lookup_alter_ne, HE by done. done.
      - rewrite (Hother j) by done. apply (Hgone j); [lia|done]. }
    unfold s2. simpl. rewrite Hops, <- app_assoc. f_equal.
    rewrite (take_S_r es i e He), map_app. done. }
  destruct (IH (S i) s2 n ltac:(lia) ltac:(lia) Hinv2) as (s' & Hrun & Hfin).
  exists s'. split; [|exact Hfin].
  cbn [for_from]. erewrite (bind_ok _ _ _ true).
  2:{ unfold ret. do 2 f_equal. apply Z.leb_le. lia. }
  cbv beta iota.
  erewrite bind_ok.
  2:{ erewrite bind_ok.
      2:{ apply (array_item_ok oldCh (Some <$> olds)). by rewrite Ha. }
      cbv beta. rewrite item_lookup, Hvi.
      eapply remove_bare; [exact enough_fuel|exact Hbare|exact HE|exact HpE|exact HP|].
      rewrite HcP, Hdrop. constructor. }
  cbv beta. fold s2.
  replace (Z.of_nat i + 1)%Z with (Z.of_nat (S i)) by lia. exact Hrun.
Qed.

End RemoveAll.

Section RemoveAllClaim.
Variable modules : list ModuleHooks.
Variable external : Callback → M unit.
Variable isTextInputType : value → bool.
Variable hydrate : option nat → nat → M bool.

(** X19: a list rendered again with no child: [updateChildren] on old
    children that are bare vnodes (without data and without children)
    rendered under one node, and an empty array of new children, removes
    the output node of each old child from its parent, once and in the
    order of the children, and calls nothing else. *)
Theorem emptied_list_removes_each_child fuel parentElm p oldCh newCh olds es removeOnly s :
  length olds < fuel →
  removal_scenario s p oldCh newCh olds es →
  ∃ s',
    updateChildren modules external isTextInputType hydrate fuel parentElm oldCh newCh
      removeOnly s = Ok (tt, s') ∧
    ops_since s s' = map (RemoveChild p) es ∧
    children_of s' p = Some [] ∧
    (∀ e, e ∈ es → parent_of s' e = None) ∧
    vnodes s' = vnodes s.
Proof.
  intros Hfuel [Hold Hnew Hbare Hnd Hch Hpar].
  pose proof (Forall2_length _ _ _ Hbare) as Hlen.
  destruct (remove_loop modules external p oldCh olds es s fuel Hold Hbare Hnd
              ltac:(lia) (length es) 0 s fuel) as (s' & Hrun & Hfin); [lia|lia| |].
  { split; [done|]. split; [done|]. split; [by rewrite drop_0|].
    split; [|split].
    - intros j e _ He. apply Hpar. by eapply list_elem_of_lookup_2.
    - intros j e Hj. lia.
    - by rewrite take_0, app_nil_r. }
  destruct Hfin as (Hv & Ha & Hch' & _ & Hgone & Hops).
  exists s'. split.
  { unfold updateChildren, updateChildren_with.
    erewrite bind_ok; [|by apply array_length_ok]. cbv beta.
    erewrite bind_ok; [|by apply array_length_ok]. cbv beta.
    erewrite bind_ok; [|by apply array_item_ok]. cbv beta.
    erewrite bind_ok; [|by apply array_item_ok]. cbv beta.
    erewrite bind_ok; [|by apply array_item_ok]. cbv beta.
    erewrite bind_ok; [|by apply array_item_ok]. cbv beta.
    erewrite bind_ok.
    2:{ apply updateChildren_loop_over. cbn [oldStartIdx oldEndIdx newStartIdx newEndIdx].
        apply andb_false_intro2. done. }
    cbv beta. cbn [oldStartIdx oldEndIdx newStartIdx newEndIdx length].
    rewrite length_fmap.
    destruct (decide (length olds = 0)) as [Hz|Hnz].
    - assert (s' = s) as ->.
      { rewrite for_from_over in Hrun; [by injection Hrun|lia|].
        unfold ret. do 2 f_equal. apply Z.leb_gt. lia. }
      rewrite Hz. change (Z.of_nat 0 - 1)%Z with (-1)%Z.
      change (0 >? -1)%Z with true. cbv iota.
      erewrite bind_ok; [|by apply array_item_ok]. cbv beta.
      change (item [] (-1 + 1)) with (@None nat).
      erewrite bind_ok; [|reflexivity]. cbv beta.
      unfold addVnodes. apply for_from_over; [lia|]. done.
    - change (Z.of_nat 0 - 1)%Z with (-1)%Z.
      rewrite Z.gtb_ltb, (proj2 (Z.ltb_ge _ _)) by lia.
      change (0 >? -1)%Z with true. cbv iota. exact Hrun. }
  split.
  { unfold ops_since. rewrite Hops, drop_app_length. by rewrite firstn_all. }
  split; [by rewrite Hch', drop_all|]. split; [|done].
  intros e [j He]%list_elem_of_lookup. apply (Hgone j); [|done].
  by apply lookup_lt_Some in He.
Qed.

End RemoveAllClaim.

(** ** [createElm] *)

Section CreateElm.
Variable modules : list ModuleHooks.
Variable external : Callback → M unit.

(** The create callbacks of the modules leave the stores alone. *)
Hypothesis quiet_creates :
  ∀ j vnode s, external (ModuleCreate j vnode) s = Ok (tt, s).

Lemma for_each_creates l v s :
  for_each l (λ j, call external (ModuleCreate j v)) s
  = Ok (tt, emit_all (map (λ j, Call (ModuleCreate j v)) l) s).
Proof.
  revert s. induction l as [|j l IH]; intros s; [done|].
  simpl. erewrite bind_ok; [apply IH|].
  unfold call, bind, modify. apply quiet_creates.
Qed.

Lemma createComponent_leaf fuel v V d D p r s :
  vnodes s !! v = Some V → data V = Some d → datas s !! d = Some D →
  d_hook D = None → componentInstance V = None →
  createComponent modules external fuel v p r s = Ok (false, s).
Proof.
  intros HV Hd HD Hh Hci. unfold createComponent.
  erewrite bind_ok; [|by apply vnode_of_ok]. cbv beta. rewrite Hd.
  erewrite bind_ok; [|by apply fetch_ok]. cbv beta. rewrite Hh.
  erewrite bind_ok; [|reflexivity]. cbv beta.
  erewrite bind_ok; [|by apply vnode_of_ok]. cbv beta. by rewrite Hci.
Qed.

Lemma setScope_unscoped fuel v V s :
  2 ≤ fuel → vnodes s !! v = Some V → context V = None → parent V = None →
  fnScopeId V = None → activeInstance s = None →
  setScope fuel v s = Ok (tt, s).
Proof.
  intros Hfuel HV Hctx Hpar Hfn Hact. unfold setScope.
  erewrite bind_ok; [|by apply vnode_of_ok]. cbv beta. rewrite Hfn.
  erewrite bind_ok.
  2:{ destruct fuel as [|[|fuel]]; [lia|lia|]. cbn [scope_ancestors].
      erewrite bind_ok; [|by apply vnode_of_ok]. cbv beta. rewrite Hctx.
      erewrite bind_ok; [|reflexivity]. cbv beta.
      erewrite bind_ok; [|reflexivity]. cbv beta.
      erewrite bind_ok; [|by apply vnode_of_ok]. cbv beta. rewrite Hpar. reflexivity. }
  cbv beta.
  erewrite bind_ok; [|by apply vnode_of_ok]. cbv beta.
  erewrite bind_ok; [|reflexivity]. cbv beta. by rewrite Hact.
Qed.

Lemma invokeCreateHooks_leaf v V d D s :
  vnodes s !! v = Some V → data V = Some d → datas s !! d = Some D → d_hook D = None →
  invokeCreateHooks modules external v s = Ok (tt, emit_all (create_calls modules v) s).
Proof.
  intros HV Hd HD Hh. unfold invokeCreateHooks.
  erewrite bind_ok; [|apply for_each_creates]. cbv beta.
  fold (create_calls modules v).
  destruct (emit_all_frame (create_calls modules v) s) as (Ev & _ & Ed & _).
  erewrite bind_ok; [|apply vnode_of_ok; by rewrite Ev]. cbv beta. rewrite Hd.
  erewrite bind_ok; [|reflexivity]. cbv beta.
  erewrite bind_ok; [|apply fetch_ok; by rewrite Ed]. cbv beta. by rewrite Hh.
Qed.

Lemma appendChild_ok p c P C s :
  dom s !! p = Some P → dom s !! c = Some C →
  appendChild (Some p) (Some c) s
  = Ok (tt, set_dom (append_to p c) (emit (AppendChild p c) s)).
Proof.
  intros HP HC. unfold appendChild.
  erewrite bind_ok; [|reflexivity]. cbv beta.
  erewrite bind_ok; [|reflexivity]. cbv beta.
  erewrite bind_ok; [|reflexivity]. cbv beta.
  erewrite bind_ok; [|by apply fetch_ok]. cbv beta.
  erewrite bind_ok; [|by apply fetch_ok]. cbv beta. done.
Qed.

(** The nodes of the document stay in it when a node is appended. *)
Lemma append_to_lookup p c d x :
  is_Some (d !! x) → is_Some (append_to p c d !! x).
Proof.
  intros Hx. unfold append_to, detach.
  rewrite !lookup_alter_is_Some.
  destruct (d !! c ≫= n_parent); [by rewrite !lookup_alter_is_Some|done].
Qed.


End CreateElm.

(** ** [sameVnode] does not depend on the order of its arguments *)

Lemma strict_eq_sym x y : strict_eq x y = strict_eq y x.
Proof.
  destruct x as [| | [|] | [|?] | ? | ?], y as [| | [|] | [|?] | ? | ?]; simpl; try done.
  - apply Z.eqb_sym.
  - apply String.eqb_sym.
  - apply Nat.eqb_sym.
Qed.

Lemma key_eq_sym x y : key_eq x y = key_eq y x.
Proof.
  destruct x, y; simpl; try done; [apply Z.eqb_sym|apply String.eqb_sym].
Qed.

Lemma bool_eqb_sym x y : Bool.eqb x y = Bool.eqb y x.
Proof. by destruct x, y. Qed.

Lemma same_ref_sym x y : same_ref x y = same_ref y x.
Proof. destruct x, y; simpl; try done. apply Nat.eqb_sym. Qed.

Section SameVnodeSymmetric.
Variable isTextInputType : value → bool.

(** X22: for two vnodes of which neither is an async placeholder,
    [sameVnode (a, b)] and [sameVnode (b, a)] return the same result: the
    order of the arguments matters for async placeholders only. *)
Theorem sameVnode_symmetric a b A B s :
  vnodes s !! a = Some A → vnodes s !! b = Some B → known s A → known s B →
  isAsyncPlaceholder A = false → isAsyncPlaceholder B = false →
  sameVnode isTextInputType a b s = sameVnode isTextInputType b a s ∧
  ∃ r, sameVnode isTextInputType a b s = Ok (r, s).
Proof.
  intros HA HB KA KB PA PB. unfold sameVnode.
  repeat (erewrite bind_ok; [|by apply vnode_of_ok]).
  rewrite (key_eq_sym (key B)), (same_ref_sym (asyncFactory B)), PA, PB.
  destruct (negb (key_eq (key A) (key B))); [by eauto|].
  destruct (negb (same_ref (asyncFactory A) (asyncFactory B))); [by eauto|].
  assert (Hin : ∃ r, sameInputType isTextInputType A B s = Ok (r, s) ∧
                     (tag A = tag B →
                      sameInputType isTextInputType B A s = Ok (r, s))).
  { unfold sameInputType.
    destruct (bool_decide_reflect (tag A = Some "input"%string)) as [Ht|Ht]; simpl.
    - unfold bind. rewrite (input_type_spec s A KA), (input_type_spec s B KB).
      eexists. split; [reflexivity|]. intros E. rewrite <- E, bool_decide_true by done.
      simpl. rewrite (input_type_spec s B KB), (input_type_spec s A KA).
      by rewrite strict_eq_sym, (andb_comm (isTextInputType (type_attribute s B))).
    - exists true. split; [done|]. intros E. rewrite <- E. by rewrite bool_decide_false. }
  destruct Hin as (r & Hr & Hr').
  destruct (bool_decide_reflect (tag A = tag B)) as [Ht|Ht].
  - rewrite (bool_decide_true (tag B = tag A)) by done. simpl.
    rewrite (bool_eqb_sym (isComment B)), (bool_eqb_sym (isDef (data B))).
    destruct (negb (Bool.eqb (isComment A) (isComment B))); [by eauto|].
    destruct (negb (Bool.eqb (isDef (data A)) (isDef (data B)))); [by eauto|].
    erewrite bind_ok; [|exact Hr]. erewrite (bind_ok _ _ _ r); [|by apply Hr'].
    split; [done|]. destruct r; eauto.
  - rewrite (bool_decide_false (tag B = tag A)) by done. simpl. eauto.
Qed.

End SameVnodeSymmetric.

Lemma sameVnode_symmetric_witness :
  sameVnode sample_isTextInputType 0 4 sample_move
  = sameVnode sample_isTextInputType 4 0 sample_move.
Proof.
  assert (H := λ A B H1 H2 H3 H4 H5 H6,
    proj1 (sameVnode_symmetric sample_isTextInputType 0 4 A B sample_move
             H1 H2 H3 H4 H5 H6)).
  eapply H; [vm_compute; reflexivity|vm_compute; reflexivity| | |reflexivity|reflexivity].
  - split; [intros d [= <-]; vm_compute; eauto|intros f [=]].
  - split; [intros d [= <-]; vm_compute; eauto|intros f [=]].
Defined.

(** ** The properties above at sample stores *)

Lemma sample_unchanged_scenario :
  unchanged_scenario sample_isTextInputType sample_unchanged 0 1 [0; 1] [2; 3].
Proof.
  assert (Hleaf : ∀ v k e t V d D,
            vnodes sample_unchanged !! v = Some V → data V = Some d →
            datas sample_unchanged !! d = Some D →
            key V = k ∧ elm V = e ∧ isDef (tag V) = true ∧ children V = None ∧
            text V = t ∧ d_hook D = None ∧ componentInstance V = None ∧
            isStatic V = false ∧ isAsyncPlaceholder V = false →
            leaf_element sample_unchanged v k e t).
  { intros v k e t V d D HV Hd HD (? & ? & ? & ? & ? & ? & ? & ? & ?).
    by exists V, d, D. }
  split; try (vm_compute; reflexivity); try compute_done.
  repeat constructor.
  - exists (KNum 1), 1, (Some "one"%string).
    split; [|split; [|vm_compute; reflexivity]];
      (eapply Hleaf; [vm_compute; reflexivity|reflexivity|vm_compute; reflexivity|];
       vm_compute; repeat split; reflexivity).
  - exists (KNum 2), 2, (Some "two"%string).
    split; [|split; [|vm_compute; reflexivity]];
      (eapply Hleaf; [vm_compute; reflexivity|reflexivity|vm_compute; reflexivity|];
       vm_compute; repeat split; reflexivity).
Qed.

Lemma unchanged_list_no_node_operation_witness :
  ∃ s',
    updateChildren sample_modules sample_external sample_isTextInputType sample_hydrate 2
      (Some 0) 0 1 false sample_unchanged = Ok (tt, s') ∧
    ops_since sample_unchanged s' = [Call (ModuleUpdate 0 0 2); Call (ModuleUpdate 0 1 3)] ∧
    dom s' = dom sample_unchanged.
Proof.
  destruct (unchanged_list_no_node_operation sample_modules sample_external
              sample_isTextInputType sample_hydrate 2 (Some 0) 0 1 [0; 1] [2; 3] false
              sample_unchanged (λ _ _ _ _, eq_refl) (le_n 2) sample_unchanged_scenario)
    as (s' & H1 & H2 & _ & H4 & _).
  exists s'. split; [exact H1|]. split; [exact H2|exact H4].
Defined.

Lemma patch_text_vnodes_witness :
  ∃ s',
    patchVnode sample_modules sample_external sample_isTextInputType sample_hydrate 1
      0 1 None 0 false sample_texts = Ok (tt, s') ∧
    rendered s' 1 = Some 0 ∧
    ops_since sample_texts s' = [SetTextContent 0 "two"].
Proof.
  destruct (patch_text_vnodes sample_modules sample_external sample_isTextInputType
              sample_hydrate 1 0 1 0 "one" "two" None 0 false sample_texts)
    as (s' & H1 & H2 & H3 & _).
  - lia.
  - lia.
  - eexists. vm_compute. repeat split; reflexivity.
  - eexists. vm_compute. repeat split; reflexivity.
  - vm_compute. eauto.
  - exists s'. split; [exact H1|]. split; [exact H2|exact H3].
Defined.

Lemma patch_reused_static_vnode_witness :
  ∃ s',
    patchVnode sample_modules sample_external sample_isTextInputType sample_hydrate 1
      2 3 (Some 0) 0 false sample_texts = Ok (tt, s') ∧
    ops s' = ops sample_texts ∧
    arrays s' !! 0 = Some [Some 4] ∧ rendered s' 4 = Some 1.
Proof.
  assert (H := λ O V H1 H2, patch_reused_static_vnode sample_modules sample_external
              sample_isTextInputType sample_hydrate 0 2 3 O V 0 [Some 3] 0 false sample_texts
              ltac:(lia) H1 H2).
  edestruct H as (s' & C & H1 & H2 & _ & _ & _ & H6 & H7 & _ & H9 & _);
    [vm_compute; reflexivity|vm_compute; reflexivity|vm_compute; reflexivity
    |vm_compute; reflexivity|intros d [=]|intros a [=]|vm_compute; reflexivity
    |reflexivity|reflexivity|reflexivity|reflexivity|reflexivity|].
  exists s'. split; [exact H1|]. split; [exact H2|]. split; [exact H6|].
  unfold rendered. change (vnode_uid sample_texts) with 4 in H7. rewrite H7. simpl.
  exact H9.
Defined.


Lemma rm_removes_on_last_call_witness :
  ∃ rm s0 s',
    createRmCb (Some 1) 2 sample_texts = Ok (rm, s0) ∧
    rm_calls 2 rm s0 = Ok (tt, s') ∧
    ops_since sample_texts s' = [RemoveChild 2 1].
Proof.
  assert (H := λ E P H1 H2 H3 H4,
              rm_removes_on_last_call 1 E 2 P 1 sample_texts H1 H2 H3 H4).
  edestruct H as (rm & s0 & H1 & _ & s' & H2 & H3 & _);
    [vm_compute; reflexivity|reflexivity|vm_compute; reflexivity|compute_done|].
  exists rm, s0, s'. split; [exact H1|]. split; [exact H2|exact H3].
Defined.


Lemma findIdxInOld_first_match_witness :
  ∃ r, findIdxInOld sample_isTextInputType 4 0 0 2 sample_move = Ok (r, sample_move) ∧
       match r with
       | Some i => (0 ≤ i < 2)%Z
       | None => True
       end.
Proof.
  destruct (findIdxInOld_first_match sample_isTextInputType 4 0 [Some 0; Some 1; Some 2]
              0 2 sample_move) as (r & H1 & H2).
  - vm_compute. reflexivity.
  - intros j c Hj. assert (j = 0 ∨ j = 1)%Z as [-> | ->] by lia;
      intros [= <-]; vm_compute; eauto.
  - exists r. split; [exact H1|]. destruct r as [i|]; [|exact I].
    destruct H2 as [H2 _]. exact H2.
Defined.

Lemma sample_emptied_scenario : removal_scenario sample_emptied 0 0 1 [0; 1] [1; 2].
Proof.
  split; try (vm_compute; reflexivity); try compute_done.
  - repeat constructor; eexists; vm_compute; repeat split; reflexivity.
  - intros e He. assert (e = 1 ∨ e = 2) as [-> | ->]; [|reflexivity|reflexivity].
    apply elem_of_cons in He as [->|He]; [by left|].
    apply elem_of_cons in He as [->|He]; [by right|]. by apply elem_of_nil in He.
Qed.

Lemma emptied_list_removes_each_child_witness :
  ∃ s',
    updateChildren sample_modules sample_external sample_isTextInputType sample_hydrate 3
      (Some 0) 0 1 false sample_emptied = Ok (tt, s') ∧
    ops_since sample_emptied s' = [RemoveChild 0 1; RemoveChild 0 2] ∧
    children_of s' 0 = Some [].
Proof.
  destruct (emptied_list_removes_each_child sample_modules sample_external
              sample_isTextInputType sample_hydrate 3 (Some 0) 0 0 1 [0; 1] [1; 2] false
              sample_emptied ltac:(simpl; lia) sample_emptied_scenario)
    as (s' & H1 & H2 & H3 & _).
  exists s'. split; [exact H1|]. split; [exact H2|exact H3].
Defined.


